(** * Stateful signature inspection (detect-engine-state.c)

    A shallow embedding of the per-flow / per-transaction detect state of
    the engine: the chunked stores, the start driver, the continue driver
    and the pre-check, followed by the properties proved about them. *)

From Stdlib Require Import ZArith Lia.
From stdpp Require Import prelude gmap.

Local Open Scope Z_scope.
#[local] Set Warnings "-clear-no-such-hyp".

(** ** Constants that live in headers

    detect-engine-state.h, stream.h and detect.h are not part of the file
    under study; the constants it uses are taken as parameters.  Every flag
    is a single bit, written as in the headers as [1 << k]. *)

Definition bit (k : nat) : Z := Z.shiftl 1 (Z.of_nat k).

(** C truth value of [x & m]. *)
Definition has (x m : Z) : bool := negb (Z.land x m =? 0).

(** [x &= ~m]. *)
Definition clear (x m : Z) : Z := Z.land x (Z.lnot m).

(** ** Two-element arrays ([dir_state[2]], [detect_alversion[2]]) *)

Definition arr2 (A : Type) : Type := (A * A)%type.

Definition arr2_get {A} (i : nat) (a : arr2 A) : A :=
  match i with O => fst a | _ => snd a end.

Definition arr2_set {A} (i : nat) (x : A) (a : arr2 A) : arr2 A :=
  match i with O => (x, snd a) | _ => (fst a, x) end.

(** ** Chunked stores

    A [DeStateStore] is a fixed array of records and a [next] pointer.
    The chunks of one direction are kept in an arena: a chunk's address is
    its index in [ds_heap], NULL is [None], and the allocator hands out the
    next free index.  [head], [tail] and [next] are addresses, so the
    aliasing between [tail] and the last chunk reached from [head] is the
    program's business, not built into the representation. *)

Record Chunk (A : Type) := mkChunk {
  c_store : list A;
  c_next : option nat
}.
Arguments mkChunk {A} _ _.
Arguments c_store {A} _.
Arguments c_next {A} _.

Record DirStore (A : Type) := mkDirStore {
  ds_heap : list (Chunk A);
  ds_head : option nat;
  ds_tail : option nat;
  ds_cnt : Z
}.
Arguments mkDirStore {A} _ _ _ _.
Arguments ds_heap {A} _.
Arguments ds_head {A} _.
Arguments ds_tail {A} _.
Arguments ds_cnt {A} _.

(** ** Records of the detect state *)

(** [DeStateStoreItem]: [SigIntId sid; uint32_t flags]. *)
Record DeStateStoreItem := mkItem {
  item_sid : Z;
  item_flags : Z
}.

(** A [SigMatch] of a signature's list; [sm->next] is the tail of the
    list, and a [SigMatch *] cursor is the remaining suffix (NULL is []). *)
Record SigMatch := mkSigMatch {
  sm_type : Z
}.

(** [DeStateStoreFlowRule]: [SigMatch *nm; uint32_t flags; SigIntId sid]. *)
Record DeStateStoreFlowRule := mkFlowRule {
  rule_nm : list SigMatch;
  rule_flags : Z;
  rule_sid : Z
}.

Definition DeStateStore := Chunk DeStateStoreItem.
Definition DeStateStoreFlowRules := Chunk DeStateStoreFlowRule.

(** [DetectEngineStateDirection]: [head], [tail] and [cnt] are the
    [DirStore]; then [filestore_cnt] (uint16_t) and [flags]. *)
Record DetectEngineStateDirection := mkDir {
  dir_store : DirStore DeStateStoreItem;
  filestore_cnt : Z;
  dir_flags : Z
}.

Definition DetectEngineState := arr2 DetectEngineStateDirection.

Record DetectEngineStateDirectionFlow := mkDirFlow {
  fdir_store : DirStore DeStateStoreFlowRule;
  fdir_flags : Z
}.

Definition DetectEngineStateFlow := arr2 DetectEngineStateDirectionFlow.

(** The part of a [Signature] the file reads. *)
Record Signature := mkSignature {
  num : Z;
  sig_flags : Z;
  sm_lists : nat -> list SigMatch;
  action : Z
}.

Inductive AppProto :=
| ALPROTO_UNKNOWN
| ALPROTO_HTTP
| ALPROTO_SMB
| ALPROTO_SMB2
| ALPROTO_DCERPC
| ALPROTO_OTHER (n : Z).

(** ** What the application-layer parser exposes

    A transaction, as seen through AppLayerParserGetStateProgress (a
    function of the direction flags) and AppLayerParserSetTxDetectState
    ([tx_set_state_err] is the setter returning a negative value). *)
Record Tx := mkTx {
  tx_progress : Z -> Z;
  tx_set_state_err : bool
}.

(** The app-layer state: [HtpState.conn != NULL], [SMBState.dcerpc_present],
    AppLayerParserGetTxCnt and AppLayerParserGetTx (NULL is [None]). *)
Record AppState := mkAppState {
  htp_conn : bool;
  smb_dcerpc_present : bool;
  al_tx_cnt : Z;
  al_txs : gmap Z Tx
}.

(** [alparser_inspect_id] is AppLayerParserGetTransactionInspectId on
    [f->alparser], a function of the direction flags.  [tx_de_state] is
    the detect-state slot of each transaction, the pointer read by
    AppLayerParserGetTxDetectState and written by
    AppLayerParserSetTxDetectState (NULL is an absent key); it is kept
    beside the parser's state, which this file never writes. *)
Record Flow := mkFlow {
  proto : Z;
  protomap : Z;
  f_alproto : AppProto;
  alstate : option AppState;
  alparser_inspect_id : Z -> Z;
  tx_de_state : gmap Z DetectEngineState;
  de_state : option DetectEngineStateFlow;
  detect_alversion : arr2 Z
}.

(** Result of an inspection engine callback; every value other than the
    three the drivers test for behaves as NO_MATCH. *)
Inductive InspectResult :=
| DETECT_ENGINE_INSPECT_SIG_NO_MATCH
| DETECT_ENGINE_INSPECT_SIG_MATCH
| DETECT_ENGINE_INSPECT_SIG_CANT_MATCH
| DETECT_ENGINE_INSPECT_SIG_CANT_MATCH_FILESTORE.

(** [DetectEngineAppInspectionEngine]; [next] is the tail of the list.
    The callback receives the signature, the app-layer state (which holds
    the transaction), the direction flags and the transaction id. *)
Record DetectEngineAppInspectionEngine := mkEngine {
  sm_list : nat;
  inspect_flags : Z;
  Callback : Signature -> AppState -> Z -> Z -> InspectResult
}.

Inductive DeStateMatchResult :=
| DE_STATE_MATCH_NO_NEW_STATE
| DE_STATE_MATCH_HAS_NEW_STATE.

(** The fields of [DetectEngineThreadCtx] the file touches;
    [sgh_filestore_cnt] is [det_ctx->sgh->filestore_cnt]. *)
Record DetectEngineThreadCtx := mkDetCtx {
  tx_id : Z;
  tx_id_set : Z;
  de_state_sig_array : gmap Z DeStateMatchResult;
  sgh_filestore_cnt : Z
}.

(** Calls into the rest of the engine, in program order.  The last two
    constructors record the calls the continue driver makes to its
    per-record inspectors, with the value they returned. *)
Inductive Event :=
| PacketAlertAppend (sid : Z) (tx : Z) (alert_flags : Z)
| DetectSignatureApplyActions (sid : Z)
| PACKET_UPDATE_ACTION (sid : Z)
| SigMatchSignaturesRunPostMatch (sid : Z)
| DetectFlowvarProcessList
| FileDisableStoringForTransaction (mask : Z) (tx : Z)
| CallDoInspectItem (tx : Z) (sid : Z) (r : Z)
| CallDoInspectFlowRule (sid : Z) (r : Z).

(** Everything a driver call reads and writes. *)
Record RunState := mkRun {
  rs_flow : Flow;
  rs_det : DetectEngineThreadCtx;
  rs_trace : list Event;
  rs_oracle : list bool
}.

(** The calls to [SCFree] of the two free functions: a chunk of the
    arena of direction slot [slot], or the state itself. *)
Inductive FreeEvent :=
| SCFree_store (slot : nat) (addr : nat)
| SCFree_state.

Class EngineHeader := {
  (* detect-engine-state.h *)
  DE_STATE_CHUNK_SIZE : Z;
  FILE_TC_INSPECT_bit : nat;
  FILE_TS_INSPECT_bit : nat;
  FULL_INSPECT_bit : nat;
  SIG_CANT_MATCH_bit : nat;
  FILE_STORE_DISABLED_bit : nat;
  FILE_TC_NEW_bit : nat;
  FILE_TS_NEW_bit : nat;
  (* detect.h *)
  SigIntId_bits : Z;
  SIG_FLAG_NOALERT : Z;
  DETECT_SM_LIST_AMATCH : nat;
  DETECT_SM_LIST_DMATCH : nat;
  (* stream.h *)
  STREAM_EOF : Z;
  STREAM_TOSERVER : Z;
  STREAM_TOCLIENT : Z;
  (* decode.h *)
  PACKET_ALERT_FLAG_STATE_MATCH : Z;
  PACKET_ALERT_FLAG_TX : Z;
  (* what the headers guarantee *)
  chunk_size_pos : 0 < DE_STATE_CHUNK_SIZE;
  sigintid_bits_pos : 0 < SigIntId_bits;
  chunk_size_fits : DE_STATE_CHUNK_SIZE < 2 ^ SigIntId_bits;
  item_bits_distinct :
    NoDup [FILE_TC_INSPECT_bit; FILE_TS_INSPECT_bit; FULL_INSPECT_bit; SIG_CANT_MATCH_bit];
  dir_bits_distinct :
    NoDup [FILE_STORE_DISABLED_bit; FILE_TC_NEW_bit; FILE_TS_NEW_bit]
}.

(** ** Collaborators

    The parser capability set, the global engine table, the keyword table
    and the DCE payload inspector are code of other files. *)
Class External := {
  AppLayerParserProtocolSupportsTxs : Z -> AppProto -> bool;
  AppLayerParserSupportsTxDetectState : Z -> AppProto -> bool;
  AppLayerParserGetStateProgressCompletionStatus : Z -> AppProto -> Z -> Z;
  app_inspection_engine : Z -> AppProto -> nat -> list DetectEngineAppInspectionEngine;
  (* sigmatch_table[type].AppLayerMatch; the bool tells whether the state
     handed over is the DCE/RPC sub-state of an SMB state *)
  sigmatch_table_AppLayerMatch :
    Z -> option (AppState -> Z -> bool -> Signature -> SigMatch -> Z);
  DetectEngineInspectDcePayload : Signature -> AppState -> Z -> bool -> Z;
  (* de_ctx->sig_array *)
  sig_array : gmap Z Signature
}.

Section Model.
Context `{EngineHeader} `{External}.

Definition DE_STATE_FLAG_FILE_TC_INSPECT : Z := bit FILE_TC_INSPECT_bit.
Definition DE_STATE_FLAG_FILE_TS_INSPECT : Z := bit FILE_TS_INSPECT_bit.
Definition DE_STATE_FLAG_FULL_INSPECT : Z := bit FULL_INSPECT_bit.
Definition DE_STATE_FLAG_SIG_CANT_MATCH : Z := bit SIG_CANT_MATCH_bit.
Definition DETECT_ENGINE_STATE_FLAG_FILE_STORE_DISABLED : Z := bit FILE_STORE_DISABLED_bit.
Definition DETECT_ENGINE_STATE_FLAG_FILE_TC_NEW : Z := bit FILE_TC_NEW_bit.
Definition DETECT_ENGINE_STATE_FLAG_FILE_TS_NEW : Z := bit FILE_TS_NEW_bit.

(** Unsigned wrap-around of the integer types used by the file. *)
Definition SigIntId_wrap (x : Z) : Z := x mod 2 ^ SigIntId_bits.
Definition u16 (x : Z) : Z := x mod 2 ^ 16.
Definition u64 (x : Z) : Z := x mod 2 ^ 64.

(** [direction & STREAM_TOSERVER ? 0 : 1], the index of the per-direction
    slot.  The C expression is repeated at every use; so is this call. *)
Definition dir_index (direction : Z) : nat :=
  if has direction STREAM_TOSERVER then 0%nat else 1%nat.

(** memset-zeroed direction state: no chunk, [cnt = 0]. *)
Definition DirStore_zero {A} : DirStore A := mkDirStore [] None None 0.

(** The allocator is an oracle: each call to SCMalloc consumes one answer;
    an exhausted oracle keeps answering yes. *)
Definition SCMalloc (oracle : list bool) : bool * list bool :=
  match oracle with
  | [] => (true, [])
  | b :: rest => (b, rest)
  end.

(** [DeStateStoreAlloc] / [DeStateStoreFlowRulesAlloc]: malloc and memset
    to zero.  Returns the address of the new chunk, or NULL. *)
Definition StoreAlloc {A} (zero : A) (heap : list (Chunk A)) (oracle : list bool)
  : option nat * list (Chunk A) * list bool :=
  let '(ok, oracle') := SCMalloc oracle in
  if ok then
    (Some (length heap),
     heap ++ [mkChunk (replicate (Z.to_nat DE_STATE_CHUNK_SIZE) zero) None],
     oracle')
  else (None, heap, oracle').

(** [for (i = 0; i < jump; i++) store = store->next;]
    The outer [None] is a NULL (or dangling) dereference. *)
Fixpoint store_jump {A} (heap : list (Chunk A)) (jump : nat) (store : option nat)
  : option (option nat) :=
  match jump with
  | O => Some store
  | S j =>
      a ← store;
      c ← heap !! a;
      store_jump heap j (c_next c)
  end.

(** [store->store[idx] = rec] *)
Definition chunk_write {A} (heap : list (Chunk A)) (a : nat) (idx : nat) (rec : A)
  : option (list (Chunk A)) :=
  c ← heap !! a;
  if decide (idx < length (c_store c))%nat
  then Some (<[a := mkChunk (<[idx := rec]> (c_store c)) (c_next c)]> heap)
  else None.

(** [dir_state->tail->next = store] *)
Definition tail_link {A} (heap : list (Chunk A)) (tail : option nat) (store : nat)
  : option (list (Chunk A)) :=
  t ← tail;
  c ← heap !! t;
  Some (<[t := mkChunk (c_store c) (Some store)]> heap).

(** The body shared by [DeStateSignatureAppend] and [DeStateFlowRuleAppend]
    (the two C functions differ in the record type only).  [None] is
    undefined behaviour; a dropped append returns the state unchanged. *)
Definition StoreAppend {A} (zero : A) (ds : DirStore A) (rec : A) (oracle : list bool)
  : option (DirStore A * list bool) :=
  '(store, ds1, oracle1) ←
    match ds_head ds with
    | None =>
        let '(store, heap', oracle') := StoreAlloc zero (ds_heap ds) oracle in
        match store with
        | Some a => Some (store, mkDirStore heap' (Some a) (Some a) (ds_cnt ds), oracle')
        | None => Some (None, ds, oracle')
        end
    | Some h =>
        let jump := ds_cnt ds / DE_STATE_CHUNK_SIZE in
        store ← store_jump (ds_heap ds) (Z.to_nat jump) (Some h);
        match store with
        | Some _ => Some (store, ds, oracle)
        | None =>
            let '(store, heap', oracle') := StoreAlloc zero (ds_heap ds) oracle in
            match store with
            | Some a =>
                heap'' ← tail_link heap' (ds_tail ds) a;
                Some (store, mkDirStore heap'' (ds_head ds) (Some a) (ds_cnt ds), oracle')
            | None => Some (None, ds, oracle')
            end
        end
    end;
  match store with
  | None => Some (ds1, oracle1)
  | Some a =>
      let idx := ds_cnt ds1 mod DE_STATE_CHUNK_SIZE in
      heap' ← chunk_write (ds_heap ds1) a (Z.to_nat idx) rec;
      Some (mkDirStore heap' (ds_head ds1) (ds_tail ds1) (SigIntId_wrap (ds_cnt ds1 + 1)),
            oracle1)
  end.

(** Reading the store the way the continue driver walks it: chunks from
    [head] along [next], [DE_STATE_CHUNK_SIZE] slots per chunk, stopping
    the reads once [state_cnt] reaches [cnt].  The walk is bounded by the
    number of chunks in the arena; [None] is a dangling pointer or a
    cycle. *)
Fixpoint chain {A} (fuel : nat) (heap : list (Chunk A)) (store : option nat)
  : option (list nat) :=
  match store with
  | None => Some []
  | Some a =>
      match fuel with
      | O => None
      | S fuel' =>
          c ← heap !! a;
          rest ← chain fuel' heap (c_next c);
          Some (a :: rest)
      end
  end.

Definition chunk_slots {A} (heap : list (Chunk A)) (a : nat) : list A :=
  match heap !! a with
  | Some c => take (Z.to_nat DE_STATE_CHUNK_SIZE) (c_store c)
  | None => []
  end.

Definition DirStoreItems {A} (ds : DirStore A) : option (list A) :=
  addrs ← chain (length (ds_heap ds)) (ds_heap ds) (ds_head ds);
  Some (take (Z.to_nat (ds_cnt ds)) (concat (map (chunk_slots (ds_heap ds)) addrs))).

(** ** Static helpers *)

Definition StateIsValid (alproto : AppProto) (st : option AppState) : bool :=
  match st with
  | Some a =>
      match alproto with
      | ALPROTO_HTTP => htp_conn a
      | _ => true
      end
  | None => false
  end.

(** [total_txs - tx_id <= 1] on uint64_t. *)
Definition TxIsLast (tx total_txs : Z) : bool := u64 (total_txs - tx) <=? 1.

Definition FlowGetAppState (f : Flow) : option AppState := alstate f.

Definition AppLayerParserGetTx (st : AppState) (tx : Z) : option Tx := al_txs st !! tx.

Definition AppLayerParserGetTxCnt (st : AppState) : Z := al_tx_cnt st.

Definition AppLayerParserGetTxDetectState (f : Flow) (tx : Z)
  : option DetectEngineState := tx_de_state f !! tx.

(** The detect state of a transaction is reached through a pointer:
    writing the state back at its key is the in-place update. *)
Definition flow_set_tx_de_state (f : Flow) (tx : Z) (d : DetectEngineState) : Flow :=
  mkFlow (proto f) (protomap f) (f_alproto f) (alstate f)
    (alparser_inspect_id f) (<[tx := d]> (tx_de_state f)) (de_state f)
    (detect_alversion f).

Definition flow_set_de_state (f : Flow) (d : option DetectEngineStateFlow) : Flow :=
  mkFlow (proto f) (protomap f) (f_alproto f) (alstate f)
    (alparser_inspect_id f) (tx_de_state f) d (detect_alversion f).

Definition DeStateStoreItem_zero : DeStateStoreItem := mkItem 0 0.
Definition DeStateStoreFlowRule_zero : DeStateStoreFlowRule := mkFlowRule [] 0 0.

(** [DetectEngineStateAlloc] and [DetectEngineStateFlowAlloc] return
    zeroed memory. *)
Definition DetectEngineStateDirection_zero : DetectEngineStateDirection :=
  mkDir DirStore_zero 0 0.
Definition DetectEngineState_zero : DetectEngineState :=
  (DetectEngineStateDirection_zero, DetectEngineStateDirection_zero).
Definition DetectEngineStateDirectionFlow_zero : DetectEngineStateDirectionFlow :=
  mkDirFlow DirStore_zero 0.
Definition DetectEngineStateFlow_zero : DetectEngineStateFlow :=
  (DetectEngineStateDirectionFlow_zero, DetectEngineStateDirectionFlow_zero).

Definition DetectEngineStateAlloc (oracle : list bool)
  : option DetectEngineState * list bool :=
  let '(ok, oracle') := SCMalloc oracle in
  (if ok then Some DetectEngineState_zero else None, oracle').

Definition DetectEngineStateFlowAlloc (oracle : list bool)
  : option DetectEngineStateFlow * list bool :=
  let '(ok, oracle') := SCMalloc oracle in
  (if ok then Some DetectEngineStateFlow_zero else None, oracle').

Definition DeStateSignatureAppend (state : DetectEngineState) (s : Signature)
    (inspect_flags0 direction : Z) (oracle : list bool)
  : option (DetectEngineState * list bool) :=
  let dir_state := arr2_get (dir_index direction) state in
  '(st, oracle') ←
    StoreAppend DeStateStoreItem_zero (dir_store dir_state)
      (mkItem (num s) inspect_flags0) oracle;
  Some (arr2_set (dir_index direction)
          (mkDir st (filestore_cnt dir_state) (dir_flags dir_state)) state,
        oracle').

Definition DeStateFlowRuleAppend (state : DetectEngineStateFlow) (s : Signature)
    (sm : list SigMatch) (inspect_flags0 direction : Z) (oracle : list bool)
  : option (DetectEngineStateFlow * list bool) :=
  let dir_state := arr2_get (dir_index direction) state in
  '(st, oracle') ←
    StoreAppend DeStateStoreFlowRule_zero (fdir_store dir_state)
      (mkFlowRule sm inspect_flags0 (num s)) oracle;
  Some (arr2_set (dir_index direction) (mkDirFlow st (fdir_flags dir_state)) state,
        oracle').

Definition DeStateStoreStateVersion (f : Flow) (alversion direction : Z) : Flow :=
  mkFlow (proto f) (protomap f) (f_alproto f) (alstate f) (alparser_inspect_id f)
    (tx_de_state f) (de_state f)
    (arr2_set (dir_index direction) alversion (detect_alversion f)).

Definition DeStateStoreFileNoMatchCnt (st : DetectEngineState)
    (file_no_match direction : Z) : DetectEngineState :=
  let d := arr2_get (dir_index direction) st in
  arr2_set (dir_index direction)
    (mkDir (dir_store d) (u16 (filestore_cnt d + file_no_match)) (dir_flags d)) st.

Definition DeStateStoreFilestoreSigsCantMatch (det_ctx : DetectEngineThreadCtx)
    (st : DetectEngineState) (direction : Z) : Z :=
  if filestore_cnt (arr2_get (dir_index direction) st) =? sgh_filestore_cnt det_ctx
  then 1 else 0.

(** ** Persisting state *)

Definition rs_emit (e : Event) (rs : RunState) : RunState :=
  mkRun (rs_flow rs) (rs_det rs) (rs_trace rs ++ [e]) (rs_oracle rs).

Definition rs_with_flow (f : Flow) (rs : RunState) : RunState :=
  mkRun f (rs_det rs) (rs_trace rs) (rs_oracle rs).

Definition rs_with_oracle (o : list bool) (rs : RunState) : RunState :=
  mkRun (rs_flow rs) (rs_det rs) (rs_trace rs) o.

Definition rs_with_det (d : DetectEngineThreadCtx) (rs : RunState) : RunState :=
  mkRun (rs_flow rs) d (rs_trace rs) (rs_oracle rs).

(** Returns 1 when the record was handed to the store, 0 when the flow
    state could not be allocated. *)
Definition StoreState (flags alversion : Z) (s : Signature) (sm : list SigMatch)
    (inspect_flags0 : Z) (rs : RunState) : option (Z * RunState) :=
  let f := rs_flow rs in
  let '(st, oracle1) :=
    match de_state f with
    | Some st => (Some st, rs_oracle rs)
    | None => DetectEngineStateFlowAlloc (rs_oracle rs)
    end in
  match st with
  | None => Some (0, rs_with_oracle oracle1 rs)
  | Some st =>
      '(st', oracle2) ← DeStateFlowRuleAppend st s sm inspect_flags0 flags oracle1;
      let f1 := flow_set_de_state f (Some st') in
      let f2 := DeStateStoreStateVersion f1 alversion flags in
      Some (1, mkRun f2 (rs_det rs) (rs_trace rs) oracle2)
  end.

(** The file decision; the second component is the call to the file
    subsystem, if one is made. *)
Definition StoreStateTxHandleFiles (det_ctx : DetectEngineThreadCtx)
    (destate : DetectEngineState) (flags tx file_no_match : Z)
  : DetectEngineState * list Event :=
  let d1 := DeStateStoreFileNoMatchCnt destate file_no_match flags in
  if DeStateStoreFilestoreSigsCantMatch det_ctx d1 flags =? 1 then
    let d := arr2_get (dir_index flags) d1 in
    (arr2_set (dir_index flags)
       (mkDir (dir_store d) (filestore_cnt d)
          (Z.lor (dir_flags d) DETECT_ENGINE_STATE_FLAG_FILE_STORE_DISABLED)) d1,
     [FileDisableStoringForTransaction
        (Z.land flags (Z.lor STREAM_TOCLIENT STREAM_TOSERVER)) tx])
  else (d1, []).

(** The get-or-allocate prologue that StoreStateTx and StoreStateTxFileOnly
    both carry.  Outer [None]: the BUG_ON abort.  Inner [None]: allocation
    failed and the caller returns. *)
Definition tx_destate_get_or_alloc (f : Flow) (tx : Z) (t : Tx) (oracle : list bool)
  : option (option DetectEngineState * list bool) :=
  match AppLayerParserGetTxDetectState f tx with
  | Some d => Some (Some d, oracle)
  | None =>
      let '(d, oracle') := DetectEngineStateAlloc oracle in
      match d with
      | None => Some (None, oracle')
      | Some d => if tx_set_state_err t then None else Some (Some d, oracle')
      end
  end.

Definition StoreStateTxFileOnly (flags tx : Z) (t : Tx) (file_no_match : Z)
    (rs : RunState) : option RunState :=
  let f := rs_flow rs in
  if AppLayerParserSupportsTxDetectState (proto f) (f_alproto f) then
    '(d, oracle1) ← tx_destate_get_or_alloc f tx t (rs_oracle rs);
    match d with
    | None => Some (rs_with_oracle oracle1 rs)
    | Some destate =>
        let '(destate', evs) :=
          StoreStateTxHandleFiles (rs_det rs) destate flags tx file_no_match in
        Some (mkRun (flow_set_tx_de_state f tx destate')
                (rs_det rs) (rs_trace rs ++ evs) oracle1)
    end
  else Some rs.

Definition StoreStateTx (flags alversion tx : Z) (t : Tx) (s : Signature)
    (inspect_flags0 file_no_match : Z) (rs : RunState) : option RunState :=
  let f := rs_flow rs in
  if AppLayerParserSupportsTxDetectState (proto f) (f_alproto f) then
    '(d, oracle1) ← tx_destate_get_or_alloc f tx t (rs_oracle rs);
    match d with
    | None => Some (rs_with_oracle oracle1 rs)
    | Some destate =>
        '(destate1, oracle2) ←
          DeStateSignatureAppend destate s inspect_flags0 flags oracle1;
        let f1 := DeStateStoreStateVersion f alversion flags in
        let '(destate2, evs) :=
          StoreStateTxHandleFiles (rs_det rs) destate1 flags tx file_no_match in
        Some (mkRun (flow_set_tx_de_state f1 tx destate2)
                (rs_det rs) (rs_trace rs ++ evs) oracle2)
    end
  else Some rs.

(** ** The start driver *)

(** The [while (engine != NULL)] loop over the engine list.  Returns the
    engine pointer on exit ([[]] is NULL), [inspect_flags],
    [total_matches] and [file_no_match]. *)
Fixpoint start_engine_loop (engine : list DetectEngineAppInspectionEngine)
    (s : Signature) (f : AppState) (flags tx : Z)
    (inspect_flags0 total_matches file_no_match : Z)
  : list DetectEngineAppInspectionEngine * Z * Z * Z :=
  match engine with
  | [] => ([], inspect_flags0, total_matches, file_no_match)
  | e :: next =>
      match sm_lists s (sm_list e) with
      | [] => start_engine_loop next s f flags tx inspect_flags0 total_matches file_no_match
      | _ :: _ =>
          match Callback e s f flags tx with
          | DETECT_ENGINE_INSPECT_SIG_MATCH =>
              start_engine_loop next s f flags tx
                (Z.lor inspect_flags0 (inspect_flags e)) (total_matches + 1) file_no_match
          | DETECT_ENGINE_INSPECT_SIG_CANT_MATCH =>
              (engine,
               Z.lor (Z.lor inspect_flags0 DE_STATE_FLAG_SIG_CANT_MATCH) (inspect_flags e),
               total_matches, file_no_match)
          | DETECT_ENGINE_INSPECT_SIG_CANT_MATCH_FILESTORE =>
              (engine,
               Z.lor (Z.lor inspect_flags0 DE_STATE_FLAG_SIG_CANT_MATCH) (inspect_flags e),
               total_matches, u16 (file_no_match + 1))
          | DETECT_ENGINE_INSPECT_SIG_NO_MATCH =>
              (engine, inspect_flags0, total_matches, file_no_match)
          end
      end
  end.

(** Locals of the start driver that live across loop iterations. *)
Record StartLocals := mkStartLocals {
  sl_inspect_flags : Z;
  sl_file_no_match : Z;
  sl_alert_cnt : Z
}.

Definition is_nil {A} (l : list A) : bool :=
  match l with [] => true | _ => false end.

Definition alert_or_apply (s : Signature) (tx alert_flags : Z) (rs : RunState) : RunState :=
  if negb (has (sig_flags s) SIG_FLAG_NOALERT)
  then rs_emit (PacketAlertAppend (num s) tx alert_flags) rs
  else rs_emit (DetectSignatureApplyActions (num s)) rs.

Definition det_set_tx (tx set : Z) (d : DetectEngineThreadCtx) : DetectEngineThreadCtx :=
  mkDetCtx tx set (de_state_sig_array d) (sgh_filestore_cnt d).

(** One iteration of [for (; tx_id < total_txs; tx_id++)] of the start
    driver, for transaction [tx]. *)
Definition start_tx_body (s : Signature) (flags : Z) (alproto : AppProto)
    (alversion : Z) (st : AppState) (total_txs : Z) (tx : Z)
    (loc : StartLocals) (rs : RunState)
  : option (StartLocals * RunState) :=
  let f := rs_flow rs in
  match AppLayerParserGetTx st tx with
  | None => Some (loc, rs)
  | Some t =>
      let rs := rs_with_det (det_set_tx tx 1 (rs_det rs)) rs in
      let engine := app_inspection_engine (protomap f) alproto (dir_index flags) in
      let '(engine, iflags, total_matches, file_no_match) :=
        start_engine_loop engine s st flags tx 0 0 (sl_file_no_match loc) in
      let full_match := is_nil engine && (0 <? total_matches) in
      let rs := if full_match
                then alert_or_apply s tx
                       (Z.lor PACKET_ALERT_FLAG_STATE_MATCH PACKET_ALERT_FLAG_TX) rs
                else rs in
      let alert_cnt := if full_match then 1 else sl_alert_cnt loc in
      let tx_is_done :=
        AppLayerParserGetStateProgressCompletionStatus (proto f) alproto flags
          <=? tx_progress t flags in
      if full_match || has iflags DE_STATE_FLAG_SIG_CANT_MATCH then
        if negb (TxIsLast tx total_txs) || negb tx_is_done then
          let iflags :=
            if is_nil engine || has iflags DE_STATE_FLAG_SIG_CANT_MATCH
            then Z.lor iflags DE_STATE_FLAG_FULL_INSPECT else iflags in
          rs' ← StoreStateTx flags alversion tx t s iflags file_no_match rs;
          Some (mkStartLocals iflags file_no_match alert_cnt, rs')
        else
          rs' ← StoreStateTxFileOnly flags tx t file_no_match rs;
          Some (mkStartLocals iflags file_no_match alert_cnt, rs')
      else Some (mkStartLocals iflags file_no_match alert_cnt, rs)
  end.

(** The transaction loop; [n] is the number of iterations left,
    [total_txs - tx_id]. *)
Fixpoint start_tx_loop (n : nat) (s : Signature) (flags : Z) (alproto : AppProto)
    (alversion : Z) (st : AppState) (total_txs : Z) (tx : Z)
    (loc : StartLocals) (rs : RunState)
  : option (StartLocals * RunState) :=
  match n with
  | O => Some (loc, rs)
  | S n' =>
      '(loc', rs') ← start_tx_body s flags alproto alversion st total_txs tx loc rs;
      start_tx_loop n' s flags alproto alversion st total_txs (tx + 1) loc' rs'
  end.

Definition is_smb (alproto : AppProto) : bool :=
  match alproto with
  | ALPROTO_SMB | ALPROTO_SMB2 => true
  | _ => false
  end.

Definition is_dce (alproto : AppProto) : bool :=
  match alproto with
  | ALPROTO_DCERPC | ALPROTO_SMB | ALPROTO_SMB2 => true
  | _ => false
  end.

(** The flow-based walk of the start driver:
    [for ( ; sm != NULL; sm = sm->next)].  Returns the cursor on exit,
    [match] and [inspect_flags]. *)
Fixpoint start_amatch_loop (sm : list SigMatch) (s : Signature)
    (st : AppState) (flags : Z) (alproto : AppProto) (match_ inspect_flags0 : Z)
  : list SigMatch * Z * Z :=
  match sm with
  | [] => ([], match_, inspect_flags0)
  | m :: next =>
      match sigmatch_table_AppLayerMatch (sm_type m) with
      | None => start_amatch_loop next s st flags alproto match_ inspect_flags0
      | Some AppLayerMatch =>
          let r :=
            if is_smb alproto then
              if smb_dcerpc_present st then AppLayerMatch st flags true s m else 0
            else AppLayerMatch st flags false s m in
          if r =? 0 then (sm, r, inspect_flags0)
          else if r =? 2 then (sm, r, Z.lor inspect_flags0 DE_STATE_FLAG_SIG_CANT_MATCH)
          else start_amatch_loop next s st flags alproto r inspect_flags0
      end
  end.

(** The part after the [end:] label. *)
Definition driver_end (rs : RunState) : RunState :=
  rs_with_det (det_set_tx 0 0 (rs_det rs)) rs.

(** The flow-based part of the start driver (from the AMATCH comment to
    the [end:] label). *)
Definition start_flow_part (s : Signature) (flags : Z) (alproto : AppProto)
    (alversion : Z) (loc : StartLocals) (rs : RunState) : option (StartLocals * RunState) :=
  let f := rs_flow rs in
  match sm_lists s DETECT_SM_LIST_AMATCH with
  | [] => Some (loc, rs)
  | sm =>
      match FlowGetAppState f with
      | None => Some (loc, rs)
      | Some st =>
          let '(sm', match_, iflags) :=
            start_amatch_loop sm s st flags alproto 0 (sl_inspect_flags loc) in
          let decided := is_nil sm' || has iflags DE_STATE_FLAG_SIG_CANT_MATCH in
          let alerted := decided && (match_ =? 1) in
          let rs := if alerted
                    then alert_or_apply s 0 PACKET_ALERT_FLAG_STATE_MATCH rs else rs in
          let alert_cnt := if alerted then 1 else sl_alert_cnt loc in
          let iflags := if decided then Z.lor iflags DE_STATE_FLAG_FULL_INSPECT else iflags in
          '(_, rs') ← StoreState flags alversion s sm' iflags rs;
          Some (mkStartLocals iflags (sl_file_no_match loc) alert_cnt, rs')
      end
  end.

(** The DCE/RPC branch. *)
Definition start_dce_part (s : Signature) (flags : Z) (alproto : AppProto)
    (st : AppState) (loc : StartLocals) (rs : RunState) : StartLocals * RunState :=
  let f := rs_flow rs in
  let hit :=
    if is_smb alproto then
      smb_dcerpc_present st && (DetectEngineInspectDcePayload s st flags true =? 1)
    else DetectEngineInspectDcePayload s st flags false =? 1 in
  if hit then
    (mkStartLocals (sl_inspect_flags loc) (sl_file_no_match loc) 1,
     alert_or_apply s 0 PACKET_ALERT_FLAG_STATE_MATCH rs)
  else (loc, rs).

(** [DeStateDetectStartDetection].  Returns [alert_cnt ? 1 : 0] and the
    state after the call; [None] is undefined behaviour or the BUG_ON
    abort. *)
Definition DeStateDetectStartDetection (s : Signature) (flags : Z)
    (alproto : AppProto) (alversion : Z) (rs : RunState) : option (Z * RunState) :=
  let f := rs_flow rs in
  let loc0 := mkStartLocals 0 0 0 in
  let finish (r : StartLocals * RunState) : Z * RunState :=
    ((if sl_alert_cnt (fst r) =? 0 then 0 else 1), driver_end (snd r)) in
  if AppLayerParserProtocolSupportsTxs (proto f) alproto then
    let st := FlowGetAppState f in
    if negb (StateIsValid alproto st) then Some (finish (loc0, rs))
    else
      match st with
      | None => Some (finish (loc0, rs))
      | Some a =>
          let tx := alparser_inspect_id f flags in
          let total_txs := AppLayerParserGetTxCnt a in
          '(loc1, rs1) ←
            start_tx_loop (Z.to_nat (total_txs - tx)) s
              flags alproto alversion a total_txs tx loc0 rs;
          finish <$> start_flow_part s flags alproto alversion loc1 rs1
      end
  else if negb (is_nil (sm_lists s DETECT_SM_LIST_DMATCH)) && is_dce alproto then
    match FlowGetAppState f with
    | None => Some (finish (loc0, rs))
    | Some a =>
        let '(loc1, rs1) := start_dce_part s flags alproto a loc0 rs in
        finish <$> start_flow_part s flags alproto alversion loc1 rs1
    end
  else finish <$> start_flow_part s flags alproto alversion loc0 rs.

(** ** The pre-check *)

Definition dir_cnt_nonzero {A} (ds : DirStore A) : bool := negb (ds_cnt ds =? 0).

(** The transaction loop of [HasStoredSigs]; [n] iterations are left. *)
Fixpoint HasStoredSigs_tx_loop (n : nat) (f : Flow) (st : AppState) (flags tx : Z) : Z :=
  match n with
  | O => 0
  | S n' =>
      match AppLayerParserGetTx st tx with
      | Some _ =>
          match AppLayerParserGetTxDetectState f tx with
          | None => HasStoredSigs_tx_loop n' f st flags (tx + 1)
          | Some d =>
              if dir_cnt_nonzero (dir_store (arr2_get (dir_index flags) d)) then 1
              else HasStoredSigs_tx_loop n' f st flags (tx + 1)
          end
      | None => HasStoredSigs_tx_loop n' f st flags (tx + 1)
      end
  end.

Definition HasStoredSigs (f : Flow) (flags : Z) : Z :=
  if match de_state f with
     | Some d => dir_cnt_nonzero (fdir_store (arr2_get (dir_index flags) d))
     | None => false
     end
  then 1
  else if AppLayerParserProtocolSupportsTxs (proto f) (f_alproto f) then
    match FlowGetAppState f with
    | Some st =>
        if negb (StateIsValid (f_alproto f) (Some st)) then 0
        else
          let tx := alparser_inspect_id f flags in
          let total_txs := AppLayerParserGetTxCnt st in
          HasStoredSigs_tx_loop (Z.to_nat (total_txs - tx)) f st flags tx
    | None => 0
    end
  else 0.

Definition DeStateFlowHasInspectableState (f : Flow) (alproto : AppProto)
    (alversion flags : Z) : Z :=
  if negb (has flags STREAM_EOF)
     && bool_decide (is_Some (de_state f))
     && (arr2_get (dir_index flags) (detect_alversion f) =? alversion)
  then 2
  else if negb (HasStoredSigs f flags =? 0) then 1
  else 0.

(** ** The per-record inspectors of the continue driver *)

Definition mark_no_new_state (sid : Z) (d : DetectEngineThreadCtx) : DetectEngineThreadCtx :=
  mkDetCtx (tx_id d) (tx_id_set d)
    (<[sid := DE_STATE_MATCH_NO_NEW_STATE]> (de_state_sig_array d))
    (sgh_filestore_cnt d).

Definition item_with_flags (item : DeStateStoreItem) (fl : Z) : DeStateStoreItem :=
  mkItem (item_sid item) fl.

(** The first block of [DoInspectItem]: the flags of the record after the
    two re-open tests made under [item->flags & FULL_INSPECT]. *)
Definition reopen_full_inspect (fl dir_state_flags flags : Z) : Z :=
  if has fl (Z.lor DE_STATE_FLAG_FILE_TC_INSPECT DE_STATE_FLAG_FILE_TS_INSPECT) then
    let fl1 :=
      if has flags STREAM_TOCLIENT && has dir_state_flags DETECT_ENGINE_STATE_FLAG_FILE_TC_NEW
      then clear (clear fl DE_STATE_FLAG_FILE_TC_INSPECT) DE_STATE_FLAG_FULL_INSPECT
      else fl in
    if has flags STREAM_TOSERVER && has dir_state_flags DETECT_ENGINE_STATE_FLAG_FILE_TS_NEW
    then clear (clear fl1 DE_STATE_FLAG_FILE_TS_INSPECT) DE_STATE_FLAG_FULL_INSPECT
    else fl1
  else fl.

(** The second block: [Some fl'] when the record goes on to the engines,
    [None] when the function returns 0. *)
Definition reopen_cant_match (fl dir_state_flags flags : Z) : option Z :=
  if has flags STREAM_TOSERVER
     && has fl DE_STATE_FLAG_FILE_TS_INSPECT
     && has dir_state_flags DETECT_ENGINE_STATE_FLAG_FILE_TS_NEW
  then Some (clear (clear fl DE_STATE_FLAG_FILE_TS_INSPECT) DE_STATE_FLAG_SIG_CANT_MATCH)
  else if has flags STREAM_TOCLIENT
          && has fl DE_STATE_FLAG_FILE_TC_INSPECT
          && has dir_state_flags DETECT_ENGINE_STATE_FLAG_FILE_TC_NEW
  then Some (clear (clear fl DE_STATE_FLAG_FILE_TC_INSPECT) DE_STATE_FLAG_SIG_CANT_MATCH)
  else None.

(** The engine loop of [DoInspectItem]; [item_fl] is [item->flags]. *)
Fixpoint continue_engine_loop (engine : list DetectEngineAppInspectionEngine)
    (item_fl : Z) (s : Signature) (st : AppState) (flags tx : Z)
    (inspect_flags0 total_matches file_no_match : Z)
  : list DetectEngineAppInspectionEngine * Z * Z * Z :=
  match engine with
  | [] => ([], inspect_flags0, total_matches, file_no_match)
  | e :: next =>
      if negb (has item_fl (inspect_flags e)) && negb (is_nil (sm_lists s (sm_list e))) then
        match Callback e s st flags tx with
        | DETECT_ENGINE_INSPECT_SIG_MATCH =>
            continue_engine_loop next item_fl s st flags tx
              (Z.lor inspect_flags0 (inspect_flags e)) (total_matches + 1) file_no_match
        | DETECT_ENGINE_INSPECT_SIG_CANT_MATCH =>
            (engine,
             Z.lor (Z.lor inspect_flags0 DE_STATE_FLAG_SIG_CANT_MATCH) (inspect_flags e),
             total_matches, file_no_match)
        | DETECT_ENGINE_INSPECT_SIG_CANT_MATCH_FILESTORE =>
            (engine,
             Z.lor (Z.lor inspect_flags0 DE_STATE_FLAG_SIG_CANT_MATCH) (inspect_flags e),
             total_matches, u16 (file_no_match + 1))
        | DETECT_ENGINE_INSPECT_SIG_NO_MATCH =>
            (engine, inspect_flags0, total_matches, file_no_match)
        end
      else
        continue_engine_loop next item_fl s st flags tx
          inspect_flags0 total_matches file_no_match
  end.

(** What [DoInspectItem] hands back: the return value, the record as it
    is left in the store, [*file_no_match], [det_ctx] and the calls made. *)
Definition ItemResult : Type :=
  (Z * DeStateStoreItem * Z * DetectEngineThreadCtx * list Event)%type.

(** [DoInspectItem] from [RULE_PROFILING_START] on; [fl] is [item->flags]
    at that point. *)
Definition DoInspectItem_engines (s : Signature) (item : DeStateStoreItem) (fl : Z)
    (f : Flow) (alproto : AppProto) (flags inspect_tx_id total_txs file_no_match : Z)
    (det_ctx : DetectEngineThreadCtx) : ItemResult :=
  let item1 := item_with_flags item fl in
  match FlowGetAppState f with
  | None => (-1, item1, file_no_match, det_ctx, [])
  | Some st =>
      if negb (StateIsValid alproto (Some st)) then (-1, item1, file_no_match, det_ctx, [])
      else
        let det1 := det_set_tx inspect_tx_id 1 det_ctx in
        let engine := app_inspection_engine (protomap f) alproto (dir_index flags) in
        match AppLayerParserGetTx st inspect_tx_id with
        | None => (-1, item1, file_no_match, det1, [])
        | Some _ =>
            let '(engine, iflags, total_matches, file_no_match') :=
              continue_engine_loop engine fl s st flags inspect_tx_id 0 0 file_no_match in
            let hit := (0 <? total_matches)
                       && (is_nil engine || has iflags DE_STATE_FLAG_SIG_CANT_MATCH) in
            let alert := hit && is_nil engine in
            let iflags := if hit then Z.lor iflags DE_STATE_FLAG_FULL_INSPECT else iflags in
            let item2 := item_with_flags item (Z.lor fl iflags) in
            let det2 := if TxIsLast inspect_tx_id total_txs
                        then mark_no_new_state (item_sid item) det1 else det1 in
            let evs :=
              if alert then
                [SigMatchSignaturesRunPostMatch (num s);
                 if negb (has (sig_flags s) SIG_FLAG_NOALERT)
                 then PacketAlertAppend (num s) inspect_tx_id
                        (Z.lor PACKET_ALERT_FLAG_STATE_MATCH PACKET_ALERT_FLAG_TX)
                 else PACKET_UPDATE_ACTION (num s)]
              else [] in
            (1, item2, file_no_match', det2, evs ++ [DetectFlowvarProcessList])
        end
  end.

Definition DoInspectItem (item : DeStateStoreItem) (dir_state_flags : Z)
    (f : Flow) (alproto : AppProto) (flags inspect_tx_id total_txs file_no_match : Z)
    (inprogress next_tx_no_progress : bool) (det_ctx : DetectEngineThreadCtx)
  : option ItemResult :=
  s ← sig_array !! item_sid item;
  let leave (fl : Z) : ItemResult :=
    (0, item_with_flags item fl, file_no_match,
     (if TxIsLast inspect_tx_id total_txs || inprogress || next_tx_no_progress
      then mark_no_new_state (item_sid item) det_ctx else det_ctx),
     []) in
  let after_full (fl : Z) : ItemResult :=
    if has fl DE_STATE_FLAG_SIG_CANT_MATCH then
      match reopen_cant_match fl dir_state_flags flags with
      | Some fl' =>
          DoInspectItem_engines s item fl' f alproto flags inspect_tx_id total_txs
            file_no_match det_ctx
      | None => leave fl
      end
    else
      DoInspectItem_engines s item fl f alproto flags inspect_tx_id total_txs
        file_no_match det_ctx in
  if has (item_flags item) DE_STATE_FLAG_FULL_INSPECT then
    let fl := reopen_full_inspect (item_flags item) dir_state_flags flags in
    if has fl DE_STATE_FLAG_FULL_INSPECT then Some (leave fl)
    else Some (after_full fl)
  else Some (after_full (item_flags item)).

(** The walk of [DoInspectFlowRule]:
    [for (sm = item->nm; sm != NULL; sm = sm->next)]. *)
Fixpoint continue_amatch_loop (sm : list SigMatch) (s : Signature) (st : AppState)
    (flags : Z) (alproto : AppProto) (inspect_flags0 total_matches : Z)
  : list SigMatch * Z * Z :=
  match sm with
  | [] => ([], inspect_flags0, total_matches)
  | m :: next =>
      match sigmatch_table_AppLayerMatch (sm_type m) with
      | None => continue_amatch_loop next s st flags alproto inspect_flags0 total_matches
      | Some AppLayerMatch =>
          let r :=
            if is_smb alproto then
              if smb_dcerpc_present st then AppLayerMatch st flags true s m else 0
            else AppLayerMatch st flags false s m in
          if r =? 0 then (sm, inspect_flags0, total_matches)
          else if r =? 2 then
            continue_amatch_loop next s st flags alproto
              (Z.lor inspect_flags0 DE_STATE_FLAG_SIG_CANT_MATCH) total_matches
          else if r =? 1 then
            continue_amatch_loop next s st flags alproto inspect_flags0 (total_matches + 1)
          else continue_amatch_loop next s st flags alproto inspect_flags0 total_matches
      end
  end.

Definition FlowRuleResult : Type :=
  (Z * DeStateStoreFlowRule * DetectEngineThreadCtx * list Event)%type.

Definition DoInspectFlowRule (item : DeStateStoreFlowRule) (dir_state_flags : Z)
    (f : Flow) (alproto : AppProto) (flags : Z) (det_ctx : DetectEngineThreadCtx)
  : option FlowRuleResult :=
  if has (rule_flags item) (Z.lor DE_STATE_FLAG_FULL_INSPECT DE_STATE_FLAG_SIG_CANT_MATCH)
  then Some (0, item, mark_no_new_state (rule_sid item) det_ctx, [])
  else
    s ← sig_array !! rule_sid item;
    let walked : option (list SigMatch * Z * Z) :=
      match rule_nm item with
      | [] => Some ([], 0, 0)
      | nm =>
          match FlowGetAppState f with
          | None => None
          | Some st => Some (continue_amatch_loop nm s st flags alproto 0 0)
          end
      end in
    match walked with
    | None => Some (-1, item, det_ctx, [])
    | Some (sm, iflags, total_matches) =>
        let amatch := negb (is_nil (sm_lists s DETECT_SM_LIST_AMATCH)) in
        let hit := amatch && (0 <? total_matches)
                   && (is_nil sm || has iflags DE_STATE_FLAG_SIG_CANT_MATCH) in
        let alert := hit && is_nil sm in
        let iflags := if hit then Z.lor iflags DE_STATE_FLAG_FULL_INSPECT else iflags in
        let det1 := if amatch then mark_no_new_state (rule_sid item) det_ctx else det_ctx in
        let item' := mkFlowRule sm (Z.lor (rule_flags item) iflags) (rule_sid item) in
        let evs :=
          if alert then
            [SigMatchSignaturesRunPostMatch (num s);
             if negb (has (sig_flags s) SIG_FLAG_NOALERT)
             then PacketAlertAppend (num s) 0 PACKET_ALERT_FLAG_STATE_MATCH
             else DetectSignatureApplyActions (num s)]
          else [] in
        Some (1, item', det1, evs ++ [DetectFlowvarProcessList])
    end.

(** ** The continue driver *)

(** The two nested loops over a direction's records,

      for (; store != NULL; store = store->next)
        for (store_cnt = 0;
             store_cnt < DE_STATE_CHUNK_SIZE && state_cnt < cnt;
             store_cnt++, state_cnt++)

    with [body] the call to the per-record inspector.  The inspector
    works on the record in place, so its result is written back to the
    slot.  The boolean of the result is the [goto end]. *)
Section StoreLoop.
Context {A T : Type} (body : A -> T -> option (Z * A * T)).

Fixpoint store_inner_loop (n : nat) (heap : list (Chunk A)) (a : nat)
    (store_cnt state_cnt cnt : Z) (st : T)
  : option (bool * list (Chunk A) * Z * T) :=
  if (store_cnt <? DE_STATE_CHUNK_SIZE) && (state_cnt <? cnt) then
    match n with
    | O => None
    | S n' =>
        c ← heap !! a;
        item ← c_store c !! Z.to_nat store_cnt;
        '(r, item', st') ← body item st;
        heap' ← chunk_write heap a (Z.to_nat store_cnt) item';
        if r <? 0 then Some (true, heap', state_cnt, st')
        else
          store_inner_loop n' heap' a
            (SigIntId_wrap (store_cnt + 1)) (SigIntId_wrap (state_cnt + 1)) cnt st'
    end
  else Some (false, heap, state_cnt, st).

(** [fuel] bounds the number of chunks visited; running out of it is a
    chunk list that does not end. *)
Fixpoint store_outer_loop (fuel : nat) (heap : list (Chunk A)) (store : option nat)
    (state_cnt cnt : Z) (st : T)
  : option (bool * list (Chunk A) * Z * T) :=
  match store with
  | None => Some (false, heap, state_cnt, st)
  | Some a =>
      match fuel with
      | O => None
      | S fuel' =>
          '(stop, heap', state_cnt', st') ←
            store_inner_loop (Z.to_nat DE_STATE_CHUNK_SIZE) heap a 0 state_cnt cnt st;
          if (stop : bool) then Some (true, heap', state_cnt', st')
          else
            c ← heap' !! a;
            store_outer_loop fuel' heap' (c_next c) state_cnt' cnt st'
      end
  end.

Definition store_loop (ds : DirStore A) (state_cnt : Z) (st : T)
  : option (bool * DirStore A * Z * T) :=
  '(stop, heap', state_cnt', st') ←
    store_outer_loop (length (ds_heap ds)) (ds_heap ds) (ds_head ds)
      state_cnt (ds_cnt ds) st;
  Some (stop, mkDirStore heap' (ds_head ds) (ds_tail ds) (ds_cnt ds), state_cnt', st').

End StoreLoop.

(** Locals of the continue driver that live across loop iterations. *)
Record ContLocals := mkContLocals {
  cl_file_no_match : Z;
  cl_state_cnt : Z
}.

Inductive LoopExit := LoopNext | LoopBreak | LoopGotoEnd.

(** The loop body handed to [store_loop] for the records of transaction
    [tx]: the call to [DoInspectItem]. *)
Definition inspect_item_body (dir_state_flags : Z) (f : Flow) (alproto : AppProto)
    (flags tx total_txs : Z) (inprogress next_tx_no_progress : bool)
    (item : DeStateStoreItem) (st : Z * DetectEngineThreadCtx * list Event)
  : option (Z * DeStateStoreItem * (Z * DetectEngineThreadCtx * list Event)) :=
  let '(file_no_match, det_ctx, trace) := st in
  '(r, item', file_no_match', det_ctx', evs) ←
    DoInspectItem item dir_state_flags f alproto flags tx total_txs file_no_match
      inprogress next_tx_no_progress det_ctx;
  Some (r, item',
        (file_no_match', det_ctx',
         trace ++ evs ++ [CallDoInspectItem tx (item_sid item) r])).

Definition inspect_flow_rule_body (dir_state_flags : Z) (f : Flow) (alproto : AppProto)
    (flags : Z) (item : DeStateStoreFlowRule) (st : DetectEngineThreadCtx * list Event)
  : option (Z * DeStateStoreFlowRule * (DetectEngineThreadCtx * list Event)) :=
  let '(det_ctx, trace) := st in
  '(r, item', det_ctx', evs) ←
    DoInspectFlowRule item dir_state_flags f alproto flags det_ctx;
  Some (r, item', (det_ctx', trace ++ evs ++ [CallDoInspectFlowRule (rule_sid item) r])).

(** One iteration of [for ( ; inspect_tx_id < total_txs; inspect_tx_id++)]
    of the continue driver. *)
Definition continue_tx_body (flags : Z) (alproto : AppProto) (st : AppState)
    (total_txs tx : Z) (loc : ContLocals) (rs : RunState)
  : option (LoopExit * ContLocals * RunState) :=
  let f := rs_flow rs in
  let direction := dir_index flags in
  match AppLayerParserGetTx st tx with
  | None => Some (LoopNext, loc, rs)
  | Some t =>
      let a := tx_progress t flags in
      let b := AppLayerParserGetStateProgressCompletionStatus (proto f) alproto flags in
      let inspect_tx_inprogress := a <? b in
      match AppLayerParserGetTxDetectState f tx with
      | None => Some (LoopNext, loc, rs)
      | Some tx_de_state =>
          let tx_dir_state := arr2_get direction tx_de_state in
          let next_tx_no_progress :=
            if negb (TxIsLast tx total_txs) then
              match AppLayerParserGetTx st (tx + 1) with
              | Some next_inspect_tx => tx_progress next_inspect_tx flags =? 0
              | None => false
              end
            else false in
          '(stop, store', state_cnt, (file_no_match, det_ctx, trace)) ←
            store_loop
              (inspect_item_body (dir_flags tx_dir_state) f alproto flags tx total_txs
                 inspect_tx_inprogress next_tx_no_progress)
              (dir_store tx_dir_state) 0
              (cl_file_no_match loc, rs_det rs, rs_trace rs);
          let tx_de_state' :=
            arr2_set direction
              (mkDir store' (filestore_cnt tx_dir_state) (dir_flags tx_dir_state))
              tx_de_state in
          let rs' := mkRun (flow_set_tx_de_state f tx tx_de_state') det_ctx trace
                       (rs_oracle rs) in
          let loc' := mkContLocals file_no_match state_cnt in
          if (stop : bool) then Some (LoopGotoEnd, loc', rs')
          else if inspect_tx_inprogress then Some (LoopBreak, loc', rs')
          else Some (LoopNext, loc', rs')
      end
  end.

(** The transaction loop; the boolean of the result is the [goto end]. *)
Fixpoint continue_tx_loop (n : nat) (flags : Z) (alproto : AppProto) (st : AppState)
    (total_txs tx : Z) (loc : ContLocals) (rs : RunState)
  : option (bool * ContLocals * RunState) :=
  match n with
  | O => Some (false, loc, rs)
  | S n' =>
      '(exit, loc', rs') ← continue_tx_body flags alproto st total_txs tx loc rs;
      match exit with
      | LoopNext => continue_tx_loop n' flags alproto st total_txs (tx + 1) loc' rs'
      | LoopBreak => Some (false, loc', rs')
      | LoopGotoEnd => Some (true, loc', rs')
      end
  end.

(** The flow-based part of the continue driver, up to the [end:] label.
    [state_cnt] comes in with the value the transaction loop left. *)
Definition continue_flow_part (flags : Z) (alproto : AppProto) (alversion : Z)
    (loc : ContLocals) (rs : RunState) : option RunState :=
  let f := rs_flow rs in
  let direction := dir_index flags in
  match de_state f with
  | None => Some rs
  | Some fst =>
      let dir_state := arr2_get direction fst in
      '(stop, store', _, (det_ctx, trace)) ←
        store_loop (inspect_flow_rule_body (fdir_flags dir_state) f alproto flags)
          (fdir_store dir_state) (cl_state_cnt loc) (rs_det rs, rs_trace rs);
      let fst' := arr2_set direction (mkDirFlow store' (fdir_flags dir_state)) fst in
      let f1 := flow_set_de_state f (Some fst') in
      if (stop : bool) then Some (mkRun f1 det_ctx trace (rs_oracle rs))
      else Some (mkRun (DeStateStoreStateVersion f1 alversion flags) det_ctx trace
                   (rs_oracle rs))
  end.

(** [DeStateDetectContinueDetection].  [None] is undefined behaviour or a
    chunk list that does not end. *)
Definition DeStateDetectContinueDetection (flags : Z) (alproto : AppProto)
    (alversion : Z) (rs : RunState) : option RunState :=
  let f := rs_flow rs in
  let loc0 := mkContLocals 0 0 in
  if AppLayerParserProtocolSupportsTxs (proto f) alproto then
    match FlowGetAppState f with
    | None => Some rs
    | Some st =>
        if negb (StateIsValid alproto (Some st)) then Some rs
        else
          let tx := alparser_inspect_id f flags in
          let total_txs := AppLayerParserGetTxCnt st in
          '(goto_end, loc1, rs1) ←
            continue_tx_loop (Z.to_nat (total_txs - tx)) flags alproto st total_txs tx
              loc0 rs;
          if (goto_end : bool) then Some (driver_end rs1)
          else driver_end <$> continue_flow_part flags alproto alversion loc1 rs1
    end
  else driver_end <$> continue_flow_part flags alproto alversion loc0 rs.

(** ** Reset *)

Definition DirStore_reset {A} (ds : DirStore A) : DirStore A :=
  mkDirStore (ds_heap ds) (ds_head ds) (ds_tail ds) 0.

Definition DetectEngineStateReset (state : option DetectEngineStateFlow) (direction : Z)
  : option DetectEngineStateFlow :=
  match state with
  | None => None
  | Some st =>
      let st1 :=
        if has direction STREAM_TOSERVER
        then arr2_set 0 (mkDirFlow (DirStore_reset (fdir_store (arr2_get 0 st))) 0) st
        else st in
      let st2 :=
        if has direction STREAM_TOCLIENT
        then arr2_set 1 (mkDirFlow (DirStore_reset (fdir_store (arr2_get 1 st1))) 0) st1
        else st1 in
      Some st2
  end.

Definition DetectEngineState_reset (d : DetectEngineState) : DetectEngineState :=
  (mkDir (DirStore_reset (dir_store (fst d))) 0 0,
   mkDir (DirStore_reset (dir_store (snd d))) 0 0).

Fixpoint ResetTxs_loop (n : nat) (f : Flow) (st : AppState) (tx : Z) : Flow :=
  match n with
  | O => f
  | S n' =>
      let f' :=
        match AppLayerParserGetTx st tx with
        | Some _ =>
            match AppLayerParserGetTxDetectState f tx with
            | Some d => flow_set_tx_de_state f tx (DetectEngineState_reset d)
            | None => f
            end
        | None => f
        end in
      ResetTxs_loop n' f' st (tx + 1)
  end.

Definition DetectEngineStateResetTxs (f : Flow) : Flow :=
  if AppLayerParserProtocolSupportsTxs (proto f) (f_alproto f) then
    match FlowGetAppState f with
    | Some st =>
        if negb (StateIsValid (f_alproto f) (Some st)) then f
        else
          let inspect_ts := alparser_inspect_id f STREAM_TOCLIENT in
          let inspect_tc := alparser_inspect_id f STREAM_TOSERVER in
          let tx := Z.min inspect_ts inspect_tc in
          let total_txs := AppLayerParserGetTxCnt st in
          ResetTxs_loop (Z.to_nat (total_txs - tx)) f st tx
    | None => f
    end
  else f.

(** ** Freeing

    [DetectEngineStateFree] and [DetectEngineStateFlowFree]: for each of
    the two slots,

      store = state->dir_state[i].head;
      while (store != NULL) { store_next = store->next; SCFree(store); store = store_next; }

    then [SCFree(state)].  The result is the list of the calls to
    [SCFree]; [None] is a dangling pointer or a chunk list that comes back
    to a freed chunk. *)
Definition free_stores {A} (slot : nat) (ds : DirStore A) : option (list FreeEvent) :=
  addrs ← chain (length (ds_heap ds)) (ds_heap ds) (ds_head ds);
  Some (SCFree_store slot <$> (addrs : list nat)).

Definition DetectEngineStateFree (state : DetectEngineState) : option (list FreeEvent) :=
  f0 ← free_stores 0 (dir_store (arr2_get 0 state));
  f1 ← free_stores 1 (dir_store (arr2_get 1 state));
  Some (f0 ++ f1 ++ [SCFree_state]).

Definition DetectEngineStateFlowFree (state : DetectEngineStateFlow)
  : option (list FreeEvent) :=
  f0 ← free_stores 0 (fdir_store (arr2_get 0 state));
  f1 ← free_stores 1 (fdir_store (arr2_get 1 state));
  Some (f0 ++ f1 ++ [SCFree_state]).

End Model.

(** * Vocabulary of the statements *)

(** The alerts of a trace, as (sid, transaction id). *)
Definition alerts (trace : list Event) : list (Z * Z) :=
  omap (λ e, match e with
             | PacketAlertAppend sid tx _ => Some (sid, tx)
             | _ => None
             end) trace.

(** The calls to the per-record inspectors in a trace. *)
Definition inspector_calls (trace : list Event) : list Event :=
  omap (λ e, match e with
             | CallDoInspectItem _ _ _ | CallDoInspectFlowRule _ _ => Some e
             | _ => None
             end) trace.

(** The signatures a trace alerts on or applies the actions of. *)
Definition verdicts (trace : list Event) : list Z :=
  omap (λ e, match e with
             | PacketAlertAppend sid _ _ | DetectSignatureApplyActions sid => Some sid
             | _ => None
             end) trace.
(** The transactions of the calls to [DoInspectItem] in a trace, and the
    sids of the calls to [DoInspectFlowRule], in call order. *)
Definition item_call_txs (trace : list Event) : list Z :=
  omap (λ e, match e with CallDoInspectItem tx _ _ => Some tx | _ => None end) trace.

Definition flow_rule_calls (trace : list Event) : list Z :=
  omap (λ e, match e with CallDoInspectFlowRule sid _ => Some sid | _ => None end) trace.

(** Every element is at most the ones after it. *)
Fixpoint ascending (l : list Z) : Prop :=
  match l with
  | [] => True
  | x :: rest => Forall (λ y, x ≤ y) rest ∧ ascending rest
  end.

(** What the transaction loop of the continue driver has added to the
    trace when it is done with the transactions up to [hi]: no call for a
    flow-scoped record, and calls to [DoInspectItem] in ascending order
    of transaction, each for a live transaction from [lo] to [hi]. *)
Definition calls_up_to (st : AppState) (lo hi : Z) (trace0 trace : list Event) : Prop :=
  ∃ new,
    trace = trace0 ++ new
    ∧ flow_rule_calls new = []
    ∧ ascending (item_call_txs new)
    ∧ Forall (λ t, lo ≤ t ≤ hi ∧ t < al_tx_cnt st ∧ is_Some (al_txs st !! t))
        (item_call_txs new).
(** The sids of the records the per-record inspectors were called on. *)
Definition call_sids (trace : list Event) : list Z :=
  omap (λ e, match e with
             | CallDoInspectItem _ sid _ | CallDoInspectFlowRule sid _ => Some sid
             | _ => None
             end) trace.

Section Vocabulary.
Context `{EngineHeader}.

(** The layout every store built by the append functions has: chunk [i]
    of the arena is the [i]-th chunk of the list, and every chunk has
    [DE_STATE_CHUNK_SIZE] slots. *)
Definition canon_heap {A} (heap : list (Chunk A)) : Prop :=
  ∀ i c, heap !! i = Some c →
    c_next c = (if decide (S i < length heap)%nat then Some (S i) else None)
    ∧ length (c_store c) = Z.to_nat DE_STATE_CHUNK_SIZE.

Record wf_store {A} (ds : DirStore A) : Prop := mk_wf_store {
  wf_heap : canon_heap (ds_heap ds);
  wf_head : ds_head ds = (if decide (length (ds_heap ds) = 0%nat) then None
                          else Some 0%nat);
  wf_tail : ds_tail ds = (if decide (length (ds_heap ds) = 0%nat) then None
                          else Some (length (ds_heap ds) - 1)%nat);
  wf_cnt_lo : 0 ≤ ds_cnt ds;
  wf_cnt_hi : ds_cnt ds ≤ DE_STATE_CHUNK_SIZE * Z.of_nat (length (ds_heap ds));
  wf_cnt_fit : ds_cnt ds < 2 ^ SigIntId_bits
}.

Definition uniform {A} (heap : list (Chunk A)) : Prop :=
  Forall (λ c, length (c_store c) = Z.to_nat DE_STATE_CHUNK_SIZE) heap.

(** All slots of the arena, in address order. *)
Definition flat {A} (heap : list (Chunk A)) : list A := concat (map c_store heap).

(** A sequence of appends.  The second component lists the records that
    were stored: an append is dropped exactly when the allocator was
    called and answered NULL, that is when the oracle lost a [false]. *)
Fixpoint StoreAppend_all {A} (zero : A) (ds : DirStore A) (recs : list A)
    (oracle : list bool) : option (DirStore A * list A) :=
  match recs with
  | [] => Some (ds, [])
  | r :: rest =>
      '(ds', oracle') ← StoreAppend zero ds r oracle;
      '(ds'', kept) ← StoreAppend_all zero ds' rest oracle';
      Some (ds'', if decide (oracle = false :: oracle') then kept else r :: kept)
  end.

(** The same for [DeStateSignatureAppend], all appends going to the
    direction selected by [direction]. *)
Fixpoint DeStateSignatureAppend_all (state : DetectEngineState)
    (recs : list (Signature * Z)) (direction : Z) (oracle : list bool)
  : option (DetectEngineState * list DeStateStoreItem) :=
  match recs with
  | [] => Some (state, [])
  | (s, fl) :: rest =>
      '(state', oracle') ← DeStateSignatureAppend state s fl direction oracle;
      '(state'', kept) ← DeStateSignatureAppend_all state' rest direction oracle';
      Some (state'',
            if decide (oracle = false :: oracle') then kept
            else mkItem (num s) fl :: kept)
  end.

(** "Stored signatures exist for the direction": the flow-level state has
    records in the slot, or the protocol has transactions, the app-layer
    state is valid and some live transaction from the inspect id on has
    records in the slot. *)
Definition stored_sigs_exist `{External} (f : Flow) (flags : Z) : Prop :=
  (∃ d, de_state f = Some d
        ∧ ds_cnt (fdir_store (arr2_get (dir_index flags) d)) ≠ 0)
  ∨ (AppLayerParserProtocolSupportsTxs (proto f) (f_alproto f) = true
     ∧ ∃ st, alstate f = Some st
       ∧ StateIsValid (f_alproto f) (Some st) = true
       ∧ ∃ k d, alparser_inspect_id f flags ≤ k < al_tx_cnt st
         ∧ is_Some (al_txs st !! k)
         ∧ tx_de_state f !! k = Some d
         ∧ ds_cnt (dir_store (arr2_get (dir_index flags) d)) ≠ 0).

(** The condition under which the pre-check answers 2. *)
Definition unchanged_state (f : Flow) (alversion flags : Z) : Prop :=
  has flags STREAM_EOF = false
  ∧ is_Some (de_state f)
  ∧ arr2_get (dir_index flags) (detect_alversion f) = alversion.



(** The store of transaction [tx] for slot [i]; a transaction without a
    detect state has the store a freshly allocated state would have. *)
Definition tx_dir_store (f : Flow) (tx : Z) (i : nat) : DirStore DeStateStoreItem :=
  match tx_de_state f !! tx with
  | Some d => dir_store (arr2_get i d)
  | None => DirStore_zero
  end.

(** The record loop of the continue driver, read off the records
    themselves: [body] is run on each record in turn, the record is
    replaced by what [body] leaves, and a negative return value stops the
    loop on the spot.  The boolean is the [goto end]. *)
Fixpoint items_loop {A T} (body : A → T → option (Z * A * T)) (items : list A) (st : T)
  : option (bool * list A * T) :=
  match items with
  | [] => Some (false, [], st)
  | x :: rest =>
      '(r, x', st') ← body x st;
      if r <? 0 then Some (true, x' :: rest, st')
      else
        '(stop, rest', st'') ← items_loop body rest st';
        Some (stop, x' :: rest', st'')
  end.

(** The value a per-record inspector returned, for the events that
    record such a call. *)
Definition call_ret (e : Event) : option Z :=
  match e with
  | CallDoInspectItem _ _ r | CallDoInspectFlowRule _ r => Some r
  | _ => None
  end.

(** In the trace of one driver call, an inspector call that returned a
    negative value is followed by no other inspector call. *)
Definition abort_is_last (trace : list Event) : Prop :=
  ∀ pre e post r,
    inspector_calls trace = pre ++ e :: post →
    call_ret e = Some r → r < 0 → post = [].

(** No inspector call of the list returned a negative value. *)
Definition calls_ok (calls : list Event) : Prop :=
  Forall (λ e, ∀ r, call_ret e = Some r → 0 ≤ r) calls.

(** The last inspector call returned a negative value, the ones before
    did not. *)
Definition calls_aborted (calls : list Event) : Prop :=
  ∃ pre e r, calls = pre ++ [e] ∧ call_ret e = Some r ∧ r < 0 ∧ calls_ok pre.

(** What holds of the trace while the driver runs, and after a
    [goto end]. *)
Definition running (trace0 trace : list Event) : Prop :=
  ∃ new, trace = trace0 ++ new ∧ calls_ok (inspector_calls new).

Definition stopped (trace0 trace : list Event) : Prop :=
  ∃ new, trace = trace0 ++ new ∧ calls_aborted (inspector_calls new).

(** The start driver run for each candidate signature of a packet in
    turn, the way the caller (the signature loop of the detection engine)
    invokes it. *)
Fixpoint start_all `{External} (sigs : list Signature) (flags : Z) (alproto : AppProto)
    (alversion : Z) (rs : RunState) : option RunState :=
  match sigs with
  | [] => Some rs
  | s :: rest =>
      '(_, rs1) ← DeStateDetectStartDetection s flags alproto alversion rs;
      start_all rest flags alproto alversion rs1
  end.

(** The direction state of transaction [tx] in slot [i], and the
    flow-level one; a missing state reads as a zeroed one. *)
Definition tx_dir (f : Flow) (tx : Z) (i : nat) : DetectEngineStateDirection :=
  match tx_de_state f !! tx with
  | Some d => arr2_get i d
  | None => DetectEngineStateDirection_zero
  end.

Definition flow_dir (f : Flow) (i : nat) : DetectEngineStateDirectionFlow :=
  match de_state f with
  | Some d => arr2_get i d
  | None => DetectEngineStateDirectionFlow_zero
  end.

(** Between [f] and [f'] nothing happened to the slot other than [i]:
    not in a transaction's state, not in the flow's state, not in
    [detect_alversion]. *)
Definition slot_frame (i : nat) (f f' : Flow) : Prop :=
  (∀ tx, tx_dir f' tx (1 - i) = tx_dir f tx (1 - i))
  ∧ flow_dir f' (1 - i) = flow_dir f (1 - i)
  ∧ arr2_get (1 - i) (detect_alversion f') = arr2_get (1 - i) (detect_alversion f).

(** What the detect-state code leaves alone in a flow, except for the
    flow-level state that [StoreState] allocates. *)
Definition flow_app (f : Flow)
  : Z * Z * AppProto * option AppState * (Z → Z) * option DetectEngineStateFlow :=
  (proto f, protomap f, f_alproto f, alstate f, alparser_inspect_id f, de_state f).

(** A stored record the continue driver has nothing left to do for, in a
    direction state that announces no new file. *)
Definition settled_item `{External} (it : DeStateStoreItem) : Prop :=
  has (item_flags it) DE_STATE_FLAG_FULL_INSPECT = true
  ∧ is_Some (sig_array !! item_sid it).

Definition settled_dir `{External} (k : Z) (d : DetectEngineStateDirection) : Prop :=
  wf_store (dir_store d)
  ∧ ds_cnt (dir_store d) ≤ k
  ∧ Forall settled_item
      (take (Z.to_nat (ds_cnt (dir_store d))) (flat (ds_heap (dir_store d))))
  ∧ has (dir_flags d) DETECT_ENGINE_STATE_FLAG_FILE_TS_NEW = false
  ∧ has (dir_flags d) DETECT_ENGINE_STATE_FLAG_FILE_TC_NEW = false.

(** The engines have decided [s] on transaction [tx] of [st]: the engine
    loop of the start driver runs to the end of the engine list, or stops
    at an engine that does not answer NO_MATCH. *)
Definition decided_on (engines : list DetectEngineAppInspectionEngine)
    (s : Signature) (st : AppState) (flags tx : Z) : Prop :=
  match (start_engine_loop engines s st flags tx 0 0 0).1.1.1 with
  | [] => True
  | e :: _ => Callback e s st flags tx ≠ DETECT_ENGINE_INSPECT_SIG_NO_MATCH
  end.

(** [f] is the flow [f0] with app-layer state [st], some transactional
    detect state, and no flow-level detect state. *)
Definition flow_on (f0 : Flow) (st : AppState) (f : Flow) : Prop :=
  flow_app f
  = (proto f0, protomap f0, f_alproto f0, Some st, alparser_inspect_id f0, None).


(** The records of a direction state: the first [cnt] slots. *)
Definition dir_items (d : DetectEngineStateDirection) : list DeStateStoreItem :=
  take (Z.to_nat (ds_cnt (dir_store d))) (flat (ds_heap (dir_store d))).

(** The parser has consumed more input: the app-layer state is replaced,
    the detect state stays. *)
Definition deliver (st : AppState) (rs : RunState) : RunState :=
  let f := rs_flow rs in
  mkRun (mkFlow (proto f) (protomap f) (f_alproto f) (Some st)
           (alparser_inspect_id f) (tx_de_state f) (de_state f) (detect_alversion f))
    (rs_det rs) (rs_trace rs) (rs_oracle rs).

(** The continue driver run on each later packet of the flow in turn:
    before each call the parser has brought the app-layer state to the
    packet's state and version. *)
Fixpoint continue_all `{External} (packets : list (AppState * Z)) (flags : Z)
    (alproto : AppProto) (rs : RunState) : option RunState :=
  match packets with
  | [] => Some rs
  | (st, alversion) :: rest =>
      rs1 ← DeStateDetectContinueDetection flags alproto alversion (deliver st rs);
      continue_all rest flags alproto rs1
  end.

(** Direction states the continue driver can walk: a well-formed store
    whose records name signatures of [sig_array]. *)
Definition inspectable_dir `{External} (d : DetectEngineStateDirection) : Prop :=
  wf_store (dir_store d)
  ∧ Forall (λ it, is_Some (sig_array !! item_sid it)) (dir_items d).

Definition inspectable_flow_dir `{External} (d : DetectEngineStateDirectionFlow) : Prop :=
  wf_store (fdir_store d)
  ∧ Forall (λ r, is_Some (sig_array !! rule_sid r))
      (take (Z.to_nat (ds_cnt (fdir_store d))) (flat (ds_heap (fdir_store d)))).

(** What one append does to the allocator and to the chunk list: with
    room left in the chunks that exist, nothing is allocated; with every
    chunk full (or none yet), the allocator is asked once, and either it
    refuses and nothing changes, or the list gets one chunk more. *)
Definition alloc_outcome {A} (ds ds' : DirStore A) (oracle oracle' : list bool) : Prop :=
  (ds_cnt ds < DE_STATE_CHUNK_SIZE * Z.of_nat (length (ds_heap ds)) →
   oracle' = oracle
   ∧ length (ds_heap ds') = length (ds_heap ds)
   ∧ ds_cnt ds' = ds_cnt ds + 1)
  ∧ (ds_cnt ds = DE_STATE_CHUNK_SIZE * Z.of_nat (length (ds_heap ds)) →
     oracle' = tail oracle
     ∧ ((oracle = false :: oracle' ∧ ds' = ds)
        ∨ (oracle ≠ false :: oracle'
           ∧ length (ds_heap ds') = S (length (ds_heap ds))
           ∧ ds_cnt ds' = ds_cnt ds + 1))).

(** The transactions [DetectEngineStateResetTxs] visits: the protocol has
    transactions, the app-layer state is valid, and [k] is a live
    transaction from the smaller of the two inspect ids on. *)
Definition reset_applies `{External} (f : Flow) (k : Z) : bool :=
  AppLayerParserProtocolSupportsTxs (proto f) (f_alproto f)
  && match alstate f with
     | Some st =>
         StateIsValid (f_alproto f) (Some st)
         && (Z.min (alparser_inspect_id f STREAM_TOCLIENT)
               (alparser_inspect_id f STREAM_TOSERVER) <=? k)
         && (k <? al_tx_cnt st)
         && bool_decide (is_Some (al_txs st !! k))
     | None => false
     end.

(** [d'] is [d] with the counters and flags of both slots zeroed and the
    chunks kept. *)
Definition emptied (d d' : DetectEngineState) : Prop :=
  ∀ i, (i < 2)%nat →
    ds_cnt (dir_store (arr2_get i d')) = 0
    ∧ filestore_cnt (arr2_get i d') = 0
    ∧ dir_flags (arr2_get i d') = 0
    ∧ ds_heap (dir_store (arr2_get i d')) = ds_heap (dir_store (arr2_get i d))
    ∧ ds_head (dir_store (arr2_get i d')) = ds_head (dir_store (arr2_get i d))
    ∧ ds_tail (dir_store (arr2_get i d')) = ds_tail (dir_store (arr2_get i d)).

(** The continue driver returns before its loops: the protocol has
    transactions and the app-layer state is NULL or invalid. *)
Definition early_return `{External} (f : Flow) (alproto : AppProto) : bool :=
  AppLayerParserProtocolSupportsTxs (proto f) alproto
  && negb (StateIsValid alproto (FlowGetAppState f)).

(** The flow-scoped records of a direction: the first [cnt] slots. *)
Definition flow_items (d : DetectEngineStateDirectionFlow) : list DeStateStoreFlowRule :=
  take (Z.to_nat (ds_cnt (fdir_store d))) (flat (ds_heap (fdir_store d))).

(** What a call of [DoInspectFlowRule] may do to a record: the sid
    stays, flag bits are only added, the keywords left to match are a
    tail of the ones left before, and a record that has FULL_INSPECT or
    CANT_MATCH is not touched. *)
Definition rule_progress (r r' : DeStateStoreFlowRule) : Prop :=
  rule_sid r' = rule_sid r
  ∧ Z.land (rule_flags r') (rule_flags r) = rule_flags r
  ∧ rule_nm r' `suffix_of` rule_nm r
  ∧ (has (rule_flags r) (Z.lor DE_STATE_FLAG_FULL_INSPECT DE_STATE_FLAG_SIG_CANT_MATCH)
     = true → r' = r).

(** What a continue call may do to the flag word of a stored
    transactional record: bits other than the two file bits,
    FULL_INSPECT and CANT_MATCH are never cleared, and no bit at all is
    cleared when the direction state announces no new file. *)
Definition bits_kept (dsf : Z) (item item' : DeStateStoreItem) : Prop :=
  item_sid item' = item_sid item
  ∧ (∀ k : nat,
       k ∉ [FILE_TC_INSPECT_bit; FILE_TS_INSPECT_bit; FULL_INSPECT_bit; SIG_CANT_MATCH_bit] →
       has (item_flags item) (bit k) = true → has (item_flags item') (bit k) = true)
  ∧ (has dsf DETECT_ENGINE_STATE_FLAG_FILE_TC_NEW = false →
     has dsf DETECT_ENGINE_STATE_FLAG_FILE_TS_NEW = false →
     ∀ k : nat, has (item_flags item) (bit k) = true → has (item_flags item') (bit k) = true).

(** The invariant of the start driver for signature [s]: what the call
    has added to the trace names only [s], and [alert_cnt] is 1 exactly
    when it names it. *)
Definition start_inv (s : Signature) (trace0 : list Event) (loc : StartLocals)
    (rs : RunState) : Prop :=
  ∃ new,
    rs_trace rs = trace0 ++ new
    ∧ inspector_calls new = []
    ∧ Forall (λ sid, sid = num s) (verdicts new)
    ∧ (has (sig_flags s) SIG_FLAG_NOALERT = true → alerts new = [])
    ∧ ((sl_alert_cnt loc = 0 ∧ verdicts new = [])
       ∨ (sl_alert_cnt loc = 1 ∧ verdicts new ≠ [])).

(** What a call of the start driver for [s] may do to the records of a
    transaction: nothing, or one record for [s] with FULL_INSPECT added
    at the end. *)
Definition grew_by (s : Signature) (items items' : list DeStateStoreItem) : Prop :=
  items' = items
  ∨ ∃ fl, items' = items ++ [mkItem (num s) fl]
          ∧ has fl DE_STATE_FLAG_FULL_INSPECT = true.

(** What the continue driver does to [det_ctx->de_state_sig_array] from
    [det0] and [trace0] on: an entry is as it was, or it is
    NO_NEW_STATE and belongs to a record an inspector was called on; and
    every flow-scoped record whose inspector did not fail, and returned 0
    or belongs to a signature with app-layer keywords, has its entry at
    NO_NEW_STATE. *)
Definition marks_inv `{External} (det0 : DetectEngineThreadCtx) (trace0 : list Event)
    (det : DetectEngineThreadCtx) (trace : list Event) : Prop :=
  ∃ new,
    trace = trace0 ++ new
    ∧ sgh_filestore_cnt det = sgh_filestore_cnt det0
    ∧ (∀ sid,
         de_state_sig_array det !! sid = de_state_sig_array det0 !! sid
         ∨ (de_state_sig_array det !! sid = Some DE_STATE_MATCH_NO_NEW_STATE
            ∧ sid ∈ call_sids new))
    ∧ (∀ sid r,
         CallDoInspectFlowRule sid r ∈ new → 0 ≤ r →
         (r = 0
          ∨ ∃ s, sig_array !! sid = Some s ∧ sm_lists s DETECT_SM_LIST_AMATCH ≠ []) →
         de_state_sig_array det !! sid = Some DE_STATE_MATCH_NO_NEW_STATE).

(** What the start driver does to the direction flags of the
    transactions in the packet's slot, from flow [f0] and [trace0] on:
    the flags of a transaction are as they were, or they have gained
    FILE_STORE_DISABLED and the file subsystem was told to stop storing
    for that transaction; and whenever the file subsystem was told so,
    the transaction has the flag. *)
Definition files_inv (flags : Z) (f0 : Flow) (trace0 : list Event)
    (f : Flow) (trace : list Event) : Prop :=
  ∃ new,
    trace = trace0 ++ new
    ∧ (∀ tx,
         dir_flags (tx_dir f tx (dir_index flags))
         = dir_flags (tx_dir f0 tx (dir_index flags))
         ∨ (dir_flags (tx_dir f tx (dir_index flags))
            = Z.lor (dir_flags (tx_dir f0 tx (dir_index flags)))
                DETECT_ENGINE_STATE_FLAG_FILE_STORE_DISABLED
            ∧ FileDisableStoringForTransaction
                (Z.land flags (Z.lor STREAM_TOCLIENT STREAM_TOSERVER)) tx ∈ new))
    ∧ (∀ m tx,
         FileDisableStoringForTransaction m tx ∈ new →
         m = Z.land flags (Z.lor STREAM_TOCLIENT STREAM_TOSERVER)
         ∧ has (dir_flags (tx_dir f tx (dir_index flags)))
             DETECT_ENGINE_STATE_FLAG_FILE_STORE_DISABLED = true).

(** The verdicts of flow-scoped records in a trace: [DoInspectFlowRule]
    alerts with [PACKET_ALERT_FLAG_STATE_MATCH] alone, or applies the
    actions of the signature.  A record is open while it has neither
    FULL_INSPECT nor SIG_CANT_MATCH. *)
Definition flow_verdicts (trace : list Event) : list Z :=
  omap (λ e, match e with
             | PacketAlertAppend sid _ fl =>
                 if fl =? PACKET_ALERT_FLAG_STATE_MATCH then Some sid else None
             | DetectSignatureApplyActions sid => Some sid
             | _ => None
             end) trace.

Definition rule_open (r : DeStateStoreFlowRule) : bool :=
  negb (has (rule_flags r)
          (Z.lor DE_STATE_FLAG_FULL_INSPECT DE_STATE_FLAG_SIG_CANT_MATCH)).

Definition open_rules (items : list DeStateStoreFlowRule) : nat :=
  length (filter (λ r, rule_open r = true) items).

Definition item_events_since (trace0 trace : list Event) : Prop :=
  ∃ new, trace = trace0 ++ new ∧ flow_verdicts new = [].

(** The flag word of a stored transactional record as the two re-open
    blocks of [DoInspectItem] leave it: the word the function returns 0
    with, or enters the engine loop with. *)
Definition reopened (fl dir_state_flags flags : Z) : Z :=
  let fl1 := if has fl DE_STATE_FLAG_FULL_INSPECT
             then reopen_full_inspect fl dir_state_flags flags else fl in
  if has fl1 DE_STATE_FLAG_FULL_INSPECT then fl1
  else if has fl1 DE_STATE_FLAG_SIG_CANT_MATCH then
    match reopen_cant_match fl1 dir_state_flags flags with
    | Some fl2 => fl2
    | None => fl1
    end
  else fl1.




(** [f'] is [f] up to the slot other than [i]: the two flows have the
    same app-layer side, a detect state on the same transactions, a
    flow-level detect state or none alike, and the same contents of slot
    [i] in each of them and in [detect_alversion]. *)
Definition same_slot (i : nat) (f f' : Flow) : Prop :=
  proto f' = proto f ∧ protomap f' = protomap f ∧ f_alproto f' = f_alproto f
  ∧ alstate f' = alstate f ∧ alparser_inspect_id f' = alparser_inspect_id f
  ∧ (∀ tx, arr2_get i <$> tx_de_state f' !! tx = arr2_get i <$> tx_de_state f !! tx)
  ∧ arr2_get i <$> de_state f' = arr2_get i <$> de_state f
  ∧ arr2_get i (detect_alversion f') = arr2_get i (detect_alversion f).

Definition same_slot_run (i : nat) (rs rs' : RunState) : Prop :=
  same_slot i (rs_flow rs) (rs_flow rs')
  ∧ rs_det rs' = rs_det rs ∧ rs_trace rs' = rs_trace rs ∧ rs_oracle rs' = rs_oracle rs.

(** Two calls end the same way: both fail, or both return, with related
    results. *)
Definition same_outcome {A} (R : A → A → Prop) (x y : option A) : Prop :=
  match x, y with
  | Some a, Some b => R a b
  | None, None => True
  | _, _ => False
  end.

(** The answer of the keyword [m] of [s] on the app-layer state [st], as
    the walks of both drivers over the AMATCH list compute it: the
    AppLayerMatch callback of the keyword's type, called on the DCE/RPC
    sub-state for an SMB flow that has one, and taken as 0 for an SMB
    flow that has none.  [None]: the keyword has no callback and the
    walks skip it. *)
Definition keyword_answer `{External} (alproto : AppProto) (st : AppState) (flags : Z)
    (s : Signature) (m : SigMatch) : option Z :=
  match sigmatch_table_AppLayerMatch (sm_type m) with
  | None => None
  | Some AppLayerMatch =>
      Some (if is_smb alproto then
              if smb_dcerpc_present st then AppLayerMatch st flags true s m else 0
            else AppLayerMatch st flags false s m)
  end.

(** The verdict of the DCE/RPC payload check of the start driver. *)
Definition dce_verdict `{External} (alproto : AppProto) (s : Signature) (st : AppState)
    (flags : Z) : bool :=
  if is_smb alproto then
    smb_dcerpc_present st && (DetectEngineInspectDcePayload s st flags true =? 1)
  else DetectEngineInspectDcePayload s st flags false =? 1.

(** [s] is flow-scoped on the flow [f0]: no inspection engine of the
    packet's direction has a list of [s] to inspect. *)
Definition flow_scoped `{External} (f0 : Flow) (alproto : AppProto) (flags : Z)
    (s : Signature) : Prop :=
  ∀ e, e ∈ app_inspection_engine (protomap f0) alproto (dir_index flags) →
       sm_lists s (sm_list e) = [].

(** The AMATCH list of [s] is decided on [st1]: the walk of the start
    driver runs to the end of the list or stops on CANT_MATCH, and the
    answers other than 0 are final (the same on [st2]). *)
Definition amatch_decided `{External} (alproto : AppProto) (flags : Z) (s : Signature)
    (st1 st2 : AppState) : Prop :=
  (let w := start_amatch_loop (sm_lists s DETECT_SM_LIST_AMATCH) s st1 flags alproto 0 0 in
   is_nil w.1.1 || has w.2 DE_STATE_FLAG_SIG_CANT_MATCH = true)
  ∧ ∀ m, m ∈ sm_lists s DETECT_SM_LIST_AMATCH →
      keyword_answer alproto st1 flags s m ≠ Some 0 →
      keyword_answer alproto st2 flags s m = keyword_answer alproto st1 flags s m.

(** The AMATCH list of [s] can be resumed over the states [sts]: on each
    of them every keyword answers 0 or 1, and an answer 1 is final (the
    keyword answers 1 on [st2]). *)
Definition amatch_resumable `{External} (alproto : AppProto) (flags : Z) (s : Signature)
    (sts : list AppState) (st2 : AppState) : Prop :=
  ∀ m st r, m ∈ sm_lists s DETECT_SM_LIST_AMATCH → st ∈ sts →
    keyword_answer alproto st flags s m = Some r →
    (r = 0 ∨ r = 1) ∧ (r = 1 → keyword_answer alproto st2 flags s m = Some 1).

(** Every keyword of [sm] that has a callback answers 1 on [st]. *)
Fixpoint all_match `{External} (alproto : AppProto) (st : AppState) (flags : Z)
    (s : Signature) (sm : list SigMatch) : bool :=
  match sm with
  | [] => true
  | m :: next =>
      match keyword_answer alproto st flags s m with
      | Some r => (r =? 1) && all_match alproto st flags s next
      | None => all_match alproto st flags s next
      end
  end.

(** The alert a stored flow-scoped record still has to give on the state
    [st]: the record is open and every keyword left answers 1. *)
Definition owed_alert `{External} (alproto : AppProto) (st : AppState) (flags : Z)
    (r : DeStateStoreFlowRule) : list (Z * Z) :=
  match sig_array !! rule_sid r with
  | Some s =>
      if rule_open r && all_match alproto st flags s (rule_nm r)
         && negb (has (sig_flags s) SIG_FLAG_NOALERT)
      then [(num s, 0)] else []
  | None => []
  end.

(** An open record that the continue driver can resume over the states
    [sts]: it is a record of a signature of [sig_array] whose keywords
    answer as [amatch_resumable] says, the keywords left are a tail of
    the signature's AMATCH list that starts at a keyword with a callback,
    and the keywords before them answer 1 on [st2]. *)
Definition rule_resumable `{External} (alproto : AppProto) (flags : Z)
    (sts : list AppState) (st2 : AppState) (r : DeStateStoreFlowRule) : Prop :=
  rule_open r = true →
  ∃ s pre m rest,
    sig_array !! rule_sid r = Some s
    ∧ sm_lists s DETECT_SM_LIST_AMATCH = pre ++ m :: rest
    ∧ rule_nm r = m :: rest
    ∧ is_Some (keyword_answer alproto st2 flags s m)
    ∧ all_match alproto st2 flags s pre = true
    ∧ amatch_resumable alproto flags s sts st2.

(** A run state on the flow [f0] with app-layer state [st]: no
    transactional detect state, a well-formed flow-level store of [k]
    records in slot [i], and an allocator that does not refuse. *)
Definition flow_only (f0 : Flow) (st : AppState) (i : nat) (k : Z) (rs : RunState)
  : Prop :=
  proto (rs_flow rs) = proto f0
  ∧ protomap (rs_flow rs) = protomap f0
  ∧ alstate (rs_flow rs) = Some st
  ∧ tx_de_state (rs_flow rs) = ∅
  ∧ wf_store (fdir_store (flow_dir (rs_flow rs) i))
  ∧ ds_cnt (fdir_store (flow_dir (rs_flow rs) i)) = k
  ∧ false ∉ rs_oracle rs.

End Vocabulary.

(** * Concrete inputs

    An instance of the header constants, used to run the model on
    concrete inputs.  [DE_STATE_CHUNK_SIZE] is the value the unit test
    DeStateTest02 relies on (the 16th record is slot 0 of the second
    chunk); the bit positions are representative, and the properties
    below are proved for every instance. *)

#[export] Instance suricata_header : EngineHeader := {|
  DE_STATE_CHUNK_SIZE := 15;
  FILE_TC_INSPECT_bit := 13;
  FILE_TS_INSPECT_bit := 14;
  FULL_INSPECT_bit := 15;
  SIG_CANT_MATCH_bit := 16;
  FILE_STORE_DISABLED_bit := 0;
  FILE_TC_NEW_bit := 1;
  FILE_TS_NEW_bit := 2;
  SigIntId_bits := 32;
  SIG_FLAG_NOALERT := 64;
  DETECT_SM_LIST_AMATCH := 15;
  DETECT_SM_LIST_DMATCH := 16;
  STREAM_EOF := 2;
  STREAM_TOSERVER := 4;
  STREAM_TOCLIENT := 8;
  PACKET_ALERT_FLAG_STATE_MATCH := 2;
  PACKET_ALERT_FLAG_TX := 8;
  chunk_size_pos := eq_refl;
  sigintid_bits_pos := eq_refl;
  chunk_size_fits := eq_refl;
  item_bits_distinct := ltac:(compute_done);
  dir_bits_distinct := ltac:(compute_done)
|}.

(** A signature that carries only an id. *)
Definition sig_of_num (n : Z) : Signature := mkSignature n 0 (λ _, []) 0.

(** The seventeen appends of the unit test DeStateTest02. *)
Definition test02_appends : list (Signature * Z) :=
  map (λ n, (sig_of_num n, 0))
    [0; 11; 22; 33; 44; 55; 66; 77; 88; 99; 100; 111; 122; 133; 144; 155; 166].

(** An HTTP-like environment.  Two inspection engines are registered for
    the to-server direction: one for the method list, which matches once
    the request line is in (progress 1), one for the cookie list, which
    matches once the headers are in (progress 2).  A transaction is
    complete at progress 3.  One flow-scoped keyword (type 1) matches once
    the state holds two transactions. *)

Definition tx_progress_of (st : AppState) (tx flags : Z) : Z :=
  match al_txs st !! tx with
  | Some t => tx_progress t flags
  | None => 0
  end.

Definition engine_method : DetectEngineAppInspectionEngine :=
  mkEngine 1 (bit 9)
    (λ _ st flags tx,
       if 1 <=? tx_progress_of st tx flags
       then DETECT_ENGINE_INSPECT_SIG_MATCH else DETECT_ENGINE_INSPECT_SIG_NO_MATCH).

Definition engine_cookie : DetectEngineAppInspectionEngine :=
  mkEngine 2 (bit 10)
    (λ _ st flags tx,
       if 2 <=? tx_progress_of st tx flags
       then DETECT_ENGINE_INSPECT_SIG_MATCH else DETECT_ENGINE_INSPECT_SIG_NO_MATCH).

(** sid 0: a method keyword.  sid 1: a method and a cookie keyword (the
    rule of scenarios S1 and S2).  sid 2: a flow-scoped keyword. *)
Definition sig_method : Signature :=
  mkSignature 0 0 (λ l, match l with 1%nat => [mkSigMatch 100] | _ => [] end) 0.

Definition sig_method_cookie : Signature :=
  mkSignature 1 0
    (λ l, match l with
          | 1%nat => [mkSigMatch 100]
          | 2%nat => [mkSigMatch 101]
          | _ => []
          end) 0.

Definition sig_flow : Signature :=
  mkSignature 2 0 (λ l, match l with 15%nat => [mkSigMatch 1] | _ => [] end) 0.

Definition example_sig_array : gmap Z Signature :=
  <[0 := sig_method]> (<[1 := sig_method_cookie]> (<[2 := sig_flow]> ∅)).

Definition is_http (a : AppProto) : bool :=
  match a with ALPROTO_HTTP => true | _ => false end.

#[export] Instance http_env : External := {|
  AppLayerParserProtocolSupportsTxs := λ _ a, is_http a;
  AppLayerParserSupportsTxDetectState := λ _ a, is_http a;
  AppLayerParserGetStateProgressCompletionStatus := λ _ _ _, 3;
  app_inspection_engine :=
    λ _ a dir, match dir with
               | O => if is_http a then [engine_method; engine_cookie] else []
               | _ => []
               end;
  sigmatch_table_AppLayerMatch :=
    λ ty, if ty =? 1
          then Some (λ st _ _ _ _, if 2 <=? al_tx_cnt st then 1 else 0)
          else None;
  DetectEngineInspectDcePayload := λ _ _ _ _, 0;
  sig_array := example_sig_array
|}.

(** The same environment with a parser that keeps no detect state per
    transaction. *)
Definition no_tx_state_env : External := {|
  AppLayerParserProtocolSupportsTxs := λ _ a, is_http a;
  AppLayerParserSupportsTxDetectState := λ _ _, false;
  AppLayerParserGetStateProgressCompletionStatus := λ _ _ _, 3;
  app_inspection_engine :=
    λ _ a dir, match dir with
               | O => if is_http a then [engine_method; engine_cookie] else []
               | _ => []
               end;
  sigmatch_table_AppLayerMatch := λ _, None;
  DetectEngineInspectDcePayload := λ _ _ _ _, 0;
  sig_array := example_sig_array
|}.

(** An environment with two flow-scoped keywords and no inspection
    engine: the keyword of type 2 answers 0 until the state holds two
    transactions and 2 (cannot match) from then on, the keyword of type 3
    always answers 1.  sid 3 has both, in that order. *)
Definition sig_two_keywords : Signature :=
  mkSignature 3 0
    (λ l, match l with 15%nat => [mkSigMatch 2; mkSigMatch 3] | _ => [] end) 0.

Definition cant_env : External := {|
  AppLayerParserProtocolSupportsTxs := λ _ a, is_http a;
  AppLayerParserSupportsTxDetectState := λ _ a, is_http a;
  AppLayerParserGetStateProgressCompletionStatus := λ _ _ _, 3;
  app_inspection_engine := λ _ _ _, [];
  sigmatch_table_AppLayerMatch :=
    λ ty, if ty =? 2
          then Some (λ st _ _ _ _, if 2 <=? al_tx_cnt st then 2 else 0)
          else if ty =? 3 then Some (λ _ _ _ _ _, 1)
          else None;
  DetectEngineInspectDcePayload := λ _ _ _ _, 0;
  sig_array := <[3 := sig_two_keywords]> ∅
|}.

(** App-layer states with one and with two transactions, given by their
    progress. *)
Definition st_one (p : Z) : AppState :=
  mkAppState true false 1 (<[0 := mkTx (λ _, p) false]> ∅).

Definition st_two (p0 p1 : Z) : AppState :=
  mkAppState true false 2
    (<[0 := mkTx (λ _, p0) false]> (<[1 := mkTx (λ _, p1) false]> ∅)).

(** A fresh HTTP flow over an app-layer state. *)
Definition flow_http (st : AppState) : Flow :=
  mkFlow 6 0 ALPROTO_HTTP (Some st) (λ _, 0) ∅ None (0, 0).

Definition run0 (f : Flow) (oracle : list bool) : RunState :=
  mkRun f (mkDetCtx 0 0 ∅ 0) [] oracle.

(** A flow of a protocol without transactions whose app-layer state is
    gone, with two flow-scoped records of sid 2 left to inspect in the
    to-server slot. *)
Definition two_flow_rules : option DetectEngineStateFlow :=
  '(d1, o1) ← DeStateFlowRuleAppend DetectEngineStateFlow_zero sig_flow [mkSigMatch 1] 0 4 [];
  '(d2, _) ← DeStateFlowRuleAppend d1 sig_flow [mkSigMatch 1] 0 4 o1;
  Some d2.

Definition flow_no_alstate : Flow :=
  mkFlow 6 0 (ALPROTO_OTHER 7) None (λ _, 0) ∅ two_flow_rules (0, 0).

(** An HTTP flow whose transaction 0 has, in the to-client slot, one
    record that is fully inspected and has consumed to-server files, and
    direction flags that announce a new to-client file. *)
Definition store_reopen : DirStore DeStateStoreItem :=
  mkDirStore
    [mkChunk (mkItem 1 (Z.lor DE_STATE_FLAG_FULL_INSPECT DE_STATE_FLAG_FILE_TS_INSPECT)
              :: replicate 14 DeStateStoreItem_zero) None]
    (Some 0%nat) (Some 0%nat) 1.

Definition flow_new_file : Flow :=
  mkFlow 6 0 ALPROTO_HTTP (Some (st_one 1)) (λ _, 0)
    (<[0 := (DetectEngineStateDirection_zero,
             mkDir store_reopen 0 DETECT_ENGINE_STATE_FLAG_FILE_TC_NEW)]> ∅)
    None (0, 0).


(** [flow_new_file] after the reset of its transactions. *)
Definition flow_reloaded : Flow := DetectEngineStateResetTxs flow_new_file.

(** An HTTP flow over two complete transactions with the two flow-scoped
    records of [two_flow_rules] in the to-server slot, and its state
    after a continue call for a to-server packet at version 7. *)
Definition flow_with_rules : Flow :=
  mkFlow 6 0 ALPROTO_HTTP (Some (st_two 3 3)) (λ _, 0) ∅ two_flow_rules (0, 0).

Definition after_flow_rules : RunState :=
  default (run0 flow_with_rules [])
    (DeStateDetectContinueDetection 4 ALPROTO_HTTP 7 (run0 flow_with_rules [])).

(** An HTTP flow whose transaction 0 has one to-server record for sid 1
    on which the method engine has matched; the headers have come in
    since, so that the cookie engine matches now.  And the state after a
    to-server continue call. *)
Definition state_half_matched : DetectEngineState :=
  default DetectEngineState_zero
    (fst <$> DeStateSignatureAppend DetectEngineState_zero sig_method_cookie (bit 9) 4 []).

Definition flow_half_matched : Flow :=
  mkFlow 6 0 ALPROTO_HTTP (Some (st_one 2)) (λ _, 0) (<[0 := state_half_matched]> ∅)
    None (0, 0).

Definition after_half_matched : RunState :=
  default (run0 flow_half_matched [])
    (DeStateDetectContinueDetection 4 ALPROTO_HTTP 1 (run0 flow_half_matched [])).

(** The start driver for the method rule on a fresh HTTP flow whose
    request line is in. *)
Definition after_start_method : Z * RunState :=
  default (0, run0 (flow_http (st_one 1)) [])
    (DeStateDetectStartDetection sig_method 4 ALPROTO_HTTP 1
       (run0 (flow_http (st_one 1)) [])).

(** * Properties *)

(** ** Flag arithmetic *)

Section Bits.

Lemma bit_testbit (j k : nat) : Z.testbit (bit j) (Z.of_nat k) = bool_decide (j = k).
Proof.
  unfold bit. rewrite Z.shiftl_1_l, Z.pow2_bits_eqb by lia.
  destruct (decide (j = k)) as [->|Hne].
  - by rewrite Z.eqb_refl, bool_decide_eq_true_2.
  - rewrite bool_decide_eq_false_2 by done. apply Z.eqb_neq. lia.
Qed.

Lemma land_bit (x : Z) (k : nat) :
  Z.land x (bit k) = if Z.testbit x (Z.of_nat k) then bit k else 0.
Proof.
  apply Z.bits_inj'. intros n Hn. rewrite Z.land_spec.
  destruct (decide (n = Z.of_nat k)) as [->|Hne].
  - rewrite bit_testbit, bool_decide_eq_true_2, andb_true_r by done.
    destruct (Z.testbit x (Z.of_nat k)); [|by rewrite Z.bits_0].
    by rewrite bit_testbit, bool_decide_eq_true_2.
  - assert (Z.testbit (bit k) n = false) as Hb.
    { unfold bit. rewrite Z.shiftl_1_l. apply Z.pow2_bits_false. lia. }
    rewrite Hb, andb_false_r. destruct (Z.testbit x (Z.of_nat k)); [done|].
    by rewrite Z.bits_0.
Qed.

Lemma bit_nonzero (k : nat) : bit k ≠ 0.
Proof.
  unfold bit. rewrite Z.shiftl_1_l.
  apply Z.pow_nonzero; lia.
Qed.

(** Testing a single-bit flag is reading that bit. *)
Lemma has_bit (x : Z) (k : nat) : has x (bit k) = Z.testbit x (Z.of_nat k).
Proof.
  unfold has. rewrite land_bit. destruct (Z.testbit x (Z.of_nat k)); [|done].
  apply negb_true_iff, Z.eqb_neq, bit_nonzero.
Qed.

Lemma has_lor (x y : Z) (k : nat) : has (Z.lor x y) (bit k) = has x (bit k) || has y (bit k).
Proof. by rewrite !has_bit, Z.lor_spec. Qed.

Lemma has_clear (x : Z) (j k : nat) :
  has (clear x (bit j)) (bit k) = has x (bit k) && negb (bool_decide (j = k)).
Proof.
  rewrite !has_bit. unfold clear.
  by rewrite Z.land_spec, Z.lnot_spec, bit_testbit by lia.
Qed.

Lemma has_bit_bit (j k : nat) : has (bit j) (bit k) = bool_decide (j = k).
Proof. by rewrite has_bit, bit_testbit. Qed.

Lemma has_zero (m : Z) : has 0 m = false.
Proof. unfold has. by rewrite Z.land_0_l. Qed.

(** Testing against a mask of two flags. *)
Lemma has_mask2 (x m1 m2 : Z) : has x (Z.lor m1 m2) = has x m1 || has x m2.
Proof.
  unfold has. rewrite Z.land_lor_distr_r.
  destruct (Z.land x m1 =? 0) eqn:H1; destruct (Z.land x m2 =? 0) eqn:H2; simpl;
    rewrite ?Z.eqb_eq, ?Z.eqb_neq in *.
  - apply negb_false_iff, Z.eqb_eq. rewrite H1, H2. done.
  - apply negb_true_iff, Z.eqb_neq. rewrite Z.lor_eq_0_iff. tauto.
  - apply negb_true_iff, Z.eqb_neq. rewrite Z.lor_eq_0_iff. tauto.
  - apply negb_true_iff, Z.eqb_neq. rewrite Z.lor_eq_0_iff. tauto.
Qed.

End Bits.

Section StoreProofs.
Context `{EngineHeader}.
Context {A : Type} (zero : A).

Local Abbreviation CS := (Z.to_nat DE_STATE_CHUNK_SIZE).

Lemma CS_pos : (0 < CS)%nat.
Proof. pose proof chunk_size_pos. lia. Qed.

Lemma SCMalloc_cases (oracle : list bool) :
  SCMalloc oracle = (true, tail oracle) ∧ oracle ≠ false :: tail oracle
  ∨ SCMalloc oracle = (false, tail oracle) ∧ oracle = false :: tail oracle.
Proof.
  destruct oracle as [|[] o]; simpl; [left|left|right]; split; done.
Qed.

Lemma oracle_not_consumed (o : list bool) (b : bool) : o ≠ b :: o.
Proof. intros Heq. apply (f_equal length) in Heq. simpl in Heq. lia. Qed.

Lemma canon_heap_nil : canon_heap (@nil (Chunk A)).
Proof. intros i c Hi. by rewrite lookup_nil in Hi. Qed.

Lemma wf_store_zero : wf_store (@DirStore_zero A).
Proof.
  pose proof sigintid_bits_pos.
  split; simpl; try done; lia.
Qed.

(** Walking [j] links from chunk [i] of a canonical arena. *)
Lemma store_jump_canon (heap : list (Chunk A)) (j i : nat) :
  canon_heap heap → (i < length heap)%nat → (i + j ≤ length heap)%nat →
  store_jump heap j (Some i)
  = Some (if decide (i + j < length heap)%nat then Some (i + j)%nat else None).
Proof.
  intros Hc. revert i. induction j as [|j IH]; intros i Hi Hij; simpl.
  - rewrite Nat.add_0_r. by rewrite decide_True.
  - destruct (lookup_lt_is_Some_2 heap i Hi) as [c Hc'].
    rewrite Hc'. simpl. destruct (Hc i c Hc') as [Hn _]. rewrite Hn.
    destruct (decide (S i < length heap)%nat) as [Hlt|Hge].
    + rewrite IH by lia. replace (S i + j)%nat with (i + S j)%nat by lia. done.
    + assert (j = 0)%nat as -> by lia. simpl.
      rewrite decide_False by lia. done.
Qed.

Lemma chain_canon (heap : list (Chunk A)) (fuel i : nat) :
  canon_heap heap → (i < length heap)%nat → (length heap - i ≤ fuel)%nat →
  chain fuel heap (Some i) = Some (seq i (length heap - i)).
Proof.
  intros Hc. revert i. induction fuel as [|fuel IH]; intros i Hi Hf; [lia|].
  simpl. destruct (lookup_lt_is_Some_2 heap i Hi) as [c Hc'].
  rewrite Hc'. simpl. destruct (Hc i c Hc') as [Hn _]. rewrite Hn.
  destruct (decide (S i < length heap)%nat) as [Hlt|Hge].
  - rewrite IH by lia. simpl.
    replace (length heap - i)%nat with (S (length heap - S i)) by lia. done.
  - replace (length heap - i)%nat with 1%nat by lia.
    destruct fuel; done.
Qed.

Lemma canon_uniform (heap : list (Chunk A)) : canon_heap heap → uniform heap.
Proof.
  intros Hc. apply Forall_lookup. intros i c Hi. by destruct (Hc i c Hi).
Qed.

Lemma flat_app (h1 h2 : list (Chunk A)) : flat (h1 ++ h2) = flat h1 ++ flat h2.
Proof. unfold flat. by rewrite fmap_app, concat_app. Qed.

Lemma flat_cons (c : Chunk A) (h : list (Chunk A)) : flat (c :: h) = c_store c ++ flat h.
Proof. done. Qed.

Lemma flat_length (heap : list (Chunk A)) :
  uniform heap → length (flat heap) = (length heap * CS)%nat.
Proof.
  induction 1 as [|c h Hc _ IH]; [done|].
  rewrite flat_cons, length_app, IH, Hc. simpl. lia.
Qed.

Lemma uniform_take (heap : list (Chunk A)) (n : nat) : uniform heap → uniform (take n heap).
Proof. apply Forall_take. Qed.

(** The slot [i] of chunk [a] is entry [a * CS + i] of the flat view. *)
Lemma flat_write (heap : list (Chunk A)) (a i : nat) (c : Chunk A) (x : A) (nx : option nat) :
  uniform heap → heap !! a = Some c → (i < CS)%nat →
  flat (<[a := mkChunk (<[i := x]> (c_store c)) nx]> heap)
  = <[(a * CS + i)%nat := x]> (flat heap).
Proof.
  intros Hu Ha Hi.
  assert (a < length heap)%nat as Hlt by (by eapply lookup_lt_Some).
  assert (length (c_store c) = CS) as Hlen
    by (eapply (proj1 (Forall_lookup _ _) Hu); eauto).
  rewrite insert_take_drop by done.
  rewrite <- (take_drop_middle heap a c Ha) at 3.
  rewrite !flat_app, !flat_cons. simpl.
  assert (length (flat (take a heap)) = (a * CS)%nat) as Hpre.
  { rewrite flat_length by (by apply uniform_take). rewrite length_take. f_equal. lia. }
  rewrite <- Hpre. rewrite insert_app_r. f_equal.
  rewrite insert_app_l by lia. done.
Qed.

Lemma flat_relink (heap : list (Chunk A)) (t : nat) (c : Chunk A) (nx : option nat) :
  heap !! t = Some c → flat (<[t := mkChunk (c_store c) nx]> heap) = flat heap.
Proof.
  intros Ht.
  assert (t < length heap)%nat as Hlt by (by eapply lookup_lt_Some).
  rewrite insert_take_drop by done.
  rewrite <- (take_drop_middle heap t c Ht) at 3.
  by rewrite !flat_app, !flat_cons.
Qed.

Lemma flat_lookup (heap : list (Chunk A)) (k : nat) :
  uniform heap →
  flat heap !! k = heap !! (k / CS)%nat ≫= λ c, c_store c !! (k mod CS)%nat.
Proof.
  pose proof CS_pos as Hpos.
  intros Hu. revert k. induction Hu as [|c h Hc _ IH]; intros k.
  - by rewrite lookup_nil.
  - rewrite flat_cons. destruct (decide (k < CS)%nat) as [Hlt|Hge].
    + rewrite lookup_app_l by lia.
      rewrite Nat.div_small, Nat.mod_small by done. done.
    + rewrite lookup_app_r by lia. rewrite Hc, IH.
      assert (k / CS = S ((k - CS) / CS))%nat as ->.
      { replace k with ((k - CS) + 1 * CS)%nat at 1 by lia.
        rewrite Nat.div_add by lia. lia. }
      assert (k mod CS = (k - CS) mod CS)%nat as ->.
      { replace k with ((k - CS) + 1 * CS)%nat at 1 by lia.
        by rewrite Nat.Div0.mod_add. }
      done.
Qed.

(** What the continue driver reads is the first [cnt] flat slots. *)
Lemma chunk_slots_canon (heap : list (Chunk A)) :
  canon_heap heap → map (chunk_slots heap) (seq 0 (length heap)) = map c_store heap.
Proof.
  intros Hc. apply list_eq. intros i.
  rewrite !list_lookup_fmap.
  destruct (heap !! i) as [c|] eqn:Hi; simpl.
  - rewrite lookup_seq_lt by (by eapply lookup_lt_Some). simpl.
    unfold chunk_slots. rewrite Hi. destruct (Hc i c Hi) as [_ Hl].
    by rewrite take_ge by lia.
  - rewrite lookup_seq_ge by (by apply lookup_ge_None). done.
Qed.

Lemma DirStoreItems_wf (ds : DirStore A) :
  wf_store ds →
  DirStoreItems ds = Some (take (Z.to_nat (ds_cnt ds)) (flat (ds_heap ds))).
Proof.
  destruct ds as [heap hd tl cnt]. intros [Hc Hh _ _ _ _]. simpl in *.
  unfold DirStoreItems. simpl. subst hd.
  destruct heap as [|c0 h].
  - simpl. unfold flat. simpl. by rewrite !take_nil.
  - rewrite decide_False by done.
    rewrite chain_canon; [|done|simpl; lia|lia].
    cbn [mbind option_bind]. rewrite Nat.sub_0_r, chunk_slots_canon by done. done.
Qed.

Lemma canon_write (heap : list (Chunk A)) (a i : nat) (c : Chunk A) (x : A) :
  canon_heap heap → heap !! a = Some c →
  canon_heap (<[a := mkChunk (<[i := x]> (c_store c)) (c_next c)]> heap).
Proof.
  intros Hc Ha j d Hj. rewrite length_insert.
  destruct (decide (a = j)) as [->|Hne].
  - rewrite list_lookup_insert_eq in Hj by (by eapply lookup_lt_Some).
    injection Hj as <-. simpl. rewrite length_insert. by apply Hc.
  - rewrite list_lookup_insert_ne in Hj by done. by apply Hc.
Qed.

(** Allocating a chunk and hooking it behind the last one. *)
Lemma canon_grow (heap : list (Chunk A)) (c : Chunk A) :
  canon_heap heap → heap !! (length heap - 1)%nat = Some c →
  canon_heap (<[(length heap - 1)%nat := mkChunk (c_store c) (Some (length heap))]>
                (heap ++ [mkChunk (replicate CS zero) None])).
Proof.
  intros Hc Hl j d Hj.
  assert (length heap - 1 < length heap)%nat as Hlt by (by eapply lookup_lt_Some).
  rewrite length_insert, length_app. simpl.
  destruct (decide (length heap - 1 = j)%nat) as [<-|Hne].
  - rewrite list_lookup_insert_eq in Hj by (rewrite length_app; simpl; lia).
    injection Hj as <-. simpl. rewrite decide_True by lia.
    split; [f_equal; lia|]. by apply (Hc _ _ Hl).
  - rewrite list_lookup_insert_ne in Hj by done.
    destruct (decide (j < length heap)%nat) as [Hjl|Hjl].
    + rewrite lookup_app_l in Hj by done. destruct (Hc j d Hj) as [Hn Hs].
      split; [|done]. rewrite Hn.
      destruct (decide (S j < length heap)%nat); [|lia].
      by rewrite decide_True by lia.
    + rewrite lookup_app_r in Hj by lia.
      destruct (j - length heap)%nat eqn:Hd; [|by destruct n].
      injection Hj as <-. simpl. rewrite decide_False by lia.
      by rewrite length_replicate.
Qed.

Lemma take_insert_next (l pad : list A) (n : nat) (x : A) :
  (n ≤ length l)%nat → (n < length (l ++ pad))%nat →
  take (S n) (<[n := x]> (l ++ pad)) = take n l ++ [x].
Proof.
  intros Hn Hlt.
  rewrite (take_S_r _ _ x) by (by apply list_lookup_insert_eq).
  rewrite take_insert_ge by done. by rewrite take_app_le.
Qed.

Lemma room_in_chunk (n L : nat) : (n / CS < L)%nat → (n < L * CS)%nat.
Proof.
  pose proof CS_pos as Hpos. intros Hlt.
  pose proof (Nat.div_mod_eq n CS) as Hdm.
  pose proof (Nat.mod_upper_bound n CS ltac:(lia)) as Hm.
  assert ((n / CS + 1) * CS ≤ L * CS)%nat by (apply Nat.mul_le_mono_r; lia).
  lia.
Qed.

(** Where the record lands: chunk [cnt / CS], slot [cnt % CS]. *)
Lemma cnt_position (cnt : Z) (L : nat) :
  0 ≤ cnt → cnt ≤ DE_STATE_CHUNK_SIZE * Z.of_nat L →
  let n := Z.to_nat cnt in
  Z.to_nat (cnt / DE_STATE_CHUNK_SIZE) = (n / CS)%nat
  ∧ Z.to_nat (cnt mod DE_STATE_CHUNK_SIZE) = (n mod CS)%nat
  ∧ (n mod CS < CS)%nat
  ∧ ((n / CS) * CS + n mod CS = n)%nat
  ∧ ((n / CS < L)%nat ∨ (n / CS = L ∧ n mod CS = 0 ∧ n = L * CS)%nat).
Proof.
  pose proof chunk_size_pos as Hpos. pose proof CS_pos as Hpos'.
  intros Hlo Hhi n.
  assert (n ≤ L * CS)%nat as Hn by (unfold n; nia).
  pose proof (Nat.div_mod_eq n CS) as Hdm.
  pose proof (Nat.mod_upper_bound n CS ltac:(lia)) as Hm.
  split; [apply Z2Nat.inj_div; lia|].
  split; [apply Z2Nat.inj_mod; lia|].
  split; [done|]. split; [lia|].
  destruct (decide (n / CS < L)%nat); [by left|right]. nia.
Qed.

(** One append on a well-formed store: either the allocator was asked and
    refused, and nothing changed; or the record sits at flat position
    [cnt], nothing else moved, and [cnt] went up by one. *)
Lemma StoreAppend_step (ds : DirStore A) (rec : A) (oracle : list bool) :
  wf_store ds → ds_cnt ds + 1 < 2 ^ SigIntId_bits →
  ∃ ds' oracle',
    StoreAppend zero ds rec oracle = Some (ds', oracle') ∧
    ((oracle = false :: oracle' ∧ ds' = ds) ∨
     (oracle ≠ false :: oracle' ∧ wf_store ds' ∧ ds_cnt ds' = ds_cnt ds + 1 ∧
      ∃ pad, flat (ds_heap ds')
             = <[Z.to_nat (ds_cnt ds) := rec]> (flat (ds_heap ds) ++ pad)
             ∧ (Z.to_nat (ds_cnt ds) < length (flat (ds_heap ds) ++ pad))%nat)).
Proof.
  pose proof chunk_size_pos as Hpos. pose proof CS_pos as Hpos'.
  destruct ds as [heap hd tl cnt]. intros [Hc Hh Ht Hlo Hhi Hfit] Hroom.
  simpl in *. subst hd tl.
  assert (SigIntId_wrap (cnt + 1) = cnt + 1) as Hwrap.
  { unfold SigIntId_wrap. apply Z.mod_small. lia. }
  destruct (cnt_position cnt (length heap) Hlo Hhi) as (Hj & Hi & Hilt & Hsum & Hcase).
  unfold StoreAppend. simpl.
  destruct (decide (length heap = 0%nat)) as [Hempty|Hne0].
  - (* no chunk yet *)
    apply nil_length_inv in Hempty as ->.
    assert (cnt = 0) as -> by (simpl in Hhi; lia).
    unfold StoreAlloc.
    destruct (SCMalloc_cases oracle) as [[-> Hne]|[-> Heq]]; simpl.
    + rewrite Z.mod_0_l by lia. simpl.
      unfold chunk_write. simpl.
      rewrite decide_True by (rewrite length_replicate; lia).
      eexists _, _. split; [done|]. right. split; [done|].
      split.
      { split; simpl; try done; try lia.
        intros i c Hi'. destruct i; [|done]. injection Hi' as <-. simpl.
        by rewrite length_insert, length_replicate. }
      split; [done|]. exists (replicate CS zero). simpl.
      rewrite length_replicate. split; [|lia].
      unfold flat. simpl. by rewrite app_nil_r.
    + eexists _, _. split; [done|]. by left.
  - rewrite Hj.
    rewrite (store_jump_canon heap _ 0); [|done|lia|destruct Hcase; lia].
    simpl. destruct Hcase as [Hlt|(HeqL & Hi0 & Hn)].
    + (* the chunk is there *)
      rewrite decide_True by done. simpl.
      destruct (lookup_lt_is_Some_2 heap _ Hlt) as [c Hc'].
      unfold chunk_write. rewrite Hc'. simpl.
      destruct (Hc _ _ Hc') as [_ Hlen].
      rewrite Hi. rewrite decide_True by lia.
      eexists _, _. split; [done|]. right.
      split; [apply oracle_not_consumed|].
      split.
      { pose proof (room_in_chunk _ _ Hlt).
        split; simpl; rewrite ?length_insert;
          [by apply canon_write|by rewrite decide_False..|lia|lia|lia]. }
      split; [done|]. exists []. rewrite app_nil_r. simpl.
      rewrite (flat_write heap _ _ c) by (try done; by apply canon_uniform).
      rewrite Hsum. split; [done|].
      rewrite flat_length by (by apply canon_uniform). nia.
    + (* the walk ran off the end: allocate and link *)
      rewrite decide_False by lia. simpl.
      unfold StoreAlloc.
      destruct (SCMalloc_cases oracle) as [[-> Hne]|[-> Heq]]; simpl.
      2: { eexists _, _. split; [done|]. by left. }
      assert (length heap - 1 < length heap)%nat as Hlast by lia.
      destruct (lookup_lt_is_Some_2 heap _ Hlast) as [c Hc'].
      unfold tail_link. simpl.
      rewrite (lookup_app_l heap) by done. rewrite Hc'. simpl.
      unfold chunk_write.
      rewrite list_lookup_insert_ne by lia.
      rewrite lookup_app_r by lia.
      replace (length heap - length heap)%nat with 0%nat by lia. simpl.
      rewrite Hi, Hi0, length_replicate.
      rewrite decide_True by lia.
      eexists _, _. split; [done|]. right. split; [done|].
      pose proof (canon_grow heap c Hc Hc') as Hgrow.
      assert ((<[(length heap - 1)%nat := mkChunk (c_store c) (Some (length heap))]>
                 (heap ++ [mkChunk (replicate CS zero) None])) !! length heap
              = Some (mkChunk (replicate CS zero) None)) as Hnew.
      { rewrite list_lookup_insert_ne by lia.
        rewrite lookup_app_r by lia.
        by replace (length heap - length heap)%nat with 0%nat by lia. }
      split.
      { split; simpl; rewrite ?length_insert, ?length_app; simpl;
          [apply (canon_write _ _ _ _ _ Hgrow Hnew)
          |rewrite decide_False by lia; done
          |rewrite decide_False by lia; f_equal; lia
          |lia|lia|lia]. }
      split; [done|]. exists (replicate CS zero).
      pose proof (flat_write _ (length heap) 0 _ rec None
                    (canon_uniform _ Hgrow) Hnew ltac:(lia)) as Hfw.
      simpl in Hfw. simpl. rewrite Hfw. clear Hfw.
      rewrite flat_relink by (by rewrite lookup_app_l).
      rewrite flat_app. unfold flat at 2. simpl. rewrite app_nil_r.
      rewrite Nat.add_0_r, Hn.
      split; [done|].
      rewrite length_app, length_replicate, flat_length by (by apply canon_uniform).
      lia.
Qed.

(** A run of appends from a well-formed store: the flat view grows by
    exactly the records that were stored. *)
Lemma StoreAppend_all_wf (recs : list A) :
  ∀ (ds : DirStore A) (oracle : list bool),
    wf_store ds → ds_cnt ds + Z.of_nat (length recs) < 2 ^ SigIntId_bits →
    ∃ ds' kept,
      StoreAppend_all zero ds recs oracle = Some (ds', kept)
      ∧ wf_store ds'
      ∧ ds_cnt ds' = ds_cnt ds + Z.of_nat (length kept)
      ∧ take (Z.to_nat (ds_cnt ds')) (flat (ds_heap ds'))
        = take (Z.to_nat (ds_cnt ds)) (flat (ds_heap ds)) ++ kept.
Proof.
  induction recs as [|r rest IH]; intros ds oracle Hwf Hroom.
  - exists ds, []. simpl. rewrite Z.add_0_r, app_nil_r. done.
  - simpl in Hroom.
    destruct (StoreAppend_step ds r oracle Hwf ltac:(lia))
      as (ds1 & oracle1 & Hstep & Hcase).
    simpl. rewrite Hstep. simpl.
    destruct Hcase as [[Hdrop ->]|(Hkeep & Hwf1 & Hcnt1 & pad & Hflat & Hin)].
    + destruct (IH ds oracle1 Hwf ltac:(lia)) as (ds' & kept & Hrun & Hwf' & Hcnt & Htake).
      rewrite Hrun. simpl. rewrite decide_True by done.
      by exists ds', kept.
    + destruct (IH ds1 oracle1 Hwf1 ltac:(lia)) as (ds' & kept & Hrun & Hwf' & Hcnt & Htake).
      rewrite Hrun. simpl. rewrite decide_False by done.
      exists ds', (r :: kept). split; [done|]. split; [done|].
      split; [simpl; lia|].
      rewrite Htake, Hcnt1, Hflat.
      destruct Hwf as [Hc _ _ Hlo Hhi _].
      replace (Z.to_nat (ds_cnt ds + 1)) with (S (Z.to_nat (ds_cnt ds))) by lia.
      rewrite take_insert_next; [by rewrite <- app_assoc| |done].
      rewrite flat_length by (by apply canon_uniform). nia.
Qed.

End StoreProofs.

Section AppendProofs.
Context `{EngineHeader}.

Local Abbreviation CS := (Z.to_nat DE_STATE_CHUNK_SIZE).

Lemma arr2_get_set {A} (i : nat) (x : A) (a : arr2 A) :
  arr2_get i (arr2_set i x a) = x.
Proof. by destruct i, a. Qed.

Lemma arr2_set_get {A} (i : nat) (a : arr2 A) : arr2_set i (arr2_get i a) a = a.
Proof. by destruct i, a. Qed.

Lemma arr2_set_set {A} (i : nat) (x y : A) (a : arr2 A) :
  arr2_set i x (arr2_set i y a) = arr2_set i x a.
Proof. by destruct i, a. Qed.

Lemma arr2_get_set_other {A} (x : A) (a : arr2 A) :
  arr2_get 1 (arr2_set 0 x a) = arr2_get 1 a
  ∧ arr2_get 0 (arr2_set 1 x a) = arr2_get 0 a.
Proof. by destruct a. Qed.

Lemma DeStateSignatureAppend_all_store (recs : list (Signature * Z)) :
  ∀ (state : DetectEngineState) (direction : Z) (oracle : list bool),
    DeStateSignatureAppend_all state recs direction oracle
    = '(ds, kept) ←
        StoreAppend_all DeStateStoreItem_zero
          (dir_store (arr2_get (dir_index direction) state))
          (map (λ r, mkItem (num (fst r)) (snd r)) recs) oracle;
      Some (arr2_set (dir_index direction)
              (mkDir ds (filestore_cnt (arr2_get (dir_index direction) state))
                 (dir_flags (arr2_get (dir_index direction) state))) state,
            kept).
Proof.
  induction recs as [|[s fl] rest IH]; intros state direction oracle.
  - simpl. destruct (arr2_get (dir_index direction) state) eqn:Hd. simpl.
    by rewrite <- Hd, arr2_set_get.
  - simpl. unfold DeStateSignatureAppend at 1.
    destruct (StoreAppend _ _ _ oracle) as [[ds1 oracle1]|]; [|done]. simpl.
    rewrite IH. rewrite arr2_get_set. simpl.
    destruct (StoreAppend_all _ ds1 _ oracle1) as [[ds2 kept]|]; [|done]. simpl.
    by rewrite arr2_set_set.
Qed.

(** An append that asked the allocator and was refused leaves the store
    as it was. *)
Lemma StoreAppend_alloc_fail {A} (zero : A) (ds ds' : DirStore A) (rec : A)
    (oracle : list bool) :
  StoreAppend zero ds rec (false :: oracle) = Some (ds', oracle) → ds' = ds.
Proof.
  unfold StoreAppend. intros Hrun.
  destruct (ds_head ds) as [h|].
  - simpl in Hrun.
    destruct (store_jump (ds_heap ds) _ (Some h)) as [[a|]|]; simpl in Hrun; [| |done].
    + destruct (chunk_write _ _ _ _); simpl in Hrun; [|done].
      injection Hrun as _ Ho. by destruct (oracle_not_consumed oracle false).
    + by injection Hrun as <-.
  - simpl in Hrun. by injection Hrun as <-.
Qed.

Lemma mkDir_eta (d : DetectEngineStateDirection) :
  mkDir (dir_store d) (filestore_cnt d) (dir_flags d) = d.
Proof. by destruct d. Qed.

Lemma mkDirFlow_eta (d : DetectEngineStateDirectionFlow) :
  mkDirFlow (fdir_store d) (fdir_flags d) = d.
Proof. by destruct d. Qed.

(** C8: when the chunk allocation of an append fails, the append is
    dropped silently.  For [DeStateSignatureAppend] and for
    [DeStateFlowRuleAppend]: if the allocator was called during the append
    and answered NULL (the oracle lost its leading [false]), the call
    still completes and the whole detect state, [cnt], slots and chunk
    list included, is what it was before. *)
Theorem C8_alloc_failure_drops_append :
  (∀ (state state' : DetectEngineState) (s : Signature) (fl direction : Z)
     (oracle : list bool),
     DeStateSignatureAppend state s fl direction (false :: oracle) = Some (state', oracle) →
     state' = state)
  ∧ (∀ (state state' : DetectEngineStateFlow) (s : Signature) (sm : list SigMatch)
       (fl direction : Z) (oracle : list bool),
       DeStateFlowRuleAppend state s sm fl direction (false :: oracle) = Some (state', oracle) →
       state' = state).
Proof.
  split.
  - intros state state' s fl direction oracle. unfold DeStateSignatureAppend.
    destruct (StoreAppend _ _ _ _) as [[st o]|] eqn:Happ; [|done]. simpl.
    intros [= <- ->]. apply StoreAppend_alloc_fail in Happ as ->.
    by rewrite mkDir_eta, arr2_set_get.
  - intros state state' s sm fl direction oracle. unfold DeStateFlowRuleAppend.
    destruct (StoreAppend _ _ _ _) as [[st o]|] eqn:Happ; [|done]. simpl.
    intros [= <- ->]. apply StoreAppend_alloc_fail in Happ as ->.
    by rewrite mkDirFlow_eta, arr2_set_get.
Qed.

(** C6: a sequence of [DeStateSignatureAppend] calls on a zeroed detect
    state, for one direction.  As long as the number of appends stays in
    the range of [SigIntId], walking the chunk list from [head] and
    reading the first [cnt] slots yields exactly the records that were
    stored, in order; [cnt] is their number; and record [k] sits in
    chunk [k / DE_STATE_CHUNK_SIZE], slot [k % DE_STATE_CHUNK_SIZE],
    whatever was appended after it. *)
Theorem C6_append_then_iter (recs : list (Signature * Z)) (direction : Z)
    (oracle : list bool) :
  Z.of_nat (length recs) < 2 ^ SigIntId_bits →
  ∃ (state : DetectEngineState) (kept : list DeStateStoreItem),
    DeStateSignatureAppend_all DetectEngineState_zero recs direction oracle
    = Some (state, kept)
    ∧ DirStoreItems (dir_store (arr2_get (dir_index direction) state)) = Some kept
    ∧ ds_cnt (dir_store (arr2_get (dir_index direction) state)) = Z.of_nat (length kept)
    ∧ ∀ (k : nat) (x : DeStateStoreItem), kept !! k = Some x →
        ∃ c, ds_heap (dir_store (arr2_get (dir_index direction) state)) !! (k / CS)%nat
             = Some c
             ∧ c_store c !! (k mod CS)%nat = Some x.
Proof.
  intros Hlen. rewrite DeStateSignatureAppend_all_store.
  set (i := dir_index direction).
  assert (dir_store (arr2_get i DetectEngineState_zero) = DirStore_zero) as ->
    by (by destruct i as [|[|?]]).
  destruct (StoreAppend_all_wf DeStateStoreItem_zero
              (map (λ r, mkItem (num (fst r)) (snd r)) recs)
              DirStore_zero oracle wf_store_zero)
    as (ds & kept & Hrun & Hwf & Hcnt & Htake).
  { simpl. rewrite length_map. lia. }
  rewrite Hrun. simpl in *. eexists _, kept. split; [done|].
  rewrite arr2_get_set. simpl.
  rewrite DirStoreItems_wf by done.
  split; [by rewrite Htake|]. split; [lia|].
  intros k x Hk.
  assert (flat (ds_heap ds) !! k = Some x) as Hflat.
  { rewrite <- Htake in Hk. by apply lookup_take_Some in Hk as [? _]. }
  rewrite flat_lookup in Hflat by (apply canon_uniform, Hwf).
  destruct (ds_heap ds !! (k / CS)%nat) as [c|]; [|done]. by exists c.
Qed.


(** One append, seen through what the continue driver would read. *)
Lemma StoreAppend_items {A} (zero : A) (ds : DirStore A) (rec : A) (oracle : list bool) :
  wf_store ds → ds_cnt ds + 1 < 2 ^ SigIntId_bits →
  ∃ ds' oracle' items,
    StoreAppend zero ds rec oracle = Some (ds', oracle')
    ∧ wf_store ds'
    ∧ DirStoreItems ds = Some items
    ∧ ((false ∈ oracle ∧ ds' = ds)
       ∨ (DirStoreItems ds' = Some (items ++ [rec]) ∧ ds_cnt ds' = ds_cnt ds + 1))
    ∧ (false ∉ oracle → false ∉ oracle').
Proof.
  intros Hwf Hroom.
  destruct (StoreAppend_step zero ds rec oracle Hwf Hroom) as (ds' & o' & Hrun & Hcase).
  exists ds', o', (take (Z.to_nat (ds_cnt ds)) (flat (ds_heap ds))).
  split; [done|].
  assert (false ∉ oracle → false ∉ o') as Ho.
  { destruct Hcase as [[-> _]|(_ & _)].
    - intros Hn Hin. apply Hn. by right.
    - unfold StoreAppend in Hrun. intros Hn.
      assert (o' = oracle ∨ o' = tail oracle) as [->| ->]; [|done|].
      + destruct (ds_head ds); simpl in Hrun.
        * destruct (store_jump _ _ _) as [[a|]|]; simpl in Hrun; [| |done].
          -- destruct (chunk_write _ _ _ _); simpl in Hrun; [|done].
             injection Hrun as _ <-. by left.
          -- unfold StoreAlloc in Hrun.
             destruct (SCMalloc_cases oracle) as [[Hm _]|[Hm _]]; rewrite Hm in Hrun;
               simpl in Hrun.
             ++ destruct (tail_link _ _ _); simpl in Hrun; [|done].
                destruct (chunk_write _ _ _ _); simpl in Hrun; [|done].
                injection Hrun as _ <-. by right.
             ++ injection Hrun as _ <-. by right.
        * unfold StoreAlloc in Hrun.
          destruct (SCMalloc_cases oracle) as [[Hm _]|[Hm _]]; rewrite Hm in Hrun;
            simpl in Hrun.
          -- destruct (chunk_write _ _ _ _); simpl in Hrun; [|done].
             injection Hrun as _ <-. by right.
          -- injection Hrun as _ <-. by right.
      + destruct oracle as [|b o]; [done|]. simpl. intros Hin. apply Hn. by right. }
  destruct Hcase as [[-> ->]|(Hkeep & Hwf' & Hcnt & pad & Hflat & Hin)].
  - split; [done|]. split; [by apply DirStoreItems_wf|]. split; [|done].
    left. split; [by left|done].
  - split; [done|]. split; [by apply DirStoreItems_wf|]. split; [|done].
    right. split; [|done]. rewrite DirStoreItems_wf by done. f_equal.
    rewrite Hcnt, Hflat.
    destruct Hwf as [Hc _ _ Hlo Hhi _].
    replace (Z.to_nat (ds_cnt ds + 1)) with (S (Z.to_nat (ds_cnt ds))) by lia.
    apply take_insert_next; [|done].
    rewrite flat_length by (by apply canon_uniform). nia.
Qed.

End AppendProofs.

Section PreCheckProofs.
Context `{EngineHeader} `{External}.

Lemma HasStoredSigs_tx_loop_spec (n : nat) (f : Flow) (st : AppState) (flags : Z) :
  ∀ tx,
    (HasStoredSigs_tx_loop n f st flags tx = 0
     ∨ HasStoredSigs_tx_loop n f st flags tx = 1)
    ∧ (HasStoredSigs_tx_loop n f st flags tx = 1 ↔
       ∃ k d, tx ≤ k < tx + Z.of_nat n
         ∧ is_Some (al_txs st !! k)
         ∧ tx_de_state f !! k = Some d
         ∧ ds_cnt (dir_store (arr2_get (dir_index flags) d)) ≠ 0).
Proof.
  induction n as [|n IH]; intros tx.
  - simpl. split; [by left|]. split; [done|]. intros (k & d & Hk & _). lia.
  - destruct (IH (tx + 1)) as [IH01 IH1].
    assert ((∃ k d, tx + 1 ≤ k < tx + 1 + Z.of_nat n
               ∧ is_Some (al_txs st !! k) ∧ tx_de_state f !! k = Some d
               ∧ ds_cnt (dir_store (arr2_get (dir_index flags) d)) ≠ 0)
            → ∃ k d, tx ≤ k < tx + Z.of_nat (S n)
               ∧ is_Some (al_txs st !! k) ∧ tx_de_state f !! k = Some d
               ∧ ds_cnt (dir_store (arr2_get (dir_index flags) d)) ≠ 0) as Hlater.
    { intros (k & d & Hk & Hrest). exists k, d. split; [lia|done]. }
    assert (∀ k d, tx ≤ k < tx + Z.of_nat (S n) → k ≠ tx →
              is_Some (al_txs st !! k) → tx_de_state f !! k = Some d →
              ds_cnt (dir_store (arr2_get (dir_index flags) d)) ≠ 0 →
              HasStoredSigs_tx_loop n f st flags (tx + 1) = 1) as Hrest.
    { intros k d Hk Hne Hlive Hd Hcnt. apply IH1. exists k, d. split; [lia|done]. }
    simpl. unfold AppLayerParserGetTx, AppLayerParserGetTxDetectState.
    destruct (al_txs st !! tx) as [t|] eqn:Ht.
    + destruct (tx_de_state f !! tx) as [d|] eqn:Hd.
      * unfold dir_cnt_nonzero.
        destruct (ds_cnt (dir_store (arr2_get (dir_index flags) d)) =? 0) eqn:Hz; simpl.
        -- apply Z.eqb_eq in Hz. split; [done|]. rewrite IH1. split; [done|].
           intros (k & d' & Hk & Hlive & Hd' & Hcnt).
           destruct (decide (k = tx)) as [->|Hne]; [|apply IH1; eauto].
           pose proof (eq_trans (eq_sym Hd) Hd') as [= <-]. done.
        -- apply Z.eqb_neq in Hz. split; [by right|]. split; [|done].
           intros _. exists tx, d. rewrite Ht. split; [lia|]. by eauto.
      * split; [done|]. rewrite IH1. split; [done|].
        intros (k & d' & Hk & Hlive & Hd' & Hcnt).
        destruct (decide (k = tx)) as [->|Hne]; [|apply IH1; eauto].
        pose proof (eq_trans (eq_sym Hd) Hd'). done.
    + split; [done|]. rewrite IH1. split; [done|].
      intros (k & d' & Hk & Hlive & Hd' & Hcnt).
      destruct (decide (k = tx)) as [->|Hne]; [|apply IH1; eauto].
      rewrite Ht in Hlive. by destruct Hlive.
Qed.

Lemma HasStoredSigs_spec (f : Flow) (flags : Z) :
  (HasStoredSigs f flags = 0 ∨ HasStoredSigs f flags = 1)
  ∧ (HasStoredSigs f flags = 1 ↔ stored_sigs_exist f flags).
Proof.
  unfold HasStoredSigs, stored_sigs_exist, FlowGetAppState, AppLayerParserGetTxCnt.
  assert (∀ b : bool,
            (∃ d, de_state f = Some d
                  ∧ ds_cnt (fdir_store (arr2_get (dir_index flags) d)) ≠ 0)
            ↔ match de_state f with
              | Some d => dir_cnt_nonzero (fdir_store (arr2_get (dir_index flags) d))
              | None => false
              end = true) as Hflow.
  { intros _. unfold dir_cnt_nonzero. destruct (de_state f) as [d|]; [|naive_solver].
    rewrite negb_true_iff, Z.eqb_neq. naive_solver. }
  specialize (Hflow true).
  destruct (match de_state f with Some d => _ | None => false end).
  { split; [by right|]. split; [|done]. intros _. left. by apply Hflow. }
  assert (¬ ∃ d, de_state f = Some d
             ∧ ds_cnt (fdir_store (arr2_get (dir_index flags) d)) ≠ 0) as Hno
    by (rewrite Hflow; done).
  clear Hflow.
  destruct (AppLayerParserProtocolSupportsTxs _ _) eqn:Hsup; [|naive_solver].
  destruct (alstate f) as [st|] eqn:Hst; [|naive_solver].
  destruct (StateIsValid (f_alproto f) (Some st)) eqn:Hv; simpl.
  2: { split; [by left|]. split; [done|].
       intros [?|(_ & st' & Heq & Hv' & _)]; [done|].
       injection Heq as <-. unfold StateIsValid in Hv. congruence. }
  destruct (HasStoredSigs_tx_loop_spec
              (Z.to_nat (al_tx_cnt st - alparser_inspect_id f flags)) f st flags
              (alparser_inspect_id f flags)) as [H01 H1].
  split; [done|]. rewrite H1. split.
  - intros (k & d' & Hk & Hrest). right. split; [done|]. exists st.
    split; [done|]. split; [done|]. exists k, d'. split; [lia|done].
  - intros [?|(_ & st' & [= <-] & _ & k & d' & Hk & Hrest)]; [done|].
    exists k, d'. split; [lia|done].
Qed.

(** C5, as the code has it: the pre-check answers 2 exactly when
    [STREAM_EOF] is not set, the flow-level detect state exists, and the
    version stored for the direction equals the version given; in every
    other case it answers 1 when stored signatures exist for the direction
    and 0 when they do not. *)
Theorem C5_has_inspectable_state (f : Flow) (alproto : AppProto) (alversion flags : Z) :
  (DeStateFlowHasInspectableState f alproto alversion flags = 2
   ↔ unchanged_state f alversion flags)
  ∧ (DeStateFlowHasInspectableState f alproto alversion flags = 1
     ↔ ¬ unchanged_state f alversion flags ∧ stored_sigs_exist f flags)
  ∧ (DeStateFlowHasInspectableState f alproto alversion flags = 0
     ↔ ¬ unchanged_state f alversion flags ∧ ¬ stored_sigs_exist f flags).
Proof.
  destruct (HasStoredSigs_spec f flags) as [H01 H1].
  assert (unchanged_state f alversion flags
          ↔ negb (has flags STREAM_EOF)
            && bool_decide (is_Some (de_state f))
            && (arr2_get (dir_index flags) (detect_alversion f) =? alversion) = true)
    as Hun.
  { unfold unchanged_state.
    rewrite !andb_true_iff, negb_true_iff, bool_decide_eq_true, Z.eqb_eq. tauto. }
  unfold DeStateFlowHasInspectableState.
  destruct (negb (has flags STREAM_EOF) && _ && _).
  - assert (unchanged_state f alversion flags) by (by apply Hun). naive_solver.
  - assert (¬ unchanged_state f alversion flags) by (rewrite Hun; done).
    destruct H01 as [Hz|Ho]; rewrite ?Hz, ?Ho in *; simpl; naive_solver.
Qed.

End PreCheckProofs.

Section ItemProofs.
Context `{EngineHeader} `{External}.



(** The engine stage only adds flags. *)
Lemma DoInspectItem_engines_flags (s : Signature) (item : DeStateStoreItem) (fl : Z)
    (f : Flow) (alproto : AppProto) (flags tx total_txs fnm : Z)
    (det : DetectEngineThreadCtx) (k : nat) :
  has fl (bit k) = true →
  has (item_flags (DoInspectItem_engines s item fl f alproto flags tx total_txs fnm det).1.1.1.2)
    (bit k) = true.
Proof.
  intros Hfl. unfold DoInspectItem_engines, FlowGetAppState.
  destruct (alstate f) as [st|]; [|done].
  destruct (negb (StateIsValid alproto (Some st))); [done|].
  destruct (AppLayerParserGetTx st tx); [|done].
  destruct (continue_engine_loop _ _ _ _ _ _ _ _ _) as [[[e i] tm] n].
  simpl. by rewrite has_lor, Hfl.
Qed.

Lemma DoInspectItem_engines_sid (s : Signature) (item : DeStateStoreItem) (fl : Z)
    (f : Flow) (alproto : AppProto) (flags tx total_txs fnm : Z)
    (det : DetectEngineThreadCtx) :
  item_sid (DoInspectItem_engines s item fl f alproto flags tx total_txs fnm det).1.1.1.2
  = item_sid item.
Proof.
  unfold DoInspectItem_engines, FlowGetAppState.
  destruct (alstate f) as [st|]; [|done].
  destruct (negb (StateIsValid alproto (Some st))); [done|].
  destruct (AppLayerParserGetTx st tx); [|done].
  by destruct (continue_engine_loop _ _ _ _ _ _ _ _ _) as [[[e i] tm] n].
Qed.




End ItemProofs.

Section StartProofs.
Context `{EngineHeader} `{External}.

Lemma tx_dir_store_set (f : Flow) (tx k : Z) (d : DetectEngineState) (i : nat) :
  tx_dir_store (flow_set_tx_de_state f tx d) k i
  = if decide (tx = k) then dir_store (arr2_get i d) else tx_dir_store f k i.
Proof.
  unfold tx_dir_store, flow_set_tx_de_state. simpl.
  destruct (decide (tx = k)) as [->|Hne].
  - by rewrite lookup_insert_eq.
  - by rewrite lookup_insert_ne.
Qed.

Lemma tx_dir_store_version (f : Flow) (alversion flags k : Z) (i : nat) :
  tx_dir_store (DeStateStoreStateVersion f alversion flags) k i = tx_dir_store f k i.
Proof. done. Qed.

(** The file decision leaves the records alone. *)
Lemma StoreStateTxHandleFiles_store (det : DetectEngineThreadCtx)
    (d : DetectEngineState) (flags tx fnm : Z) (i : nat) :
  dir_store (arr2_get i (StoreStateTxHandleFiles det d flags tx fnm).1)
  = dir_store (arr2_get i d).
Proof.
  unfold StoreStateTxHandleFiles, DeStateStoreFileNoMatchCnt.
  destruct (DeStateStoreFilestoreSigsCantMatch _ _ _ =? 1); simpl;
    destruct d as [d0 d1]; destruct (dir_index flags) as [|[|?]], i as [|[|?]];
    simpl; done.
Qed.

Lemma tx_destate_get_or_alloc_spec (f : Flow) (tx : Z) (t : Tx) (oracle : list bool) :
  tx_set_state_err t = false →
  ∃ d oracle',
    tx_destate_get_or_alloc f tx t oracle = Some (d, oracle')
    ∧ (false ∉ oracle → (false ∉ oracle') ∧ is_Some d)
    ∧ ∀ d' i, d = Some d' → dir_store (arr2_get i d') = tx_dir_store f tx i.
Proof.
  intros Herr. unfold tx_destate_get_or_alloc, tx_dir_store, AppLayerParserGetTxDetectState.
  destruct (tx_de_state f !! tx) as [d|].
  - exists (Some d), oracle. split; [done|]. split; [eauto|].
    by intros d' i [= <-].
  - unfold DetectEngineStateAlloc.
    destruct (SCMalloc_cases oracle) as [[-> Hne]|[-> Heq]]; simpl.
    + rewrite Herr. eexists _, _. split; [done|]. split.
      * intros Hn. split; [|eauto]. destruct oracle; [done|].
        simpl. intros Hin. apply Hn. by right.
      * intros d' i [= <-]. by destruct i as [|[|?]].
    + eexists _, _. split; [done|]. split; [|done].
      intros Hn. destruct Hn. rewrite Heq. by left.
Qed.

(** [StoreStateTxFileOnly] changes no store. *)
Lemma StoreStateTxFileOnly_store (flags tx : Z) (t : Tx) (fnm : Z) (rs : RunState) :
  tx_set_state_err t = false →
  ∃ rs', StoreStateTxFileOnly flags tx t fnm rs = Some rs'
         ∧ ∀ k i, tx_dir_store (rs_flow rs') k i = tx_dir_store (rs_flow rs) k i.
Proof.
  intros Herr. unfold StoreStateTxFileOnly.
  destruct (AppLayerParserSupportsTxDetectState _ _); [|by exists rs].
  destruct (tx_destate_get_or_alloc_spec (rs_flow rs) tx t (rs_oracle rs) Herr)
    as (d & o' & -> & _ & Hd).
  simpl. destruct d as [d|]; [|by eexists].
  destruct (StoreStateTxHandleFiles _ _ _ _ _) as [d' evs] eqn:Hf.
  eexists. split; [done|]. intros k i. simpl. rewrite tx_dir_store_set.
  destruct (decide (tx = k)) as [<-|Hne]; [|done].
  pose proof (StoreStateTxHandleFiles_store (rs_det rs) d flags tx fnm i) as Hs.
  rewrite Hf in Hs. simpl in Hs. rewrite Hs. by apply Hd.
Qed.

(** [StoreStateTx] appends to the store of [tx] in the packet's slot, or
    leaves it as it was; it changes no other store. *)
Lemma StoreStateTx_store (flags alversion tx : Z) (t : Tx) (s : Signature)
    (iflags fnm : Z) (rs : RunState) :
  tx_set_state_err t = false →
  wf_store (tx_dir_store (rs_flow rs) tx (dir_index flags)) →
  ds_cnt (tx_dir_store (rs_flow rs) tx (dir_index flags)) + 1 < 2 ^ SigIntId_bits →
  ∃ rs' items,
    StoreStateTx flags alversion tx t s iflags fnm rs = Some rs'
    ∧ DirStoreItems (tx_dir_store (rs_flow rs) tx (dir_index flags)) = Some items
    ∧ (∀ k i, (i < 2)%nat → (k ≠ tx ∨ i ≠ dir_index flags) →
         tx_dir_store (rs_flow rs') k i = tx_dir_store (rs_flow rs) k i)
    ∧ (DirStoreItems (tx_dir_store (rs_flow rs') tx (dir_index flags)) = Some items
       ∨ DirStoreItems (tx_dir_store (rs_flow rs') tx (dir_index flags))
         = Some (items ++ [mkItem (num s) iflags]))
    ∧ (AppLayerParserSupportsTxDetectState (proto (rs_flow rs)) (f_alproto (rs_flow rs))
       = false →
       DirStoreItems (tx_dir_store (rs_flow rs') tx (dir_index flags)) = Some items)
    ∧ (AppLayerParserSupportsTxDetectState (proto (rs_flow rs)) (f_alproto (rs_flow rs))
       = true → false ∉ rs_oracle rs →
       DirStoreItems (tx_dir_store (rs_flow rs') tx (dir_index flags))
       = Some (items ++ [mkItem (num s) iflags])).
Proof.
  intros Herr Hwf Hroom. unfold StoreStateTx.
  set (i := dir_index flags) in *.
  assert (∃ items, DirStoreItems (tx_dir_store (rs_flow rs) tx i) = Some items)
    as [items Hitems] by (rewrite DirStoreItems_wf by done; eauto).
  destruct (AppLayerParserSupportsTxDetectState _ _).
  2: { exists rs, items. split; [done|]. split; [done|]. split; [done|].
       split; [by left|]. done. }
  destruct (tx_destate_get_or_alloc_spec (rs_flow rs) tx t (rs_oracle rs) Herr)
    as (d & o1 & -> & Ho1 & Hd).
  simpl. destruct d as [d|].
  2: { eexists _, items. split; [done|]. split; [done|]. simpl.
       split; [done|]. split; [by left|]. split; [done|].
       intros _ Hn. destruct (Ho1 Hn) as [_ [? ?]]. done. }
  specialize (Hd d). unfold DeStateSignatureAppend. fold i.
  rewrite (Hd i eq_refl).
  destruct (StoreAppend_items DeStateStoreItem_zero _ (mkItem (num s) iflags) o1 Hwf Hroom)
    as (ds' & o2 & items' & -> & Hwf' & Hitems' & Hcase & Ho2).
  rewrite Hitems in Hitems'. injection Hitems' as <-.
  simpl. destruct (StoreStateTxHandleFiles _ _ _ _ _) as [d' evs] eqn:Hf.
  eexists _, items. split; [done|]. split; [done|]. simpl.
  assert (∀ j, dir_store (arr2_get j d')
               = dir_store (arr2_get j
                   (arr2_set i (mkDir ds' (filestore_cnt (arr2_get i d))
                                  (dir_flags (arr2_get i d))) d))) as Hd'.
  { intros j. pose proof (StoreStateTxHandleFiles_store (rs_det rs)
      (arr2_set i (mkDir ds' (filestore_cnt (arr2_get i d)) (dir_flags (arr2_get i d))) d)
      flags tx fnm j) as Hs. by rewrite Hf in Hs. }
  assert (tx_dir_store
            (flow_set_tx_de_state (DeStateStoreStateVersion (rs_flow rs) alversion flags)
               tx d') tx i = ds') as Hnew.
  { rewrite tx_dir_store_set, decide_True by done. by rewrite Hd', arr2_get_set. }
  split.
  { intros k j Hj2 Hkj. rewrite tx_dir_store_set.
    destruct (decide (tx = k)) as [<-|Hne]; [|done].
    destruct Hkj as [?|Hj]; [done|]. rewrite Hd', <- (Hd j eq_refl).
    destruct d as [d0 d1].
    assert (i = 0 ∨ i = 1)%nat as [Hi|Hi]
      by (unfold i, dir_index; destruct (has flags STREAM_TOSERVER); auto).
    - rewrite Hi in *. destruct j as [|[|?]]; simpl; [by destruct Hj|reflexivity|lia].
    - rewrite Hi in *. destruct j as [|[|?]]; simpl; [reflexivity|by destruct Hj|lia]. }
  rewrite Hnew.
  destruct Hcase as [[Hin ->]|[Hadd _]].
  - split; [by left|]. split; [done|]. intros _ Hn.
    destruct (Ho1 Hn) as [Hn1 _]. done.
  - split; [by right|]. split; [done|]. done.
Qed.

Lemma rs_flow_alert (s : Signature) (tx fl : Z) (rs : RunState) :
  rs_flow (alert_or_apply s tx fl rs) = rs_flow rs
  ∧ rs_oracle (alert_or_apply s tx fl rs) = rs_oracle rs
  ∧ rs_det (alert_or_apply s tx fl rs) = rs_det rs.
Proof. unfold alert_or_apply. by destruct (negb _). Qed.

(** C1, as the code has it.  One iteration of the transaction loop of the
    start driver, for a live transaction [tx] whose store is well formed
    and not full to the limit of [SigIntId], and whose detect-state slot
    can be set.  The iteration completes.  With [decision] the full match
    (engine list exhausted with at least one match) or CANT_MATCH, the
    record [(s->num, inspect_flags | FULL_INSPECT)] is appended to the
    store of [tx] in the packet's slot when there is a decision, the
    transaction is not the last one or is not complete, the parser keeps a
    detect state per transaction, and no allocation is refused; it is not
    appended when there is no decision, or the transaction is last and
    complete, or the parser keeps no such state; and nothing else happens
    to that store. *)
Theorem C1_start_persist_decision (s : Signature) (flags : Z) (alproto : AppProto)
    (alversion : Z) (st : AppState) (total_txs tx : Z) (t : Tx)
    (loc : StartLocals) (rs : RunState) :
  AppLayerParserGetTx st tx = Some t →
  tx_set_state_err t = false →
  wf_store (tx_dir_store (rs_flow rs) tx (dir_index flags)) →
  ds_cnt (tx_dir_store (rs_flow rs) tx (dir_index flags)) + 1 < 2 ^ SigIntId_bits →
  let '(engine, iflags, total_matches, _) :=
    start_engine_loop
      (app_inspection_engine (protomap (rs_flow rs)) alproto (dir_index flags))
      s st flags tx 0 0 (sl_file_no_match loc) in
  let decision :=
    (is_nil engine && (0 <? total_matches)) || has iflags DE_STATE_FLAG_SIG_CANT_MATCH in
  let tx_is_done :=
    AppLayerParserGetStateProgressCompletionStatus (proto (rs_flow rs)) alproto flags
      <=? tx_progress t flags in
  let wanted :=
    decision && (negb (TxIsLast tx total_txs) || negb tx_is_done)
    && AppLayerParserSupportsTxDetectState (proto (rs_flow rs)) (f_alproto (rs_flow rs)) in
  let rec := mkItem (num s) (Z.lor iflags DE_STATE_FLAG_FULL_INSPECT) in
  ∃ loc' rs' items,
    start_tx_body s flags alproto alversion st total_txs tx loc rs = Some (loc', rs')
    ∧ DirStoreItems (tx_dir_store (rs_flow rs) tx (dir_index flags)) = Some items
    ∧ has (item_flags rec) DE_STATE_FLAG_FULL_INSPECT = true
    ∧ (DirStoreItems (tx_dir_store (rs_flow rs') tx (dir_index flags)) = Some items
       ∨ DirStoreItems (tx_dir_store (rs_flow rs') tx (dir_index flags))
         = Some (items ++ [rec]))
    ∧ (wanted = false →
       DirStoreItems (tx_dir_store (rs_flow rs') tx (dir_index flags)) = Some items)
    ∧ (wanted = true → false ∉ rs_oracle rs →
       DirStoreItems (tx_dir_store (rs_flow rs') tx (dir_index flags))
       = Some (items ++ [rec])).
Proof.
  intros Ht Herr Hwf Hroom. unfold start_tx_body. rewrite Ht.
  destruct (start_engine_loop _ _ _ _ _ _ _ _) as [[[engine iflags] total] fnm].
  assert (has (Z.lor iflags DE_STATE_FLAG_FULL_INSPECT) DE_STATE_FLAG_FULL_INSPECT = true)
    as Hfull.
  { unfold DE_STATE_FLAG_FULL_INSPECT.
    by rewrite has_lor, has_bit_bit, bool_decide_eq_true_2, orb_true_r. }
  assert (∃ items, DirStoreItems (tx_dir_store (rs_flow rs) tx (dir_index flags))
                   = Some items) as [items Hitems]
    by (rewrite DirStoreItems_wf by done; eauto).
  set (full := is_nil engine && (0 <? total)).
  set (rs1 := if full then alert_or_apply s tx _ _ else _).
  assert (rs_flow rs1 = rs_flow rs ∧ rs_oracle rs1 = rs_oracle rs) as [Hf1 Ho1].
  { unfold rs1. destruct full; [|done].
    destruct (rs_flow_alert s tx (Z.lor PACKET_ALERT_FLAG_STATE_MATCH PACKET_ALERT_FLAG_TX)
                (rs_with_det (det_set_tx tx 1 (rs_det rs)) rs)) as (-> & -> & _).
    done. }
  simpl. destruct (full || has iflags DE_STATE_FLAG_SIG_CANT_MATCH) eqn:Hdec; simpl.
  2: { eexists _, rs1, items. rewrite Hf1. split; [done|]. split; [done|].
       split; [done|]. split; [by left|]. split; [done|]. done. }
  destruct (negb (TxIsLast tx total_txs) || negb _) eqn:Hcond; simpl.
  - assert (is_nil engine || has iflags DE_STATE_FLAG_SIG_CANT_MATCH = true) as ->.
    { apply orb_true_iff in Hdec as [Hfm|Hc]; [|by rewrite Hc, orb_true_r].
      unfold full in Hfm. apply andb_true_iff in Hfm as [-> _]. done. }
    destruct (StoreStateTx_store flags alversion tx t s
                (Z.lor iflags DE_STATE_FLAG_FULL_INSPECT) fnm rs1 Herr)
      as (rs' & items' & Hrun & Hitems' & _ & Hcase & Hno & Hyes);
      rewrite ?Hf1; try done.
    rewrite Hrun. simpl. rewrite Hf1, Hitems in Hitems'. injection Hitems' as <-.
    rewrite Hf1, Ho1 in *.
    eexists _, rs', items. split; [done|]. split; [done|]. split; [done|].
    split; [done|]. split.
    + intros Hs. apply Hno. by destruct (AppLayerParserSupportsTxDetectState _ _).
    + intros Hs. apply Hyes. by destruct (AppLayerParserSupportsTxDetectState _ _).
  - destruct (StoreStateTxFileOnly_store flags tx t fnm rs1 Herr) as (rs' & Hrun & Hsame).
    rewrite Hrun. simpl. rewrite Hf1 in Hsame.
    eexists _, rs', items. rewrite Hsame. split; [done|]. split; [done|].
    split; [done|]. split; [by left|]. split; [done|]. done.
Qed.

End StartProofs.

Section LoopProofs.
Context `{EngineHeader}.
Context {A T : Type} (body : A → T → option (Z * A * T)).

Local Abbreviation CS := (Z.to_nat DE_STATE_CHUNK_SIZE).

Lemma items_loop_length (items : list A) :
  ∀ st stop items' st',
    items_loop body items st = Some (stop, items', st') → length items' = length items.
Proof.
  induction items as [|x rest IH]; intros st stop items' st' Hrun; simpl in Hrun.
  - by injection Hrun as _ <- _.
  - destruct (body x st) as [[[r x'] st1]|]; simpl in Hrun; [|done].
    destruct (r <? 0); [by injection Hrun as _ <- _|].
    destruct (items_loop body rest st1) as [[[stop1 rest'] st2]|] eqn:Hrest;
      simpl in Hrun; [|done].
    injection Hrun as _ <- _. simpl. f_equal. by eapply IH.
Qed.

Lemma SigIntId_wrap_small (x : Z) : 0 ≤ x < 2 ^ SigIntId_bits → SigIntId_wrap x = x.
Proof. intros Hx. unfold SigIntId_wrap. by apply Z.mod_small. Qed.

(** The inner loop on chunk [a], entered at slot [length spre]: it runs
    the record loop on the next [cnt - state_cnt] slots of the chunk. *)
Lemma store_inner_loop_items (stodo : list A) :
  ∀ (n : nat) (heap : list (Chunk A)) (a : nat) (spre : list A) (nx : option nat)
    (sc cnt : Z) (st : T),
    heap !! a = Some (mkChunk (spre ++ stodo) nx) →
    length (spre ++ stodo) = CS →
    (length stodo ≤ n)%nat →
    0 ≤ sc → cnt < 2 ^ SigIntId_bits →
    match items_loop body (take (Z.to_nat (cnt - sc)) stodo) st with
    | None =>
        store_inner_loop body n heap a (Z.of_nat (length spre)) sc cnt st = None
    | Some (stop, xs, st') =>
        ∃ sc',
          store_inner_loop body n heap a (Z.of_nat (length spre)) sc cnt st
          = Some (stop,
                  <[a := mkChunk (spre ++ xs ++ drop (Z.to_nat (cnt - sc)) stodo) nx]> heap,
                  sc', st')
          ∧ (stop = false →
             sc' = sc + Z.of_nat (length (take (Z.to_nat (cnt - sc)) stodo)))
    end.
Proof.
  pose proof chunk_size_pos as Hpos. pose proof chunk_size_fits as Hfits.
  induction stodo as [|x rest IH]; intros n heap a spre nx sc cnt st Ha Hlen Hn Hsc Hcnt.
  - (* the chunk is exhausted *)
    rewrite take_nil. simpl. rewrite app_nil_r in *.
    exists sc. split; [|intros _; lia].
    assert ((Z.of_nat (length spre) <? DE_STATE_CHUNK_SIZE) = false) as Hc
      by (apply Z.ltb_ge; lia).
    rewrite drop_nil. simpl. rewrite app_nil_r, list_insert_id by done.
    destruct n; simpl; rewrite Hc; done.
  - destruct (decide (sc < cnt)) as [Hlt|Hge].
    2: { (* all records have been seen *)
      replace (Z.to_nat (cnt - sc)) with 0%nat by lia. simpl.
      exists sc. split; [|intros _; lia].
      assert ((sc <? cnt) = false) as Hc by (apply Z.ltb_ge; lia).
      rewrite list_insert_id by done.
      destruct n; simpl; rewrite Hc, andb_false_r; done. }
    destruct n as [|n]; [simpl in Hn; lia|].
    rewrite length_app in Hlen. simpl in Hlen, Hn.
    replace (Z.to_nat (cnt - sc)) with (S (Z.to_nat (cnt - (sc + 1)))) by lia.
    simpl.
    assert ((Z.of_nat (length spre) <? DE_STATE_CHUNK_SIZE) = true) as ->
      by (apply Z.ltb_lt; lia).
    assert ((sc <? cnt) = true) as -> by (by apply Z.ltb_lt).
    simpl. rewrite Ha. simpl.
    rewrite Nat2Z.id, (lookup_app_r spre) by lia.
    rewrite Nat.sub_diag. simpl.
    destruct (body x st) as [[[r x'] st1]|]; simpl; [|done].
    unfold chunk_write. rewrite Ha. simpl.
    rewrite decide_True by (rewrite length_app; simpl; lia).
    simpl.
    assert (<[length spre := x']> (spre ++ x :: rest) = (spre ++ [x']) ++ rest) as Hins.
    { rewrite <- (Nat.add_0_r (length spre)), insert_app_r. simpl.
      by rewrite <- app_assoc. }
    rewrite Hins.
    destruct (r <? 0).
    { exists sc. split; [|done]. do 3 f_equal.
      rewrite <- app_assoc. simpl. by rewrite take_drop. }
    rewrite !SigIntId_wrap_small by lia.
    specialize (IH n
      (<[a := mkChunk ((spre ++ [x']) ++ rest) nx]> heap) a (spre ++ [x']) nx
      (sc + 1) cnt st1).
    assert (Z.of_nat (length (spre ++ [x'])) = Z.of_nat (length spre) + 1) as Hl
      by (rewrite length_app; simpl; lia).
    rewrite Hl in IH. clear Hl.
    destruct (items_loop body (take (Z.to_nat (cnt - (sc + 1))) rest) st1)
      as [[[stop xs] st2]|]; simpl.
    + destruct IH as (sc' & -> & Hsc').
      * apply list_lookup_insert_eq. by eapply lookup_lt_Some.
      * rewrite length_app, length_app. simpl. lia.
      * lia.
      * lia.
      * done.
      * exists sc'. split.
        -- rewrite list_insert_insert_eq. do 3 f_equal. by rewrite <- !app_assoc.
        -- intros Hs. rewrite (Hsc' Hs). lia.
    + apply IH; try done; try lia.
      * apply list_lookup_insert_eq. by eapply lookup_lt_Some.
      * rewrite length_app, length_app. simpl. lia.
Qed.

Lemma items_loop_app (l1 l2 : list A) :
  ∀ st,
    items_loop body (l1 ++ l2) st
    = match items_loop body l1 st with
      | None => None
      | Some (true, l1', st') => Some (true, l1' ++ l2, st')
      | Some (false, l1', st') =>
          '(stop, l2', st'') ← items_loop body l2 st';
          Some (stop, l1' ++ l2', st'')
      end.
Proof.
  induction l1 as [|x rest IH]; intros st; simpl.
  - by destruct (items_loop body l2 st) as [[[? ?] ?]|].
  - destruct (body x st) as [[[r x'] st1]|]; simpl; [|done].
    destruct (r <? 0); [done|].
    rewrite IH. destruct (items_loop body rest st1) as [[[[] l1'] st2]|]; simpl; [done| |done].
    by destruct (items_loop body l2 st2) as [[[? ?] ?]|].
Qed.

(** Replacing a chunk by one with the same link and as many slots keeps
    the layout. *)
Lemma canon_replace (pre rest : list (Chunk A)) (c c1 : Chunk A) :
  canon_heap (pre ++ c :: rest) →
  c_next c1 = c_next c → length (c_store c1) = length (c_store c) →
  canon_heap (pre ++ c1 :: rest).
Proof.
  intros Hc Hn Hl i d Hi.
  assert (length (pre ++ c1 :: rest) = length (pre ++ c :: rest)) as Hlen
    by (rewrite !length_app; done).
  rewrite Hlen. destruct (decide (i = length pre)) as [->|Hne].
  - rewrite list_lookup_middle in Hi by done. injection Hi as <-.
    rewrite Hn, Hl. apply Hc. by apply list_lookup_middle.
  - apply Hc. rewrite <- Hi.
    destruct (decide (i < length pre)%nat).
    + by rewrite !lookup_app_l by done.
    + rewrite !lookup_app_r by lia.
      destruct (i - length pre)%nat eqn:Hd; [lia|done].
Qed.

(** The outer loop, entered at the first chunk of [todo]: it runs the
    record loop on the next [cnt - state_cnt] slots of the list. *)
Lemma store_outer_loop_items (todo : list (Chunk A)) :
  ∀ (fuel : nat) (pre : list (Chunk A)) (sc cnt : Z) (st : T),
    canon_heap (pre ++ todo) →
    (length todo ≤ fuel)%nat → 0 ≤ sc → cnt < 2 ^ SigIntId_bits →
    match items_loop body (take (Z.to_nat (cnt - sc)) (flat todo)) st with
    | None =>
        store_outer_loop body fuel (pre ++ todo)
          (if decide (length todo = 0%nat) then None else Some (length pre)) sc cnt st
        = None
    | Some (stop, xs, st') =>
        ∃ todo' sc',
          store_outer_loop body fuel (pre ++ todo)
            (if decide (length todo = 0%nat) then None else Some (length pre)) sc cnt st
          = Some (stop, pre ++ todo', sc', st')
          ∧ canon_heap (pre ++ todo')
          ∧ length todo' = length todo
          ∧ flat todo' = xs ++ drop (Z.to_nat (cnt - sc)) (flat todo)
          ∧ (stop = false → sc' = sc + Z.of_nat (length xs))
    end.
Proof.
  pose proof CS_pos as Hpos.
  induction todo as [|c rest IH]; intros fuel pre sc cnt st Hc Hfuel Hsc Hcnt.
  - unfold flat. simpl. rewrite take_nil. simpl.
    exists [], sc. rewrite drop_nil.
    split; [by destruct fuel|]. split; [done|]. split; [done|]. split; [done|].
    intros _. simpl. lia.
  - rewrite decide_False by done.
    destruct fuel as [|fuel]; [simpl in Hfuel; lia|]. simpl in Hfuel.
    assert ((pre ++ c :: rest) !! length pre = Some c) as Ha
      by (by apply list_lookup_middle).
    destruct (Hc _ _ Ha) as [Hnext Hlen].
    set (k := Z.to_nat (cnt - sc)).
    rewrite flat_cons, take_app, items_loop_app, Hlen.
    pose proof (store_inner_loop_items (c_store c) CS (pre ++ c :: rest)
                  (length pre) [] (c_next c) sc cnt st) as Hinner.
    cbn [length app] in Hinner. change (Z.of_nat 0) with 0 in Hinner.
    fold k in Hinner.
    assert (mkChunk (c_store c) (c_next c) = c) as Heta by (by destruct c).
    rewrite Heta in Hinner.
    specialize (Hinner Ha Hlen ltac:(lia) Hsc Hcnt).
    cbn [store_outer_loop].
    destruct (items_loop body (take k (c_store c)) st) as [[[stop1 xs1] st1]|] eqn:Hfirst.
    2: { by rewrite Hinner. }
    destruct Hinner as (sc1 & -> & Hsc1). cbn [mbind option_bind].
    pose proof (items_loop_length _ _ _ _ _ Hfirst) as Hxs1.
    rewrite length_take, Hlen in Hxs1.
    set (c1 := mkChunk (xs1 ++ drop k (c_store c)) (c_next c)).
    assert (<[length pre := c1]> (pre ++ c :: rest) = pre ++ c1 :: rest) as Hheap1.
    { rewrite <- (Nat.add_0_r (length pre)), insert_app_r. done. }
    rewrite Hheap1.
    assert (length (c_store c1) = length (c_store c)) as Hlen1.
    { simpl. rewrite length_app, length_drop, Hxs1, Hlen. lia. }
    assert (canon_heap (pre ++ c1 :: rest)) as Hc1 by (by eapply canon_replace).
    assert (drop k (c_store c) ++ flat rest
            = take (k - CS) (flat rest) ++ drop k (c_store c ++ flat rest)) as Hsplit.
    { rewrite drop_app, Hlen. destruct (decide (k ≤ CS)%nat).
      - replace (k - CS)%nat with 0%nat by lia. done.
      - rewrite (drop_ge (c_store c)) by lia. simpl. by rewrite take_drop. }
    destruct stop1.
    + (* the loop was left from inside this chunk *)
      exists (c1 :: rest), sc1. split; [done|]. split; [done|]. split; [done|].
      split; [|done].
      rewrite flat_cons. simpl. rewrite <- !app_assoc. f_equal. done.
    + rewrite list_lookup_middle by done. simpl.
      specialize (Hsc1 eq_refl). rewrite length_take, Hlen in Hsc1.
      specialize (IH fuel (pre ++ [c1]) sc1 cnt st1).
      rewrite <- !app_assoc in IH. simpl in IH.
      rewrite length_app in IH. simpl in IH.
      replace (Z.to_nat (cnt - sc1)) with (k - CS)%nat in IH by lia.
      assert (c_next c
              = if decide (length rest = 0%nat) then None else Some (length pre + 1)%nat)
        as Hnx.
      { rewrite Hnext, length_app. simpl.
        destruct (decide (length rest = 0%nat)).
        - rewrite decide_False by lia. done.
        - rewrite decide_True by lia. f_equal. lia. }
      rewrite Hnx.
      specialize (IH Hc1 ltac:(lia) ltac:(lia) Hcnt).
      destruct (items_loop body (take (k - CS) (flat rest)) st1)
        as [[[stop2 xs2] st2]|] eqn:Hsecond; simpl.
      2: { done. }
      destruct IH as (todo' & sc' & -> & Hc' & Hlen' & Hflat' & Hsc').
      rewrite <- app_assoc in Hc'. simpl in Hc'.
      exists (c1 :: todo'), sc'. split; [by rewrite <- app_assoc|]. split; [done|].
      split; [simpl; lia|]. split.
      * rewrite flat_cons, Hflat'. simpl. rewrite <- !app_assoc. f_equal.
        rewrite drop_app, Hlen.
        pose proof (items_loop_length _ _ _ _ _ Hsecond) as Hxs2.
        destruct (decide (k ≤ CS)%nat).
        -- replace (k - CS)%nat with 0%nat in * by lia.
           rewrite take_0 in Hxs2. destruct xs2; [|done]. done.
        -- rewrite (drop_ge (c_store c)) by lia. done.
      * intros Hs. rewrite (Hsc' Hs), length_app. lia.
Qed.

(** The two nested loops on a well-formed store run the record loop on
    the first [cnt - state_cnt] records, leave the other slots and the
    chunk list alone, and leave [state_cnt] advanced by the number of
    records seen. *)
Lemma store_loop_items (ds : DirStore A) (sc : Z) (st : T) :
  wf_store ds → 0 ≤ sc →
  match items_loop body (take (Z.to_nat (ds_cnt ds - sc)) (flat (ds_heap ds))) st with
  | None => store_loop body ds sc st = None
  | Some (stop, xs, st') =>
      ∃ ds' sc',
        store_loop body ds sc st = Some (stop, ds', sc', st')
        ∧ wf_store ds'
        ∧ ds_cnt ds' = ds_cnt ds
        ∧ flat (ds_heap ds') = xs ++ drop (Z.to_nat (ds_cnt ds - sc)) (flat (ds_heap ds))
        ∧ (stop = false → sc' = sc + Z.of_nat (length xs))
  end.
Proof.
  destruct ds as [heap hd tl cnt]. intros [Hc Hh Ht Hlo Hhi Hfit] Hsc. simpl in *.
  pose proof (store_outer_loop_items heap (length heap) [] sc cnt st Hc
                ltac:(lia) Hsc Hfit) as Houter.
  simpl in Houter. unfold store_loop. simpl. subst hd.
  destruct (items_loop body _ st) as [[[stop xs] st']|].
  - destruct Houter as (heap' & sc' & -> & Hc' & Hlen' & Hflat & Hsc').
    simpl. eexists _, sc'. split; [done|]. split; [|done].
    split; simpl; rewrite ?Hlen'; done.
  - by rewrite Houter.
Qed.

End LoopProofs.

(** A Hoare rule for the record loops: [P] holds as long as the loop
    runs, [Q] when it is left through the [goto end]. *)
Section LoopRule.
Context `{EngineHeader}.
Context {A T : Type} (body : A → T → option (Z * A * T)).
Context (P Q : T → Prop).
Hypothesis body_rule :
  ∀ x st r x' st', P st → body x st = Some (r, x', st') →
    if r <? 0 then Q st' else P st'.

Lemma store_inner_loop_rule (n : nat) :
  ∀ heap a store_cnt sc cnt st stop heap' sc' st',
    P st →
    store_inner_loop body n heap a store_cnt sc cnt st = Some (stop, heap', sc', st') →
    if (stop : bool) then Q st' else P st'.
Proof.
  induction n as [|n IH]; intros heap a store_cnt sc cnt st stop heap' sc' st' HP Hrun;
    simpl in Hrun.
  - destruct (_ && _) in Hrun; [done|]. by injection Hrun as <- _ _ <-.
  - destruct (_ && _) in Hrun; [|by injection Hrun as <- _ _ <-].
    destruct (heap !! a) as [c|]; simpl in Hrun; [|done].
    destruct (c_store c !! _) as [x|]; simpl in Hrun; [|done].
    destruct (body x st) as [[[r x'] st1]|] eqn:Hbody; simpl in Hrun; [|done].
    destruct (chunk_write _ _ _ _) as [heap1|]; simpl in Hrun; [|done].
    pose proof (body_rule _ _ _ _ _ HP Hbody) as Hr.
    destruct (r <? 0).
    + by injection Hrun as <- _ _ <-.
    + by eapply IH.
Qed.

Lemma store_outer_loop_rule (fuel : nat) :
  ∀ heap store sc cnt st stop heap' sc' st',
    P st →
    store_outer_loop body fuel heap store sc cnt st = Some (stop, heap', sc', st') →
    if (stop : bool) then Q st' else P st'.
Proof.
  induction fuel as [|fuel IH]; intros heap store sc cnt st stop heap' sc' st' HP Hrun;
    simpl in Hrun.
  - destruct store; [done|]. by injection Hrun as <- _ _ <-.
  - destruct store as [a|]; [|by injection Hrun as <- _ _ <-].
    destruct (store_inner_loop _ _ _ _ _ _ _ _) as [[[[stop1 heap1] sc1] st1]|] eqn:Hin;
      simpl in Hrun; [|done].
    pose proof (store_inner_loop_rule _ _ _ _ _ _ _ _ _ _ _ HP Hin) as H1.
    destruct stop1.
    + by injection Hrun as <- _ _ <-.
    + destruct (heap1 !! a); simpl in Hrun; [|done]. by eapply IH.
Qed.

Lemma store_loop_rule (ds ds' : DirStore A) (sc sc' : Z) (st st' : T) (stop : bool) :
  P st → store_loop body ds sc st = Some (stop, ds', sc', st') →
  if stop then Q st' else P st'.
Proof.
  intros HP. unfold store_loop.
  destruct (store_outer_loop _ _ _ _ _ _ _) as [[[[stop1 heap1] sc1] st1]|] eqn:Hout;
    simpl; [|done].
  intros [= <- _ _ <-]. by eapply store_outer_loop_rule.
Qed.

End LoopRule.

Section AbortProofs.
Context `{EngineHeader} `{External}.

Lemma inspector_calls_app (l1 l2 : list Event) :
  inspector_calls (l1 ++ l2) = inspector_calls l1 ++ inspector_calls l2.
Proof. apply omap_app. Qed.

Lemma calls_ok_abort_is_last (new : list Event) :
  calls_ok (inspector_calls new) → abort_is_last new.
Proof.
  intros Hok pre e post r Heq Href Hneg. rewrite Heq in Hok.
  apply Forall_app in Hok as [_ Hok]. apply Forall_cons in Hok as [He _].
  specialize (He r Href). lia.
Qed.

Lemma calls_aborted_abort_is_last (new : list Event) :
  calls_aborted (inspector_calls new) → abort_is_last new.
Proof.
  intros (pre0 & e0 & r0 & Hcalls & Hret0 & Hneg0 & Hok) pre e post r Heq Hret Hneg.
  rewrite Hcalls in Heq.
  destruct post as [|z post _] using rev_ind; [done|].
  rewrite app_comm_cons, app_assoc in Heq.
  apply app_inj_tail in Heq as [-> _].
  apply Forall_app in Hok as [_ Hok]. apply Forall_cons in Hok as [He _].
  specialize (He r Hret). lia.
Qed.

(** The per-record inspectors record no inspector call of their own, and
    return a negative value only for the reasons listed in the source. *)
Lemma DoInspectItem_engines_events (s : Signature) (item : DeStateStoreItem) (fl : Z)
    (f : Flow) (alproto : AppProto) (flags tx total_txs fnm : Z)
    (det : DetectEngineThreadCtx) :
  let res := DoInspectItem_engines s item fl f alproto flags tx total_txs fnm det in
  inspector_calls res.2 = []
  ∧ (res.1.1.1.1 = 1 ∨ res.1.1.1.1 = -1)
  ∧ (res.1.1.1.1 < 0 →
     StateIsValid alproto (FlowGetAppState f) = false
     ∨ (FlowGetAppState f ≫= λ st, AppLayerParserGetTx st tx) = None).
Proof.
  unfold DoInspectItem_engines, FlowGetAppState.
  destruct (alstate f) as [st|];
    [|split; [done|]; split; [by right|]; intros _; by left].
  destruct (StateIsValid alproto (Some st)) eqn:Hv; cbn [negb];
    [|split; [done|]; split; [by right|]; intros _; by left].
  destruct (AppLayerParserGetTx st tx) eqn:Htx;
    [|split; [done|]; split; [by right|]; intros _; right; cbn; exact Htx].
  destruct (continue_engine_loop _ _ _ _ _ _ _ _ _) as [[[e i] tm] n]. cbn [fst snd].
  split; [|split; [by left|lia]].
  destruct (_ && is_nil e); [|done]. simpl.
  by destruct (negb _).
Qed.

Lemma DoInspectItem_events (item item' : DeStateStoreItem) (dsf : Z) (f : Flow)
    (alproto : AppProto) (flags tx total_txs fnm fnm' r : Z) (inprog nxt : bool)
    (det det' : DetectEngineThreadCtx) (evs : list Event) :
  DoInspectItem item dsf f alproto flags tx total_txs fnm inprog nxt det
  = Some (r, item', fnm', det', evs) →
  inspector_calls evs = []
  ∧ (r = 0 ∨ r = 1 ∨ r = -1)
  ∧ (r < 0 →
     StateIsValid alproto (FlowGetAppState f) = false
     ∨ (FlowGetAppState f ≫= λ st, AppLayerParserGetTx st tx) = None).
Proof.
  unfold DoInspectItem. destruct (sig_array !! item_sid item) as [s|]; [|done]. simpl.
  assert (∀ fl res,
            DoInspectItem_engines s item fl f alproto flags tx total_txs fnm det = res →
            inspector_calls res.2 = []
            ∧ (res.1.1.1.1 = 0 ∨ res.1.1.1.1 = 1 ∨ res.1.1.1.1 = -1)
            ∧ (res.1.1.1.1 < 0 →
               StateIsValid alproto (FlowGetAppState f) = false
               ∨ (FlowGetAppState f ≫= λ st, AppLayerParserGetTx st tx) = None)) as Heng.
  { intros fl res <-.
    destruct (DoInspectItem_engines_events s item fl f alproto flags tx total_txs fnm det)
      as (? & ? & ?). split; [done|]. split; [tauto|done]. }
  assert (∀ fl res,
            (0, item_with_flags item fl, fnm,
             (if TxIsLast tx total_txs || inprog || nxt
              then mark_no_new_state (item_sid item) det else det),
             @nil Event) = res →
            inspector_calls res.2 = []
            ∧ (res.1.1.1.1 = 0 ∨ res.1.1.1.1 = 1 ∨ res.1.1.1.1 = -1)
            ∧ (res.1.1.1.1 < 0 →
               StateIsValid alproto (FlowGetAppState f) = false
               ∨ (FlowGetAppState f ≫= λ st, AppLayerParserGetTx st tx) = None)) as Hleave.
  { intros fl res <-. simpl. split; [done|]. split; [by left|lia]. }
  intros Hres.
  assert (∃ res : ItemResult,
            res = (r, item', fnm', det', evs)
            ∧ inspector_calls res.2 = []
            ∧ (res.1.1.1.1 = 0 ∨ res.1.1.1.1 = 1 ∨ res.1.1.1.1 = -1)
            ∧ (res.1.1.1.1 < 0 →
               StateIsValid alproto (FlowGetAppState f) = false
               ∨ (FlowGetAppState f ≫= λ st, AppLayerParserGetTx st tx) = None))
    as (res & -> & Hgoal); [|done].
  destruct (has (item_flags item) DE_STATE_FLAG_FULL_INSPECT).
  - destruct (has (reopen_full_inspect _ _ _) DE_STATE_FLAG_FULL_INSPECT).
    + apply (inj Some) in Hres. eexists. split; [exact Hres|]. by eapply Hleave.
    + apply (inj Some) in Hres. eexists. split; [exact Hres|].
      destruct (has (reopen_full_inspect _ _ _) DE_STATE_FLAG_SIG_CANT_MATCH).
      * destruct (reopen_cant_match _ _ _); [by eapply Heng|by eapply Hleave].
      * by eapply Heng.
  - apply (inj Some) in Hres. eexists. split; [exact Hres|].
    destruct (has (item_flags item) DE_STATE_FLAG_SIG_CANT_MATCH).
    + destruct (reopen_cant_match _ _ _); [by eapply Heng|by eapply Hleave].
    + by eapply Heng.
Qed.

Lemma DoInspectFlowRule_events (item item' : DeStateStoreFlowRule) (dsf : Z) (f : Flow)
    (alproto : AppProto) (flags r : Z) (det det' : DetectEngineThreadCtx)
    (evs : list Event) :
  DoInspectFlowRule item dsf f alproto flags det = Some (r, item', det', evs) →
  inspector_calls evs = []
  ∧ (r = 0 ∨ r = 1 ∨ r = -1)
  ∧ (r < 0 → FlowGetAppState f = None).
Proof.
  unfold DoInspectFlowRule.
  destruct (has (rule_flags item) _).
  { intros [= <- _ _ <-]. split; [done|]. split; [by left|lia]. }
  destruct (sig_array !! rule_sid item) as [s|]; [|done]. cbn [mbind option_bind].
  destruct (rule_nm item) as [|m nm].
  - intros [= <- _ _ <-]. split; [|split; [tauto|lia]].
    rewrite inspector_calls_app. by repeat case_match.
  - destruct (FlowGetAppState f) as [st|].
    + destruct (continue_amatch_loop _ _ _ _ _ _ _) as [[sm i] tm].
      cbv beta iota. intros [= <- _ _ <-]. split; [|split; [tauto|lia]].
      rewrite inspector_calls_app. by repeat case_match.
    + intros [= <- _ _ <-]. split; [done|]. split; [tauto|done].
Qed.

Lemma running_refl (trace0 : list Event) : running trace0 trace0.
Proof. exists []. split; [by rewrite app_nil_r|apply Forall_nil_2]. Qed.

Lemma running_call (trace0 trace evs : list Event) (e : Event) (r : Z) :
  running trace0 trace → inspector_calls evs = [] →
  inspector_calls [e] = [e] → call_ret e = Some r →
  if r <? 0 then stopped trace0 (trace ++ evs ++ [e])
  else running trace0 (trace ++ evs ++ [e]).
Proof.
  intros (new & -> & Hok) Hevs He Hret.
  assert (inspector_calls (new ++ evs ++ [e]) = inspector_calls new ++ [e]) as Hcalls
    by (by rewrite !inspector_calls_app, Hevs, He).
  destruct (r <? 0) eqn:Hr.
  - apply Z.ltb_lt in Hr. exists (new ++ evs ++ [e]).
    split; [by rewrite <- !app_assoc|]. rewrite Hcalls.
    by exists (inspector_calls new), e, r.
  - apply Z.ltb_ge in Hr. exists (new ++ evs ++ [e]).
    split; [by rewrite <- !app_assoc|]. rewrite Hcalls.
    apply Forall_app. split; [done|]. apply Forall_singleton.
    intros r' Hr'. rewrite Hret in Hr'. injection Hr' as <-. done.
Qed.

Lemma inspect_item_body_rule (trace0 : list Event) (dsf : Z) (f : Flow)
    (alproto : AppProto) (flags tx total_txs : Z) (inprog nxt : bool)
    (x x' : DeStateStoreItem) (st st' : Z * DetectEngineThreadCtx * list Event) (r : Z) :
  running trace0 st.2 →
  inspect_item_body dsf f alproto flags tx total_txs inprog nxt x st = Some (r, x', st') →
  if r <? 0 then stopped trace0 st'.2 else running trace0 st'.2.
Proof.
  destruct st as [[fnm det] trace]. unfold inspect_item_body.
  destruct (DoInspectItem _ _ _ _ _ _ _ _ _ _ _) as [[[[[r1 x1] fnm1] det1] evs]|] eqn:Hi;
    [|done].
  simpl. intros Hrun [= <- _ <-]. simpl.
  destruct (DoInspectItem_events _ _ _ _ _ _ _ _ _ _ _ _ _ _ _ _ Hi) as (Hevs & _).
  by eapply running_call.
Qed.

Lemma inspect_flow_rule_body_rule (trace0 : list Event) (dsf : Z) (f : Flow)
    (alproto : AppProto) (flags : Z)
    (x x' : DeStateStoreFlowRule) (st st' : DetectEngineThreadCtx * list Event) (r : Z) :
  running trace0 st.2 →
  inspect_flow_rule_body dsf f alproto flags x st = Some (r, x', st') →
  if r <? 0 then stopped trace0 st'.2 else running trace0 st'.2.
Proof.
  destruct st as [det trace]. unfold inspect_flow_rule_body.
  destruct (DoInspectFlowRule _ _ _ _ _ _) as [[[[r1 x1] det1] evs]|] eqn:Hi; [|done].
  simpl. intros Hrun [= <- _ <-]. simpl.
  destruct (DoInspectFlowRule_events _ _ _ _ _ _ _ _ _ _ Hi) as (Hevs & _).
  by eapply running_call.
Qed.

Lemma continue_tx_body_rule (trace0 : list Event) (flags : Z) (alproto : AppProto)
    (st : AppState) (total_txs tx : Z) (loc loc' : ContLocals) (rs rs' : RunState)
    (exit : LoopExit) :
  running trace0 (rs_trace rs) →
  continue_tx_body flags alproto st total_txs tx loc rs = Some (exit, loc', rs') →
  match exit with
  | LoopGotoEnd => stopped trace0 (rs_trace rs')
  | _ => running trace0 (rs_trace rs')
  end.
Proof.
  intros Hrun. unfold continue_tx_body.
  destruct (AppLayerParserGetTx st tx) as [t|]; [|by intros [= <- _ <-]].
  destruct (AppLayerParserGetTxDetectState _ _) as [d|]; [|by intros [= <- _ <-]].
  destruct (store_loop _ _ _ _) as [[[[stop store'] sc'] [[fnm det] trace]]|] eqn:Hloop;
    [|done].
  simpl.
  pose proof (store_loop_rule _ (λ s, running trace0 s.2) (λ s, stopped trace0 s.2)
                (λ x s r x' s', inspect_item_body_rule trace0 _ _ _ _ _ _ _ _ x x' s s' r)
                _ _ _ _ (cl_file_no_match loc, rs_det rs, rs_trace rs) _ _ Hrun Hloop)
    as Hpost.
  destruct stop; [by intros [= <- _ <-]|].
  destruct (_ <? _); by intros [= <- _ <-].
Qed.

Lemma continue_tx_loop_rule (trace0 : list Event) (n : nat) (flags : Z)
    (alproto : AppProto) (st : AppState) (total_txs : Z) :
  ∀ tx loc rs goto_end loc' rs',
    running trace0 (rs_trace rs) →
    continue_tx_loop n flags alproto st total_txs tx loc rs = Some (goto_end, loc', rs') →
    if (goto_end : bool) then stopped trace0 (rs_trace rs')
    else running trace0 (rs_trace rs').
Proof.
  induction n as [|n IH]; intros tx loc rs goto_end loc' rs' Hrun; simpl.
  - by intros [= <- _ <-].
  - destruct (continue_tx_body _ _ _ _ _ _ _) as [[[exit loc1] rs1]|] eqn:Hbody; [|done].
    simpl. pose proof (continue_tx_body_rule _ _ _ _ _ _ _ _ _ _ _ Hrun Hbody) as H1.
    destruct exit; [by apply IH|by intros [= <- _ <-]..].
Qed.

Lemma continue_flow_part_rule (trace0 : list Event) (flags : Z) (alproto : AppProto)
    (alversion : Z) (loc : ContLocals) (rs rs' : RunState) :
  running trace0 (rs_trace rs) →
  continue_flow_part flags alproto alversion loc rs = Some rs' →
  running trace0 (rs_trace rs') ∨ stopped trace0 (rs_trace rs').
Proof.
  intros Hrun. unfold continue_flow_part.
  destruct (de_state (rs_flow rs)) as [d|]; [|intros [= <-]; by left].
  destruct (store_loop _ _ _ _) as [[[[stop store'] sc'] [det trace]]|] eqn:Hloop; [|done].
  simpl.
  pose proof (store_loop_rule _ (λ s, running trace0 s.2) (λ s, stopped trace0 s.2)
                (λ x s r x' s', inspect_flow_rule_body_rule trace0 _ _ _ _ x x' s s' r)
                _ _ _ _ (rs_det rs, rs_trace rs) _ _ Hrun Hloop) as Hpost.
  destruct stop; intros [= <-]; [by right|by left].
Qed.

End AbortProofs.

(** ** The slot of a direction *)

Section SlotProofs.
Context `{EngineHeader} `{External}.

Lemma dir_index_lt (flags : Z) : (dir_index flags < 2)%nat.
Proof. unfold dir_index. destruct (has _ _); lia. Qed.

Lemma arr2_get_set_flip {A} (i : nat) (x : A) (a : arr2 A) :
  (i < 2)%nat → arr2_get (1 - i) (arr2_set i x a) = arr2_get (1 - i) a.
Proof. destruct i as [|[|?]], a; simpl; [done|done|lia]. Qed.

Lemma slot_frame_refl (i : nat) (f : Flow) : slot_frame i f f.
Proof. done. Qed.

Lemma slot_frame_trans (i : nat) (f1 f2 f3 : Flow) :
  slot_frame i f1 f2 → slot_frame i f2 f3 → slot_frame i f1 f3.
Proof.
  intros (Ha & Hb & Hc) (Ha' & Hb' & Hc'). split; [|split].
  - intros tx. by rewrite Ha', Ha.
  - by rewrite Hb', Hb.
  - by rewrite Hc', Hc.
Qed.

Lemma tx_dir_set (f : Flow) (tx k : Z) (d : DetectEngineState) (i : nat) :
  tx_dir (flow_set_tx_de_state f tx d) k i
  = if decide (tx = k) then arr2_get i d else tx_dir f k i.
Proof.
  unfold tx_dir, flow_set_tx_de_state. simpl.
  destruct (decide (tx = k)) as [->|Hne].
  - by rewrite lookup_insert_eq.
  - by rewrite lookup_insert_ne.
Qed.

Lemma tx_dir_lookup (f : Flow) (tx : Z) (d : DetectEngineState) (i : nat) :
  AppLayerParserGetTxDetectState f tx = Some d → tx_dir f tx i = arr2_get i d.
Proof.
  unfold tx_dir, AppLayerParserGetTxDetectState. intros Hd.
  destruct (tx_de_state f !! tx) as [d0|] eqn:E in |- *;
    pose proof (eq_trans (eq_sym Hd) E) as Heq; by simplify_eq.
Qed.

(** Writing the state of [tx] back with its other slot as it was. *)
Lemma slot_frame_set_tx (f : Flow) (flags tx : Z) (d : DetectEngineState) :
  arr2_get (1 - dir_index flags) d = tx_dir f tx (1 - dir_index flags) →
  slot_frame (dir_index flags) f (flow_set_tx_de_state f tx d).
Proof.
  intros Hd. split; [|done]. intros k. rewrite tx_dir_set.
  destruct (decide (tx = k)) as [<-|]; done.
Qed.

Lemma slot_frame_version (f : Flow) (alversion flags : Z) :
  slot_frame (dir_index flags) f (DeStateStoreStateVersion f alversion flags).
Proof.
  split; [done|]. split; [done|]. simpl.
  apply arr2_get_set_flip, dir_index_lt.
Qed.

Lemma StoreStateTxHandleFiles_frame (det : DetectEngineThreadCtx)
    (d : DetectEngineState) (flags tx fnm : Z) :
  arr2_get (1 - dir_index flags) (StoreStateTxHandleFiles det d flags tx fnm).1
  = arr2_get (1 - dir_index flags) d.
Proof.
  pose proof (dir_index_lt flags) as Hlt.
  unfold StoreStateTxHandleFiles, DeStateStoreFileNoMatchCnt.
  destruct (DeStateStoreFilestoreSigsCantMatch _ _ _ =? 1); simpl;
    by rewrite ?arr2_get_set_flip.
Qed.

Lemma tx_destate_get_or_alloc_dir (f : Flow) (tx : Z) (t : Tx) (oracle oracle' : list bool)
    (d : DetectEngineState) (i : nat) :
  tx_destate_get_or_alloc f tx t oracle = Some (Some d, oracle') →
  arr2_get i d = tx_dir f tx i.
Proof.
  unfold tx_destate_get_or_alloc, tx_dir, AppLayerParserGetTxDetectState.
  destruct (tx_de_state f !! tx) as [d0|]; [by intros [= <- _]|].
  unfold DetectEngineStateAlloc. destruct (SCMalloc oracle) as [[] o1]; [|done].
  destruct (tx_set_state_err t); [done|]. intros [= <- _]. by destruct i as [|[|?]].
Qed.

Lemma StoreStateTxFileOnly_frame (flags tx : Z) (t : Tx) (fnm : Z) (rs rs' : RunState) :
  StoreStateTxFileOnly flags tx t fnm rs = Some rs' →
  slot_frame (dir_index flags) (rs_flow rs) (rs_flow rs').
Proof.
  unfold StoreStateTxFileOnly.
  destruct (AppLayerParserSupportsTxDetectState _ _); [|by intros [= <-]].
  destruct (tx_destate_get_or_alloc _ _ _ _) as [[[d|] o1]|] eqn:Hd; simpl;
    [|by intros [= <-]|done].
  destruct (StoreStateTxHandleFiles _ _ _ _ _) as [d' evs] eqn:Hf.
  intros [= <-]. simpl. apply slot_frame_set_tx.
  pose proof (StoreStateTxHandleFiles_frame (rs_det rs) d flags tx fnm) as Hs.
  rewrite Hf in Hs. simpl in Hs. rewrite Hs.
  by eapply tx_destate_get_or_alloc_dir.
Qed.

Lemma DeStateSignatureAppend_frame (state state' : DetectEngineState) (s : Signature)
    (fl direction : Z) (oracle oracle' : list bool) :
  DeStateSignatureAppend state s fl direction oracle = Some (state', oracle') →
  arr2_get (1 - dir_index direction) state' = arr2_get (1 - dir_index direction) state
  ∧ StoreAppend DeStateStoreItem_zero (dir_store (arr2_get (dir_index direction) state))
      (mkItem (num s) fl) oracle
    = Some (dir_store (arr2_get (dir_index direction) state'), oracle').
Proof.
  unfold DeStateSignatureAppend.
  destruct (StoreAppend _ _ _ _) as [[st o1]|]; [|done]. simpl. intros [= <- <-].
  split; [apply arr2_get_set_flip, dir_index_lt|]. by rewrite arr2_get_set.
Qed.

Lemma DeStateFlowRuleAppend_frame (state state' : DetectEngineStateFlow) (s : Signature)
    (sm : list SigMatch) (fl direction : Z) (oracle oracle' : list bool) :
  DeStateFlowRuleAppend state s sm fl direction oracle = Some (state', oracle') →
  arr2_get (1 - dir_index direction) state' = arr2_get (1 - dir_index direction) state
  ∧ StoreAppend DeStateStoreFlowRule_zero (fdir_store (arr2_get (dir_index direction) state))
      (mkFlowRule sm fl (num s)) oracle
    = Some (fdir_store (arr2_get (dir_index direction) state'), oracle').
Proof.
  unfold DeStateFlowRuleAppend.
  destruct (StoreAppend _ _ _ _) as [[st o1]|]; [|done]. simpl. intros [= <- <-].
  split; [apply arr2_get_set_flip, dir_index_lt|]. by rewrite arr2_get_set.
Qed.

Lemma StoreStateTx_frame (flags alversion tx : Z) (t : Tx) (s : Signature)
    (iflags fnm : Z) (rs rs' : RunState) :
  StoreStateTx flags alversion tx t s iflags fnm rs = Some rs' →
  slot_frame (dir_index flags) (rs_flow rs) (rs_flow rs').
Proof.
  unfold StoreStateTx.
  destruct (AppLayerParserSupportsTxDetectState _ _); [|by intros [= <-]].
  destruct (tx_destate_get_or_alloc _ _ _ _) as [[[d|] o1]|] eqn:Hd; simpl;
    [|by intros [= <-]|done].
  destruct (DeStateSignatureAppend _ _ _ _ _) as [[d1 o2]|] eqn:Ha; [|done]. simpl.
  destruct (StoreStateTxHandleFiles _ _ _ _ _) as [d2 evs] eqn:Hf.
  intros [= <-]. simpl.
  eapply slot_frame_trans; [apply (slot_frame_version _ alversion flags)|].
  apply slot_frame_set_tx.
  pose proof (StoreStateTxHandleFiles_frame (rs_det rs) d1 flags tx fnm) as Hs.
  rewrite Hf in Hs. simpl in Hs. rewrite Hs.
  destruct (DeStateSignatureAppend_frame _ _ _ _ _ _ _ Ha) as [-> _].
  by eapply tx_destate_get_or_alloc_dir.
Qed.

Lemma StoreState_frame (flags alversion : Z) (s : Signature) (sm : list SigMatch)
    (iflags r : Z) (rs rs' : RunState) :
  StoreState flags alversion s sm iflags rs = Some (r, rs') →
  slot_frame (dir_index flags) (rs_flow rs) (rs_flow rs').
Proof.
  unfold StoreState.
  assert (∀ st o1,
            match st with
            | None => Some (0, rs_with_oracle o1 rs)
            | Some st =>
                '(st', oracle2) ← DeStateFlowRuleAppend st s sm iflags flags o1;
                Some (1, mkRun (DeStateStoreStateVersion
                                  (flow_set_de_state (rs_flow rs) (Some st'))
                                  alversion flags)
                           (rs_det rs) (rs_trace rs) oracle2)
            end = Some (r, rs') →
            match st with
            | Some st0 => arr2_get (1 - dir_index flags) st0
            | None => DetectEngineStateDirectionFlow_zero
            end = flow_dir (rs_flow rs) (1 - dir_index flags) →
            slot_frame (dir_index flags) (rs_flow rs) (rs_flow rs')) as Hgen.
  { intros [st|] o1; [|by intros [= _ <-]].
    destruct (DeStateFlowRuleAppend _ _ _ _ _ _) as [[st' o2]|] eqn:Ha; [|done].
    simpl. intros [= _ <-] Hst. simpl.
    destruct (DeStateFlowRuleAppend_frame _ _ _ _ _ _ _ _ Ha) as [Hkeep _].
    split; [done|]. split.
    - unfold flow_dir at 1. simpl. by rewrite Hkeep.
    - simpl. apply arr2_get_set_flip, dir_index_lt. }
  unfold flow_dir in Hgen.
  destruct (de_state (rs_flow rs)) as [st|] eqn:Hde.
  - intros Hrun. by apply (Hgen (Some st) (rs_oracle rs)).
  - unfold DetectEngineStateFlowAlloc. destruct (SCMalloc _) as [[] o1]; intros Hrun.
    + apply (Hgen (Some DetectEngineStateFlow_zero) o1 Hrun).
      by destruct (1 - dir_index flags)%nat as [|[|?]].
    + by apply (Hgen None o1).
Qed.

Lemma start_tx_body_frame (s : Signature) (flags : Z) (alproto : AppProto)
    (alversion : Z) (st : AppState) (total_txs tx : Z) (loc loc' : StartLocals)
    (rs rs' : RunState) :
  start_tx_body s flags alproto alversion st total_txs tx loc rs = Some (loc', rs') →
  slot_frame (dir_index flags) (rs_flow rs) (rs_flow rs').
Proof.
  unfold start_tx_body.
  destruct (AppLayerParserGetTx st tx) as [t|]; [|by intros [= _ <-]].
  destruct (start_engine_loop _ _ _ _ _ _ _ _) as [[[engine iflags] tm] fnm].
  set (rs1 := if is_nil engine && (0 <? tm) then alert_or_apply _ _ _ _ else _).
  assert (rs_flow rs1 = rs_flow rs) as Hrs1.
  { unfold rs1. destruct (_ && _); [|done]. by rewrite (proj1 (rs_flow_alert _ _ _ _)). }
  destruct (_ || _); [|intros [= _ <-]; by rewrite Hrs1].
  destruct (_ || _).
  - destruct (StoreStateTx _ _ _ _ _ _ _ _) as [rs2|] eqn:Hs; [|done].
    simpl. intros [= _ <-]. rewrite <- Hrs1. by eapply StoreStateTx_frame.
  - destruct (StoreStateTxFileOnly _ _ _ _ _) as [rs2|] eqn:Hs; [|done].
    simpl. intros [= _ <-]. rewrite <- Hrs1. by eapply StoreStateTxFileOnly_frame.
Qed.

Lemma start_tx_loop_frame (s : Signature) (flags : Z) (alproto : AppProto)
    (alversion : Z) (st : AppState) (total_txs : Z) (n : nat) :
  ∀ tx loc rs loc' rs',
    start_tx_loop n s flags alproto alversion st total_txs tx loc rs = Some (loc', rs') →
    slot_frame (dir_index flags) (rs_flow rs) (rs_flow rs').
Proof.
  induction n as [|n IH]; intros tx loc rs loc' rs'; simpl.
  - by intros [= _ <-].
  - destruct (start_tx_body _ _ _ _ _ _ _ _ _) as [[loc1 rs1]|] eqn:Hb; [|done].
    simpl. intros Hrun. eapply slot_frame_trans; [by eapply start_tx_body_frame|].
    by eapply IH.
Qed.

Lemma start_flow_part_frame (s : Signature) (flags : Z) (alproto : AppProto)
    (alversion : Z) (loc loc' : StartLocals) (rs rs' : RunState) :
  start_flow_part s flags alproto alversion loc rs = Some (loc', rs') →
  slot_frame (dir_index flags) (rs_flow rs) (rs_flow rs').
Proof.
  unfold start_flow_part.
  destruct (sm_lists s DETECT_SM_LIST_AMATCH) as [|m sm]; [by intros [= _ <-]|].
  destruct (FlowGetAppState _) as [st|]; [|by intros [= _ <-]].
  destruct (start_amatch_loop _ _ _ _ _ _ _) as [[sm' match_] iflags].
  set (rs1 := if _ && _ then alert_or_apply _ _ _ _ else rs).
  assert (rs_flow rs1 = rs_flow rs) as Hrs1.
  { unfold rs1. destruct (_ && _); [|done]. by rewrite (proj1 (rs_flow_alert _ _ _ _)). }
  destruct (StoreState _ _ _ _ _ _) as [[r rs2]|] eqn:Hs; [|done].
  simpl. intros [= _ <-]. rewrite <- Hrs1. by eapply StoreState_frame.
Qed.

Lemma start_driver_frame (s : Signature) (flags : Z) (alproto : AppProto)
    (alversion r : Z) (rs rs' : RunState) :
  DeStateDetectStartDetection s flags alproto alversion rs = Some (r, rs') →
  slot_frame (dir_index flags) (rs_flow rs) (rs_flow rs').
Proof.
  unfold DeStateDetectStartDetection.
  assert (∀ loc1 rs1,
            slot_frame (dir_index flags) (rs_flow rs) (rs_flow rs1) →
            (λ r0 : StartLocals * RunState,
               (if sl_alert_cnt r0.1 =? 0 then 0 else 1, driver_end r0.2))
              <$> start_flow_part s flags alproto alversion loc1 rs1 = Some (r, rs') →
            slot_frame (dir_index flags) (rs_flow rs) (rs_flow rs')) as Hflow.
  { intros loc1 rs1 H1.
    destruct (start_flow_part _ _ _ _ _ _) as [[loc2 rs2]|] eqn:Hf; [|done].
    simpl. intros [= _ <-]. simpl.
    eapply slot_frame_trans; [exact H1|]. by eapply start_flow_part_frame. }
  destruct (AppLayerParserProtocolSupportsTxs _ _).
  - destruct (negb _); [by intros [= _ <-]|].
    destruct (FlowGetAppState _) as [a|]; [|by intros [= _ <-]].
    destruct (start_tx_loop _ _ _ _ _ _ _ _ _ _) as [[loc1 rs1]|] eqn:Hl; [|done].
    simpl. apply Hflow. by eapply start_tx_loop_frame.
  - destruct (_ && _).
    + destruct (FlowGetAppState _) as [a|]; [|by intros [= _ <-]].
      destruct (start_dce_part _ _ _ _ _ _) as [loc1 rs1] eqn:Hd.
      apply Hflow. unfold start_dce_part in Hd.
      destruct (if is_smb alproto then _ else _); injection Hd as <- <-; [|done].
      by rewrite (proj1 (rs_flow_alert _ _ _ _)).
    + by apply Hflow.
Qed.

Lemma continue_tx_body_frame (flags : Z) (alproto : AppProto) (st : AppState)
    (total_txs tx : Z) (loc loc' : ContLocals) (rs rs' : RunState) (exit : LoopExit) :
  continue_tx_body flags alproto st total_txs tx loc rs = Some (exit, loc', rs') →
  slot_frame (dir_index flags) (rs_flow rs) (rs_flow rs').
Proof.
  unfold continue_tx_body.
  destruct (AppLayerParserGetTx st tx) as [t|]; [|by intros [= _ _ <-]].
  destruct (AppLayerParserGetTxDetectState _ _) as [d|] eqn:Hd; [|by intros [= _ _ <-]].
  destruct (store_loop _ _ _ _) as [[[[stop store'] sc'] [[fnm det] trace]]|]; [|done].
  simpl.
  assert (slot_frame (dir_index flags) (rs_flow rs)
            (flow_set_tx_de_state (rs_flow rs) tx
               (arr2_set (dir_index flags)
                  (mkDir store' (filestore_cnt (arr2_get (dir_index flags) d))
                     (dir_flags (arr2_get (dir_index flags) d))) d))) as Hframe.
  { apply slot_frame_set_tx. rewrite arr2_get_set_flip by apply dir_index_lt.
    symmetry. by apply tx_dir_lookup. }
  destruct stop; [by intros [= _ _ <-]|].
  destruct (_ <? _); by intros [= _ _ <-].
Qed.

Lemma continue_tx_loop_frame (flags : Z) (alproto : AppProto) (st : AppState)
    (total_txs : Z) (n : nat) :
  ∀ tx loc rs (goto_end : bool) loc' rs',
    continue_tx_loop n flags alproto st total_txs tx loc rs = Some (goto_end, loc', rs') →
    slot_frame (dir_index flags) (rs_flow rs) (rs_flow rs').
Proof.
  induction n as [|n IH]; intros tx loc rs goto_end loc' rs'; simpl.
  - by intros [= _ _ <-].
  - destruct (continue_tx_body _ _ _ _ _ _ _) as [[[exit loc1] rs1]|] eqn:Hb; [|done].
    simpl. pose proof (continue_tx_body_frame _ _ _ _ _ _ _ _ _ _ Hb) as H1.
    destruct exit; [|by intros [= _ _ <-]..].
    intros Hrun. eapply slot_frame_trans; [exact H1|]. by eapply IH.
Qed.

Lemma continue_flow_part_frame (flags : Z) (alproto : AppProto) (alversion : Z)
    (loc : ContLocals) (rs rs' : RunState) :
  continue_flow_part flags alproto alversion loc rs = Some rs' →
  slot_frame (dir_index flags) (rs_flow rs) (rs_flow rs').
Proof.
  unfold continue_flow_part.
  destruct (de_state (rs_flow rs)) as [d|] eqn:Hd; [|by intros [= <-]].
  destruct (store_loop _ _ _ _) as [[[[stop store'] sc'] [det trace]]|]; [|done].
  simpl.
  assert (slot_frame (dir_index flags) (rs_flow rs)
            (flow_set_de_state (rs_flow rs)
               (Some (arr2_set (dir_index flags)
                        (mkDirFlow store' (fdir_flags (arr2_get (dir_index flags) d))) d))))
    as Hframe.
  { split; [done|]. split; [|done]. unfold flow_dir. simpl. rewrite Hd.
    apply arr2_get_set_flip, dir_index_lt. }
  destruct stop; intros [= <-]; simpl; [done|].
  eapply slot_frame_trans; [exact Hframe|]. apply slot_frame_version.
Qed.

Lemma continue_driver_frame (flags : Z) (alproto : AppProto) (alversion : Z)
    (rs rs' : RunState) :
  DeStateDetectContinueDetection flags alproto alversion rs = Some rs' →
  slot_frame (dir_index flags) (rs_flow rs) (rs_flow rs').
Proof.
  unfold DeStateDetectContinueDetection.
  destruct (AppLayerParserProtocolSupportsTxs _ _).
  - destruct (FlowGetAppState _) as [st|]; [|by intros [= <-]].
    destruct (negb _); [by intros [= <-]|].
    destruct (continue_tx_loop _ _ _ _ _ _ _ _) as [[[goto_end loc1] rs1]|] eqn:Hl; [|done].
    simpl. pose proof (continue_tx_loop_frame _ _ _ _ _ _ _ _ _ _ _ Hl) as H1.
    destruct goto_end; [by intros [= <-]|].
    destruct (continue_flow_part _ _ _ _ _) as [rs2|] eqn:Hf; [|done].
    simpl. intros [= <-]. simpl.
    eapply slot_frame_trans; [exact H1|]. by eapply continue_flow_part_frame.
  - destruct (continue_flow_part _ _ _ _ _) as [rs2|] eqn:Hf; [|done].
    simpl. intros [= <-]. simpl. by eapply continue_flow_part_frame.
Qed.

Lemma dir_index_bit (flags flags' : Z) :
  has flags STREAM_TOSERVER = has flags' STREAM_TOSERVER →
  dir_index flags = dir_index flags'.
Proof. unfold dir_index. by intros ->. Qed.

Lemma HasStoredSigs_tx_loop_flags (f : Flow) (st : AppState) (flags flags' : Z) (n : nat) :
  dir_index flags = dir_index flags' →
  ∀ tx, HasStoredSigs_tx_loop n f st flags tx = HasStoredSigs_tx_loop n f st flags' tx.
Proof.
  intros Hd. induction n as [|n IH]; intros tx; simpl; [done|].
  rewrite Hd, IH. done.
Qed.

End SlotProofs.

(** ** Start on a prefix, continue on the rest *)

Section ResumeProofs.
Context `{EngineHeader} `{External}.

Lemma alerts_app (l1 l2 : list Event) : alerts (l1 ++ l2) = alerts l1 ++ alerts l2.
Proof. apply omap_app. Qed.

(** The engine the loop stops at, the flags and the match count do not
    depend on the [file_no_match] that comes in. *)
Lemma start_engine_loop_fnm (engines : list DetectEngineAppInspectionEngine)
    (s : Signature) (st : AppState) (flags tx : Z) :
  ∀ a b c c',
    (start_engine_loop engines s st flags tx a b c).1
    = (start_engine_loop engines s st flags tx a b c').1.
Proof.
  induction engines as [|e next IH]; intros a b c c'; simpl; [done|].
  destruct (sm_lists s (sm_list e)); [apply IH|].
  destruct (Callback e s st flags tx); simpl; first [apply IH|done].
Qed.

(** Verdicts that are final: with engines that keep every answer other
    than NO_MATCH from [st1] to [st2], a loop that is decided on [st1]
    takes the same course on [st2]. *)
Lemma start_engine_loop_stable (engines : list DetectEngineAppInspectionEngine)
    (s : Signature) (st1 st2 : AppState) (flags tx : Z) :
  (∀ e, e ∈ engines →
     Callback e s st1 flags tx ≠ DETECT_ENGINE_INSPECT_SIG_NO_MATCH →
     Callback e s st2 flags tx = Callback e s st1 flags tx) →
  ∀ a b c,
    match (start_engine_loop engines s st1 flags tx a b c).1.1.1 with
    | [] => True
    | e :: _ => Callback e s st1 flags tx ≠ DETECT_ENGINE_INSPECT_SIG_NO_MATCH
    end →
    start_engine_loop engines s st2 flags tx a b c
    = start_engine_loop engines s st1 flags tx a b c.
Proof.
  induction engines as [|e next IH]; intros Hst a b c; simpl; [done|].
  assert (∀ e', e' ∈ next →
            Callback e' s st1 flags tx ≠ DETECT_ENGINE_INSPECT_SIG_NO_MATCH →
            Callback e' s st2 flags tx = Callback e' s st1 flags tx) as Hnext.
  { intros e' He'. apply Hst. by right. }
  destruct (sm_lists s (sm_list e)); [by apply IH|].
  pose proof (Hst e ltac:(by left)) as He.
  destruct (Callback e s st1 flags tx) eqn:Hc; simpl;
    try (rewrite He by done; first [by apply IH|done]).
  intros Hdec. by rewrite Hc in Hdec.
Qed.

Lemma dir_bits_ne :
  FILE_STORE_DISABLED_bit ≠ FILE_TC_NEW_bit
  ∧ FILE_STORE_DISABLED_bit ≠ FILE_TS_NEW_bit.
Proof.
  pose proof dir_bits_distinct as Hd.
  rewrite !NoDup_cons, !not_elem_of_cons in Hd. naive_solver.
Qed.

Lemma settled_dir_zero : settled_dir 0 DetectEngineStateDirection_zero.
Proof.
  split; [apply wf_store_zero|]. split; [done|]. split; [apply Forall_nil_2|].
  split; apply has_zero.
Qed.

Lemma settled_dir_mono (k k' : Z) (d : DetectEngineStateDirection) :
  k ≤ k' → settled_dir k d → settled_dir k' d.
Proof. intros Hk (? & ? & ?). split; [done|]. split; [lia|done]. Qed.

Lemma StoreStateTxHandleFiles_settled (det : DetectEngineThreadCtx)
    (d : DetectEngineState) (flags tx fnm k : Z) :
  settled_dir k (arr2_get (dir_index flags) d) →
  settled_dir k (arr2_get (dir_index flags) (StoreStateTxHandleFiles det d flags tx fnm).1).
Proof.
  intros (Hwf & Hk & Hall & Hts & Htc).
  destruct dir_bits_ne as [Hn1 Hn2].
  unfold StoreStateTxHandleFiles, DeStateStoreFileNoMatchCnt.
  destruct (DeStateStoreFilestoreSigsCantMatch _ _ _ =? 1); simpl;
    rewrite !arr2_get_set; [|done].
  split; [done|]. split; [done|]. split; [done|]. simpl.
  unfold DETECT_ENGINE_STATE_FLAG_FILE_STORE_DISABLED,
    DETECT_ENGINE_STATE_FLAG_FILE_TS_NEW, DETECT_ENGINE_STATE_FLAG_FILE_TC_NEW in *.
  rewrite !has_lor, !has_bit_bit, Hts, Htc.
  by rewrite !bool_decide_eq_false_2.
Qed.

Lemma StoreStateTxHandleFiles_alerts (det : DetectEngineThreadCtx)
    (d : DetectEngineState) (flags tx fnm : Z) :
  alerts (StoreStateTxHandleFiles det d flags tx fnm).2 = [].
Proof. unfold StoreStateTxHandleFiles. by destruct (_ =? 1). Qed.

Lemma StoreStateTx_settled (flags alversion tx : Z) (t : Tx) (s : Signature)
    (iflags fnm k : Z) (rs : RunState) :
  tx_set_state_err t = false →
  settled_dir k (tx_dir (rs_flow rs) tx (dir_index flags)) →
  k + 1 < 2 ^ SigIntId_bits →
  has iflags DE_STATE_FLAG_FULL_INSPECT = true →
  is_Some (sig_array !! num s) →
  ∃ rs',
    StoreStateTx flags alversion tx t s iflags fnm rs = Some rs'
    ∧ settled_dir (k + 1) (tx_dir (rs_flow rs') tx (dir_index flags))
    ∧ (∀ tx', tx' ≠ tx →
         tx_dir (rs_flow rs') tx' (dir_index flags)
         = tx_dir (rs_flow rs) tx' (dir_index flags))
    ∧ flow_app (rs_flow rs') = flow_app (rs_flow rs)
    ∧ alerts (rs_trace rs') = alerts (rs_trace rs).
Proof.
  intros Herr Hset Hroom Hfull Hsig. unfold StoreStateTx.
  set (i := dir_index flags) in *.
  assert (settled_dir (k + 1) (tx_dir (rs_flow rs) tx i)) as Hset1
    by (eapply settled_dir_mono; [|done]; lia).
  destruct (AppLayerParserSupportsTxDetectState _ _); [|by exists rs].
  destruct (tx_destate_get_or_alloc_spec (rs_flow rs) tx t (rs_oracle rs) Herr)
    as (d & o1 & Hget & _ & _).
  rewrite Hget. simpl. destruct d as [d|]; [|by eexists].
  pose proof (tx_destate_get_or_alloc_dir _ _ _ _ _ _ i Hget) as Hd.
  destruct Hset as (Hwf & Hk & Hall & Hts & Htc).
  unfold DeStateSignatureAppend. fold i. rewrite Hd.
  destruct (StoreAppend_items DeStateStoreItem_zero _ (mkItem (num s) iflags) o1 Hwf
              ltac:(lia))
    as (ds' & o2 & items & -> & Hwf' & Hitems & Hcase & _).
  simpl. destruct (StoreStateTxHandleFiles _ _ _ _ _) as [d2 evs] eqn:Hf.
  eexists. split; [done|]. simpl.
  pose proof (StoreStateTxHandleFiles_settled (rs_det rs)
                (arr2_set i (mkDir ds' (filestore_cnt (tx_dir (rs_flow rs) tx i))
                               (dir_flags (tx_dir (rs_flow rs) tx i))) d)
                flags tx fnm (k + 1)) as Hfiles.
  pose proof (StoreStateTxHandleFiles_alerts (rs_det rs)
                (arr2_set i (mkDir ds' (filestore_cnt (tx_dir (rs_flow rs) tx i))
                               (dir_flags (tx_dir (rs_flow rs) tx i))) d)
                flags tx fnm) as Hev.
  fold i in Hfiles. rewrite Hf in Hfiles, Hev. simpl in Hfiles, Hev.
  split; [|split; [|split]].
  - rewrite tx_dir_set, decide_True by done. apply Hfiles.
    rewrite arr2_get_set. split; [done|]. simpl.
    rewrite DirStoreItems_wf in Hitems by done. injection Hitems as <-.
    destruct Hcase as [[_ ->]|[Hnew Hcnt]].
    + split; [lia|]. done.
    + split; [lia|]. split; [|done].
      rewrite DirStoreItems_wf in Hnew by done. injection Hnew as ->.
      apply Forall_app. split; [done|]. by apply Forall_singleton.
  - intros tx' Hne. rewrite tx_dir_set, decide_False by done. done.
  - done.
  - by rewrite alerts_app, Hev, app_nil_r.
Qed.

Lemma StoreStateTxFileOnly_settled (flags tx : Z) (t : Tx) (fnm k : Z) (rs : RunState) :
  tx_set_state_err t = false →
  settled_dir k (tx_dir (rs_flow rs) tx (dir_index flags)) →
  ∃ rs',
    StoreStateTxFileOnly flags tx t fnm rs = Some rs'
    ∧ settled_dir k (tx_dir (rs_flow rs') tx (dir_index flags))
    ∧ (∀ tx', tx' ≠ tx →
         tx_dir (rs_flow rs') tx' (dir_index flags)
         = tx_dir (rs_flow rs) tx' (dir_index flags))
    ∧ flow_app (rs_flow rs') = flow_app (rs_flow rs)
    ∧ alerts (rs_trace rs') = alerts (rs_trace rs).
Proof.
  intros Herr Hset. unfold StoreStateTxFileOnly.
  set (i := dir_index flags) in *.
  destruct (AppLayerParserSupportsTxDetectState _ _); [|by exists rs].
  destruct (tx_destate_get_or_alloc_spec (rs_flow rs) tx t (rs_oracle rs) Herr)
    as (d & o1 & Hget & _ & _).
  rewrite Hget. simpl. destruct d as [d|]; [|by eexists].
  pose proof (tx_destate_get_or_alloc_dir _ _ _ _ _ _ i Hget) as Hd.
  destruct (StoreStateTxHandleFiles _ _ _ _ _) as [d2 evs] eqn:Hf.
  eexists. split; [done|]. simpl.
  pose proof (StoreStateTxHandleFiles_settled (rs_det rs) d flags tx fnm k) as Hfiles.
  pose proof (StoreStateTxHandleFiles_alerts (rs_det rs) d flags tx fnm) as Hev.
  fold i in Hfiles. rewrite Hf in Hfiles, Hev. simpl in Hfiles, Hev.
  split; [|split; [|split]].
  - rewrite tx_dir_set, decide_True by done. apply Hfiles. by rewrite Hd.
  - intros tx' Hne. rewrite tx_dir_set, decide_False by done. done.
  - done.
  - by rewrite alerts_app, Hev, app_nil_r.
Qed.

Lemma alert_or_apply_alerts (s : Signature) (tx fl : Z) (rs : RunState) :
  alerts (rs_trace (alert_or_apply s tx fl rs))
  = alerts (rs_trace rs)
    ++ (if negb (has (sig_flags s) SIG_FLAG_NOALERT) then [(num s, tx)] else []).
Proof.
  unfold alert_or_apply. destruct (negb _); simpl; by rewrite alerts_app.
Qed.

(** One iteration of the transaction loop of the start driver on a
    settled store: it completes, the store stays settled with at most one
    record more, and the alerts it raises are read off the engine loop. *)
Lemma start_tx_body_settled (s : Signature) (flags : Z) (alproto : AppProto)
    (alversion : Z) (st : AppState) (total_txs tx : Z) (t : Tx) (loc : StartLocals)
    (rs : RunState) (k : Z)
    (engine : list DetectEngineAppInspectionEngine) (iflags tm fnm : Z) :
  AppLayerParserGetTx st tx = Some t →
  tx_set_state_err t = false →
  settled_dir k (tx_dir (rs_flow rs) tx (dir_index flags)) →
  k + 1 < 2 ^ SigIntId_bits →
  is_Some (sig_array !! num s) →
  start_engine_loop
    (app_inspection_engine (protomap (rs_flow rs)) alproto (dir_index flags))
    s st flags tx 0 0 (sl_file_no_match loc) = (engine, iflags, tm, fnm) →
  ∃ loc' rs',
    start_tx_body s flags alproto alversion st total_txs tx loc rs = Some (loc', rs')
    ∧ sl_file_no_match loc' = fnm
    ∧ settled_dir (k + 1) (tx_dir (rs_flow rs') tx (dir_index flags))
    ∧ (∀ tx', tx' ≠ tx →
         tx_dir (rs_flow rs') tx' (dir_index flags)
         = tx_dir (rs_flow rs) tx' (dir_index flags))
    ∧ flow_app (rs_flow rs') = flow_app (rs_flow rs)
    ∧ alerts (rs_trace rs')
      = alerts (rs_trace rs)
        ++ (if is_nil engine && (0 <? tm) && negb (has (sig_flags s) SIG_FLAG_NOALERT)
            then [(num s, tx)] else []).
Proof.
  intros Htx Herr Hset Hroom Hsig Hloop. unfold start_tx_body.
  rewrite Htx. cbv zeta. simpl rs_flow. rewrite Hloop. cbv beta iota.
  set (rs0 := rs_with_det (det_set_tx tx 1 (rs_det rs)) rs).
  set (rs1 := if is_nil engine && (0 <? tm) then alert_or_apply _ _ _ rs0 else rs0).
  assert (rs_flow rs1 = rs_flow rs) as Hflow.
  { unfold rs1. destruct (_ && _); [|done]. by rewrite (proj1 (rs_flow_alert _ _ _ _)). }
  assert (alerts (rs_trace rs1)
          = alerts (rs_trace rs)
            ++ (if is_nil engine && (0 <? tm) && negb (has (sig_flags s) SIG_FLAG_NOALERT)
                then [(num s, tx)] else [])) as Halerts.
  { unfold rs1. destruct (_ && _); simpl; [|by rewrite app_nil_r].
    by rewrite alert_or_apply_alerts. }
  assert (settled_dir (k + 1) (tx_dir (rs_flow rs) tx (dir_index flags))) as Hset1
    by (eapply settled_dir_mono; [|done]; lia).
  destruct (is_nil engine && (0 <? tm) || has iflags DE_STATE_FLAG_SIG_CANT_MATCH)
    eqn:Hdec.
  2: { eexists _, rs1. split; [done|]. simpl. by rewrite Hflow. }
  destruct (negb (TxIsLast tx total_txs) || _).
  - assert (is_nil engine || has iflags DE_STATE_FLAG_SIG_CANT_MATCH = true) as Hfull.
    { destruct (is_nil engine); [done|]. by rewrite andb_false_l in Hdec. }
    rewrite Hfull.
    destruct (StoreStateTx_settled flags alversion tx t s
                (Z.lor iflags DE_STATE_FLAG_FULL_INSPECT) fnm k rs1 Herr)
      as (rs2 & -> & Hs2 & Hfr & Happ & Hal); [by rewrite Hflow|done| |done|].
    { unfold DE_STATE_FLAG_FULL_INSPECT. rewrite has_lor, has_bit_bit.
      rewrite bool_decide_eq_true_2 by done. apply orb_true_r. }
    rewrite Hflow in Hfr, Happ.
    eexists _, rs2. split; [done|]. simpl. rewrite Hal, Halerts. done.
  - destruct (StoreStateTxFileOnly_settled flags tx t fnm (k + 1) rs1 Herr)
      as (rs2 & -> & Hs2 & Hfr & Happ & Hal); [by rewrite Hflow|].
    rewrite Hflow in Hfr, Happ.
    eexists _, rs2. split; [done|]. simpl. rewrite Hal, Halerts. done.
Qed.

Lemma flow_on_fields (f0 f : Flow) (st : AppState) :
  flow_on f0 st f →
  proto f = proto f0 ∧ protomap f = protomap f0 ∧ alstate f = Some st
  ∧ alparser_inspect_id f = alparser_inspect_id f0 ∧ de_state f = None.
Proof. by intros [= -> -> _ -> -> ->]. Qed.

Lemma flow_on_app (f0 f f' : Flow) (st : AppState) :
  flow_on f0 st f → flow_app f' = flow_app f → flow_on f0 st f'.
Proof. unfold flow_on. by intros <- ->. Qed.

(** The two runs side by side: the start driver on the prefix state
    [st1] and on the state of the whole input [st2], for signatures that
    the engines have decided on [st1] with answers that are final. *)
Section TwoRuns.
Variables (flags : Z) (alproto : AppProto) (st1 st2 : AppState) (f0 : Flow).
Variable sigs : list Signature.

Local Abbreviation engines :=
  (app_inspection_engine (protomap f0) alproto (dir_index flags)).
Local Abbreviation lo := (alparser_inspect_id f0 flags).
Local Abbreviation hi := (al_tx_cnt st1).

Hypothesis Hsupp : AppLayerParserProtocolSupportsTxs (proto f0) alproto = true.
Hypothesis Hvalid1 : StateIsValid alproto (Some st1) = true.
Hypothesis Hvalid2 : StateIsValid alproto (Some st2) = true.
Hypothesis Hcnt : al_tx_cnt st1 = al_tx_cnt st2.
Hypothesis Hlive :
  ∀ tx, lo ≤ tx < hi → is_Some (al_txs st1 !! tx) ↔ is_Some (al_txs st2 !! tx).
Hypothesis Herr :
  ∀ tx t, lo ≤ tx < hi →
    al_txs st1 !! tx = Some t ∨ al_txs st2 !! tx = Some t → tx_set_state_err t = false.
Hypothesis Hsigs :
  ∀ s, s ∈ sigs →
    sm_lists s DETECT_SM_LIST_AMATCH = [] ∧ is_Some (sig_array !! num s).
Hypothesis Hstable :
  ∀ s e tx, s ∈ sigs → e ∈ engines → lo ≤ tx < hi →
    Callback e s st1 flags tx ≠ DETECT_ENGINE_INSPECT_SIG_NO_MATCH →
    Callback e s st2 flags tx = Callback e s st1 flags tx.
Hypothesis Hdecided :
  ∀ s tx, s ∈ sigs → lo ≤ tx < hi → is_Some (al_txs st1 !! tx) →
    decided_on engines s st1 flags tx.

Lemma start_tx_loop_sim (s : Signature) (va vb : Z) (n : nat) :
  s ∈ sigs →
  ∀ tx loca locb rsa rsb k,
    lo ≤ tx → ((0 < n)%nat → tx + Z.of_nat n ≤ hi) →
    sl_file_no_match loca = sl_file_no_match locb →
    flow_on f0 st1 (rs_flow rsa) → flow_on f0 st2 (rs_flow rsb) →
    (∀ tx', settled_dir (if decide (tx' < tx) then k + 1 else k)
              (tx_dir (rs_flow rsa) tx' (dir_index flags))) →
    (∀ tx', settled_dir (if decide (tx' < tx) then k + 1 else k)
              (tx_dir (rs_flow rsb) tx' (dir_index flags))) →
    k + 1 < 2 ^ SigIntId_bits →
    ∃ loca' rsa' locb' rsb' new,
      start_tx_loop n s flags alproto va st1 hi tx loca rsa = Some (loca', rsa')
      ∧ start_tx_loop n s flags alproto vb st2 hi tx locb rsb = Some (locb', rsb')
      ∧ flow_on f0 st1 (rs_flow rsa') ∧ flow_on f0 st2 (rs_flow rsb')
      ∧ (∀ tx', settled_dir (k + 1) (tx_dir (rs_flow rsa') tx' (dir_index flags)))
      ∧ (∀ tx', settled_dir (k + 1) (tx_dir (rs_flow rsb') tx' (dir_index flags)))
      ∧ alerts (rs_trace rsa') = alerts (rs_trace rsa) ++ new
      ∧ alerts (rs_trace rsb') = alerts (rs_trace rsb) ++ new.
Proof.
  intros Hs. destruct (Hsigs s Hs) as [_ Hsig].
  induction n as [|n IH]; intros tx loca locb rsa rsb k Hlo Hhi Hfnm Hfa Hfb Hsa Hsb Hroom.
  { exists loca, rsa, locb, rsb, []. simpl. split; [done|]. split; [done|].
    split; [done|]. split; [done|].
    split; [|split; [|by rewrite !app_nil_r]].
    - intros tx'. eapply settled_dir_mono; [|apply Hsa]. case_decide; lia.
    - intros tx'. eapply settled_dir_mono; [|apply Hsb]. case_decide; lia. }
  specialize (Hhi ltac:(lia)).
  assert (lo ≤ tx < hi) as Hrange by lia.
  assert (∀ rs : RunState,
            (∀ tx', settled_dir (if decide (tx' < tx) then k + 1 else k)
                      (tx_dir (rs_flow rs) tx' (dir_index flags))) →
            ∀ rs' : RunState,
              settled_dir (k + 1) (tx_dir (rs_flow rs') tx (dir_index flags)) →
              (∀ tx', tx' ≠ tx → tx_dir (rs_flow rs') tx' (dir_index flags)
                                 = tx_dir (rs_flow rs) tx' (dir_index flags)) →
              ∀ tx', settled_dir (if decide (tx' < tx + 1) then k + 1 else k)
                       (tx_dir (rs_flow rs') tx' (dir_index flags))) as Hnext.
  { intros rs Hrs rs' Hset Hfr tx'. destruct (decide (tx' = tx)) as [->|Hne].
    - rewrite decide_True by lia. done.
    - rewrite Hfr by done. specialize (Hrs tx').
      destruct (decide (tx' < tx)), (decide (tx' < tx + 1)); try lia; done. }
  simpl.
  destruct (al_txs st1 !! tx) as [t1|] eqn:Ht1.
  - destruct (proj1 (Hlive tx Hrange) ltac:(by rewrite Ht1)) as [t2 Ht2].
    destruct (flow_on_fields _ _ _ Hfa) as (_ & Hpa & _).
    destruct (flow_on_fields _ _ _ Hfb) as (_ & Hpb & _).
    destruct (start_engine_loop engines s st1 flags tx 0 0 (sl_file_no_match loca))
      as [[[engine iflags] tm] fnm] eqn:Hloop1.
    assert (start_engine_loop engines s st2 flags tx 0 0 (sl_file_no_match locb)
            = (engine, iflags, tm, fnm)) as Hloop2.
    { rewrite <- Hfnm, <- Hloop1. apply start_engine_loop_stable.
      - intros e He. by apply Hstable.
      - rewrite (start_engine_loop_fnm _ _ _ _ _ 0 0 _ 0).
        apply Hdecided; [done..|]. by rewrite Ht1. }
    pose proof (Hsa tx) as Hsa0. pose proof (Hsb tx) as Hsb0.
    rewrite decide_False in Hsa0, Hsb0 by lia.
    rewrite <- Hpa in Hloop1. rewrite <- Hpb in Hloop2.
    destruct (start_tx_body_settled s flags alproto va st1 hi tx t1 loca rsa k
                _ _ _ _ Ht1 (Herr tx t1 Hrange (or_introl Ht1)) Hsa0 Hroom Hsig Hloop1)
      as (loca1 & rsa1 & -> & Hfa1 & Hsa1 & Hfra & Happa & Hala).
    destruct (start_tx_body_settled s flags alproto vb st2 hi tx t2 locb rsb k
                _ _ _ _ Ht2 (Herr tx t2 Hrange (or_intror Ht2)) Hsb0 Hroom Hsig Hloop2)
      as (locb1 & rsb1 & -> & Hfb1 & Hsb1 & Hfrb & Happb & Halb).
    simpl.
    destruct (IH (tx + 1) loca1 locb1 rsa1 rsb1 k) as
      (loca' & rsa' & locb' & rsb' & new & -> & -> & Hfa' & Hfb' & Hsa' & Hsb' & Ha' & Hb');
      [lia|lia|congruence|by eapply flow_on_app|by eapply flow_on_app
      |by apply (Hnext rsa)|by apply (Hnext rsb)|done|].
    eexists _, _, _, _, _. split; [done|]. split; [done|].
    split; [done|]. split; [done|]. split; [done|]. split; [done|].
    rewrite Ha', Hb', Hala, Halb, <- !app_assoc. done.
  - assert (al_txs st2 !! tx = None) as Ht2.
    { destruct (al_txs st2 !! tx) eqn:Ht2; [|done].
      destruct (proj2 (Hlive tx Hrange) ltac:(by rewrite Ht2)) as [? ?]. congruence. }
    unfold start_tx_body, AppLayerParserGetTx. rewrite Ht1, Ht2. simpl.
    apply IH; [lia|lia|done|done|done| | |done].
    + intros tx'. specialize (Hsa tx').
      destruct (decide (tx' < tx)), (decide (tx' < tx + 1)); try lia; try done.
      eapply settled_dir_mono; [|done]. lia.
    + intros tx'. specialize (Hsb tx').
      destruct (decide (tx' < tx)), (decide (tx' < tx + 1)); try lia; try done.
      eapply settled_dir_mono; [|done]. lia.
Qed.

Lemma start_driver_sim (s : Signature) (va vb : Z) (rsa rsb : RunState) (k : Z) :
  s ∈ sigs →
  flow_on f0 st1 (rs_flow rsa) → flow_on f0 st2 (rs_flow rsb) →
  (∀ tx', settled_dir k (tx_dir (rs_flow rsa) tx' (dir_index flags))) →
  (∀ tx', settled_dir k (tx_dir (rs_flow rsb) tx' (dir_index flags))) →
  k + 1 < 2 ^ SigIntId_bits →
  ∃ ra rsa' rb rsb' new,
    DeStateDetectStartDetection s flags alproto va rsa = Some (ra, rsa')
    ∧ DeStateDetectStartDetection s flags alproto vb rsb = Some (rb, rsb')
    ∧ flow_on f0 st1 (rs_flow rsa') ∧ flow_on f0 st2 (rs_flow rsb')
    ∧ (∀ tx', settled_dir (k + 1) (tx_dir (rs_flow rsa') tx' (dir_index flags)))
    ∧ (∀ tx', settled_dir (k + 1) (tx_dir (rs_flow rsb') tx' (dir_index flags)))
    ∧ alerts (rs_trace rsa') = alerts (rs_trace rsa) ++ new
    ∧ alerts (rs_trace rsb') = alerts (rs_trace rsb) ++ new.
Proof.
  intros Hs Hfa Hfb Hsa Hsb Hroom.
  destruct (flow_on_fields _ _ _ Hfa) as (Hpra & _ & Hala & Hida & _).
  destruct (flow_on_fields _ _ _ Hfb) as (Hprb & _ & Halb & Hidb & _).
  destruct (Hsigs s Hs) as [Hnoam _].
  destruct (start_tx_loop_sim s va vb (Z.to_nat (hi - lo)) Hs lo
              (mkStartLocals 0 0 0) (mkStartLocals 0 0 0) rsa rsb k)
    as (loca' & rsa' & locb' & rsb' & new & Hla & Hlb & Hfa' & Hfb' & Hsa' & Hsb' & Ha & Hb);
    [lia|lia|done|done|done| | |done|].
  { intros tx'. eapply settled_dir_mono; [|apply Hsa]. case_decide; lia. }
  { intros tx'. eapply settled_dir_mono; [|apply Hsb]. case_decide; lia. }
  unfold DeStateDetectStartDetection, FlowGetAppState, AppLayerParserGetTxCnt.
  rewrite Hpra, Hprb, Hsupp, Hala, Halb, Hvalid1, Hvalid2, Hida, Hidb, <- Hcnt.
  simpl. rewrite Hla, Hlb. simpl.
  unfold start_flow_part. rewrite Hnoam. simpl.
  eexists _, _, _, _, new. split; [done|]. split; [done|]. simpl. done.
Qed.

Lemma start_all_sim (va vb : Z) (l : list Signature) :
  (∀ s, s ∈ l → s ∈ sigs) →
  ∀ rsa rsb k,
    flow_on f0 st1 (rs_flow rsa) → flow_on f0 st2 (rs_flow rsb) →
    (∀ tx', settled_dir k (tx_dir (rs_flow rsa) tx' (dir_index flags))) →
    (∀ tx', settled_dir k (tx_dir (rs_flow rsb) tx' (dir_index flags))) →
    k + Z.of_nat (length l) < 2 ^ SigIntId_bits →
    alerts (rs_trace rsa) = alerts (rs_trace rsb) →
    ∃ rsa' rsb',
      start_all l flags alproto va rsa = Some rsa'
      ∧ start_all l flags alproto vb rsb = Some rsb'
      ∧ flow_on f0 st1 (rs_flow rsa') ∧ flow_on f0 st2 (rs_flow rsb')
      ∧ (∀ tx', settled_dir (k + Z.of_nat (length l))
                  (tx_dir (rs_flow rsa') tx' (dir_index flags)))
      ∧ alerts (rs_trace rsa') = alerts (rs_trace rsb').
Proof.
  induction l as [|s l IH]; intros Hl rsa rsb k Hfa Hfb Hsa Hsb Hroom Hal.
  { exists rsa, rsb. simpl. rewrite Z.add_0_r. done. }
  simpl length in *.
  destruct (start_driver_sim s va vb rsa rsb k)
    as (ra & rsa1 & rb & rsb1 & new & Hda & Hdb & Hfa1 & Hfb1 & Hsa1 & Hsb1 & Ha & Hb);
    [apply Hl; by left|done|done|done|done|lia|].
  destruct (IH ltac:(intros s' Hs'; apply Hl; by right) rsa1 rsb1 (k + 1))
    as (rsa' & rsb' & Hra & Hrb & Hfa' & Hfb' & Hsa' & Hal');
    [done|done|done|done|lia|congruence|].
  exists rsa', rsb'. simpl. rewrite Hda, Hdb. simpl.
  split; [done|]. split; [done|]. split; [done|]. split; [done|].
  split; [|done]. intros tx'. eapply settled_dir_mono; [|apply Hsa']. lia.
Qed.

End TwoRuns.

(** The continue driver has nothing to do on a settled record. *)
Lemma DoInspectItem_settled (item : DeStateStoreItem) (dsf : Z) (f : Flow)
    (alproto : AppProto) (flags tx total_txs fnm : Z) (inprog nxt : bool)
    (det : DetectEngineThreadCtx) :
  settled_item item →
  has dsf DETECT_ENGINE_STATE_FLAG_FILE_TS_NEW = false →
  has dsf DETECT_ENGINE_STATE_FLAG_FILE_TC_NEW = false →
  ∃ det',
    DoInspectItem item dsf f alproto flags tx total_txs fnm inprog nxt det
    = Some (0, item, fnm, det', []).
Proof.
  intros [Hfull [s Hs]] Hts Htc. unfold DoInspectItem. rewrite Hs. simpl.
  rewrite Hfull. unfold reopen_full_inspect. rewrite Hts, Htc, !andb_false_r.
  destruct (has (item_flags item) (Z.lor _ _));
    rewrite Hfull; unfold item_with_flags; destruct item; simpl; by eexists.
Qed.

Lemma items_loop_settled (dsf : Z) (f : Flow) (alproto : AppProto)
    (flags tx total_txs : Z) (inprog nxt : bool) (xs : list DeStateStoreItem) :
  has dsf DETECT_ENGINE_STATE_FLAG_FILE_TS_NEW = false →
  has dsf DETECT_ENGINE_STATE_FLAG_FILE_TC_NEW = false →
  Forall settled_item xs →
  ∀ fnm det trace,
    ∃ det' trace',
      items_loop (inspect_item_body dsf f alproto flags tx total_txs inprog nxt) xs
        (fnm, det, trace) = Some (false, xs, (fnm, det', trace'))
      ∧ alerts trace' = alerts trace.
Proof.
  intros Hts Htc. induction 1 as [|x xs Hx Hxs IH]; intros fnm det trace.
  { by exists det, trace. }
  destruct (DoInspectItem_settled x dsf f alproto flags tx total_txs fnm inprog nxt det
              Hx Hts Htc) as [det1 Hcall].
  destruct (IH fnm det1 (trace ++ [] ++ [CallDoInspectItem tx (item_sid x) 0]))
    as (det' & trace' & Hrest & Hal).
  assert (inspect_item_body dsf f alproto flags tx total_txs inprog nxt x (fnm, det, trace)
          = Some (0, x, (fnm, det1, trace ++ [] ++ [CallDoInspectItem tx (item_sid x) 0])))
    as Hbody by (unfold inspect_item_body; by rewrite Hcall).
  exists det', trace'. cbn [items_loop]. rewrite Hbody.
  cbn [mbind option_bind]. cbv beta iota. change (0 <? 0) with false. cbv iota.
  rewrite Hrest. split; [done|].
  rewrite Hal, alerts_app. simpl. by rewrite app_nil_r.
Qed.

Lemma continue_tx_body_settled (flags : Z) (alproto : AppProto) (st : AppState)
    (total_txs tx k : Z) (loc : ContLocals) (rs : RunState) :
  (∀ tx', settled_dir k (tx_dir (rs_flow rs) tx' (dir_index flags))) →
  ∃ exit loc' rs',
    continue_tx_body flags alproto st total_txs tx loc rs = Some (exit, loc', rs')
    ∧ exit ≠ LoopGotoEnd
    ∧ (∀ tx', settled_dir k (tx_dir (rs_flow rs') tx' (dir_index flags)))
    ∧ flow_app (rs_flow rs') = flow_app (rs_flow rs)
    ∧ alerts (rs_trace rs') = alerts (rs_trace rs).
Proof.
  intros Hset. unfold continue_tx_body.
  destruct (AppLayerParserGetTx st tx) as [t|]; [|by exists LoopNext, loc, rs].
  destruct (AppLayerParserGetTxDetectState _ _) as [d|] eqn:Hd;
    [|by exists LoopNext, loc, rs].
  pose proof (Hset tx) as Htx.
  rewrite (tx_dir_lookup _ _ _ _ Hd) in Htx.
  destruct Htx as (Hwf & Hk & Hall & Hts & Htc).
  set (body := inspect_item_body _ _ _ _ _ _ _ _).
  destruct (items_loop_settled (dir_flags (arr2_get (dir_index flags) d)) (rs_flow rs)
              alproto flags tx total_txs
              (tx_progress t flags
               <? AppLayerParserGetStateProgressCompletionStatus
                    (proto (rs_flow rs)) alproto flags)
              (if negb (TxIsLast tx total_txs)
               then match AppLayerParserGetTx st (tx + 1) with
                    | Some next_inspect_tx => tx_progress next_inspect_tx flags =? 0
                    | None => false
                    end
               else false)
              _ Hts Htc Hall (cl_file_no_match loc) (rs_det rs) (rs_trace rs))
    as (det' & trace' & Hitems & Hal).
  fold body in Hitems.
  pose proof (store_loop_items body (dir_store (arr2_get (dir_index flags) d)) 0
                (cl_file_no_match loc, rs_det rs, rs_trace rs) Hwf ltac:(lia)) as Hloop.
  rewrite Z.sub_0_r, Hitems in Hloop.
  destruct Hloop as (ds' & sc' & -> & Hwf' & Hcnt' & Hflat & _).
  rewrite take_drop in Hflat. simpl.
  assert (∀ rs' : RunState,
            rs_flow rs' = flow_set_tx_de_state (rs_flow rs) tx
                            (arr2_set (dir_index flags)
                               (mkDir ds' (filestore_cnt (arr2_get (dir_index flags) d))
                                  (dir_flags (arr2_get (dir_index flags) d))) d) →
            rs_trace rs' = trace' →
            (∀ tx', settled_dir k (tx_dir (rs_flow rs') tx' (dir_index flags)))
            ∧ flow_app (rs_flow rs') = flow_app (rs_flow rs)
            ∧ alerts (rs_trace rs') = alerts (rs_trace rs)) as Hfin.
  { intros rs' -> ->. split; [|done]. intros tx'. rewrite tx_dir_set.
    destruct (decide (tx = tx')) as [<-|Hne]; [|apply Hset].
    rewrite arr2_get_set. split; [done|]. simpl. rewrite Hcnt', Hflat. done. }
  destruct (_ <? _); eexists _, _, _; (split; [done|]); (split; [done|]); by apply Hfin.
Qed.

Lemma continue_tx_loop_settled (flags : Z) (alproto : AppProto) (st : AppState)
    (total_txs k : Z) (n : nat) :
  ∀ tx loc rs,
    (∀ tx', settled_dir k (tx_dir (rs_flow rs) tx' (dir_index flags))) →
    ∃ loc' rs',
      continue_tx_loop n flags alproto st total_txs tx loc rs = Some (false, loc', rs')
      ∧ (∀ tx', settled_dir k (tx_dir (rs_flow rs') tx' (dir_index flags)))
      ∧ flow_app (rs_flow rs') = flow_app (rs_flow rs)
      ∧ alerts (rs_trace rs') = alerts (rs_trace rs).
Proof.
  induction n as [|n IH]; intros tx loc rs Hset; simpl; [by eexists _, _|].
  destruct (continue_tx_body_settled flags alproto st total_txs tx k loc rs Hset)
    as (exit & loc1 & rs1 & -> & Hexit & Hset1 & Happ1 & Hal1).
  simpl. destruct exit; [|by eexists _, _|done].
  destruct (IH (tx + 1) loc1 rs1 Hset1) as (loc' & rs' & -> & Hset' & Happ & Hal).
  eexists _, _. split; [done|]. split; [done|]. split; congruence.
Qed.

(** On a flow all of whose stored records are settled, the continue
    driver completes, raises no alert and leaves the records settled. *)
Lemma continue_driver_settled (flags : Z) (alproto : AppProto) (alversion k : Z)
    (rs : RunState) :
  de_state (rs_flow rs) = None →
  (∀ tx', settled_dir k (tx_dir (rs_flow rs) tx' (dir_index flags))) →
  ∃ rs',
    DeStateDetectContinueDetection flags alproto alversion rs = Some rs'
    ∧ de_state (rs_flow rs') = None
    ∧ (∀ tx', settled_dir k (tx_dir (rs_flow rs') tx' (dir_index flags)))
    ∧ alerts (rs_trace rs') = alerts (rs_trace rs).
Proof.
  intros Hde Hset. unfold DeStateDetectContinueDetection.
  assert (∀ loc (rs1 : RunState),
            flow_app (rs_flow rs1) = flow_app (rs_flow rs) →
            continue_flow_part flags alproto alversion loc rs1 = Some rs1
            ∧ de_state (rs_flow rs1) = None) as Hflow.
  { intros loc rs1 [= _ _ _ _ _ Hd]. unfold continue_flow_part. by rewrite Hd, Hde. }
  destruct (AppLayerParserProtocolSupportsTxs _ _).
  - destruct (FlowGetAppState _) as [st|]; [|by exists rs].
    destruct (negb _); [by exists rs|].
    destruct (continue_tx_loop_settled flags alproto st (AppLayerParserGetTxCnt st) k
                (Z.to_nat (AppLayerParserGetTxCnt st
                           - alparser_inspect_id (rs_flow rs) flags))
                (alparser_inspect_id (rs_flow rs) flags) (mkContLocals 0 0) rs Hset)
      as (loc1 & rs1 & -> & Hset1 & Happ & Hal).
    simpl. destruct (Hflow loc1 rs1 Happ) as [-> Hde1]. simpl. by eexists.
  - destruct (Hflow (mkContLocals 0 0) rs eq_refl) as [-> _]. simpl. by eexists.
Qed.

Lemma continue_all_settled (flags : Z) (alproto : AppProto) (k : Z)
    (packets : list (AppState * Z)) :
  ∀ rs,
    de_state (rs_flow rs) = None →
    (∀ tx', settled_dir k (tx_dir (rs_flow rs) tx' (dir_index flags))) →
    ∃ rs',
      continue_all packets flags alproto rs = Some rs'
      ∧ alerts (rs_trace rs') = alerts (rs_trace rs).
Proof.
  induction packets as [|[st v] rest IH]; intros rs Hde Hset; simpl; [by exists rs|].
  destruct (continue_driver_settled flags alproto v k (deliver st rs) Hde Hset)
    as (rs1 & -> & Hde1 & Hset1 & Hal1).
  simpl. destruct (IH rs1 Hde1 Hset1) as (rs' & -> & Hal).
  exists rs'. split; [done|]. by rewrite Hal, Hal1.
Qed.

(** Transactional signatures (no flow-scoped list) on a protocol with
    transactions, a flow with no detect state yet, and a split of the
    input into a prefix with app-layer state [st1] and the whole with
    app-layer state [st2], both valid, with the same live transactions.
    If on the prefix the engines have decided every signature on every
    live transaction from the inspect id on, and their answers other than
    NO_MATCH are final (the same on [st2]), then the start driver on the
    prefix followed by the continue driver on the packets that deliver
    the remainder, and the start driver on the whole input alone, both
    complete and raise the same alerts in the same order. *)
Lemma resume_decided (sigs : list Signature) (flags : Z) (alproto : AppProto)
    (v1 v2 : Z) (st1 st2 : AppState) (more : list (AppState * Z)) (rs0 : RunState) :
  let f0 := rs_flow rs0 in
  let engines := app_inspection_engine (protomap f0) alproto (dir_index flags) in
  let live tx := alparser_inspect_id f0 flags ≤ tx < al_tx_cnt st1 in
  AppLayerParserProtocolSupportsTxs (proto f0) alproto = true →
  tx_de_state f0 = ∅ →
  de_state f0 = None →
  StateIsValid alproto (Some st1) = true →
  StateIsValid alproto (Some st2) = true →
  al_tx_cnt st1 = al_tx_cnt st2 →
  (∀ tx, live tx → is_Some (al_txs st1 !! tx) ↔ is_Some (al_txs st2 !! tx)) →
  (∀ tx t, live tx → al_txs st1 !! tx = Some t ∨ al_txs st2 !! tx = Some t →
     tx_set_state_err t = false) →
  Z.of_nat (length sigs) < 2 ^ SigIntId_bits →
  (∀ s, s ∈ sigs →
     sm_lists s DETECT_SM_LIST_AMATCH = [] ∧ is_Some (sig_array !! num s)) →
  (∀ s e tx, s ∈ sigs → e ∈ engines → live tx →
     Callback e s st1 flags tx ≠ DETECT_ENGINE_INSPECT_SIG_NO_MATCH →
     Callback e s st2 flags tx = Callback e s st1 flags tx) →
  (∀ s tx, s ∈ sigs → live tx → is_Some (al_txs st1 !! tx) →
     decided_on engines s st1 flags tx) →
  ∃ rs1 rsA rsB,
    start_all sigs flags alproto v1 (deliver st1 rs0) = Some rs1
    ∧ continue_all (more ++ [(st2, v2)]) flags alproto rs1 = Some rsA
    ∧ start_all sigs flags alproto v2 (deliver st2 rs0) = Some rsB
    ∧ alerts (rs_trace rsA) = alerts (rs_trace rsB).
Proof.
  intros f0 engines live Hsupp Htx0 Hde0 Hv1 Hv2 Hcnt Hlive Herr Hlen Hsigs Hstable Hdec.
  assert (∀ st, flow_on f0 st (rs_flow (deliver st rs0))) as Hon.
  { intros st. unfold flow_on, flow_app, deliver. simpl. fold f0. by rewrite Hde0. }
  assert (∀ st tx', settled_dir 0 (tx_dir (rs_flow (deliver st rs0)) tx' (dir_index flags)))
    as Hzero.
  { intros st tx'. unfold tx_dir, deliver. simpl. fold f0. rewrite Htx0, lookup_empty.
    apply settled_dir_zero. }
  destruct (start_all_sim flags alproto st1 st2 f0 sigs Hsupp Hv1 Hv2 Hcnt Hlive Herr
              Hsigs Hstable Hdec v1 v2 sigs ltac:(done)
              (deliver st1 rs0) (deliver st2 rs0) 0)
    as (rs1 & rsB & HA & HB & Hf1 & _ & Hset & Hal); [done|done|done|done|lia|done|].
  destruct (flow_on_fields _ _ _ Hf1) as (_ & _ & _ & _ & Hde1).
  destruct (continue_all_settled flags alproto (0 + Z.of_nat (length sigs))
              (more ++ [(st2, v2)]) rs1) as (rsA & HC & HalA); [done|done|].
  exists rs1, rsA, rsB. split; [done|]. split; [done|]. split; [done|].
  by rewrite HalA.
Qed.

End ResumeProofs.

(** ** Record flags across a continue call *)

Section FlagProofs.
Context `{EngineHeader} `{External}.


Lemma items_loop_rel {A T} (body : A → T → option (Z * A * T)) (R : A → A → Prop) :
  (∀ x, R x x) →
  (∀ x st r x' st', body x st = Some (r, x', st') → R x x') →
  ∀ xs st stop xs' st',
    items_loop body xs st = Some (stop, xs', st') → Forall2 R xs xs'.
Proof.
  intros Hrefl Hbody. induction xs as [|x xs IH]; intros st stop xs' st'; simpl.
  { intros [= _ <- _]. constructor. }
  destruct (body x st) as [[[r x1] st1]|] eqn:Hb; [|done]. simpl.
  pose proof (Hbody _ _ _ _ _ Hb) as Hx.
  destruct (r <? 0).
  - intros [= _ <- _]. constructor; [done|]. by apply Forall_Forall2_diag, Forall_true.
  - destruct (items_loop body xs st1) as [[[stop1 xs1] st2]|] eqn:Hrest; [|done].
    simpl. intros [= _ <- _]. constructor; [done|]. by eapply IH.
Qed.

Lemma continue_flow_part_txs (flags : Z) (alproto : AppProto) (alversion : Z)
    (loc : ContLocals) (rs rs' : RunState) :
  continue_flow_part flags alproto alversion loc rs = Some rs' →
  tx_de_state (rs_flow rs') = tx_de_state (rs_flow rs).
Proof.
  unfold continue_flow_part.
  destruct (de_state (rs_flow rs)) as [d|]; [|by intros [= <-]].
  destruct (store_loop _ _ _ _) as [[[[stop store'] sc'] [det trace]]|]; [|done].
  simpl. destruct stop; by intros [= <-].
Qed.

Lemma tx_dir_store_dir (f : Flow) (tx : Z) (i : nat) :
  tx_dir_store f tx i = dir_store (tx_dir f tx i).
Proof. unfold tx_dir_store, tx_dir. by destruct (tx_de_state f !! tx). Qed.

End FlagProofs.

(** ** The continue driver completes *)

Section TotalProofs.
Context `{EngineHeader} `{External}.

Lemma items_loop_total {A T} (body : A → T → option (Z * A * T)) (xs : list A) :
  Forall (λ x, ∀ st, is_Some (body x st)) xs →
  ∀ st, is_Some (items_loop body xs st).
Proof.
  induction 1 as [|x xs Hx Hxs IH]; intros st; simpl; [done|].
  destruct (Hx st) as [[[r x'] st'] ->]. simpl.
  destruct (r <? 0); [done|]. destruct (IH st') as [[[stop xs'] st''] ->]. done.
Qed.

Lemma store_loop_total {A T} (body : A → T → option (Z * A * T)) (ds : DirStore A)
    (sc : Z) (st : T) :
  wf_store ds → 0 ≤ sc →
  Forall (λ x, ∀ st, is_Some (body x st))
    (take (Z.to_nat (ds_cnt ds)) (flat (ds_heap ds))) →
  ∃ stop ds' sc' st',
    store_loop body ds sc st = Some (stop, ds', sc', st')
    ∧ (stop = false → 0 ≤ sc').
Proof.
  intros Hwf Hsc Hall.
  pose proof (store_loop_items body ds sc st Hwf Hsc) as Hloop.
  destruct (items_loop_total body (take (Z.to_nat (ds_cnt ds - sc)) (flat (ds_heap ds))))
    with (st := st) as [[[stop xs] st'] Hitems].
  { replace (Z.to_nat (ds_cnt ds - sc))
      with (Z.to_nat (ds_cnt ds - sc) `min` Z.to_nat (ds_cnt ds))%nat by lia.
    rewrite <- take_take. by apply Forall_take. }
  rewrite Hitems in Hloop. destruct Hloop as (ds' & sc' & -> & _ & _ & _ & Hsc').
  eexists _, _, _, _. split; [done|]. intros ->. rewrite Hsc' by done. lia.
Qed.

Lemma inspect_item_body_total (dsf : Z) (f : Flow) (alproto : AppProto)
    (flags tx total_txs : Z) (inprog nxt : bool) (x : DeStateStoreItem) :
  is_Some (sig_array !! item_sid x) →
  ∀ st, is_Some (inspect_item_body dsf f alproto flags tx total_txs inprog nxt x st).
Proof.
  intros [s Hs] [[fnm det] trace].
  assert (is_Some (DoInspectItem x dsf f alproto flags tx total_txs fnm inprog nxt det))
    as [[[[[r x'] fnm'] det'] evs] Hcall].
  { unfold DoInspectItem. rewrite Hs. simpl.
    destruct (has (item_flags x) _); [destruct (has _ _)|]; done. }
  unfold inspect_item_body. by rewrite Hcall.
Qed.

Lemma inspect_flow_rule_body_total (dsf : Z) (f : Flow) (alproto : AppProto)
    (flags : Z) (x : DeStateStoreFlowRule) :
  is_Some (sig_array !! rule_sid x) →
  ∀ st, is_Some (inspect_flow_rule_body dsf f alproto flags x st).
Proof.
  intros [s Hs] [det trace].
  assert (is_Some (DoInspectFlowRule x dsf f alproto flags det))
    as [[[[r x'] det'] evs] Hcall].
  { unfold DoInspectFlowRule.
    destruct (has (rule_flags x) _); [done|]. rewrite Hs. cbn [mbind option_bind].
    destruct (rule_nm x) as [|m nm]; [done|].
    destruct (FlowGetAppState f) as [st|]; [|done].
    by destruct (continue_amatch_loop _ _ _ _ _ _ _) as [[? ?] ?]. }
  unfold inspect_flow_rule_body. by rewrite Hcall.
Qed.

Lemma continue_tx_body_total (flags : Z) (alproto : AppProto) (st : AppState)
    (total_txs tx : Z) (loc : ContLocals) (rs : RunState) :
  0 ≤ cl_state_cnt loc →
  inspectable_dir (tx_dir (rs_flow rs) tx (dir_index flags)) →
  ∃ exit loc' rs',
    continue_tx_body flags alproto st total_txs tx loc rs = Some (exit, loc', rs')
    ∧ (exit ≠ LoopGotoEnd → 0 ≤ cl_state_cnt loc')
    ∧ (∀ tx', tx' ≠ tx →
         tx_dir (rs_flow rs') tx' (dir_index flags)
         = tx_dir (rs_flow rs) tx' (dir_index flags))
    ∧ de_state (rs_flow rs') = de_state (rs_flow rs).
Proof.
  intros Hsc [Hwf Hall]. unfold continue_tx_body.
  destruct (AppLayerParserGetTx st tx) as [t|]; [|by exists LoopNext, loc, rs].
  destruct (AppLayerParserGetTxDetectState _ _) as [d|] eqn:Hd;
    [|by exists LoopNext, loc, rs].
  rewrite (tx_dir_lookup _ _ _ _ Hd) in *.
  set (body := inspect_item_body _ _ _ _ _ _ _ _).
  destruct (store_loop_total body (dir_store (arr2_get (dir_index flags) d)) 0
              (cl_file_no_match loc, rs_det rs, rs_trace rs) Hwf ltac:(lia))
    as (stop & ds' & sc' & [[fnm det] trace] & -> & Hsc').
  { eapply Forall_impl; [exact Hall|]. intros x Hx.
    by apply inspect_item_body_total. }
  simpl.
  assert (∀ tx', tx' ≠ tx →
            tx_dir (flow_set_tx_de_state (rs_flow rs) tx
                      (arr2_set (dir_index flags)
                         (mkDir ds' (filestore_cnt (arr2_get (dir_index flags) d))
                            (dir_flags (arr2_get (dir_index flags) d))) d))
              tx' (dir_index flags)
            = tx_dir (rs_flow rs) tx' (dir_index flags)) as Hfr
    by (intros tx' Hne; by rewrite tx_dir_set, decide_False).
  destruct stop; [by eexists _, _, _|].
  specialize (Hsc' eq_refl).
  destruct (_ <? _); by eexists _, _, _.
Qed.

Lemma continue_tx_loop_total (flags : Z) (alproto : AppProto) (st : AppState)
    (total_txs : Z) (n : nat) :
  ∀ tx loc rs,
    0 ≤ cl_state_cnt loc →
    (∀ tx', tx ≤ tx' → inspectable_dir (tx_dir (rs_flow rs) tx' (dir_index flags))) →
    ∃ (goto_end : bool) loc' rs',
      continue_tx_loop n flags alproto st total_txs tx loc rs = Some (goto_end, loc', rs')
      ∧ (goto_end = false → 0 ≤ cl_state_cnt loc')
      ∧ de_state (rs_flow rs') = de_state (rs_flow rs).
Proof.
  induction n as [|n IH]; intros tx loc rs Hsc Hall; simpl; [by eexists _, _, _|].
  destruct (continue_tx_body_total flags alproto st total_txs tx loc rs Hsc
              (Hall tx ltac:(lia)))
    as (exit & loc1 & rs1 & -> & Hsc1 & Hfr & Hde).
  simpl. destruct exit.
  - destruct (IH (tx + 1) loc1 rs1) as (g & loc' & rs' & -> & Hsc' & Hde');
      [by apply Hsc1| |].
    { intros tx' Htx'. rewrite Hfr by lia. apply Hall. lia. }
    eexists _, _, _. split; [done|]. split; [done|]. congruence.
  - eexists _, _, _. split; [done|]. split; [|done]. intros _. by apply Hsc1.
  - by eexists _, _, _.
Qed.

Lemma continue_flow_part_total (flags : Z) (alproto : AppProto) (alversion : Z)
    (loc : ContLocals) (rs : RunState) :
  0 ≤ cl_state_cnt loc →
  inspectable_flow_dir (flow_dir (rs_flow rs) (dir_index flags)) →
  is_Some (continue_flow_part flags alproto alversion loc rs).
Proof.
  intros Hsc. unfold continue_flow_part, flow_dir.
  destruct (de_state (rs_flow rs)) as [d|]; [|done]. intros [Hwf Hall].
  destruct (store_loop_total
              (inspect_flow_rule_body (fdir_flags (arr2_get (dir_index flags) d))
                 (rs_flow rs) alproto flags)
              (fdir_store (arr2_get (dir_index flags) d)) (cl_state_cnt loc)
              (rs_det rs, rs_trace rs) Hwf Hsc)
    as (stop & ds' & sc' & [det trace] & -> & _).
  { eapply Forall_impl; [exact Hall|]. intros x Hx.
    by apply inspect_flow_rule_body_total. }
  simpl. by destruct stop.
Qed.

(** On stores that are well formed and name registered signatures, the
    continue driver completes. *)
Lemma continue_driver_total (flags : Z) (alproto : AppProto) (alversion : Z)
    (rs : RunState) :
  (∀ tx, inspectable_dir (tx_dir (rs_flow rs) tx (dir_index flags))) →
  inspectable_flow_dir (flow_dir (rs_flow rs) (dir_index flags)) →
  is_Some (DeStateDetectContinueDetection flags alproto alversion rs).
Proof.
  intros Htx Hflow. unfold DeStateDetectContinueDetection.
  destruct (AppLayerParserProtocolSupportsTxs _ _).
  - destruct (FlowGetAppState _) as [st|]; [|done].
    destruct (negb _); [done|].
    destruct (continue_tx_loop_total flags alproto st (AppLayerParserGetTxCnt st)
                (Z.to_nat (AppLayerParserGetTxCnt st
                           - alparser_inspect_id (rs_flow rs) flags))
                (alparser_inspect_id (rs_flow rs) flags) (mkContLocals 0 0) rs)
      as (g & loc1 & rs1 & -> & Hsc & Hde); [done|by intros; apply Htx|].
    simpl. destruct g; [done|].
    destruct (continue_flow_part_total flags alproto alversion loc1 rs1) as [rs2 ->];
      [by apply Hsc| |done].
    unfold flow_dir in *. by rewrite Hde.
  - destruct (continue_flow_part_total flags alproto alversion (mkContLocals 0 0) rs)
      as [rs2 ->]; done.
Qed.

(** C9: when [DoInspectItem] or [DoInspectFlowRule] returns a negative
    value, the continue driver inspects no further stored record in that
    call, transactional or flow-scoped: in the calls a driver call adds to
    the trace, an inspector call that returned a negative value is the
    last inspector call.  The inspectors return 0, 1 or -1, and -1 only
    when the app-layer state is invalid or the transaction cannot be
    retrieved ([DoInspectItem]), or the app-layer state is NULL
    ([DoInspectFlowRule]).  On stores that are well formed and name
    registered signatures the driver call completes. *)
Theorem C9_abort_on_inspector_failure :
  (∀ (flags : Z) (alproto : AppProto) (alversion : Z) (rs rs' : RunState),
     DeStateDetectContinueDetection flags alproto alversion rs = Some rs' →
     ∃ new, rs_trace rs' = rs_trace rs ++ new ∧ abort_is_last new)
  ∧ (∀ item item' dsf f alproto flags tx total_txs fnm fnm' r inprog nxt det det' evs,
       DoInspectItem item dsf f alproto flags tx total_txs fnm inprog nxt det
       = Some (r, item', fnm', det', evs) →
       (r = 0 ∨ r = 1 ∨ r = -1)
       ∧ (r < 0 →
          StateIsValid alproto (FlowGetAppState f) = false
          ∨ (FlowGetAppState f ≫= λ st, AppLayerParserGetTx st tx) = None))
  ∧ (∀ item item' dsf f alproto flags r det det' evs,
       DoInspectFlowRule item dsf f alproto flags det = Some (r, item', det', evs) →
       (r = 0 ∨ r = 1 ∨ r = -1) ∧ (r < 0 → FlowGetAppState f = None))
  ∧ (∀ flags alproto alversion rs,
       (∀ tx, inspectable_dir (tx_dir (rs_flow rs) tx (dir_index flags))) →
       inspectable_flow_dir (flow_dir (rs_flow rs) (dir_index flags)) →
       is_Some (DeStateDetectContinueDetection flags alproto alversion rs)).
Proof.
  split; [|split; [|split]].
  - intros flags alproto alversion rs rs'. unfold DeStateDetectContinueDetection.
    assert (∀ rs1, running (rs_trace rs) (rs_trace rs1)
                   ∨ stopped (rs_trace rs) (rs_trace rs1) →
                   ∃ new, rs_trace rs1 = rs_trace rs ++ new ∧ abort_is_last new) as Hfin.
    { intros rs1 [(new & -> & Hok)|(new & -> & Hab)]; exists new; split; try done.
      - by apply calls_ok_abort_is_last.
      - by apply calls_aborted_abort_is_last. }
    pose proof (running_refl (rs_trace rs)) as Hrun.
    destruct (AppLayerParserProtocolSupportsTxs _ _).
    + destruct (FlowGetAppState _) as [st|]; [|intros [= <-]; apply Hfin; by left].
      destruct (negb _); [intros [= <-]; apply Hfin; by left|].
      destruct (continue_tx_loop _ _ _ _ _ _ _ _) as [[[goto_end loc1] rs1]|] eqn:Hloop;
        [|done].
      simpl.
      pose proof (continue_tx_loop_rule _ _ _ _ _ _ _ _ _ _ _ _ Hrun Hloop) as H1.
      destruct goto_end.
      * intros [= <-]. apply (Hfin rs1). by right.
      * destruct (continue_flow_part _ _ _ _ _) as [rs2|] eqn:Hflow; [|done].
        simpl. intros [= <-]. apply (Hfin rs2).
        by eapply continue_flow_part_rule.
    + destruct (continue_flow_part _ _ _ _ _) as [rs2|] eqn:Hflow; [|done].
      simpl. intros [= <-]. apply (Hfin rs2).
      by eapply continue_flow_part_rule.
  - intros. by eapply DoInspectItem_events.
  - intros. by eapply DoInspectFlowRule_events.
  - intros. by apply continue_driver_total.
Qed.

End TotalProofs.

(** The theorem at the appends of DeStateTest02. *)
Lemma C6_append_then_iter_witness :
  Z.of_nat (length test02_appends) < 2 ^ SigIntId_bits
  ∧ ∃ (state : DetectEngineState) (kept : list DeStateStoreItem),
      DeStateSignatureAppend_all DetectEngineState_zero test02_appends 4 []
      = Some (state, kept)
      ∧ DirStoreItems (dir_store (arr2_get (dir_index 4) state)) = Some kept
      ∧ ds_cnt (dir_store (arr2_get (dir_index 4) state)) = Z.of_nat (length kept)
      ∧ ∀ (k : nat) (x : DeStateStoreItem), kept !! k = Some x →
          ∃ c, ds_heap (dir_store (arr2_get (dir_index 4) state))
                 !! (k / Z.to_nat DE_STATE_CHUNK_SIZE)%nat
               = Some c
               ∧ c_store c !! (k mod Z.to_nat DE_STATE_CHUNK_SIZE)%nat = Some x.
Proof.
  split; [reflexivity|].
  apply (C6_append_then_iter test02_appends 4 []). reflexivity.
Defined.

(** The theorem at a zeroed state and an allocator that refuses. *)
Lemma C8_alloc_failure_drops_append_witness :
  DeStateSignatureAppend DetectEngineState_zero (sig_of_num 11) 0 4 [false]
  = Some (DetectEngineState_zero, [])
  ∧ DetectEngineState_zero = DetectEngineState_zero
  ∧ DeStateFlowRuleAppend DetectEngineStateFlow_zero (sig_of_num 11) [] 0 4 [false]
    = Some (DetectEngineStateFlow_zero, [])
  ∧ DetectEngineStateFlow_zero = DetectEngineStateFlow_zero.
Proof.
  split; [reflexivity|]. split.
  { apply (proj1 C8_alloc_failure_drops_append _ _ (sig_of_num 11) 0 4 []). reflexivity. }
  split; [reflexivity|].
  apply (proj2 C8_alloc_failure_drops_append _ _ (sig_of_num 11) [] 0 4 []). reflexivity.
Defined.

(** The continue driver on a flow whose app-layer state is gone:
    [DoInspectFlowRule] returns -1 on the first of the two stored flow
    records, and the second one is not inspected. *)
Lemma C9_abort_on_inspector_failure_witness :
  ∃ rs',
    DeStateDetectContinueDetection 4 (ALPROTO_OTHER 7) 1 (run0 flow_no_alstate []) = Some rs'
    ∧ rs_trace rs' = [CallDoInspectFlowRule 2 (-1)]
    ∧ ∃ new, rs_trace rs' = rs_trace (run0 flow_no_alstate []) ++ new ∧ abort_is_last new.
Proof.
  eexists. split; [vm_compute; reflexivity|]. split; [reflexivity|].
  apply (proj1 C9_abort_on_inspector_failure 4 (ALPROTO_OTHER 7) 1).
  vm_compute. reflexivity.
Defined.

(** C4 on the model.  The start driver runs on a one-transaction HTTP
    state for a transactional rule (sid 0) and a flow-scoped rule (sid 2):
    transaction 0 gets one record, the flow state one record.  The parser
    then delivers a second transaction and the continue driver runs: it
    calls [DoInspectItem] on the record of transaction 0 and does not call
    [DoInspectFlowRule] at all, because [state_cnt] is 1 when the flow
    loop starts and [cnt] is 1.  Without the transactional rule the same
    flow record is inspected, and alerts. *)
Theorem C4_flow_record_skipped :
  (start_all [sig_method; sig_flow] 4 ALPROTO_HTTP 1 (run0 (flow_http (st_one 1)) [])
   ≫= λ rs, DeStateDetectContinueDetection 4 ALPROTO_HTTP 2 (deliver (st_two 3 1) rs)
   ≫= λ rs',
     items ← DirStoreItems (tx_dir_store (rs_flow rs) 0 (dir_index 4));
     rules ← de_state (rs_flow rs)
               ≫= λ d, DirStoreItems (fdir_store (arr2_get (dir_index 4) d));
     Some (length items, rules, inspector_calls (rs_trace rs')))
  = Some (1%nat, [mkFlowRule [mkSigMatch 1] 0 2], [CallDoInspectItem 0 0 0])
  ∧ (start_all [sig_flow] 4 ALPROTO_HTTP 1 (run0 (flow_http (st_one 1)) [])
     ≫= λ rs, DeStateDetectContinueDetection 4 ALPROTO_HTTP 2 (deliver (st_two 3 1) rs)
     ≫= λ rs',
       rules ← de_state (rs_flow rs)
                 ≫= λ d, DirStoreItems (fdir_store (arr2_get (dir_index 4) d));
       Some (rules, inspector_calls (rs_trace rs'), alerts (rs_trace rs')))
    = Some ([mkFlowRule [mkSigMatch 1] 0 2], [CallDoInspectFlowRule 2 1], [(2, 0)]).
Proof. split; vm_compute; reflexivity. Qed.

(** C7 on the model.  The HTTP state has two transactions; transaction 0
    has made no progress, transaction 1 has its request line.  The start
    driver stores a record for sid 0 on transaction 1 and nothing on
    transaction 0.  In the continue driver transaction 0 is the first
    in-progress transaction; it has no detect state, the loop takes the
    [continue] and goes on to transaction 1, whose record is inspected. *)
Theorem C7_later_tx_inspected :
  (start_all [sig_method] 4 ALPROTO_HTTP 1 (run0 (flow_http (st_two 0 1)) [])
   ≫= λ rs, DeStateDetectContinueDetection 4 ALPROTO_HTTP 1 rs
   ≫= λ rs',
     st ← FlowGetAppState (rs_flow rs);
     t0 ← AppLayerParserGetTx st 0;
     Some (alparser_inspect_id (rs_flow rs) 4,
           tx_progress t0 4 <? AppLayerParserGetStateProgressCompletionStatus 6 ALPROTO_HTTP 4,
           inspector_calls (rs_trace rs')))
  = Some (0, true, [CallDoInspectItem 1 0 0]).
Proof. vm_compute. reflexivity. Qed.

(** [DetectEngineStateReset] does not select the slot that way: it tests
    the two direction bits one by one.  On a flow state with one record in
    slot 1, a direction with neither bit resets no slot, STREAM_TOCLIENT
    resets slot 1, and both bits reset both slots. *)
Lemma C10_counterexample :
  ∃ st,
    DeStateFlowRuleAppend DetectEngineStateFlow_zero sig_flow [] 0 8 [] = Some (st, [])
    ∧ ds_cnt (fdir_store (arr2_get 1 st)) = 1
    ∧ has 0 STREAM_TOSERVER = false
    ∧ dir_index 0 = 1%nat
    ∧ DetectEngineStateReset (Some st) 0 = Some st
    ∧ (ds_cnt ∘ fdir_store ∘ arr2_get 1 <$> DetectEngineStateReset (Some st) 8) = Some 0
    ∧ (ds_cnt ∘ fdir_store ∘ arr2_get 1 <$> DetectEngineStateReset (Some st) 12) = Some 0
    ∧ has 12 STREAM_TOSERVER = true.
Proof.
  eexists. split; [vm_compute; reflexivity|]. vm_compute. done.
Qed.

(** The theorem on the first packet of an HTTP request: the method rule
    is decided on transaction 0, which is not complete, and its record is
    appended to the empty store of the transaction. *)
Lemma C1_start_persist_decision_witness :
  ∃ loc' rs',
    start_tx_body sig_method 4 ALPROTO_HTTP 1 (st_one 1) 1 0 (mkStartLocals 0 0 0)
      (run0 (flow_http (st_one 1)) []) = Some (loc', rs')
    ∧ DirStoreItems (tx_dir_store (rs_flow rs') 0 (dir_index 4))
      = Some ([] ++ [mkItem (num sig_method) (Z.lor (bit 9) DE_STATE_FLAG_FULL_INSPECT)]).
Proof.
  assert (ds_cnt (tx_dir_store (rs_flow (run0 (flow_http (st_one 1)) [])) 0 (dir_index 4))
          + 1 < 2 ^ SigIntId_bits) as Hroom by (vm_compute; reflexivity).
  pose proof (C1_start_persist_decision sig_method 4 ALPROTO_HTTP 1 (st_one 1) 1 0
                (mkTx (λ _, 1) false) (mkStartLocals 0 0 0)
                (run0 (flow_http (st_one 1)) []) eq_refl eq_refl
                wf_store_zero Hroom) as Hthm.
  match type of Hthm with
  | context [start_engine_loop ?a ?b ?c ?d ?e ?f ?g ?h] =>
      let v := eval vm_compute in (start_engine_loop a b c d e f g h) in
      change (start_engine_loop a b c d e f g h) with v in Hthm
  end.
  cbv beta iota zeta in Hthm.
  destruct Hthm as (loc' & rs' & items & Hbody & Hitems & _ & _ & _ & Hyes).
  exists loc', rs'. split; [exact Hbody|].
  injection Hitems as <-. apply Hyes; [vm_compute; reflexivity|].
  apply not_elem_of_nil.
Defined.

(** The same transaction and rule, with three ways of not getting the
    record although the rule is decided and the transaction is not
    complete: the allocator refuses the detect state; the parser keeps no
    detect state per transaction; and a rule none of whose lists an engine
    inspects, for which all engines are passed with no match at all. *)
Lemma C1_counterexample :
  start_engine_loop [engine_method; engine_cookie] sig_method (st_one 1) 4 0 0 0 0
  = ([], bit 9, 1, 0)
  ∧ (AppLayerParserGetStateProgressCompletionStatus 6 ALPROTO_HTTP 4 <=? 1) = false
  ∧ (rs_flow ∘ snd
     <$> start_tx_body sig_method 4 ALPROTO_HTTP 1 (st_one 1) 1 0 (mkStartLocals 0 0 0)
           (run0 (flow_http (st_one 1)) [false]))
    = Some (flow_http (st_one 1))
  ∧ (rs_flow ∘ snd
     <$> @start_tx_body suricata_header no_tx_state_env
           sig_method 4 ALPROTO_HTTP 1 (st_one 1) 1 0 (mkStartLocals 0 0 0)
           (run0 (flow_http (st_one 1)) []))
    = Some (flow_http (st_one 1))
  ∧ start_engine_loop [engine_method; engine_cookie] sig_flow (st_one 1) 4 0 0 0 0
    = ([], 0, 0, 0)
  ∧ (rs_flow ∘ snd
     <$> start_tx_body sig_flow 4 ALPROTO_HTTP 1 (st_one 1) 1 0 (mkStartLocals 0 0 0)
           (run0 (flow_http (st_one 1)) []))
    = Some (flow_http (st_one 1))
  ∧ DirStoreItems (tx_dir_store (flow_http (st_one 1)) 0 (dir_index 4)) = Some [].
Proof. vm_compute. done. Qed.

(** The store of [flow_new_file] is the one the append function builds. *)
Example store_reopen_appended :
  StoreAppend DeStateStoreItem_zero DirStore_zero
    (mkItem 1 (Z.lor DE_STATE_FLAG_FULL_INSPECT DE_STATE_FLAG_FILE_TS_INSPECT)) []
  = Some (store_reopen, []).
Proof. vm_compute. reflexivity. Qed.


(** After the start driver has stored a transactional record, the version
    of the direction is the one given and STREAM_EOF is not set, yet the
    pre-check answers 1: no flow-level detect state was ever allocated. *)
Lemma C5_counterexample :
  (start_all [sig_method] 4 ALPROTO_HTTP 1 (run0 (flow_http (st_one 1)) [])
   ≫= λ rs,
     let f := rs_flow rs in
     Some (arr2_get (dir_index 4) (detect_alversion f), has 4 STREAM_EOF,
           de_state f, DeStateFlowHasInspectableState f ALPROTO_HTTP 1 4))
  = Some (1, false, None, 1).
Proof. vm_compute. reflexivity. Qed.

(** Scenario S1 split after the request line: the rule with a method and
    a cookie keyword is not decided on the prefix, the start driver stores
    nothing, and the continue driver has nothing to resume; the alert that
    the start driver raises on the whole request is lost.  And a second
    transaction that the prefix does not hold is never inspected by the
    continue driver. *)
Lemma C2_counterexample :
  (rs1 ← start_all [sig_method_cookie] 4 ALPROTO_HTTP 1 (run0 (flow_http (st_one 1)) []);
   rsA ← continue_all [(st_one 3, 2)] 4 ALPROTO_HTTP rs1;
   rsB ← start_all [sig_method_cookie] 4 ALPROTO_HTTP 2 (run0 (flow_http (st_one 3)) []);
   Some (alerts (rs_trace rsA), alerts (rs_trace rsB)))
  = Some ([], [(1, 0)])
  ∧ (rs1 ← start_all [sig_method] 4 ALPROTO_HTTP 1 (run0 (flow_http (st_one 3)) []);
     rsA ← continue_all [(st_two 3 1, 2)] 4 ALPROTO_HTTP rs1;
     rsB ← start_all [sig_method] 4 ALPROTO_HTTP 2 (run0 (flow_http (st_two 3 1)) []);
     Some (alerts (rs_trace rsA), alerts (rs_trace rsB)))
    = Some ([(0, 0)], [(0, 0); (0, 1)]).
Proof. split; vm_compute; reflexivity. Qed.

(** DeStateTest02, run on the model. *)
Example DeStateTest02 :
  (DeStateSignatureAppend_all DetectEngineState_zero test02_appends 4 []
   ≫= λ r, DirStoreItems (dir_store (fst (fst r))))
  = Some (map (λ n, mkItem n 0)
            [0; 11; 22; 33; 44; 55; 66; 77; 88; 99; 100; 111; 122; 133; 144; 155; 166]).
Proof. vm_compute. reflexivity. Qed.

(** Scenario S1 on the model: the request line alone does not decide the
    rule, no alert is raised. *)
Example start_undecided :
  (DeStateDetectStartDetection sig_method_cookie 4 ALPROTO_HTTP 1
     (run0 (flow_http (st_one 1)) [])
   ≫= λ r, Some (r.1, alerts (rs_trace r.2)))
  = Some (0, []).
Proof. vm_compute. reflexivity. Qed.

(** * Further properties of the file

    ** When an append allocates *)

Section AllocProofs.
Context `{EngineHeader}.

Local Abbreviation CS := (Z.to_nat DE_STATE_CHUNK_SIZE).

(** The body shared by the two append functions, on a well-formed store:
    with room left in the chunks that exist the allocator is not asked;
    with all chunks full it is asked once. *)
Lemma StoreAppend_alloc {A} (zero : A) (ds : DirStore A) (rec : A) (oracle : list bool) :
  wf_store ds → ds_cnt ds + 1 < 2 ^ SigIntId_bits →
  ∃ ds' oracle',
    StoreAppend zero ds rec oracle = Some (ds', oracle')
    ∧ (ds_cnt ds < DE_STATE_CHUNK_SIZE * Z.of_nat (length (ds_heap ds)) →
       oracle' = oracle
       ∧ length (ds_heap ds') = length (ds_heap ds)
       ∧ ds_cnt ds' = ds_cnt ds + 1)
    ∧ (ds_cnt ds = DE_STATE_CHUNK_SIZE * Z.of_nat (length (ds_heap ds)) →
       oracle' = tail oracle
       ∧ ((oracle = false :: oracle' ∧ ds' = ds)
          ∨ (oracle ≠ false :: oracle'
             ∧ length (ds_heap ds') = S (length (ds_heap ds))
             ∧ ds_cnt ds' = ds_cnt ds + 1))).
Proof.
  pose proof chunk_size_pos as Hpos. pose proof (@CS_pos _) as Hpos'.
  destruct ds as [heap hd tl cnt]. intros [Hc Hh Ht Hlo Hhi Hfit] Hroom.
  simpl in *. subst hd tl.
  destruct (cnt_position cnt (length heap) Hlo Hhi) as (Hj & Hi & Hilt & Hsum & Hcase).
  unfold StoreAppend. simpl.
  destruct (decide (length heap = 0%nat)) as [Hempty|Hne0].
  - apply nil_length_inv in Hempty as ->.
    assert (cnt = 0) as -> by (simpl in Hhi; lia).
    unfold StoreAlloc.
    destruct (SCMalloc_cases oracle) as [[-> Hne]|[-> Heq]]; simpl.
    + rewrite Z.mod_0_l by lia. simpl. unfold chunk_write. simpl.
      rewrite decide_True by (rewrite length_replicate; lia).
      eexists _, _. split; [done|]. simpl. split; [lia|]. intros _.
      split; [done|]. right. split; [done|]. split; [done|].
      unfold SigIntId_wrap. apply Z.mod_small. lia.
    + eexists _, _. split; [done|]. simpl. split; [lia|]. intros _.
      split; [done|]. by left.
  - rewrite Hj.
    rewrite (store_jump_canon heap _ 0); [|done|lia|destruct Hcase; lia].
    simpl. destruct Hcase as [Hlt|(HeqL & Hi0 & Hn)].
    + rewrite decide_True by done. simpl.
      destruct (lookup_lt_is_Some_2 heap _ Hlt) as [c Hc'].
      unfold chunk_write. rewrite Hc'. simpl.
      destruct (Hc _ _ Hc') as [_ Hlen].
      rewrite Hi. rewrite decide_True by lia.
      pose proof (room_in_chunk _ _ Hlt) as Hr.
      eexists _, _. split; [done|]. simpl. rewrite length_insert.
      unfold SigIntId_wrap. rewrite Z.mod_small by lia.
      split; [done|]. intros Hfull. nia.
    + rewrite decide_False by lia. simpl. unfold StoreAlloc.
      destruct (SCMalloc_cases oracle) as [[-> Hne]|[-> Heq]]; simpl.
      2: { eexists _, _. split; [done|]. split; [nia|]. intros _.
           split; [done|]. by left. }
      assert (length heap - 1 < length heap)%nat as Hlast by lia.
      destruct (lookup_lt_is_Some_2 heap _ Hlast) as [c Hc'].
      unfold tail_link. simpl.
      rewrite (lookup_app_l heap) by done. rewrite Hc'. simpl.
      unfold chunk_write.
      rewrite list_lookup_insert_ne by lia.
      rewrite lookup_app_r by lia.
      replace (length heap - length heap)%nat with 0%nat by lia. simpl.
      rewrite Hi, Hi0, length_replicate.
      rewrite decide_True by lia.
      eexists _, _. split; [done|]. simpl.
      rewrite !length_insert, length_app. simpl.
      unfold SigIntId_wrap. rewrite Z.mod_small by lia.
      split; [nia|]. intros _. split; [done|]. right.
      split; [done|]. split; [lia|done].
Qed.

(** X1.  [DeStateSignatureAppend] and [DeStateFlowRuleAppend] on a well-formed
    store with [cnt + 1] in the range of [SigIntId]: the call completes;
    it asks the allocator only when [cnt] has reached the capacity of the
    chunks that exist ([DE_STATE_CHUNK_SIZE] times their number), and then
    exactly once. *)
Theorem append_allocates_when_full :
  (∀ (state : DetectEngineState) s fl direction oracle,
     wf_store (dir_store (arr2_get (dir_index direction) state)) →
     ds_cnt (dir_store (arr2_get (dir_index direction) state)) + 1 < 2 ^ SigIntId_bits →
     ∃ state' oracle',
       DeStateSignatureAppend state s fl direction oracle = Some (state', oracle')
       ∧ alloc_outcome (dir_store (arr2_get (dir_index direction) state))
           (dir_store (arr2_get (dir_index direction) state')) oracle oracle')
  ∧ (∀ (state : DetectEngineStateFlow) s sm fl direction oracle,
       wf_store (fdir_store (arr2_get (dir_index direction) state)) →
       ds_cnt (fdir_store (arr2_get (dir_index direction) state)) + 1
       < 2 ^ SigIntId_bits →
       ∃ state' oracle',
         DeStateFlowRuleAppend state s sm fl direction oracle = Some (state', oracle')
         ∧ alloc_outcome (fdir_store (arr2_get (dir_index direction) state))
             (fdir_store (arr2_get (dir_index direction) state')) oracle oracle').
Proof.
  split.
  - intros state s fl direction oracle Hwf Hroom. unfold DeStateSignatureAppend.
    destruct (StoreAppend_alloc DeStateStoreItem_zero _ (mkItem (num s) fl) oracle
                Hwf Hroom) as (ds' & o' & -> & Hout).
    simpl. eexists _, _. split; [done|]. by rewrite arr2_get_set.
  - intros state s sm fl direction oracle Hwf Hroom. unfold DeStateFlowRuleAppend.
    destruct (StoreAppend_alloc DeStateStoreFlowRule_zero _ (mkFlowRule sm fl (num s))
                oracle Hwf Hroom) as (ds' & o' & -> & Hout).
    simpl. eexists _, _. split; [done|]. by rewrite arr2_get_set.
Qed.

End AllocProofs.

(** An append to an empty direction state, with an allocator that
    succeeds. *)
Lemma append_allocates_when_full_witness :
  ∃ state' oracle',
    DeStateSignatureAppend DetectEngineState_zero (sig_of_num 11) 0 4 []
    = Some (state', oracle')
    ∧ alloc_outcome (dir_store (arr2_get (dir_index 4) DetectEngineState_zero))
        (dir_store (arr2_get (dir_index 4) state')) [] oracle'.
Proof.
  apply (proj1 append_allocates_when_full).
  - apply wf_store_zero.
  - vm_compute. reflexivity.
Defined.

(** ** Reset on engine reload *)

Section ResetProofs.
Context `{EngineHeader} `{External}.

Lemma wf_store_reset {A} (ds : DirStore A) : wf_store ds → wf_store (DirStore_reset ds).
Proof.
  pose proof chunk_size_pos. pose proof sigintid_bits_pos.
  intros [Hc Hh Ht Hlo Hhi Hfit]. split; simpl; try done; lia.
Qed.

Lemma ResetTxs_loop_spec (st : AppState) (n : nat) :
  ∀ (f : Flow) (tx : Z),
    flow_app (ResetTxs_loop n f st tx) = flow_app f
    ∧ detect_alversion (ResetTxs_loop n f st tx) = detect_alversion f
    ∧ ∀ k,
        tx_de_state (ResetTxs_loop n f st tx) !! k
        = if decide (tx ≤ k < tx + Z.of_nat n ∧ is_Some (al_txs st !! k))
          then DetectEngineState_reset <$> tx_de_state f !! k
          else tx_de_state f !! k.
Proof.
  induction n as [|n IH]; intros f tx.
  { simpl. split; [done|]. split; [done|]. intros k.
    by rewrite decide_False by lia. }
  cbn [ResetTxs_loop].
  set (f1 := match AppLayerParserGetTx st tx with Some _ => _ | None => f end).
  assert (flow_app f1 = flow_app f ∧ detect_alversion f1 = detect_alversion f
          ∧ ∀ k, tx_de_state f1 !! k
                 = if decide (k = tx ∧ is_Some (al_txs st !! k))
                   then DetectEngineState_reset <$> tx_de_state f !! k
                   else tx_de_state f !! k) as (Happ1 & Hver1 & Htx1).
  { unfold f1, AppLayerParserGetTx, AppLayerParserGetTxDetectState.
    destruct (al_txs st !! tx) as [t|] eqn:Ht.
    - destruct (tx_de_state f !! tx) as [d|] eqn:Hd.
      + split; [done|]. split; [done|]. intros k. simpl.
        destruct (decide (k = tx)) as [->|Hne].
        * rewrite lookup_insert_eq, decide_True by (by rewrite Ht).
          pose proof (eq_refl (DetectEngineState_reset <$> Some d)) as Heq.
          rewrite <- Hd in Heq at 2. exact Heq.
        * rewrite lookup_insert_ne by done. rewrite decide_False; [done|]. tauto.
      + split; [done|]. split; [done|]. intros k. case_decide as Hk; [|done].
        destruct Hk as [-> _].
        destruct (tx_de_state f !! tx) eqn:Hd'; [discriminate Hd|done].
    - split; [done|]. split; [done|]. intros k. case_decide as Hk; [|done].
      destruct Hk as [-> [? Hs]]. congruence. }
  destruct (IH f1 (tx + 1)) as (Happ & Hver & Htx).
  split; [congruence|]. split; [congruence|]. intros k.
  rewrite Htx, Htx1.
  destruct (decide (k = tx)) as [->|Hne].
  - rewrite (decide_False (P := tx + 1 ≤ tx < _ ∧ _)) by lia.
    destruct (al_txs st !! tx) as [t|] eqn:Ht.
    + rewrite !decide_True; [done|split; [lia|by eexists]|split; [done|by eexists]].
    + rewrite !decide_False; [done|..]; intros [_ [? ?]]; done.
  - rewrite (decide_False (P := k = tx ∧ _)) by tauto.
    destruct (decide (tx + 1 ≤ k < tx + 1 + Z.of_nat n ∧ is_Some (al_txs st !! k)))
      as [Hin|Hout].
    + rewrite decide_True; [done|]. split; [lia|tauto].
    + rewrite decide_False; [done|]. intros [Hr Hs]. apply Hout. split; [lia|done].
Qed.

Lemma DetectEngineState_reset_emptied (d : DetectEngineState) :
  emptied d (DetectEngineState_reset d).
Proof.
  intros i Hi. destruct d as [d0 d1].
  destruct i as [|[|i]]; [done|done|lia].
Qed.

Lemma ResetTxs_lookup (f : Flow) (k : Z) :
  tx_de_state (DetectEngineStateResetTxs f) !! k
  = if reset_applies f k then DetectEngineState_reset <$> tx_de_state f !! k
    else tx_de_state f !! k.
Proof.
  unfold DetectEngineStateResetTxs, reset_applies, FlowGetAppState, AppLayerParserGetTxCnt.
  destruct (AppLayerParserProtocolSupportsTxs _ _); [|done].
  destruct (alstate f) as [st|]; [|done].
  destruct (StateIsValid _ _); [|done]. cbn [negb andb].
  set (lo := Z.min _ _).
  destruct (ResetTxs_loop_spec st (Z.to_nat (al_tx_cnt st - lo)) f lo) as (_ & _ & Hk).
  rewrite Hk. case_decide as Hin.
  - destruct Hin as [Hr Hs].
    rewrite (proj2 (Z.leb_le _ _)), (proj2 (Z.ltb_lt _ _)) by lia.
    by rewrite bool_decide_eq_true_2.
  - destruct (lo <=? k) eqn:Hlo; [|done].
    destruct (k <? al_tx_cnt st) eqn:Hhi; [|done].
    apply Z.leb_le in Hlo. apply Z.ltb_lt in Hhi.
    rewrite bool_decide_eq_false_2; [done|]. intros Hs. apply Hin. split; [lia|done].
Qed.

Lemma ResetTxs_frame (f : Flow) :
  flow_app (DetectEngineStateResetTxs f) = flow_app f
  ∧ detect_alversion (DetectEngineStateResetTxs f) = detect_alversion f.
Proof.
  unfold DetectEngineStateResetTxs, FlowGetAppState.
  destruct (AppLayerParserProtocolSupportsTxs _ _); [|done].
  destruct (alstate f) as [st|] eqn:Hst; [|done].
  destruct (StateIsValid _ _); [|done]. cbn [negb].
  set (lo := Z.min _ _).
  destruct (ResetTxs_loop_spec st (Z.to_nat (AppLayerParserGetTxCnt st - lo)) f lo)
    as (Ha & Hv & _).
  done.
Qed.

(** X2.  [DetectEngineStateResetTxs] zeroes the record counter, the filestore
    counter and the flags of both slots of the detect state of every live
    transaction from the smaller of the two inspect ids up to the
    transaction count, and keeps the chunks of these states; the other
    transactions' states, the flow-level state, the stored versions and
    the rest of the flow are as before.  Without transaction support or
    without a valid app-layer state nothing is reset. *)
Theorem reset_txs_effect (f : Flow) :
  flow_app (DetectEngineStateResetTxs f) = flow_app f
  ∧ detect_alversion (DetectEngineStateResetTxs f) = detect_alversion f
  ∧ ∀ k,
      match tx_de_state f !! k, tx_de_state (DetectEngineStateResetTxs f) !! k with
      | Some d, Some d' => if reset_applies f k then emptied d d' else d' = d
      | None, None => True
      | _, _ => False
      end.
Proof.
  destruct (ResetTxs_frame f) as [Ha Hv]. split; [done|]. split; [done|].
  intros k. rewrite ResetTxs_lookup.
  destruct (tx_de_state f !! k) as [d|] eqn:Hd.
  - destruct (reset_applies f k); simpl; [apply DetectEngineState_reset_emptied|done].
  - by destruct (reset_applies f k).
Qed.

End ResetProofs.

(** ** Appending into the chunks a reset leaves *)

Section ReuseProofs.
Context `{EngineHeader} `{External}.

Lemma StoreAppend_all_room {A} (zero : A) (recs : list A) :
  ∀ (ds : DirStore A) (oracle : list bool),
    wf_store ds →
    ds_cnt ds + Z.of_nat (length recs)
    ≤ DE_STATE_CHUNK_SIZE * Z.of_nat (length (ds_heap ds)) →
    ds_cnt ds + Z.of_nat (length recs) < 2 ^ SigIntId_bits →
    ∃ ds',
      StoreAppend_all zero ds recs oracle = Some (ds', recs)
      ∧ wf_store ds'
      ∧ length (ds_heap ds') = length (ds_heap ds)
      ∧ ds_cnt ds' = ds_cnt ds + Z.of_nat (length recs)
      ∧ take (Z.to_nat (ds_cnt ds')) (flat (ds_heap ds'))
        = take (Z.to_nat (ds_cnt ds)) (flat (ds_heap ds)) ++ recs.
Proof.
  induction recs as [|r rest IH]; intros ds oracle Hwf Hcap Hroom.
  - exists ds. simpl. rewrite Z.add_0_r, app_nil_r. done.
  - simpl in Hcap, Hroom.
    destruct (StoreAppend_step zero ds r oracle Hwf ltac:(lia))
      as (ds1 & oracle1 & Hstep & Hcase).
    destruct (StoreAppend_alloc zero ds r oracle Hwf ltac:(lia))
      as (ds1' & oracle1' & Hstep' & Hless & _).
    rewrite Hstep in Hstep'. injection Hstep' as <- <-.
    destruct Hless as (-> & Hlen & Hcnt); [lia|].
    destruct Hcase as [[Hbad _]|(_ & Hwf1 & _ & pad & Hflat & Hpos)].
    { by apply oracle_not_consumed in Hbad. }
    destruct (IH ds1 oracle Hwf1 ltac:(lia) ltac:(lia))
      as (ds2 & Hrun & Hwf2 & Hlen2 & Hcnt2 & Hitems).
    exists ds2. cbn [StoreAppend_all]. rewrite Hstep. cbn [mbind option_bind].
    rewrite Hrun. cbn [mbind option_bind].
    rewrite decide_False by apply oracle_not_consumed.
    split; [done|]. split; [done|]. split; [lia|]. split; [simpl; lia|].
    rewrite Hitems, Hcnt, Hflat.
    destruct Hwf as [Hc _ _ Hlo Hhi _].
    replace (Z.to_nat (ds_cnt ds + 1)) with (S (Z.to_nat (ds_cnt ds))) by lia.
    rewrite take_insert_next; [by rewrite <- app_assoc| |done].
    rewrite flat_length by (by apply canon_uniform). nia.
Qed.

(** X3.  After [DetectEngineStateResetTxs], a transaction's direction state
    takes as many appends as its retained chunks hold without asking the
    allocator: whatever the allocator would answer, every record is
    stored, iteration yields exactly the new records in append order, and
    the number of chunks is the one from before the reset. *)
Theorem reset_then_append_reuses (f : Flow) (k : Z) (d : DetectEngineState)
    (recs : list (Signature * Z)) (direction : Z) (oracle : list bool) :
  reset_applies f k = true →
  tx_de_state f !! k = Some d →
  wf_store (dir_store (arr2_get (dir_index direction) d)) →
  Z.of_nat (length recs)
  ≤ DE_STATE_CHUNK_SIZE
    * Z.of_nat (length (ds_heap (dir_store (arr2_get (dir_index direction) d)))) →
  Z.of_nat (length recs) < 2 ^ SigIntId_bits →
  ∃ d' state,
    tx_de_state (DetectEngineStateResetTxs f) !! k = Some d'
    ∧ DeStateSignatureAppend_all d' recs direction oracle
      = Some (state, map (λ r, mkItem (num (fst r)) (snd r)) recs)
    ∧ DirStoreItems (dir_store (arr2_get (dir_index direction) state))
      = Some (map (λ r, mkItem (num (fst r)) (snd r)) recs)
    ∧ length (ds_heap (dir_store (arr2_get (dir_index direction) state)))
      = length (ds_heap (dir_store (arr2_get (dir_index direction) d))).
Proof.
  intros Hap Hd Hwf Hcap Hroom.
  pose proof (ResetTxs_lookup f k) as Hk. rewrite Hap in Hk.
  assert (tx_de_state (DetectEngineStateResetTxs f) !! k
          = Some (DetectEngineState_reset d)) as Hk'.
  { rewrite Hk. destruct (tx_de_state f !! k) eqn:Hd'; [|discriminate Hd].
    injection Hd as ->. done. }
  exists (DetectEngineState_reset d). 
  set (i := dir_index direction) in *.
  assert (dir_store (arr2_get i (DetectEngineState_reset d))
          = DirStore_reset (dir_store (arr2_get i d))) as Hst.
  { destruct d as [d0 d1]. by destruct i as [|[|i]]. }
  pose proof (wf_store_reset _ Hwf) as Hwf0.
  destruct (StoreAppend_all_room DeStateStoreItem_zero
              (map (λ r, mkItem (num (fst r)) (snd r)) recs)
              (DirStore_reset (dir_store (arr2_get i d))) oracle Hwf0)
    as (ds' & Hrun & Hwf' & Hlen & Hcnt & Hitems).
  { rewrite length_map. simpl. lia. }
  { rewrite length_map. simpl. lia. }
  eexists. split; [exact Hk'|].
  rewrite DeStateSignatureAppend_all_store. fold i. rewrite Hst, Hrun.
  cbn [mbind option_bind]. split; [done|].
  rewrite arr2_get_set. cbn [dir_store].
  rewrite (DirStoreItems_wf _ Hwf'), Hitems. simpl. split; [done|].
  exact Hlen.
Qed.

End ReuseProofs.

Lemma wf_store_reopen : wf_store store_reopen.
Proof.
  split.
  - intros i c Hi. destruct i as [|i]; [|done]. injection Hi as <-. by split.
  - reflexivity.
  - reflexivity.
  - simpl. lia.
  - vm_compute. discriminate.
  - reflexivity.
Qed.

(** Two appends to the to-client slot of transaction 0, which holds one
    chunk, after the reset; the allocator would refuse. *)
Lemma reset_then_append_reuses_witness :
  ∃ d' state,
    tx_de_state (DetectEngineStateResetTxs flow_new_file) !! 0 = Some d'
    ∧ DeStateSignatureAppend_all d' [(sig_of_num 5, 0); (sig_of_num 6, 0)] 8
        [false; false]
      = Some (state, [mkItem 5 0; mkItem 6 0])
    ∧ DirStoreItems (dir_store (arr2_get (dir_index 8) state))
      = Some [mkItem 5 0; mkItem 6 0]
    ∧ length (ds_heap (dir_store (arr2_get (dir_index 8) state))) = 1%nat.
Proof.
  assert (reset_applies flow_new_file 0 = true) as Hap by (vm_compute; reflexivity).
  assert (2 ≤ DE_STATE_CHUNK_SIZE * 1) as Hcap by (vm_compute; discriminate).
  assert (2 < 2 ^ SigIntId_bits) as Hroom by (vm_compute; reflexivity).
  exact (reset_then_append_reuses flow_new_file 0
           (DetectEngineStateDirection_zero,
            mkDir store_reopen 0 DETECT_ENGINE_STATE_FLAG_FILE_TC_NEW)
           [(sig_of_num 5, 0); (sig_of_num 6, 0)] 8 [false; false]
           Hap eq_refl wf_store_reopen Hcap Hroom).
Defined.

(** ** The continue driver on a direction without records *)

Section IdleProofs.
Context `{EngineHeader} `{External}.

Lemma store_outer_loop_idle {A T} (body : A → T → option (Z * A * T)) (fuel : nat) :
  ∀ (heap : list (Chunk A)) (a : nat) (sc cnt : Z) (st : T),
    canon_heap heap → cnt ≤ sc → (length heap - a ≤ fuel)%nat →
    store_outer_loop body fuel heap
      (if decide (a < length heap)%nat then Some a else None) sc cnt st
    = Some (false, heap, sc, st).
Proof.
  induction fuel as [|fuel IH]; intros heap a sc cnt st Hc Hsc Hfuel.
  - rewrite decide_False by lia. done.
  - destruct (decide (a < length heap)%nat) as [Ha|Ha]; [|done].
    cbn [store_outer_loop].
    assert (store_inner_loop body (Z.to_nat DE_STATE_CHUNK_SIZE) heap a 0 sc cnt st
            = Some (false, heap, sc, st)) as ->.
    { assert ((sc <? cnt) = false) as Hlt by (apply Z.ltb_ge; lia).
      destruct (Z.to_nat DE_STATE_CHUNK_SIZE); simpl; by rewrite Hlt, andb_false_r. }
    cbn [mbind option_bind]. cbv beta iota.
    destruct (lookup_lt_is_Some_2 heap a Ha) as [c Hlook].
    rewrite Hlook. cbn [mbind option_bind].
    destruct (Hc a c Hlook) as [-> _].
    apply IH; [done|done|lia].
Qed.

Lemma store_loop_idle {A T} (body : A → T → option (Z * A * T)) (ds : DirStore A)
    (sc : Z) (st : T) :
  wf_store ds → ds_cnt ds ≤ sc → store_loop body ds sc st = Some (false, ds, sc, st).
Proof.
  destruct ds as [heap hd tl cnt]. intros [Hc Hh _ _ _ _] Hsc. simpl in *.
  unfold store_loop. cbn [ds_heap ds_head ds_tail ds_cnt].
  assert (hd = if decide (0 < length heap)%nat then Some 0%nat else None) as Hhd.
  { rewrite Hh. destruct (decide (length heap = 0%nat)).
    - rewrite decide_False by lia. done.
    - rewrite decide_True by lia. done. }
  rewrite Hhd at 1.
  rewrite (store_outer_loop_idle body (length heap) heap 0 sc cnt st Hc Hsc ltac:(lia)).
  done.
Qed.

Lemma flow_set_tx_de_state_id (f : Flow) (tx : Z) (d : DetectEngineState) :
  tx_de_state f !! tx = Some d → flow_set_tx_de_state f tx d = f.
Proof.
  intros Hd. destruct f as [p pm a st ids txs de v]. unfold flow_set_tx_de_state.
  simpl in *. f_equal. by apply insert_id.
Qed.

Lemma continue_tx_body_idle (flags : Z) (alproto : AppProto) (st : AppState)
    (total_txs tx : Z) (loc : ContLocals) (rs : RunState) :
  wf_store (tx_dir_store (rs_flow rs) tx (dir_index flags)) →
  ds_cnt (tx_dir_store (rs_flow rs) tx (dir_index flags)) = 0 →
  0 ≤ cl_state_cnt loc →
  ∃ exit loc',
    continue_tx_body flags alproto st total_txs tx loc rs = Some (exit, loc', rs)
    ∧ exit ≠ LoopGotoEnd ∧ 0 ≤ cl_state_cnt loc'.
Proof.
  intros Hwf Hcnt Hsc. unfold continue_tx_body.
  destruct (AppLayerParserGetTx st tx) as [t|]; [|by exists LoopNext, loc].
  unfold tx_dir_store in Hwf, Hcnt. unfold AppLayerParserGetTxDetectState.
  destruct (tx_de_state (rs_flow rs) !! tx) as [d|] eqn:Hd; [|by exists LoopNext, loc].
  rewrite store_loop_idle by (first [done|lia]).
  cbn [mbind option_bind]. cbv beta iota.
  assert (arr2_set (dir_index flags)
            (mkDir (dir_store (arr2_get (dir_index flags) d))
               (filestore_cnt (arr2_get (dir_index flags) d))
               (dir_flags (arr2_get (dir_index flags) d))) d = d) as ->.
  { destruct d as [[] []]. unfold dir_index. by destruct (has _ _). }
  rewrite flow_set_tx_de_state_id by done.
  assert (mkRun (rs_flow rs) (rs_det rs) (rs_trace rs) (rs_oracle rs) = rs) as ->
    by (by destruct rs).
  destruct (_ <? _); eexists _, _; (split; [done|]); by split.
Qed.

Lemma continue_tx_loop_idle (flags : Z) (alproto : AppProto) (st : AppState)
    (total_txs : Z) (rs : RunState) (n : nat) :
  ∀ (tx : Z) (loc : ContLocals),
    (∀ k, tx ≤ k < tx + Z.of_nat n → is_Some (al_txs st !! k) →
          wf_store (tx_dir_store (rs_flow rs) k (dir_index flags))
          ∧ ds_cnt (tx_dir_store (rs_flow rs) k (dir_index flags)) = 0) →
    0 ≤ cl_state_cnt loc →
    ∃ loc',
      continue_tx_loop n flags alproto st total_txs tx loc rs = Some (false, loc', rs)
      ∧ 0 ≤ cl_state_cnt loc'.
Proof.
  induction n as [|n IH]; intros tx loc Hidle Hsc; [by exists loc|].
  cbn [continue_tx_loop].
  destruct (al_txs st !! tx) as [t|] eqn:Ht.
  - destruct (Hidle tx ltac:(lia) ltac:(by rewrite Ht)) as [Hwf Hcnt].
    destruct (continue_tx_body_idle flags alproto st total_txs tx loc rs Hwf Hcnt Hsc)
      as (exit & loc' & -> & Hexit & Hsc').
    cbn [mbind option_bind]. cbv beta iota.
    destruct exit; [|by exists loc'|done].
    apply IH; [|done]. intros k Hk. apply Hidle. lia.
  - unfold continue_tx_body at 1. unfold AppLayerParserGetTx. rewrite Ht.
    cbn [mbind option_bind]. cbv beta iota.
    apply IH; [|done]. intros k Hk. apply Hidle. lia.
Qed.

Lemma continue_flow_part_idle (flags : Z) (alproto : AppProto) (alversion : Z)
    (loc : ContLocals) (rs : RunState) :
  wf_store (fdir_store (flow_dir (rs_flow rs) (dir_index flags))) →
  ds_cnt (fdir_store (flow_dir (rs_flow rs) (dir_index flags))) = 0 →
  0 ≤ cl_state_cnt loc →
  continue_flow_part flags alproto alversion loc rs
  = Some (match de_state (rs_flow rs) with
          | Some _ =>
              rs_with_flow (DeStateStoreStateVersion (rs_flow rs) alversion flags) rs
          | None => rs
          end).
Proof.
  intros Hwf Hcnt Hsc. unfold continue_flow_part. unfold flow_dir in Hwf, Hcnt.
  destruct (de_state (rs_flow rs)) as [d|] eqn:Hd; [|done].
  rewrite store_loop_idle by (first [done|lia]).
  cbn [mbind option_bind]. cbv beta iota.
  assert (arr2_set (dir_index flags)
            (mkDirFlow (fdir_store (arr2_get (dir_index flags) d))
               (fdir_flags (arr2_get (dir_index flags) d))) d = d) as ->.
  { destruct d as [[] []]. unfold dir_index. by destruct (has _ _). }
  unfold rs_with_flow. do 2 f_equal. unfold flow_set_de_state.
  destruct (rs_flow rs) as [p pm a st ids txs de v]. simpl in *. by subst de.
Qed.

(** X4.  When [HasStoredSigs] answers 0 for a direction, running the continue
    driver for it is idle: it returns, calls no inspector, emits nothing,
    asks the allocator for nothing and leaves every stored record, of the
    transactions and of the flow, as it was. *)
Theorem no_stored_sigs_continue_idle (flags alversion : Z) (rs : RunState) :
  HasStoredSigs (rs_flow rs) flags = 0 →
  (∀ tx, wf_store (tx_dir_store (rs_flow rs) tx (dir_index flags))) →
  wf_store (fdir_store (flow_dir (rs_flow rs) (dir_index flags))) →
  ∃ rs',
    DeStateDetectContinueDetection flags (f_alproto (rs_flow rs)) alversion rs = Some rs'
    ∧ rs_trace rs' = rs_trace rs
    ∧ rs_oracle rs' = rs_oracle rs
    ∧ tx_de_state (rs_flow rs') = tx_de_state (rs_flow rs)
    ∧ de_state (rs_flow rs') = de_state (rs_flow rs).
Proof.
  intros Hzero Hwf Hwff.
  destruct (HasStoredSigs_spec (rs_flow rs) flags) as [_ H1].
  assert (¬ stored_sigs_exist (rs_flow rs) flags) as Hno.
  { intros Hex. apply H1 in Hex. lia. }
  assert (ds_cnt (fdir_store (flow_dir (rs_flow rs) (dir_index flags))) = 0) as Hfc.
  { unfold flow_dir. destruct (de_state (rs_flow rs)) as [d|] eqn:Hd; [|done].
    destruct (decide (ds_cnt (fdir_store (arr2_get (dir_index flags) d)) = 0)) as [|Hne];
      [done|].
    exfalso. apply Hno. left. by exists d. }
  assert (∀ loc, 0 ≤ cl_state_cnt loc →
            ∃ rs1, continue_flow_part flags (f_alproto (rs_flow rs)) alversion loc rs
                   = Some rs1
              ∧ rs_trace rs1 = rs_trace rs ∧ rs_oracle rs1 = rs_oracle rs
              ∧ tx_de_state (rs_flow rs1) = tx_de_state (rs_flow rs)
              ∧ de_state (rs_flow rs1) = de_state (rs_flow rs)) as Hflow.
  { intros loc Hsc. rewrite continue_flow_part_idle by done.
    eexists. split; [done|].
    destruct (de_state (rs_flow rs)) eqn:Hd; simpl; repeat split; first [done|exact Hd]. }
  unfold DeStateDetectContinueDetection.
  destruct (AppLayerParserProtocolSupportsTxs _ _) eqn:Hsup.
  - unfold FlowGetAppState.
    destruct (alstate (rs_flow rs)) as [st|] eqn:Hst; [|by exists rs].
    destruct (StateIsValid _ _) eqn:Hvalid; [|by exists rs]. cbn [negb].
    destruct (continue_tx_loop_idle flags (f_alproto (rs_flow rs)) st
                (AppLayerParserGetTxCnt st) rs
                (Z.to_nat (AppLayerParserGetTxCnt st
                           - alparser_inspect_id (rs_flow rs) flags))
                (alparser_inspect_id (rs_flow rs) flags) (mkContLocals 0 0))
      as (loc1 & Hloop & Hsc1); [|done|].
    { intros k Hk Hlive. split; [apply Hwf|].
      unfold tx_dir_store.
      destruct (tx_de_state (rs_flow rs) !! k) as [d|] eqn:Hd; [|done].
      destruct (decide (ds_cnt (dir_store (arr2_get (dir_index flags) d)) = 0))
        as [|Hne]; [done|].
      exfalso. apply Hno. right. split; [done|]. exists st.
      split; [done|]. split; [done|]. exists k, d.
      unfold AppLayerParserGetTxCnt in Hk. split; [lia|done]. }
    rewrite Hloop. cbn [mbind option_bind]. cbv beta iota.
    destruct (Hflow loc1 Hsc1) as (rs1 & -> & Ht & Ho & Htx & Hde).
    exists (driver_end rs1). done.
  - destruct (Hflow (mkContLocals 0 0) ltac:(done)) as (rs1 & -> & Ht & Ho & Htx & Hde).
    exists (driver_end rs1). done.
Qed.

End IdleProofs.

(** ** Both resets, then the pre-check *)

Section ReloadProofs.
Context `{EngineHeader} `{External}.

Lemma DetectEngineStateReset_cnt (st : option DetectEngineStateFlow)
    (flags direction : Z) (d' : DetectEngineStateFlow) :
  has direction (if has flags STREAM_TOSERVER then STREAM_TOSERVER else STREAM_TOCLIENT)
  = true →
  DetectEngineStateReset st direction = Some d' →
  ds_cnt (fdir_store (arr2_get (dir_index flags) d')) = 0.
Proof.
  intros Hbit. unfold DetectEngineStateReset, dir_index.
  destruct st as [[d0 d1]|]; [|done]. intros [= <-].
  destruct (has flags STREAM_TOSERVER).
  - rewrite Hbit. by destruct (has direction STREAM_TOCLIENT).
  - rewrite Hbit. by destruct (has direction STREAM_TOSERVER).
Qed.

(** X5.  After the two resets made on an engine reload,
    [DetectEngineStateResetTxs] on the flow and [DetectEngineStateReset]
    on its flow-level state for the packet's direction, [HasStoredSigs]
    answers 0 for that direction: nothing stored before the reload is
    reported to the continue driver. *)
Theorem reload_clears_stored_sigs (f : Flow) (flags direction : Z) :
  has direction (if has flags STREAM_TOSERVER then STREAM_TOSERVER else STREAM_TOCLIENT)
  = true →
  Z.min (alparser_inspect_id f STREAM_TOCLIENT) (alparser_inspect_id f STREAM_TOSERVER)
  ≤ alparser_inspect_id f flags →
  HasStoredSigs
    (flow_set_de_state (DetectEngineStateResetTxs f)
       (DetectEngineStateReset (de_state f) direction)) flags = 0.
Proof.
  intros Hbit Hmin.
  set (f' := flow_set_de_state _ _).
  destruct (HasStoredSigs_spec f' flags) as [[H0'|H1'] Hiff]; [done|].
  exfalso. apply Hiff in H1'. clear Hiff.
  destruct (ResetTxs_frame f) as [Happ _].
  unfold flow_app in Happ.
  injection Happ as Hp Hpm Hal Hst Hid Hde.
  destruct H1' as [(d & Hd & Hne)|(Hsup & st & Hst' & Hvalid & k & d & Hk & Hlive & Hd & Hne)].
  - apply Hne. subst f'. simpl in Hd.
    exact (DetectEngineStateReset_cnt _ flags direction d Hbit Hd).
  - subst f'. unfold flow_set_de_state in *.
    cbn [proto protomap f_alproto alstate alparser_inspect_id tx_de_state de_state] in *.
    rewrite Hp, Hal in Hsup. rewrite Hal in Hvalid. rewrite Hst in Hst'.
    rewrite Hid in Hk.
    pose proof (ResetTxs_lookup f k) as Hlook.
    assert (reset_applies f k = true) as Hap.
    { unfold reset_applies. rewrite Hsup, Hst', Hvalid. cbn [andb].
      rewrite (proj2 (Z.leb_le _ _)), (proj2 (Z.ltb_lt _ _)) by lia.
      by rewrite bool_decide_eq_true_2. }
    rewrite Hap in Hlook.
    destruct (tx_de_state (DetectEngineStateResetTxs f) !! k) as [dk|] eqn:Hdk;
      [|discriminate Hd].
    injection Hd as ->.
    symmetry in Hlook. apply fmap_Some in Hlook as (d0 & _ & ->).
    apply Hne.
    by destruct (DetectEngineState_reset_emptied d0 (dir_index flags) (dir_index_lt flags)).
Qed.

End ReloadProofs.

(** To-client packet, both directions reset. *)
Lemma reload_clears_stored_sigs_witness :
  HasStoredSigs
    (flow_set_de_state (DetectEngineStateResetTxs flow_new_file)
       (DetectEngineStateReset (de_state flow_new_file) 12)) 8 = 0.
Proof.
  apply reload_clears_stored_sigs.
  - vm_compute. reflexivity.
  - vm_compute. discriminate.
Defined.

Lemma wf_flow_reloaded (tx : Z) (i : nat) :
  (i < 2)%nat → wf_store (tx_dir_store flow_reloaded tx i).
Proof.
  intros Hi. unfold tx_dir_store, flow_reloaded. rewrite ResetTxs_lookup.
  destruct (decide (tx = 0)) as [->|Hne].
  - destruct i as [|[|i]]; [apply wf_store_zero| |lia].
    exact (wf_store_reset store_reopen wf_store_reopen).
  - assert (tx_de_state flow_new_file !! tx = None) as Hnone.
    { unfold flow_new_file. simpl. by rewrite lookup_insert_ne, lookup_empty. }
    destruct (reset_applies flow_new_file tx);
      destruct (tx_de_state flow_new_file !! tx);
      first [discriminate Hnone|apply wf_store_zero].
Qed.

(** The to-client direction of [flow_new_file] after the reset: the chunk
    is still there and is walked, no record is inspected. *)
Lemma no_stored_sigs_continue_idle_witness :
  ∃ rs',
    DeStateDetectContinueDetection 8 ALPROTO_HTTP 1 (run0 flow_reloaded []) = Some rs'
    ∧ rs_trace rs' = []
    ∧ rs_oracle rs' = []
    ∧ tx_de_state (rs_flow rs') = tx_de_state flow_reloaded
    ∧ de_state (rs_flow rs') = None.
Proof.
  apply (no_stored_sigs_continue_idle 8 1 (run0 flow_reloaded [])).
  - vm_compute. reflexivity.
  - intros tx. apply wf_flow_reloaded, dir_index_lt.
  - apply wf_store_zero.
Defined.

(** ** The version the continue driver stores *)

Section VersionProofs.
Context `{EngineHeader} `{External}.

Lemma calls_ok_not_aborted (calls : list Event) :
  calls_ok calls → calls_aborted calls → False.
Proof.
  intros Hok (pre & e & r & -> & Hret & Hneg & _).
  apply Forall_app in Hok as [_ Hok]. apply Forall_cons in Hok as [He _].
  specialize (He r Hret). lia.
Qed.

Lemma continue_tx_body_fields (flags : Z) (alproto : AppProto) (st : AppState)
    (total_txs tx : Z) (loc loc' : ContLocals) (rs rs' : RunState) (exit : LoopExit) :
  continue_tx_body flags alproto st total_txs tx loc rs = Some (exit, loc', rs') →
  flow_app (rs_flow rs') = flow_app (rs_flow rs)
  ∧ detect_alversion (rs_flow rs') = detect_alversion (rs_flow rs)
  ∧ rs_oracle rs' = rs_oracle rs.
Proof.
  unfold continue_tx_body.
  destruct (AppLayerParserGetTx st tx) as [t|]; [|by intros [= _ _ <-]].
  destruct (AppLayerParserGetTxDetectState _ _) as [d|]; [|by intros [= _ _ <-]].
  destruct (store_loop _ _ _ _) as [[[[stop store'] sc'] [[fnm det] trace]]|]; [|done].
  simpl. destruct stop; [by intros [= _ _ <-]|].
  destruct (_ <? _); by intros [= _ _ <-].
Qed.

Lemma continue_tx_loop_fields (flags : Z) (alproto : AppProto) (st : AppState)
    (total_txs : Z) (n : nat) :
  ∀ tx loc rs (goto_end : bool) loc' rs',
    continue_tx_loop n flags alproto st total_txs tx loc rs = Some (goto_end, loc', rs') →
    flow_app (rs_flow rs') = flow_app (rs_flow rs)
    ∧ detect_alversion (rs_flow rs') = detect_alversion (rs_flow rs)
    ∧ rs_oracle rs' = rs_oracle rs.
Proof.
  induction n as [|n IH]; intros tx loc rs goto_end loc' rs'; simpl.
  { by intros [= _ _ <-]. }
  destruct (continue_tx_body _ _ _ _ _ _ _) as [[[exit loc1] rs1]|] eqn:Hbody; [|done].
  apply continue_tx_body_fields in Hbody as (Ha & Hv & Ho). simpl.
  destruct exit.
  - intros Hrest. apply IH in Hrest as (Ha' & Hv' & Ho'). split; [|split]; congruence.
  - by intros [= _ _ <-].
  - by intros [= _ _ <-].
Qed.

Lemma continue_flow_part_version (trace0 : list Event) (flags : Z) (alproto : AppProto)
    (alversion : Z) (loc : ContLocals) (rs rs' : RunState) :
  running trace0 (rs_trace rs) →
  continue_flow_part flags alproto alversion loc rs = Some rs' →
  rs_oracle rs' = rs_oracle rs
  ∧ (is_Some (de_state (rs_flow rs')) ↔ is_Some (de_state (rs_flow rs)))
  ∧ ((running trace0 (rs_trace rs')
      ∧ detect_alversion (rs_flow rs')
        = match de_state (rs_flow rs) with
          | Some _ => arr2_set (dir_index flags) alversion (detect_alversion (rs_flow rs))
          | None => detect_alversion (rs_flow rs)
          end)
     ∨ (stopped trace0 (rs_trace rs')
        ∧ detect_alversion (rs_flow rs') = detect_alversion (rs_flow rs))).
Proof.
  intros Hrun. unfold continue_flow_part.
  destruct (de_state (rs_flow rs)) as [d|] eqn:Hd.
  2:{ intros [= <-]. rewrite Hd. split; [done|]. split; [done|]. by left. }
  destruct (store_loop _ _ _ _) as [[[[stop store'] sc'] [det trace]]|] eqn:Hloop; [|done].
  simpl.
  pose proof (store_loop_rule _ (λ s, running trace0 s.2) (λ s, stopped trace0 s.2)
                (λ x s r x' s', inspect_flow_rule_body_rule trace0 _ _ _ _ x x' s s' r)
                _ _ _ _ (rs_det rs, rs_trace rs) _ _ Hrun Hloop) as Hpost.
  destruct stop; intros [= <-]; simpl.
  - split; [done|]. split; [by split; intros _; eexists|]. by right.
  - split; [done|]. split; [by split; intros _; eexists|]. by left.
Qed.

(** X6.  The version bookkeeping of the continue driver.  The call asks the
    allocator for nothing and only adds to the trace.  The version of the
    packet's direction is written exactly on the path that reaches the
    end of the flow-scoped records: when an inspector returned a negative
    value, when the flow has no flow-level state, or when the driver
    returns early for a NULL or invalid app-layer state, both stored
    versions are as before; otherwise the direction's version is the one
    given, and the pre-check for that version answers 2 unless
    [STREAM_EOF] is set. *)
Theorem continue_version_bookkeeping (flags : Z) (alproto : AppProto) (alversion : Z)
    (rs rs' : RunState) :
  DeStateDetectContinueDetection flags alproto alversion rs = Some rs' →
  ∃ new,
    rs_trace rs' = rs_trace rs ++ new
    ∧ rs_oracle rs' = rs_oracle rs
    ∧ (calls_aborted (inspector_calls new) ∨ de_state (rs_flow rs) = None
       ∨ early_return (rs_flow rs) alproto = true →
       detect_alversion (rs_flow rs') = detect_alversion (rs_flow rs))
    ∧ (calls_ok (inspector_calls new) → is_Some (de_state (rs_flow rs)) →
       early_return (rs_flow rs) alproto = false →
       detect_alversion (rs_flow rs')
       = arr2_set (dir_index flags) alversion (detect_alversion (rs_flow rs))
       ∧ (has flags STREAM_EOF = false →
          ∀ alproto',
            DeStateFlowHasInspectableState (rs_flow rs') alproto' alversion flags = 2)).
Proof.
  intros Hrun.
  assert (∀ rs1 : RunState,
            rs_oracle rs1 = rs_oracle rs →
            (is_Some (de_state (rs_flow rs1)) ↔ is_Some (de_state (rs_flow rs))) →
            (running (rs_trace rs) (rs_trace rs1)
             ∧ (early_return (rs_flow rs) alproto = true
                ∧ detect_alversion (rs_flow rs1) = detect_alversion (rs_flow rs)
                ∨ early_return (rs_flow rs) alproto = false
                  ∧ detect_alversion (rs_flow rs1)
                    = match de_state (rs_flow rs) with
                      | Some _ => arr2_set (dir_index flags) alversion
                                    (detect_alversion (rs_flow rs))
                      | None => detect_alversion (rs_flow rs)
                      end))
            ∨ (stopped (rs_trace rs) (rs_trace rs1)
               ∧ detect_alversion (rs_flow rs1) = detect_alversion (rs_flow rs)) →
            ∃ new,
              rs_trace (driver_end rs1) = rs_trace rs ++ new
              ∧ rs_oracle (driver_end rs1) = rs_oracle rs
              ∧ (calls_aborted (inspector_calls new) ∨ de_state (rs_flow rs) = None
                 ∨ early_return (rs_flow rs) alproto = true →
                 detect_alversion (rs_flow (driver_end rs1))
                 = detect_alversion (rs_flow rs))
              ∧ (calls_ok (inspector_calls new) → is_Some (de_state (rs_flow rs)) →
                 early_return (rs_flow rs) alproto = false →
                 detect_alversion (rs_flow (driver_end rs1))
                 = arr2_set (dir_index flags) alversion (detect_alversion (rs_flow rs))
                 ∧ (has flags STREAM_EOF = false →
                    ∀ alproto',
                      DeStateFlowHasInspectableState (rs_flow (driver_end rs1)) alproto'
                        alversion flags = 2))) as Hfin.
  { intros rs1 Ho Hsome [[(new & Htr & Hok) Hcase]|[(new & Htr & Hab) Hv]];
      exists new; simpl; (split; [done|]); (split; [done|]); split.
    - intros [Hab|[Hnone|Hearly]].
      + destruct (calls_ok_not_aborted _ Hok Hab).
      + destruct Hcase as [[_ Hv]|[_ Hv]]; [done|]. by rewrite Hnone in Hv.
      + destruct Hcase as [[_ Hv]|[He _]]; [done|congruence].
    - intros _ [d Hd] Hearly.
      destruct Hcase as [[He _]|[_ Hv]]; [congruence|].
      rewrite Hd in Hv. split; [done|].
      intros Heof alproto'. unfold DeStateFlowHasInspectableState.
      rewrite Heof, Hv, arr2_get_set, Z.eqb_refl.
      rewrite bool_decide_eq_true_2; [done|]. apply Hsome. by rewrite Hd.
    - by intros _.
    - intros Hok. destruct (calls_ok_not_aborted _ Hok Hab). }
  assert (∀ rs1 : RunState, driver_end rs1 = rs' →
            rs_oracle rs1 = rs_oracle rs →
            (is_Some (de_state (rs_flow rs1)) ↔ is_Some (de_state (rs_flow rs))) →
            (running (rs_trace rs) (rs_trace rs1)
             ∧ (early_return (rs_flow rs) alproto = true
                ∧ detect_alversion (rs_flow rs1) = detect_alversion (rs_flow rs)
                ∨ early_return (rs_flow rs) alproto = false
                  ∧ detect_alversion (rs_flow rs1)
                    = match de_state (rs_flow rs) with
                      | Some _ => arr2_set (dir_index flags) alversion
                                    (detect_alversion (rs_flow rs))
                      | None => detect_alversion (rs_flow rs)
                      end))
            ∨ (stopped (rs_trace rs) (rs_trace rs1)
               ∧ detect_alversion (rs_flow rs1) = detect_alversion (rs_flow rs)) →
            ∃ new,
              rs_trace rs' = rs_trace rs ++ new
              ∧ rs_oracle rs' = rs_oracle rs
              ∧ (calls_aborted (inspector_calls new) ∨ de_state (rs_flow rs) = None
                 ∨ early_return (rs_flow rs) alproto = true →
                 detect_alversion (rs_flow rs') = detect_alversion (rs_flow rs))
              ∧ (calls_ok (inspector_calls new) → is_Some (de_state (rs_flow rs)) →
                 early_return (rs_flow rs) alproto = false →
                 detect_alversion (rs_flow rs')
                 = arr2_set (dir_index flags) alversion (detect_alversion (rs_flow rs))
                 ∧ (has flags STREAM_EOF = false →
                    ∀ alproto',
                      DeStateFlowHasInspectableState (rs_flow rs') alproto'
                        alversion flags = 2))) as Hend.
  { intros rs1 <-. apply Hfin. }
  clear Hfin.
  revert Hrun. unfold DeStateDetectContinueDetection. unfold early_return in *.
  destruct (AppLayerParserProtocolSupportsTxs _ _) eqn:Hsup; cbn [andb] in *.
  - destruct (FlowGetAppState (rs_flow rs)) as [st|] eqn:Hst.
    2:{ intros [= <-]. exists []. rewrite app_nil_r. simpl.
        split; [done|]. split; [done|]. split; [done|]. by intros _ _ ?. }
    destruct (StateIsValid alproto (Some st)) eqn:Hvalid; cbn [negb] in *.
    2:{ intros [= <-]. exists []. rewrite app_nil_r.
        split; [done|]. split; [done|]. split; [done|]. by intros _ _ ?. }
    destruct (continue_tx_loop _ _ _ _ _ _ _ _) as [[[goto_end loc1] rs1]|] eqn:Hloop;
      [|done].
    pose proof (continue_tx_loop_rule (rs_trace rs) _ _ _ _ _ _ _ _ _ _ _
                  (running_refl _) Hloop) as Hrule.
    apply continue_tx_loop_fields in Hloop as (Ha & Hv & Ho).
    assert (de_state (rs_flow rs1) = de_state (rs_flow rs)) as Hde
      by (by injection Ha).
    simpl. destruct goto_end.
    + intros [= Hrs]. apply (Hend rs1 Hrs Ho); [by rewrite Hde|]. by right.
    + destruct (continue_flow_part _ _ _ _ _) as [rs2|] eqn:Hflow; [|done].
      simpl. intros [= Hrs].
      destruct (continue_flow_part_version _ _ _ _ _ _ _ Hrule Hflow)
        as (Ho2 & Hs2 & Hcase).
      apply (Hend rs2 Hrs); [congruence|by rewrite Hs2, Hde|].
      destruct Hcase as [[Hr Hv2]|[Hs Hv2]].
      * left. split; [done|]. right. split; [done|]. by rewrite Hv2, Hde, Hv.
      * right. split; [done|]. congruence.
  - destruct (continue_flow_part _ _ _ _ _) as [rs2|] eqn:Hflow; [|done].
    simpl. intros [= Hrs].
    destruct (continue_flow_part_version _ _ _ _ _ _ _ (running_refl _) Hflow)
      as (Ho2 & Hs2 & Hcase).
    apply (Hend rs2 Hrs); [done|done|].
    destruct Hcase as [[Hr Hv2]|[Hs Hv2]].
    + left. split; [done|]. by right.
    + by right.
Qed.

End VersionProofs.

(** A to-server continue call on [flow_with_rules]. *)
Lemma continue_version_bookkeeping_witness :
  ∃ new,
    rs_trace after_flow_rules = rs_trace (run0 flow_with_rules []) ++ new
    ∧ rs_oracle after_flow_rules = rs_oracle (run0 flow_with_rules [])
    ∧ (calls_aborted (inspector_calls new)
       ∨ de_state (rs_flow (run0 flow_with_rules [])) = None
       ∨ early_return (rs_flow (run0 flow_with_rules [])) ALPROTO_HTTP = true →
       detect_alversion (rs_flow after_flow_rules)
       = detect_alversion (rs_flow (run0 flow_with_rules [])))
    ∧ (calls_ok (inspector_calls new) →
       is_Some (de_state (rs_flow (run0 flow_with_rules []))) →
       early_return (rs_flow (run0 flow_with_rules [])) ALPROTO_HTTP = false →
       detect_alversion (rs_flow after_flow_rules)
       = arr2_set (dir_index 4) 7 (detect_alversion (rs_flow (run0 flow_with_rules [])))
       ∧ (has 4 STREAM_EOF = false →
          ∀ alproto',
            DeStateFlowHasInspectableState (rs_flow after_flow_rules) alproto' 7 4 = 2)).
Proof.
  apply (continue_version_bookkeeping 4 ALPROTO_HTTP 7 (run0 flow_with_rules [])
           after_flow_rules).
  vm_compute. reflexivity.
Defined.

(** On [flow_with_rules] both records are inspected, both alert, and the
    version is stored. *)
Example after_flow_rules_run :
  inspector_calls (rs_trace after_flow_rules)
  = [CallDoInspectFlowRule 2 1; CallDoInspectFlowRule 2 1]
  ∧ detect_alversion (rs_flow after_flow_rules) = (7, 0).
Proof. vm_compute. done. Qed.

(** ** Flow-scoped records across a continue call *)

Section FlowRuleProofs.
Context `{EngineHeader} `{External}.

Lemma land_lor_absorb (a b : Z) : Z.land (Z.lor a b) a = a.
Proof.
  apply Z.bits_inj'. intros n _. rewrite Z.land_spec, Z.lor_spec.
  by destruct (Z.testbit a n), (Z.testbit b n).
Qed.

Lemma continue_amatch_loop_suffix (s : Signature) (st : AppState) (flags : Z)
    (alproto : AppProto) (sm : list SigMatch) :
  ∀ iflags total,
    (continue_amatch_loop sm s st flags alproto iflags total).1.1 `suffix_of` sm.
Proof.
  induction sm as [|m next IH]; intros iflags total; simpl; [done|].
  destruct (sigmatch_table_AppLayerMatch (sm_type m)) as [AppLayerMatch|];
    [|by apply suffix_cons_r].
  destruct (_ =? 0); [done|].
  destruct (_ =? 2); [by apply suffix_cons_r|].
  destruct (_ =? 1); by apply suffix_cons_r.
Qed.

Lemma rule_progress_refl (r : DeStateStoreFlowRule) : rule_progress r r.
Proof. split; [done|]. split; [apply Z.land_diag|]. by split. Qed.

Lemma DoInspectFlowRule_progress (item item' : DeStateStoreFlowRule) (dsf : Z) (f : Flow)
    (alproto : AppProto) (flags r : Z) (det det' : DetectEngineThreadCtx)
    (evs : list Event) :
  DoInspectFlowRule item dsf f alproto flags det = Some (r, item', det', evs) →
  rule_progress item item'.
Proof.
  unfold DoInspectFlowRule.
  destruct (has (rule_flags item) _) eqn:Hterm.
  { intros [= _ <- _ _]. apply rule_progress_refl. }
  destruct (sig_array !! rule_sid item) as [s|]; [|done]. cbn [mbind option_bind].
  assert (∀ sm iflags, sm `suffix_of` rule_nm item →
            rule_progress item
              (mkFlowRule sm (Z.lor (rule_flags item) iflags) (rule_sid item))) as Hstep.
  { intros sm iflags Hsuf. split; [done|]. split; [apply land_lor_absorb|].
    split; [done|]. intros ?. congruence. }
  destruct (rule_nm item) as [|m nm] eqn:Hnm.
  - intros [= _ <- _ _]. by apply Hstep.
  - destruct (FlowGetAppState f) as [st|].
    + pose proof (continue_amatch_loop_suffix s st flags alproto (m :: nm) 0 0) as Hsuf.
      destruct (continue_amatch_loop _ _ _ _ _ _ _) as [[sm iflags] total].
      intros [= _ <- _ _]. by apply Hstep.
    + intros [= _ <- _ _]. apply rule_progress_refl.
Qed.

Lemma inspect_flow_rule_body_progress (dsf : Z) (f : Flow) (alproto : AppProto)
    (flags : Z) (x x' : DeStateStoreFlowRule) (st st' : DetectEngineThreadCtx * list Event)
    (r : Z) :
  inspect_flow_rule_body dsf f alproto flags x st = Some (r, x', st') →
  rule_progress x x'.
Proof.
  destruct st as [det trace]. unfold inspect_flow_rule_body.
  destruct (DoInspectFlowRule _ _ _ _ _ _) as [[[[r1 x1] det1] evs]|] eqn:Hi; [|done].
  simpl. intros [= _ <- _]. by eapply DoInspectFlowRule_progress.
Qed.

Lemma store_inner_loop_sc {A T} (body : A → T → option (Z * A * T)) (n : nat) :
  ∀ heap a store_cnt sc cnt st stop heap' sc' st',
    0 ≤ sc →
    store_inner_loop body n heap a store_cnt sc cnt st = Some (stop, heap', sc', st') →
    0 ≤ sc'.
Proof.
  induction n as [|n IH]; intros heap a store_cnt sc cnt st stop heap' sc' st' Hsc Hrun;
    simpl in Hrun.
  - destruct (_ && _) in Hrun; [done|]. by injection Hrun as _ _ <- _.
  - destruct (_ && _) in Hrun; [|by injection Hrun as _ _ <- _].
    destruct (heap !! a) as [c|]; simpl in Hrun; [|done].
    destruct (c_store c !! _) as [x|]; simpl in Hrun; [|done].
    destruct (body x st) as [[[r x'] st1]|]; simpl in Hrun; [|done].
    destruct (chunk_write _ _ _ _) as [heap1|]; simpl in Hrun; [|done].
    destruct (r <? 0).
    + by injection Hrun as _ _ <- _.
    + eapply IH; [|done]. unfold SigIntId_wrap. apply Z.mod_pos_bound.
      pose proof sigintid_bits_pos. apply Z.pow_pos_nonneg; lia.
Qed.

Lemma store_outer_loop_sc {A T} (body : A → T → option (Z * A * T)) (fuel : nat) :
  ∀ heap store sc cnt st stop heap' sc' st',
    0 ≤ sc →
    store_outer_loop body fuel heap store sc cnt st = Some (stop, heap', sc', st') →
    0 ≤ sc'.
Proof.
  induction fuel as [|fuel IH]; intros heap store sc cnt st stop heap' sc' st' Hsc Hrun;
    simpl in Hrun.
  - destruct store; [done|]. by injection Hrun as _ _ <- _.
  - destruct store as [a|]; [|by injection Hrun as _ _ <- _].
    destruct (store_inner_loop _ _ _ _ _ _ _ _) as [[[[stop1 heap1] sc1] st1]|] eqn:Hin;
      simpl in Hrun; [|done].
    pose proof (store_inner_loop_sc _ _ _ _ _ _ _ _ _ _ _ _ Hsc Hin) as H1.
    destruct stop1.
    + by injection Hrun as _ _ <- _.
    + destruct (heap1 !! a); simpl in Hrun; [|done]. by eapply IH.
Qed.

Lemma store_loop_sc {A T} (body : A → T → option (Z * A * T)) (ds ds' : DirStore A)
    (sc sc' : Z) (st st' : T) (stop : bool) :
  0 ≤ sc → store_loop body ds sc st = Some (stop, ds', sc', st') → 0 ≤ sc'.
Proof.
  intros Hsc. unfold store_loop.
  destruct (store_outer_loop _ _ _ _ _ _ _) as [[[[stop1 heap1] sc1] st1]|] eqn:Hout;
    simpl; [|done].
  intros [= _ _ <- _]. by eapply store_outer_loop_sc.
Qed.

Lemma continue_tx_body_sc (flags : Z) (alproto : AppProto) (st : AppState)
    (total_txs tx : Z) (loc loc' : ContLocals) (rs rs' : RunState) (exit : LoopExit) :
  0 ≤ cl_state_cnt loc →
  continue_tx_body flags alproto st total_txs tx loc rs = Some (exit, loc', rs') →
  0 ≤ cl_state_cnt loc'.
Proof.
  intros Hsc. unfold continue_tx_body.
  destruct (AppLayerParserGetTx st tx) as [t|]; [|by intros [= _ <- _]].
  destruct (AppLayerParserGetTxDetectState _ _) as [d|]; [|by intros [= _ <- _]].
  destruct (store_loop _ _ _ _) as [[[[stop store'] sc'] [[fnm det] trace]]|] eqn:Hloop;
    [|done].
  apply store_loop_sc in Hloop; [|done].
  simpl. destruct stop; [by intros [= _ <- _]|].
  destruct (_ <? _); by intros [= _ <- _].
Qed.

Lemma continue_tx_loop_sc (flags : Z) (alproto : AppProto) (st : AppState)
    (total_txs : Z) (n : nat) :
  ∀ tx loc rs (goto_end : bool) loc' rs',
    0 ≤ cl_state_cnt loc →
    continue_tx_loop n flags alproto st total_txs tx loc rs = Some (goto_end, loc', rs') →
    0 ≤ cl_state_cnt loc'.
Proof.
  induction n as [|n IH]; intros tx loc rs goto_end loc' rs' Hsc; simpl.
  { by intros [= _ <- _]. }
  destruct (continue_tx_body _ _ _ _ _ _ _) as [[[exit loc1] rs1]|] eqn:Hbody; [|done].
  apply continue_tx_body_sc in Hbody; [|done]. simpl.
  destruct exit.
  - by apply IH.
  - by intros [= _ <- _].
  - by intros [= _ <- _].
Qed.

Lemma continue_flow_part_progress (flags : Z) (alproto : AppProto) (alversion : Z)
    (loc : ContLocals) (rs rs' : RunState) :
  wf_store (fdir_store (flow_dir (rs_flow rs) (dir_index flags))) →
  0 ≤ cl_state_cnt loc →
  continue_flow_part flags alproto alversion loc rs = Some rs' →
  wf_store (fdir_store (flow_dir (rs_flow rs') (dir_index flags)))
  ∧ fdir_flags (flow_dir (rs_flow rs') (dir_index flags))
    = fdir_flags (flow_dir (rs_flow rs) (dir_index flags))
  ∧ Forall2 rule_progress (flow_items (flow_dir (rs_flow rs) (dir_index flags)))
      (flow_items (flow_dir (rs_flow rs') (dir_index flags))).
Proof.
  intros Hwf Hsc. unfold continue_flow_part.
  assert (∀ d, Forall2 rule_progress (flow_items d) (flow_items d)) as Hsame
    by (intros d; apply Forall_Forall2_diag, Forall_true, rule_progress_refl).
  unfold flow_dir in Hwf |- *.
  destruct (de_state (rs_flow rs)) as [d|] eqn:Hd.
  2:{ intros [= <-]. rewrite Hd. done. }
  set (body := inspect_flow_rule_body _ _ _ _).
  pose proof (store_loop_items body (fdir_store (arr2_get (dir_index flags) d))
                (cl_state_cnt loc) (rs_det rs, rs_trace rs) Hwf Hsc) as Hloop.
  destruct (items_loop body _ _) as [[[stop xs] st']|] eqn:Hitems;
    [|by rewrite Hloop].
  destruct Hloop as (ds' & sc' & -> & Hwf' & Hcnt' & Hflat & _).
  pose proof (items_loop_length body _ _ _ _ _ Hitems) as Hlen.
  pose proof (items_loop_rel body rule_progress rule_progress_refl
                (λ x s r x' s', inspect_flow_rule_body_progress _ _ _ _ x x' s s' r)
                _ _ _ _ _ Hitems) as Hrel.
  destruct st' as [det trace]. cbn [mbind option_bind]. cbv beta iota.
  assert (∀ rs1 : RunState,
            de_state (rs_flow rs1)
            = Some (arr2_set (dir_index flags)
                      (mkDirFlow ds' (fdir_flags (arr2_get (dir_index flags) d))) d) →
            wf_store (fdir_store match de_state (rs_flow rs1) with
                                 | Some d => arr2_get (dir_index flags) d
                                 | None => DetectEngineStateDirectionFlow_zero
                                 end)
            ∧ fdir_flags match de_state (rs_flow rs1) with
                         | Some d => arr2_get (dir_index flags) d
                         | None => DetectEngineStateDirectionFlow_zero
                         end
              = fdir_flags (arr2_get (dir_index flags) d)
            ∧ Forall2 rule_progress (flow_items (arr2_get (dir_index flags) d))
                (flow_items match de_state (rs_flow rs1) with
                            | Some d => arr2_get (dir_index flags) d
                            | None => DetectEngineStateDirectionFlow_zero
                            end)) as Hfin.
  { intros rs1 ->. rewrite arr2_get_set. simpl. split; [done|]. split; [done|].
    unfold flow_items. simpl. rewrite Hcnt', Hflat.
    set (cnt := ds_cnt (fdir_store (arr2_get (dir_index flags) d))) in *.
    set (fl := flat (ds_heap (fdir_store (arr2_get (dir_index flags) d)))) in *.
    set (k := Z.to_nat (cnt - cl_state_cnt loc)) in *.
    assert (k ≤ Z.to_nat cnt)%nat as Hk by lia.
    assert (length xs = length (take k fl)) as Hxs by done.
    assert (length (take k fl) ≤ Z.to_nat cnt)%nat as Hle by (rewrite length_take; lia).
    rewrite <- (take_drop k fl) at 1.
    rewrite !take_app, Hxs.
    apply Forall2_app.
    - rewrite (take_ge (take k fl)), (take_ge xs) by lia. exact Hrel.
    - apply Forall_Forall2_diag, Forall_true, rule_progress_refl. }
  destruct stop; intros [= <-]; by apply Hfin.
Qed.

(** X7.  The continue driver only advances the flow-scoped records of the
    packet's direction: across a call, over a well-formed store, every
    record keeps its sid, gains flag bits and loses none, and is left
    with a tail of the keywords it had left to match; a record that has
    FULL_INSPECT or CANT_MATCH is left as it is.  The store stays well
    formed, with the same record count and direction flags. *)
Theorem flow_rules_only_progress (flags : Z) (alproto : AppProto) (alversion : Z)
    (rs rs' : RunState) :
  wf_store (fdir_store (flow_dir (rs_flow rs) (dir_index flags))) →
  DeStateDetectContinueDetection flags alproto alversion rs = Some rs' →
  wf_store (fdir_store (flow_dir (rs_flow rs') (dir_index flags)))
  ∧ fdir_flags (flow_dir (rs_flow rs') (dir_index flags))
    = fdir_flags (flow_dir (rs_flow rs) (dir_index flags))
  ∧ Forall2 rule_progress (flow_items (flow_dir (rs_flow rs) (dir_index flags)))
      (flow_items (flow_dir (rs_flow rs') (dir_index flags))).
Proof.
  intros Hwf.
  assert (∀ d, Forall2 rule_progress (flow_items d) (flow_items d)) as Hsame
    by (intros d; apply Forall_Forall2_diag, Forall_true, rule_progress_refl).
  unfold DeStateDetectContinueDetection.
  destruct (AppLayerParserProtocolSupportsTxs _ _).
  - destruct (FlowGetAppState _) as [st|]; [|by intros [= <-]].
    destruct (negb _); [by intros [= <-]|].
    destruct (continue_tx_loop _ _ _ _ _ _ _ _) as [[[goto_end loc1] rs1]|] eqn:Hloop;
      [|done].
    assert (0 ≤ cl_state_cnt loc1) as Hsc
      by (eapply continue_tx_loop_sc; [|exact Hloop]; done).
    apply continue_tx_loop_fields in Hloop as (Ha & _ & _).
    assert (flow_dir (rs_flow rs1) (dir_index flags)
            = flow_dir (rs_flow rs) (dir_index flags)) as Hfd.
    { unfold flow_dir. injection Ha as _ _ _ _ _ Hde.
      destruct (de_state (rs_flow rs1)), (de_state (rs_flow rs)); congruence. }
    simpl. destruct goto_end.
    + intros [= <-]. simpl. by rewrite Hfd.
    + destruct (continue_flow_part _ _ _ _ _) as [rs2|] eqn:Hflow; [|done].
      simpl. intros [= <-]. simpl. rewrite <- Hfd in Hwf |- *.
      by eapply continue_flow_part_progress.
  - destruct (continue_flow_part _ _ _ _ _) as [rs2|] eqn:Hflow; [|done].
    simpl. intros [= <-]. simpl. eapply continue_flow_part_progress; [done| |done]. done.
Qed.

End FlowRuleProofs.

Lemma wf_flow_with_rules :
  wf_store (fdir_store (flow_dir flow_with_rules (dir_index 4))).
Proof.
  split.
  - intros i c Hi. destruct i as [|i]; [|done]. vm_compute in Hi.
    injection Hi as <-. by split.
  - reflexivity.
  - reflexivity.
  - vm_compute. discriminate.
  - vm_compute. discriminate.
  - reflexivity.
Qed.

(** The two records of [flow_with_rules] across the to-server continue
    call that completes both. *)
Lemma flow_rules_only_progress_witness :
  wf_store (fdir_store (flow_dir (rs_flow after_flow_rules) (dir_index 4)))
  ∧ fdir_flags (flow_dir (rs_flow after_flow_rules) (dir_index 4))
    = fdir_flags (flow_dir (rs_flow (run0 flow_with_rules [])) (dir_index 4))
  ∧ Forall2 rule_progress
      (flow_items (flow_dir (rs_flow (run0 flow_with_rules [])) (dir_index 4)))
      (flow_items (flow_dir (rs_flow after_flow_rules) (dir_index 4))).
Proof.
  apply (flow_rules_only_progress 4 ALPROTO_HTTP 7 (run0 flow_with_rules [])
           after_flow_rules).
  - exact wf_flow_with_rules.
  - vm_compute. reflexivity.
Defined.

(** On [flow_with_rules] the call takes both records from "one keyword
    left, no flag" to "no keyword left, FULL_INSPECT". *)
Example flow_rules_completed :
  flow_items (flow_dir flow_with_rules (dir_index 4))
  = [mkFlowRule [mkSigMatch 1] 0 2; mkFlowRule [mkSigMatch 1] 0 2]
  ∧ flow_items (flow_dir (rs_flow after_flow_rules) (dir_index 4))
    = [mkFlowRule [] DE_STATE_FLAG_FULL_INSPECT 2;
       mkFlowRule [] DE_STATE_FLAG_FULL_INSPECT 2].
Proof. vm_compute. done. Qed.

(** ** Transactional records across a continue call *)

Section ItemsRel.
Context `{EngineHeader} `{External}.
Variable R : Z → Z → DeStateStoreItem → DeStateStoreItem → Prop.
Hypothesis R_refl : ∀ flags dsf x, R flags dsf x x.
Hypothesis R_call :
  ∀ item item' dsf f alproto flags tx total_txs fnm fnm' r inprog nxt det det' evs,
    DoInspectItem item dsf f alproto flags tx total_txs fnm inprog nxt det
    = Some (r, item', fnm', det', evs) →
    R flags dsf item item'.

Lemma inspect_item_body_rel (dsf : Z) (f : Flow) (alproto : AppProto)
    (flags tx total_txs : Z) (inprog nxt : bool) (x x' : DeStateStoreItem)
    (st st' : Z * DetectEngineThreadCtx * list Event) (r : Z) :
  inspect_item_body dsf f alproto flags tx total_txs inprog nxt x st = Some (r, x', st') →
  R flags dsf x x'.
Proof.
  destruct st as [[fnm det] trace]. unfold inspect_item_body.
  destruct (DoInspectItem _ _ _ _ _ _ _ _ _ _ _) as [[[[[r1 x1] fnm1] det1] evs]|] eqn:Hi;
    [|done].
  simpl. intros [= _ <- _]. by eapply R_call.
Qed.

Lemma continue_tx_body_rel (flags : Z) (alproto : AppProto) (st : AppState)
    (total_txs tx : Z) (loc loc' : ContLocals) (rs rs' : RunState) (exit : LoopExit) :
  wf_store (dir_store (tx_dir (rs_flow rs) tx (dir_index flags))) →
  continue_tx_body flags alproto st total_txs tx loc rs = Some (exit, loc', rs') →
  (∀ tx', tx' ≠ tx →
     tx_dir (rs_flow rs') tx' (dir_index flags) = tx_dir (rs_flow rs) tx' (dir_index flags))
  ∧ wf_store (dir_store (tx_dir (rs_flow rs') tx (dir_index flags)))
  ∧ dir_flags (tx_dir (rs_flow rs') tx (dir_index flags))
    = dir_flags (tx_dir (rs_flow rs) tx (dir_index flags))
  ∧ filestore_cnt (tx_dir (rs_flow rs') tx (dir_index flags))
    = filestore_cnt (tx_dir (rs_flow rs) tx (dir_index flags))
  ∧ Forall2 (R flags (dir_flags (tx_dir (rs_flow rs) tx (dir_index flags))))
      (dir_items (tx_dir (rs_flow rs) tx (dir_index flags)))
      (dir_items (tx_dir (rs_flow rs') tx (dir_index flags))).
Proof.
  intros Hwf. unfold continue_tx_body.
  assert (∀ d, Forall2 (R flags (dir_flags d)) (dir_items d) (dir_items d))
    as Hsame by (intros d; apply Forall_Forall2_diag, Forall_true, R_refl).
  destruct (AppLayerParserGetTx st tx) as [t|]; [|by intros [= _ _ <-]].
  destruct (AppLayerParserGetTxDetectState _ _) as [d|] eqn:Hd; [|by intros [= _ _ <-]].
  rewrite (tx_dir_lookup _ _ _ _ Hd) in *.
  set (body := inspect_item_body _ _ _ _ _ _ _ _).
  pose proof (store_loop_items body (dir_store (arr2_get (dir_index flags) d)) 0
                (cl_file_no_match loc, rs_det rs, rs_trace rs) Hwf ltac:(lia)) as Hloop.
  rewrite Z.sub_0_r in Hloop.
  destruct (items_loop body _ _) as [[[stop xs] st']|] eqn:Hitems;
    [|by rewrite Hloop].
  destruct Hloop as (ds' & sc' & -> & Hwf' & Hcnt' & Hflat & _).
  pose proof (items_loop_length body _ _ _ _ _ Hitems) as Hlen.
  assert (length xs = Z.to_nat (ds_cnt (dir_store (arr2_get (dir_index flags) d))))
    as Hlen'.
  { rewrite Hlen, length_take, flat_length by apply canon_uniform, Hwf.
    destruct Hwf as [_ _ _ Hlo Hhi _]. pose proof chunk_size_pos as Hpos.
    assert (Z.of_nat (length (ds_heap (dir_store (arr2_get (dir_index flags) d)))
                      * Z.to_nat DE_STATE_CHUNK_SIZE)
            = DE_STATE_CHUNK_SIZE
              * Z.of_nat (length (ds_heap (dir_store (arr2_get (dir_index flags) d)))))
      by (rewrite Nat2Z.inj_mul, Z2Nat.id by lia; lia).
    lia. }
  pose proof (items_loop_rel body (R flags (dir_flags (arr2_get (dir_index flags) d)))
                (R_refl _ _)
                (λ x s r x' s', inspect_item_body_rel _ _ _ _ _ _ _ _ x x' s s' r)
                _ _ _ _ _ Hitems) as Hrel.
  destruct st' as [[fnm det] trace]. simpl.
  assert (∀ rs1 : RunState,
            rs_flow rs1 = flow_set_tx_de_state (rs_flow rs) tx
                            (arr2_set (dir_index flags)
                               (mkDir ds' (filestore_cnt (arr2_get (dir_index flags) d))
                                  (dir_flags (arr2_get (dir_index flags) d))) d) →
            (∀ tx', tx' ≠ tx →
               tx_dir (rs_flow rs1) tx' (dir_index flags)
               = tx_dir (rs_flow rs) tx' (dir_index flags))
            ∧ wf_store (dir_store (tx_dir (rs_flow rs1) tx (dir_index flags)))
            ∧ dir_flags (tx_dir (rs_flow rs1) tx (dir_index flags))
              = dir_flags (arr2_get (dir_index flags) d)
            ∧ filestore_cnt (tx_dir (rs_flow rs1) tx (dir_index flags))
              = filestore_cnt (arr2_get (dir_index flags) d)
            ∧ Forall2 (R flags (dir_flags (arr2_get (dir_index flags) d)))
                (dir_items (arr2_get (dir_index flags) d))
                (dir_items (tx_dir (rs_flow rs1) tx (dir_index flags)))) as Hfin.
  { intros rs1 ->. split.
    { intros tx' Hne. by rewrite tx_dir_set, decide_False. }
    rewrite tx_dir_set, decide_True, arr2_get_set by done. simpl.
    split; [done|]. split; [done|]. split; [done|].
    unfold dir_items. simpl. rewrite Hcnt', Hflat.
    by rewrite take_app_length'. }
  destruct stop; [intros [= _ _ <-]; by apply Hfin|].
  destruct (_ <? _); intros [= _ _ <-]; by apply Hfin.
Qed.

Lemma continue_tx_loop_rel (flags : Z) (alproto : AppProto) (st : AppState)
    (total_txs : Z) (n : nat) :
  ∀ tx loc rs (goto_end : bool) loc' rs',
    (∀ tx', wf_store (dir_store (tx_dir (rs_flow rs) tx' (dir_index flags)))) →
    continue_tx_loop n flags alproto st total_txs tx loc rs = Some (goto_end, loc', rs') →
    ∀ tx',
      wf_store (dir_store (tx_dir (rs_flow rs') tx' (dir_index flags)))
      ∧ dir_flags (tx_dir (rs_flow rs') tx' (dir_index flags))
        = dir_flags (tx_dir (rs_flow rs) tx' (dir_index flags))
      ∧ filestore_cnt (tx_dir (rs_flow rs') tx' (dir_index flags))
        = filestore_cnt (tx_dir (rs_flow rs) tx' (dir_index flags))
      ∧ Forall2 (R flags (dir_flags (tx_dir (rs_flow rs) tx' (dir_index flags))))
          (dir_items (tx_dir (rs_flow rs) tx' (dir_index flags)))
          (dir_items (tx_dir (rs_flow rs') tx' (dir_index flags)))
      ∧ (tx' < tx →
         tx_dir (rs_flow rs') tx' (dir_index flags)
         = tx_dir (rs_flow rs) tx' (dir_index flags)).
Proof.
  assert (∀ (rs : RunState) tx',
            Forall2 (R flags (dir_flags (tx_dir (rs_flow rs) tx' (dir_index flags))))
              (dir_items (tx_dir (rs_flow rs) tx' (dir_index flags)))
              (dir_items (tx_dir (rs_flow rs) tx' (dir_index flags)))) as Hsame
    by (intros; apply Forall_Forall2_diag, Forall_true, R_refl).
  induction n as [|n IH]; intros tx loc rs goto_end loc' rs' Hwf; simpl.
  { intros [= _ _ <-] tx'. done. }
  destruct (continue_tx_body _ _ _ _ _ _ _) as [[[exit loc1] rs1]|] eqn:Hb; [|done].
  simpl.
  destruct (continue_tx_body_rel _ _ _ _ _ _ _ _ _ _ (Hwf tx) Hb)
    as (Hfr & Hwf1 & Hfl1 & Hfc1 & Hrel1).
  assert (∀ tx',
            wf_store (dir_store (tx_dir (rs_flow rs1) tx' (dir_index flags)))
            ∧ dir_flags (tx_dir (rs_flow rs1) tx' (dir_index flags))
              = dir_flags (tx_dir (rs_flow rs) tx' (dir_index flags))
            ∧ filestore_cnt (tx_dir (rs_flow rs1) tx' (dir_index flags))
              = filestore_cnt (tx_dir (rs_flow rs) tx' (dir_index flags))
            ∧ Forall2 (R flags (dir_flags (tx_dir (rs_flow rs) tx' (dir_index flags))))
                (dir_items (tx_dir (rs_flow rs) tx' (dir_index flags)))
                (dir_items (tx_dir (rs_flow rs1) tx' (dir_index flags)))
            ∧ (tx' < tx →
               tx_dir (rs_flow rs1) tx' (dir_index flags)
               = tx_dir (rs_flow rs) tx' (dir_index flags))) as Hone.
  { intros tx'. destruct (decide (tx' = tx)) as [->|Hne].
    - split; [done|]. split; [done|]. split; [done|]. split; [done|]. lia.
    - rewrite (Hfr tx' Hne). done. }
  destruct exit; [|by intros [= _ _ <-]..].
  intros Hrest tx'.
  destruct (IH (tx + 1) loc1 rs1 goto_end loc' rs' (λ tx0, proj1 (Hone tx0)) Hrest tx')
    as (Hwf' & Hfl' & Hfc' & Hrel' & Hfr').
  destruct (Hone tx') as (_ & Hfl1' & Hfc1' & Hrel1' & Hfr1').
  split; [done|]. split; [congruence|]. split; [congruence|]. split.
  - destruct (decide (tx' = tx)) as [->|Hne].
    + rewrite Hfr' by lia. done.
    + rewrite (Hfr tx' Hne) in Hrel'. done.
  - intros Hlt. rewrite Hfr' by lia. by apply Hfr1'.
Qed.

Lemma continue_driver_rel (flags : Z) (alproto : AppProto) (alversion : Z)
    (rs rs' : RunState) :
  (∀ tx, wf_store (tx_dir_store (rs_flow rs) tx (dir_index flags))) →
  DeStateDetectContinueDetection flags alproto alversion rs = Some rs' →
  ∀ tx,
    wf_store (tx_dir_store (rs_flow rs') tx (dir_index flags))
    ∧ dir_flags (tx_dir (rs_flow rs') tx (dir_index flags))
      = dir_flags (tx_dir (rs_flow rs) tx (dir_index flags))
    ∧ filestore_cnt (tx_dir (rs_flow rs') tx (dir_index flags))
      = filestore_cnt (tx_dir (rs_flow rs) tx (dir_index flags))
    ∧ Forall2 (R flags (dir_flags (tx_dir (rs_flow rs) tx (dir_index flags))))
        (dir_items (tx_dir (rs_flow rs) tx (dir_index flags)))
        (dir_items (tx_dir (rs_flow rs') tx (dir_index flags))).
Proof.
  intros Hwf Hrun tx. rewrite tx_dir_store_dir.
  assert (∀ tx', wf_store (dir_store (tx_dir (rs_flow rs) tx' (dir_index flags)))) as Hwf'
    by (intros tx'; rewrite <- tx_dir_store_dir; apply Hwf).
  assert (∀ (rs1 rs2 : RunState),
            tx_de_state (rs_flow rs2) = tx_de_state (rs_flow rs1) →
            tx_dir (rs_flow rs2) tx (dir_index flags)
            = tx_dir (rs_flow rs1) tx (dir_index flags)) as Htxs
    by (intros rs1 rs2 Heq; unfold tx_dir; by rewrite Heq).
  assert (Forall2 (R flags (dir_flags (tx_dir (rs_flow rs) tx (dir_index flags))))
            (dir_items (tx_dir (rs_flow rs) tx (dir_index flags)))
            (dir_items (tx_dir (rs_flow rs) tx (dir_index flags)))) as Hsame
    by apply Forall_Forall2_diag, Forall_true, R_refl.
  revert Hrun. unfold DeStateDetectContinueDetection.
  destruct (AppLayerParserProtocolSupportsTxs _ _).
  - destruct (FlowGetAppState _) as [st|]; [|by intros [= <-]].
    destruct (negb _); [by intros [= <-]|].
    destruct (continue_tx_loop _ _ _ _ _ _ _ _) as [[[goto_end loc1] rs1]|] eqn:Hl;
      [|done].
    simpl.
    destruct (continue_tx_loop_rel _ _ _ _ _ _ _ _ _ _ _ Hwf' Hl tx)
      as (Hwf1 & Hfl1 & Hfc1 & Hrel1 & _).
    destruct goto_end; [by intros [= <-]|].
    destruct (continue_flow_part _ _ _ _ _) as [rs2|] eqn:Hf; [|done].
    simpl. intros [= <-]. simpl.
    by rewrite (Htxs rs1 rs2 (continue_flow_part_txs _ _ _ _ _ _ Hf)).
  - destruct (continue_flow_part _ _ _ _ _) as [rs2|] eqn:Hf; [|done].
    simpl. intros [= <-]. simpl.
    by rewrite (Htxs rs rs2 (continue_flow_part_txs _ _ _ _ _ _ Hf)).
Qed.

End ItemsRel.

Section ItemBitsProofs.
Context `{EngineHeader} `{External}.

Lemma bits_kept_refl (dsf : Z) (x : DeStateStoreItem) : bits_kept dsf x x.
Proof. by split. Qed.

Lemma reopen_full_inspect_other (fl dsf flags : Z) (k : nat) :
  k ∉ [FILE_TC_INSPECT_bit; FILE_TS_INSPECT_bit; FULL_INSPECT_bit; SIG_CANT_MATCH_bit] →
  has (reopen_full_inspect fl dsf flags) (bit k) = has fl (bit k).
Proof.
  rewrite !not_elem_of_cons. intros (Htc & Hts & Hfull & Hcant & _).
  unfold reopen_full_inspect, DE_STATE_FLAG_FILE_TC_INSPECT, DE_STATE_FLAG_FILE_TS_INSPECT,
    DE_STATE_FLAG_FULL_INSPECT.
  destruct (has fl _); [|done].
  destruct (_ && _), (_ && _); rewrite ?has_clear;
    rewrite ?(bool_decide_eq_false_2 (_ = k)) by done;
    by rewrite ?andb_true_r.
Qed.

Lemma reopen_full_inspect_quiet (fl dsf flags : Z) :
  has dsf DETECT_ENGINE_STATE_FLAG_FILE_TC_NEW = false →
  has dsf DETECT_ENGINE_STATE_FLAG_FILE_TS_NEW = false →
  reopen_full_inspect fl dsf flags = fl.
Proof.
  intros Htc Hts. unfold reopen_full_inspect. rewrite Htc, Hts, !andb_false_r.
  by destruct (has fl _).
Qed.

Lemma reopen_cant_match_other (fl fl' dsf flags : Z) (k : nat) :
  k ∉ [FILE_TC_INSPECT_bit; FILE_TS_INSPECT_bit; FULL_INSPECT_bit; SIG_CANT_MATCH_bit] →
  reopen_cant_match fl dsf flags = Some fl' →
  has fl' (bit k) = has fl (bit k).
Proof.
  rewrite !not_elem_of_cons. intros (Htc & Hts & Hfull & Hcant & _).
  unfold reopen_cant_match, DE_STATE_FLAG_FILE_TC_INSPECT, DE_STATE_FLAG_FILE_TS_INSPECT,
    DE_STATE_FLAG_SIG_CANT_MATCH.
  destruct (_ && _ && _).
  { intros [= <-]. rewrite !has_clear.
    rewrite !(bool_decide_eq_false_2 (_ = k)) by done. by rewrite !andb_true_r. }
  destruct (_ && _ && _); [|done].
  intros [= <-]. rewrite !has_clear.
  rewrite !(bool_decide_eq_false_2 (_ = k)) by done. by rewrite !andb_true_r.
Qed.

Lemma reopen_cant_match_quiet (fl dsf flags : Z) :
  has dsf DETECT_ENGINE_STATE_FLAG_FILE_TC_NEW = false →
  has dsf DETECT_ENGINE_STATE_FLAG_FILE_TS_NEW = false →
  reopen_cant_match fl dsf flags = None.
Proof.
  intros Htc Hts. unfold reopen_cant_match. by rewrite Htc, Hts, !andb_false_r.
Qed.

Lemma DoInspectItem_bits_kept (item item' : DeStateStoreItem) (dsf : Z) (f : Flow)
    (alproto : AppProto) (flags tx total_txs fnm fnm' r : Z) (inprog nxt : bool)
    (det det' : DetectEngineThreadCtx) (evs : list Event) :
  DoInspectItem item dsf f alproto flags tx total_txs fnm inprog nxt det
  = Some (r, item', fnm', det', evs) →
  bits_kept dsf item item'.
Proof.
  unfold DoInspectItem.
  destruct (sig_array !! item_sid item) as [s|]; [|done]. cbn [mbind option_bind].
  set (eng fl := DoInspectItem_engines s item fl f alproto flags tx total_txs fnm det).
  assert (∀ fl, item_sid (eng fl).1.1.1.2 = item_sid item) as Hsid
    by (intros fl; apply DoInspectItem_engines_sid).
  assert (∀ fl k, has fl (bit k) = true → has (item_flags (eng fl).1.1.1.2) (bit k) = true)
    as Heng by (intros fl k; apply DoInspectItem_engines_flags).
  assert (∀ fl,
            (∀ k : nat,
               k ∉ [FILE_TC_INSPECT_bit; FILE_TS_INSPECT_bit; FULL_INSPECT_bit;
                    SIG_CANT_MATCH_bit] →
               has (item_flags item) (bit k) = true → has fl (bit k) = true) →
            (has dsf DETECT_ENGINE_STATE_FLAG_FILE_TC_NEW = false →
             has dsf DETECT_ENGINE_STATE_FLAG_FILE_TS_NEW = false →
             fl = item_flags item) →
            ∀ res : ItemResult,
              res = (if has fl DE_STATE_FLAG_SIG_CANT_MATCH
                     then match reopen_cant_match fl dsf flags with
                          | Some fl' => eng fl'
                          | None =>
                              (0, item_with_flags item fl, fnm,
                               (if TxIsLast tx total_txs || inprog || nxt
                                then mark_no_new_state (item_sid item) det else det), [])
                          end
                     else eng fl) →
              bits_kept dsf item res.1.1.1.2) as Hafter.
  { intros fl Hother Hquiet res ->.
    destruct (has fl DE_STATE_FLAG_SIG_CANT_MATCH).
    - destruct (reopen_cant_match fl dsf flags) as [fl'|] eqn:Hre.
      + split; [apply Hsid|]. split.
        * intros k Hk Hold. apply Heng.
          rewrite (reopen_cant_match_other _ _ _ _ _ Hk Hre). by apply Hother.
        * intros Htc Hts. by rewrite reopen_cant_match_quiet in Hre.
      + unfold item_with_flags. split; [done|]. cbn [fst snd item_flags].
        split; [done|]. intros Htc Hts k. by rewrite (Hquiet Htc Hts).
    - split; [apply Hsid|]. split.
      + intros k Hk Hold. apply Heng. by apply Hother.
      + intros Htc Hts k Hold. apply Heng. by rewrite (Hquiet Htc Hts). }
  destruct (has (item_flags item) DE_STATE_FLAG_FULL_INSPECT).
  - destruct (has (reopen_full_inspect _ _ _) DE_STATE_FLAG_FULL_INSPECT).
    + intros [= _ <- _ _ _]. unfold item_with_flags.
      split; [done|]. cbn [item_flags]. split.
      * intros k Hk. by rewrite reopen_full_inspect_other.
      * intros Htc Hts k. by rewrite reopen_full_inspect_quiet.
    + intros [= Hres].
      change item' with ((r, item', fnm', det', evs) : ItemResult).1.1.1.2.
      apply (Hafter (reopen_full_inspect (item_flags item) dsf flags));
        [| |by symmetry].
      * intros k Hk. by rewrite reopen_full_inspect_other.
      * intros. by apply reopen_full_inspect_quiet.
  - intros [= Hres].
    change item' with ((r, item', fnm', det', evs) : ItemResult).1.1.1.2.
    apply (Hafter (item_flags item)); [done|done|by symmetry].
Qed.

(** X8.  Across a call of the continue driver on well-formed stores, every
    stored transactional record of the packet's slot keeps its sid and
    every flag bit other than the two file bits, FULL_INSPECT and
    CANT_MATCH (an inspection engine that has matched stays matched); no
    bit at all is cleared when the transaction's direction state
    announces no new file.  The direction state keeps its flags and its
    filestore counter, and the store stays well formed. *)
Theorem continue_keeps_engine_bits (flags : Z) (alproto : AppProto) (alversion : Z)
    (rs rs' : RunState) :
  (∀ tx, wf_store (tx_dir_store (rs_flow rs) tx (dir_index flags))) →
  DeStateDetectContinueDetection flags alproto alversion rs = Some rs' →
  ∀ tx,
    wf_store (tx_dir_store (rs_flow rs') tx (dir_index flags))
    ∧ dir_flags (tx_dir (rs_flow rs') tx (dir_index flags))
      = dir_flags (tx_dir (rs_flow rs) tx (dir_index flags))
    ∧ filestore_cnt (tx_dir (rs_flow rs') tx (dir_index flags))
      = filestore_cnt (tx_dir (rs_flow rs) tx (dir_index flags))
    ∧ Forall2 (bits_kept (dir_flags (tx_dir (rs_flow rs) tx (dir_index flags))))
        (dir_items (tx_dir (rs_flow rs) tx (dir_index flags)))
        (dir_items (tx_dir (rs_flow rs') tx (dir_index flags))).
Proof.
  apply (continue_driver_rel (λ _, bits_kept) (λ _, bits_kept_refl)).
  intros *. apply DoInspectItem_bits_kept.
Qed.

End ItemBitsProofs.

Lemma wf_flow_half_matched (tx : Z) :
  wf_store (tx_dir_store flow_half_matched tx (dir_index 4)).
Proof.
  unfold tx_dir_store, flow_half_matched. simpl.
  destruct (decide (tx = 0)) as [->|Hne].
  - rewrite lookup_insert_eq. split.
    + intros i c Hi. destruct i as [|i]; [|done]. vm_compute in Hi.
      injection Hi as <-. by split.
    + reflexivity.
    + reflexivity.
    + vm_compute. discriminate.
    + vm_compute. discriminate.
    + reflexivity.
  - rewrite lookup_insert_ne, lookup_empty by done. apply wf_store_zero.
Qed.

(** The record of [flow_half_matched] across the call that completes it. *)
Lemma continue_keeps_engine_bits_witness :
  wf_store (tx_dir_store (rs_flow after_half_matched) 0 (dir_index 4))
  ∧ dir_flags (tx_dir (rs_flow after_half_matched) 0 (dir_index 4))
    = dir_flags (tx_dir (rs_flow (run0 flow_half_matched [])) 0 (dir_index 4))
  ∧ filestore_cnt (tx_dir (rs_flow after_half_matched) 0 (dir_index 4))
    = filestore_cnt (tx_dir (rs_flow (run0 flow_half_matched [])) 0 (dir_index 4))
  ∧ Forall2
      (bits_kept (dir_flags (tx_dir (rs_flow (run0 flow_half_matched [])) 0 (dir_index 4))))
      (dir_items (tx_dir (rs_flow (run0 flow_half_matched [])) 0 (dir_index 4)))
      (dir_items (tx_dir (rs_flow after_half_matched) 0 (dir_index 4))).
Proof.
  apply (continue_keeps_engine_bits 4 ALPROTO_HTTP 1 (run0 flow_half_matched [])
           after_half_matched).
  - exact wf_flow_half_matched.
  - vm_compute. reflexivity.
Defined.

(** On [flow_half_matched] the call adds the cookie engine's bit and
    FULL_INSPECT to the method engine's bit, and alerts. *)
Example half_matched_completed :
  dir_items (tx_dir flow_half_matched 0 (dir_index 4)) = [mkItem 1 (bit 9)]
  ∧ dir_items (tx_dir (rs_flow after_half_matched) 0 (dir_index 4))
    = [mkItem 1 (Z.lor (Z.lor (bit 9) (bit 10)) DE_STATE_FLAG_FULL_INSPECT)]
  ∧ alerts (rs_trace after_half_matched) = [(1, 0)].
Proof. vm_compute. done. Qed.

(** ** What the start driver returns *)

Section ReturnProofs.
Context `{EngineHeader} `{External}.

Lemma verdicts_app (l1 l2 : list Event) : verdicts (l1 ++ l2) = verdicts l1 ++ verdicts l2.
Proof. apply omap_app. Qed.

Lemma start_inv_quiet (s : Signature) (trace0 : list Event) (loc loc' : StartLocals)
    (rs rs' : RunState) (evs : list Event) :
  start_inv s trace0 loc rs →
  rs_trace rs' = rs_trace rs ++ evs →
  verdicts evs = [] → alerts evs = [] → inspector_calls evs = [] →
  sl_alert_cnt loc' = sl_alert_cnt loc →
  start_inv s trace0 loc' rs'.
Proof.
  intros (new & Htr & Hcalls & Hall & Hno & Hcnt) Htr' Hv Ha Hi Hcnt'.
  exists (new ++ evs). rewrite Htr', Htr, app_assoc. split; [done|].
  rewrite inspector_calls_app, verdicts_app, alerts_app, Hv, Ha, Hi, !app_nil_r, Hcnt'.
  done.
Qed.

Lemma start_inv_alert (s : Signature) (trace0 : list Event) (loc loc' : StartLocals)
    (rs : RunState) (tx fl : Z) :
  start_inv s trace0 loc rs →
  sl_alert_cnt loc' = 1 →
  start_inv s trace0 loc' (alert_or_apply s tx fl rs).
Proof.
  intros (new & Htr & Hcalls & Hall & Hno & Hcnt) Hcnt'.
  unfold alert_or_apply, start_inv, rs_emit.
  destruct (has (sig_flags s) SIG_FLAG_NOALERT) eqn:Hna; cbn [negb rs_trace].
  - exists (new ++ [DetectSignatureApplyActions (num s)]).
    rewrite Htr, app_assoc. split; [done|].
    rewrite inspector_calls_app, verdicts_app, alerts_app, Hcalls. simpl.
    split; [done|]. split; [apply Forall_app; split; [done|by constructor]|].
    split; [intros _; by rewrite Hno, app_nil_r|].
    right. split; [done|]. by destruct (verdicts new).
  - exists (new ++ [PacketAlertAppend (num s) tx fl]).
    rewrite Htr, app_assoc. split; [done|].
    rewrite inspector_calls_app, verdicts_app, Hcalls. simpl.
    split; [done|]. split; [apply Forall_app; split; [done|by constructor]|].
    split; [done|].
    right. split; [done|]. by destruct (verdicts new).
Qed.

Lemma StoreStateTxHandleFiles_quiet (det : DetectEngineThreadCtx)
    (d : DetectEngineState) (flags tx fnm : Z) :
  verdicts (StoreStateTxHandleFiles det d flags tx fnm).2 = []
  ∧ alerts (StoreStateTxHandleFiles det d flags tx fnm).2 = []
  ∧ inspector_calls (StoreStateTxHandleFiles det d flags tx fnm).2 = [].
Proof. unfold StoreStateTxHandleFiles. by destruct (_ =? 1). Qed.

Lemma StoreStateTx_quiet (flags alversion tx : Z) (t : Tx) (s : Signature)
    (iflags fnm : Z) (rs rs' : RunState) :
  StoreStateTx flags alversion tx t s iflags fnm rs = Some rs' →
  ∃ evs, rs_trace rs' = rs_trace rs ++ evs
         ∧ verdicts evs = [] ∧ alerts evs = [] ∧ inspector_calls evs = [].
Proof.
  unfold StoreStateTx.
  destruct (AppLayerParserSupportsTxDetectState _ _).
  2:{ intros [= <-]. exists []. by rewrite app_nil_r. }
  destruct (tx_destate_get_or_alloc _ _ _ _) as [[d o1]|]; [|done]. simpl.
  destruct d as [d|].
  2:{ intros [= <-]. exists []. by rewrite app_nil_r. }
  destruct (DeStateSignatureAppend _ _ _ _ _) as [[d1 o2]|]; [|done]. simpl.
  pose proof (StoreStateTxHandleFiles_quiet (rs_det rs) d1 flags tx fnm) as Hq.
  destruct (StoreStateTxHandleFiles _ _ _ _ _) as [d2 evs].
  intros [= <-]. by exists evs.
Qed.

Lemma StoreStateTxFileOnly_quiet (flags tx : Z) (t : Tx) (fnm : Z) (rs rs' : RunState) :
  StoreStateTxFileOnly flags tx t fnm rs = Some rs' →
  ∃ evs, rs_trace rs' = rs_trace rs ++ evs
         ∧ verdicts evs = [] ∧ alerts evs = [] ∧ inspector_calls evs = [].
Proof.
  unfold StoreStateTxFileOnly.
  destruct (AppLayerParserSupportsTxDetectState _ _).
  2:{ intros [= <-]. exists []. by rewrite app_nil_r. }
  destruct (tx_destate_get_or_alloc _ _ _ _) as [[d o1]|]; [|done]. simpl.
  destruct d as [d|].
  2:{ intros [= <-]. exists []. by rewrite app_nil_r. }
  pose proof (StoreStateTxHandleFiles_quiet (rs_det rs) d flags tx fnm) as Hq.
  destruct (StoreStateTxHandleFiles _ _ _ _ _) as [d2 evs].
  intros [= <-]. by exists evs.
Qed.

Lemma StoreState_trace (flags alversion : Z) (s : Signature) (sm : list SigMatch)
    (iflags r : Z) (rs rs' : RunState) :
  StoreState flags alversion s sm iflags rs = Some (r, rs') →
  rs_trace rs' = rs_trace rs.
Proof.
  unfold StoreState.
  destruct (match de_state (rs_flow rs) with Some _ => _ | None => _ end) as [st o1].
  destruct st as [st|]; [|by intros [= _ <-]].
  destruct (DeStateFlowRuleAppend _ _ _ _ _ _) as [[st' o2]|]; [|done].
  simpl. by intros [= _ <-].
Qed.

Lemma start_tx_body_inv (s : Signature) (trace0 : list Event) (flags : Z)
    (alproto : AppProto) (alversion : Z) (st : AppState) (total_txs tx : Z)
    (loc loc' : StartLocals) (rs rs' : RunState) :
  start_inv s trace0 loc rs →
  start_tx_body s flags alproto alversion st total_txs tx loc rs = Some (loc', rs') →
  start_inv s trace0 loc' rs'.
Proof.
  intros Hinv. unfold start_tx_body.
  destruct (AppLayerParserGetTx st tx) as [t|]; [|by intros [= <- <-]].
  destruct (start_engine_loop _ _ _ _ _ _ _ _) as [[[engine iflags] tm] fnm].
  set (rs0 := rs_with_det _ rs).
  assert (start_inv s trace0 loc rs0) as Hinv0.
  { eapply (start_inv_quiet s _ loc _ rs rs0 []); try done. by rewrite app_nil_r. }
  set (full := is_nil engine && (0 <? tm)).
  set (rs1 := if full then alert_or_apply _ _ _ _ else _).
  set (cnt1 := if full then 1 else sl_alert_cnt loc).
  assert (∀ fl fnm', start_inv s trace0 (mkStartLocals fl fnm' cnt1) rs1) as Hinv1.
  { intros fl fnm'. unfold rs1, cnt1. destruct full.
    - by apply (start_inv_alert s _ loc).
    - eapply (start_inv_quiet s _ loc _ rs0 rs0 []); try done. by rewrite app_nil_r. }
  destruct (_ || _); [|intros [= <- <-]; apply Hinv1].
  destruct (_ || _).
  - destruct (StoreStateTx _ _ _ _ _ _ _ _) as [rs2|] eqn:Hs; [|done].
    simpl. intros [= <- <-].
    apply StoreStateTx_quiet in Hs as (evs & Htr & Hv & Ha & Hi).
    by eapply (start_inv_quiet _ _ _ _ rs1 rs2 evs).
  - destruct (StoreStateTxFileOnly _ _ _ _ _) as [rs2|] eqn:Hs; [|done].
    simpl. intros [= <- <-].
    apply StoreStateTxFileOnly_quiet in Hs as (evs & Htr & Hv & Ha & Hi).
    by eapply (start_inv_quiet _ _ _ _ rs1 rs2 evs).
Qed.

Lemma start_tx_loop_inv (s : Signature) (trace0 : list Event) (flags : Z)
    (alproto : AppProto) (alversion : Z) (st : AppState) (total_txs : Z) (n : nat) :
  ∀ tx loc rs loc' rs',
    start_inv s trace0 loc rs →
    start_tx_loop n s flags alproto alversion st total_txs tx loc rs = Some (loc', rs') →
    start_inv s trace0 loc' rs'.
Proof.
  induction n as [|n IH]; intros tx loc rs loc' rs' Hinv; simpl.
  { by intros [= <- <-]. }
  destruct (start_tx_body _ _ _ _ _ _ _ _ _) as [[loc1 rs1]|] eqn:Hb; [|done].
  simpl. apply IH. by eapply start_tx_body_inv.
Qed.

Lemma start_flow_part_inv (s : Signature) (trace0 : list Event) (flags : Z)
    (alproto : AppProto) (alversion : Z) (loc loc' : StartLocals) (rs rs' : RunState) :
  start_inv s trace0 loc rs →
  start_flow_part s flags alproto alversion loc rs = Some (loc', rs') →
  start_inv s trace0 loc' rs'.
Proof.
  intros Hinv. unfold start_flow_part.
  destruct (sm_lists s DETECT_SM_LIST_AMATCH) as [|m sm]; [by intros [= <- <-]|].
  destruct (FlowGetAppState _) as [st|]; [|by intros [= <- <-]].
  destruct (start_amatch_loop _ _ _ _ _ _ _) as [[sm' match_] iflags].
  set (alerted := (is_nil sm' || _) && _).
  set (rs1 := if alerted then alert_or_apply _ _ _ _ else _).
  set (cnt1 := if alerted then 1 else sl_alert_cnt loc).
  assert (∀ fl fnm', start_inv s trace0 (mkStartLocals fl fnm' cnt1) rs1) as Hinv1.
  { intros fl fnm'. unfold rs1, cnt1. destruct alerted.
    - by apply (start_inv_alert s _ loc).
    - eapply (start_inv_quiet s _ loc _ rs rs []); try done. by rewrite app_nil_r. }
  destruct (StoreState _ _ _ _ _ _) as [[r rs2]|] eqn:Hs; [|done].
  simpl. intros [= <- <-].
  apply StoreState_trace in Hs.
  eapply (start_inv_quiet _ _ _ _ rs1 rs2 []); try done;
    first [apply Hinv1|by rewrite app_nil_r].
Qed.

(** X9.  The return value of the start driver says whether the call alerted:
    what the call adds to the trace names no signature other than [s],
    contains no call to a per-record inspector, and the call returns 1
    when it contains an alert on [s] or an application of its actions and
    0 when it contains neither; a signature with [SIG_FLAG_NOALERT]
    raises no alert.  On return the transaction id of the thread context
    is unset. *)
Theorem start_returns_alerted (s : Signature) (flags : Z) (alproto : AppProto)
    (alversion r : Z) (rs rs' : RunState) :
  DeStateDetectStartDetection s flags alproto alversion rs = Some (r, rs') →
  ∃ new,
    rs_trace rs' = rs_trace rs ++ new
    ∧ inspector_calls new = []
    ∧ Forall (λ sid, sid = num s) (verdicts new)
    ∧ (has (sig_flags s) SIG_FLAG_NOALERT = true → alerts new = [])
    ∧ ((r = 0 ∧ verdicts new = []) ∨ (r = 1 ∧ verdicts new ≠ []))
    ∧ tx_id (rs_det rs') = 0 ∧ tx_id_set (rs_det rs') = 0.
Proof.
  assert (start_inv s (rs_trace rs) (mkStartLocals 0 0 0) rs) as Hinv0.
  { exists []. rewrite app_nil_r. split; [done|]. split; [done|].
    split; [constructor|]. split; [done|]. by left. }
  assert (∀ loc1 rs1,
            start_inv s (rs_trace rs) loc1 rs1 →
            (if sl_alert_cnt loc1 =? 0 then 0 else 1, driver_end rs1) = (r, rs') →
            ∃ new,
              rs_trace rs' = rs_trace rs ++ new
              ∧ inspector_calls new = []
              ∧ Forall (λ sid, sid = num s) (verdicts new)
              ∧ (has (sig_flags s) SIG_FLAG_NOALERT = true → alerts new = [])
              ∧ ((r = 0 ∧ verdicts new = []) ∨ (r = 1 ∧ verdicts new ≠ []))
              ∧ tx_id (rs_det rs') = 0 ∧ tx_id_set (rs_det rs') = 0) as Hfin.
  { intros loc1 rs1 (new & Htr & Hcalls & Hall & Hno & Hcnt) [= <- <-].
    exists new. simpl. split; [done|]. split; [done|]. split; [done|]. split; [done|].
    split; [|done].
    destruct Hcnt as [[-> Hv]|[-> Hv]]; [by left|by right]. }
  assert (∀ loc1 rs1,
            start_inv s (rs_trace rs) loc1 rs1 →
            (λ r0 : StartLocals * RunState,
               (if sl_alert_cnt r0.1 =? 0 then 0 else 1, driver_end r0.2))
              <$> start_flow_part s flags alproto alversion loc1 rs1 = Some (r, rs') →
            ∃ new,
              rs_trace rs' = rs_trace rs ++ new
              ∧ inspector_calls new = []
              ∧ Forall (λ sid, sid = num s) (verdicts new)
              ∧ (has (sig_flags s) SIG_FLAG_NOALERT = true → alerts new = [])
              ∧ ((r = 0 ∧ verdicts new = []) ∨ (r = 1 ∧ verdicts new ≠ []))
              ∧ tx_id (rs_det rs') = 0 ∧ tx_id_set (rs_det rs') = 0) as Hflow.
  { intros loc1 rs1 Hinv1.
    destruct (start_flow_part _ _ _ _ _ _) as [[loc2 rs2]|] eqn:Hf; [|done].
    simpl. intros [= Hr Hrs]. apply (Hfin loc2 rs2); [|by rewrite <- Hr, <- Hrs].
    by eapply start_flow_part_inv. }
  unfold DeStateDetectStartDetection.
  destruct (AppLayerParserProtocolSupportsTxs _ _).
  - destruct (negb (StateIsValid _ _));
      [intros [= Hr Hrs]; apply (Hfin _ _ Hinv0); by rewrite <- Hr, <- Hrs|].
    destruct (FlowGetAppState _) as [st|];
      [|intros [= Hr Hrs]; apply (Hfin _ _ Hinv0); by rewrite <- Hr, <- Hrs].
    destruct (start_tx_loop _ _ _ _ _ _ _ _ _ _) as [[loc1 rs1]|] eqn:Hl; [|done].
    simpl. apply Hflow. by eapply start_tx_loop_inv.
  - destruct (_ && _).
    + destruct (FlowGetAppState _) as [st|];
        [|intros [= Hr Hrs]; apply (Hfin _ _ Hinv0); by rewrite <- Hr, <- Hrs].
      destruct (start_dce_part _ _ _ _ _ _) as [loc1 rs1] eqn:Hd.
      apply Hflow. unfold start_dce_part in Hd.
      destruct (if is_smb alproto then _ else _).
      * injection Hd as <- <-. by apply (start_inv_alert s _ (mkStartLocals 0 0 0)).
      * by injection Hd as <- <-.
    + by apply Hflow.
Qed.

End ReturnProofs.

(** The method rule on a request line. *)
Lemma start_returns_alerted_witness :
  ∃ new,
    rs_trace after_start_method.2 = rs_trace (run0 (flow_http (st_one 1)) []) ++ new
    ∧ inspector_calls new = []
    ∧ Forall (λ sid, sid = num sig_method) (verdicts new)
    ∧ (has (sig_flags sig_method) SIG_FLAG_NOALERT = true → alerts new = [])
    ∧ ((after_start_method.1 = 0 ∧ verdicts new = [])
       ∨ (after_start_method.1 = 1 ∧ verdicts new ≠ []))
    ∧ tx_id (rs_det after_start_method.2) = 0
    ∧ tx_id_set (rs_det after_start_method.2) = 0.
Proof.
  apply (start_returns_alerted sig_method 4 ALPROTO_HTTP 1 after_start_method.1
           (run0 (flow_http (st_one 1)) []) after_start_method.2).
  vm_compute. reflexivity.
Defined.

(** That call alerts on sid 0 for transaction 0 and returns 1. *)
Example start_method_alerts :
  after_start_method.1 = 1 ∧ alerts (rs_trace after_start_method.2) = [(0, 0)].
Proof. vm_compute. done. Qed.

(** ** Persisting a flow-scoped record *)

Section StoreStateProofs.
Context `{EngineHeader} `{External}.

Lemma elem_of_tail {A} (x : A) (l : list A) : x ∈ tail l → x ∈ l.
Proof. destruct l; [done|]. simpl. by right. Qed.

(** X10.  [StoreState] returns 0 only when the flow had no flow-level state
    and the allocator refused one; the flow is then as before.  In every
    other case it returns 1, the flow has a flow-level state, the
    version of the packet's direction is the one given, so that the
    pre-check for that version answers 2 unless [STREAM_EOF] is set, and
    the record is the last one of the direction's store, unless the
    allocator refused the chunk for it: the version is written and 1 is
    returned all the same.  Nothing is emitted. *)
Theorem StoreState_outcome (flags alversion : Z) (s : Signature) (sm : list SigMatch)
    (iflags : Z) (rs : RunState) :
  wf_store (fdir_store (flow_dir (rs_flow rs) (dir_index flags))) →
  ds_cnt (fdir_store (flow_dir (rs_flow rs) (dir_index flags))) + 1 < 2 ^ SigIntId_bits →
  ∃ r rs' items,
    StoreState flags alversion s sm iflags rs = Some (r, rs')
    ∧ rs_trace rs' = rs_trace rs
    ∧ rs_det rs' = rs_det rs
    ∧ DirStoreItems (fdir_store (flow_dir (rs_flow rs) (dir_index flags))) = Some items
    ∧ ((r = 0 ∧ de_state (rs_flow rs) = None
        ∧ rs_oracle rs = false :: rs_oracle rs' ∧ rs_flow rs' = rs_flow rs)
       ∨ (r = 1 ∧ is_Some (de_state (rs_flow rs'))
          ∧ detect_alversion (rs_flow rs')
            = arr2_set (dir_index flags) alversion (detect_alversion (rs_flow rs))
          ∧ (has flags STREAM_EOF = false →
             ∀ alproto',
               DeStateFlowHasInspectableState (rs_flow rs') alproto' alversion flags = 2)
          ∧ (DirStoreItems (fdir_store (flow_dir (rs_flow rs') (dir_index flags)))
             = Some (items ++ [mkFlowRule sm iflags (num s)])
             ∨ (false ∈ rs_oracle rs
                ∧ DirStoreItems (fdir_store (flow_dir (rs_flow rs') (dir_index flags)))
                  = Some items)))).
Proof.
  intros Hwf Hroom.
  assert (∀ (st : DetectEngineStateFlow) oracle1,
            wf_store (fdir_store (arr2_get (dir_index flags) st)) →
            ds_cnt (fdir_store (arr2_get (dir_index flags) st)) + 1 < 2 ^ SigIntId_bits →
            (false ∈ oracle1 → false ∈ rs_oracle rs) →
            ∃ st' oracle2 items,
              DeStateFlowRuleAppend st s sm iflags flags oracle1 = Some (st', oracle2)
              ∧ DirStoreItems (fdir_store (arr2_get (dir_index flags) st)) = Some items
              ∧ (DirStoreItems (fdir_store (arr2_get (dir_index flags) st'))
                 = Some (items ++ [mkFlowRule sm iflags (num s)])
                 ∨ (false ∈ rs_oracle rs
                    ∧ DirStoreItems (fdir_store (arr2_get (dir_index flags) st'))
                      = Some items))) as Happend.
  { intros st oracle1 Hwf1 Hroom1 Hor. unfold DeStateFlowRuleAppend.
    destruct (StoreAppend_items DeStateStoreFlowRule_zero
                (fdir_store (arr2_get (dir_index flags) st))
                (mkFlowRule sm iflags (num s)) oracle1 Hwf1 Hroom1)
      as (ds' & o' & items & -> & Hwf' & Hitems & Hcase & _).
    cbn [mbind option_bind]. eexists _, _, items. split; [done|]. split; [done|].
    rewrite arr2_get_set. cbn [fdir_store].
    destruct Hcase as [[Hin ->]|[Hnew _]]; [right|by left].
    split; [by apply Hor|done]. }
  assert (∀ st' : DetectEngineStateFlow,
            let f' := DeStateStoreStateVersion
                        (flow_set_de_state (rs_flow rs) (Some st')) alversion flags in
            is_Some (de_state f')
            ∧ detect_alversion f'
              = arr2_set (dir_index flags) alversion (detect_alversion (rs_flow rs))
            ∧ (has flags STREAM_EOF = false →
               ∀ alproto', DeStateFlowHasInspectableState f' alproto' alversion flags = 2)
            ∧ flow_dir f' (dir_index flags) = arr2_get (dir_index flags) st') as Hver.
  { intros st'. simpl. split; [by eexists|]. split; [done|]. split; [|done].
    intros Heof alproto'. unfold DeStateFlowHasInspectableState. simpl.
    by rewrite Heof, arr2_get_set, Z.eqb_refl. }
  unfold StoreState. unfold flow_dir in Hwf, Hroom |- *.
  destruct (de_state (rs_flow rs)) as [st|] eqn:Hde.
  - destruct (Happend st (rs_oracle rs) Hwf Hroom ltac:(done))
      as (st' & o2 & items & -> & Hitems & Hcase).
    cbn [mbind option_bind]. eexists 1, _, items. split; [done|].
    split; [done|]. split; [done|]. split; [done|]. right. split; [done|].
    destruct (Hver st') as (Hs & Hv & Hpre & Hfd). cbn [rs_flow].
    split; [done|]. split; [done|]. split; [done|].
    unfold flow_dir in Hfd. destruct Hs as [d Hd]. rewrite Hd in Hfd |- *.
    by rewrite Hfd.
  - unfold DetectEngineStateFlowAlloc.
    destruct (SCMalloc_cases (rs_oracle rs)) as [[-> Hne]|[-> Heq]].
    + destruct (Happend DetectEngineStateFlow_zero (tail (rs_oracle rs)))
        as (st' & o2 & items & -> & Hitems & Hcase).
      { destruct (dir_index flags) as [|[|?]]; apply wf_store_zero. }
      { by destruct (dir_index flags) as [|[|?]]. }
      { apply elem_of_tail. }
      cbn [mbind option_bind]. eexists 1, _, items. split; [done|].
      split; [done|]. split; [done|].
      split; [by destruct (dir_index flags) as [|[|?]]|]. right. split; [done|].
      destruct (Hver st') as (Hs & Hv & Hpre & Hfd). cbn [rs_flow].
      split; [done|]. split; [done|]. split; [done|].
      unfold flow_dir in Hfd. destruct Hs as [d Hd]. rewrite Hd in Hfd |- *.
      by rewrite Hfd.
    + eexists 0, _, []. split; [done|]. split; [done|]. split; [done|].
      split; [done|]. left. done.
Qed.

End StoreStateProofs.

(** A flow without flow-level state; the allocator grants the state and
    refuses the chunk. *)
Lemma StoreState_outcome_witness :
  ∃ r rs' items,
    StoreState 4 7 sig_flow [] DE_STATE_FLAG_FULL_INSPECT
      (run0 (flow_http (st_two 3 3)) [true; false]) = Some (r, rs')
    ∧ rs_trace rs' = rs_trace (run0 (flow_http (st_two 3 3)) [true; false])
    ∧ rs_det rs' = rs_det (run0 (flow_http (st_two 3 3)) [true; false])
    ∧ DirStoreItems
        (fdir_store (flow_dir (rs_flow (run0 (flow_http (st_two 3 3)) [true; false]))
                       (dir_index 4))) = Some items
    ∧ ((r = 0 ∧ de_state (rs_flow (run0 (flow_http (st_two 3 3)) [true; false])) = None
        ∧ rs_oracle (run0 (flow_http (st_two 3 3)) [true; false]) = false :: rs_oracle rs'
        ∧ rs_flow rs' = rs_flow (run0 (flow_http (st_two 3 3)) [true; false]))
       ∨ (r = 1 ∧ is_Some (de_state (rs_flow rs'))
          ∧ detect_alversion (rs_flow rs')
            = arr2_set (dir_index 4) 7
                (detect_alversion (rs_flow (run0 (flow_http (st_two 3 3)) [true; false])))
          ∧ (has 4 STREAM_EOF = false →
             ∀ alproto', DeStateFlowHasInspectableState (rs_flow rs') alproto' 7 4 = 2)
          ∧ (DirStoreItems (fdir_store (flow_dir (rs_flow rs') (dir_index 4)))
             = Some (items ++ [mkFlowRule [] DE_STATE_FLAG_FULL_INSPECT (num sig_flow)])
             ∨ (false ∈ rs_oracle (run0 (flow_http (st_two 3 3)) [true; false])
                ∧ DirStoreItems (fdir_store (flow_dir (rs_flow rs') (dir_index 4)))
                  = Some items)))).
Proof.
  apply (StoreState_outcome 4 7 sig_flow [] DE_STATE_FLAG_FULL_INSPECT
           (run0 (flow_http (st_two 3 3)) [true; false])).
  - apply wf_store_zero.
  - vm_compute. reflexivity.
Defined.

(** In that run the record is lost, 1 is returned and the pre-check
    reports the state as unchanged. *)
Example StoreState_drops_record :
  ∃ rs',
    StoreState 4 7 sig_flow [] DE_STATE_FLAG_FULL_INSPECT
      (run0 (flow_http (st_two 3 3)) [true; false]) = Some (1, rs')
    ∧ DirStoreItems (fdir_store (flow_dir (rs_flow rs') (dir_index 4))) = Some []
    ∧ DeStateFlowHasInspectableState (rs_flow rs') ALPROTO_HTTP 7 4 = 2.
Proof. eexists. vm_compute. done. Qed.

(** ** The start driver only appends *)

Section AppendOnlyProofs.
Context `{EngineHeader} `{External}.

Lemma StoreStateTx_de_state (flags alversion tx : Z) (t : Tx) (s : Signature)
    (iflags fnm : Z) (rs rs' : RunState) :
  StoreStateTx flags alversion tx t s iflags fnm rs = Some rs' →
  de_state (rs_flow rs') = de_state (rs_flow rs).
Proof.
  unfold StoreStateTx.
  destruct (AppLayerParserSupportsTxDetectState _ _); [|by intros [= <-]].
  destruct (tx_destate_get_or_alloc _ _ _ _) as [[d o1]|]; [|done]. simpl.
  destruct d as [d|]; [|by intros [= <-]].
  destruct (DeStateSignatureAppend _ _ _ _ _) as [[d1 o2]|]; [|done]. simpl.
  destruct (StoreStateTxHandleFiles _ _ _ _ _) as [d2 evs].
  by intros [= <-].
Qed.

Lemma StoreStateTxFileOnly_de_state (flags tx : Z) (t : Tx) (fnm : Z) (rs rs' : RunState) :
  StoreStateTxFileOnly flags tx t fnm rs = Some rs' →
  de_state (rs_flow rs') = de_state (rs_flow rs).
Proof.
  unfold StoreStateTxFileOnly.
  destruct (AppLayerParserSupportsTxDetectState _ _); [|by intros [= <-]].
  destruct (tx_destate_get_or_alloc _ _ _ _) as [[d o1]|]; [|done]. simpl.
  destruct d as [d|]; [|by intros [= <-]].
  destruct (StoreStateTxHandleFiles _ _ _ _ _) as [d2 evs].
  by intros [= <-].
Qed.

Lemma start_tx_body_append (s : Signature) (flags : Z) (alproto : AppProto)
    (alversion : Z) (st : AppState) (total_txs tx : Z) (loc : StartLocals)
    (rs : RunState) :
  (∀ t, al_txs st !! tx = Some t → tx_set_state_err t = false) →
  wf_store (tx_dir_store (rs_flow rs) tx (dir_index flags)) →
  ds_cnt (tx_dir_store (rs_flow rs) tx (dir_index flags)) + 1 < 2 ^ SigIntId_bits →
  ∃ loc' rs' items items',
    start_tx_body s flags alproto alversion st total_txs tx loc rs = Some (loc', rs')
    ∧ (∀ k, k ≠ tx →
         tx_dir_store (rs_flow rs') k (dir_index flags)
         = tx_dir_store (rs_flow rs) k (dir_index flags))
    ∧ DirStoreItems (tx_dir_store (rs_flow rs) tx (dir_index flags)) = Some items
    ∧ DirStoreItems (tx_dir_store (rs_flow rs') tx (dir_index flags)) = Some items'
    ∧ grew_by s items items'
    ∧ de_state (rs_flow rs') = de_state (rs_flow rs).
Proof.
  intros Herr Hwf Hroom. unfold start_tx_body, AppLayerParserGetTx.
  assert (∃ items, DirStoreItems (tx_dir_store (rs_flow rs) tx (dir_index flags))
                   = Some items) as [items Hitems]
    by (rewrite DirStoreItems_wf by done; eauto).
  destruct (al_txs st !! tx) as [t|] eqn:Ht.
  2:{ exists loc, rs, items, items. split; [done|]. split; [done|].
      split; [done|]. split; [done|]. split; [by left|done]. }
  specialize (Herr t eq_refl).
  destruct (start_engine_loop _ _ _ _ _ _ _ _) as [[[engine iflags] total] fnm].
  assert (has (Z.lor iflags DE_STATE_FLAG_FULL_INSPECT) DE_STATE_FLAG_FULL_INSPECT = true)
    as Hfull.
  { unfold DE_STATE_FLAG_FULL_INSPECT.
    by rewrite has_lor, has_bit_bit, bool_decide_eq_true_2, orb_true_r. }
  set (full := is_nil engine && (0 <? total)).
  set (rs1 := if full then alert_or_apply s tx _ _ else _).
  assert (rs_flow rs1 = rs_flow rs) as Hf1.
  { unfold rs1. destruct full; [|done].
    by destruct (rs_flow_alert s tx (Z.lor PACKET_ALERT_FLAG_STATE_MATCH PACKET_ALERT_FLAG_TX)
                   (rs_with_det (det_set_tx tx 1 (rs_det rs)) rs)) as (-> & _). }
  cbv beta iota.
  destruct (full || has iflags DE_STATE_FLAG_SIG_CANT_MATCH) eqn:Hdec.
  2:{ eexists _, rs1, items, items. rewrite Hf1. split; [done|]. split; [done|].
      split; [done|]. split; [done|]. split; [by left|done]. }
  destruct (negb (TxIsLast tx total_txs) || negb _) eqn:Hcond.
  - assert (is_nil engine || has iflags DE_STATE_FLAG_SIG_CANT_MATCH = true) as ->.
    { apply orb_true_iff in Hdec as [Hfm|Hc]; [|by rewrite Hc, orb_true_r].
      unfold full in Hfm. apply andb_true_iff in Hfm as [-> _]. done. }
    destruct (StoreStateTx_store flags alversion tx t s
                (Z.lor iflags DE_STATE_FLAG_FULL_INSPECT) fnm rs1 Herr)
      as (rs' & items0 & Hrun & Hitems0 & Hframe & Hcase & _);
      rewrite ?Hf1; try done.
    rewrite Hrun. cbn [mbind option_bind].
    rewrite Hf1, Hitems in Hitems0. injection Hitems0 as <-.
    rewrite Hf1 in Hframe.
    pose proof (StoreStateTx_de_state _ _ _ _ _ _ _ _ _ Hrun) as Hde.
    rewrite Hf1 in Hde.
    destruct Hcase as [Hsame|Hnew].
    + eexists _, rs', items, items. split; [done|]. split.
      { intros k Hk. apply Hframe; [apply dir_index_lt|by left]. }
      split; [done|]. split; [done|]. split; [by left|done].
    + eexists _, rs', items, _. split; [done|]. split.
      { intros k Hk. apply Hframe; [apply dir_index_lt|by left]. }
      split; [done|]. split; [done|]. split; [|done]. right. by eexists.
  - destruct (StoreStateTxFileOnly_store flags tx t fnm rs1 Herr) as (rs' & Hrun & Hsame).
    rewrite Hrun. cbn [mbind option_bind].
    pose proof (StoreStateTxFileOnly_de_state _ _ _ _ _ _ Hrun) as Hde.
    rewrite Hf1 in Hde.
    eexists _, rs', items, items. split; [done|].
    split; [intros k _; by rewrite Hsame, Hf1|].
    split; [done|]. rewrite Hsame, Hf1. split; [done|]. split; [by left|done].
Qed.

Lemma start_tx_loop_append (s : Signature) (flags : Z) (alproto : AppProto)
    (alversion : Z) (st : AppState) (total_txs : Z) (n : nat) :
  ∀ tx loc rs,
    (∀ k t, al_txs st !! k = Some t → tx_set_state_err t = false) →
    (∀ k, tx ≤ k →
          wf_store (tx_dir_store (rs_flow rs) k (dir_index flags))
          ∧ ds_cnt (tx_dir_store (rs_flow rs) k (dir_index flags)) + 1
            < 2 ^ SigIntId_bits) →
    ∃ loc' rs',
      start_tx_loop n s flags alproto alversion st total_txs tx loc rs = Some (loc', rs')
      ∧ de_state (rs_flow rs') = de_state (rs_flow rs)
      ∧ (∀ k, k < tx →
           tx_dir_store (rs_flow rs') k (dir_index flags)
           = tx_dir_store (rs_flow rs) k (dir_index flags))
      ∧ ∀ k, tx ≤ k → ∃ items items',
          DirStoreItems (tx_dir_store (rs_flow rs) k (dir_index flags)) = Some items
          ∧ DirStoreItems (tx_dir_store (rs_flow rs') k (dir_index flags)) = Some items'
          ∧ grew_by s items items'.
Proof.
  induction n as [|n IH]; intros tx loc rs Herr Hwf.
  { exists loc, rs. split; [done|]. split; [done|]. split; [done|]. intros k Hk.
    destruct (Hwf k Hk) as [Hwfk _].
    eexists _, _. rewrite DirStoreItems_wf by done.
    split; [done|]. split; [done|]. by left. }
  cbn [start_tx_loop].
  destruct (Hwf tx ltac:(lia)) as [Hwft Hroomt].
  destruct (start_tx_body_append s flags alproto alversion st total_txs tx loc rs
              (Herr tx) Hwft Hroomt)
    as (loc1 & rs1 & items & items1 & -> & Hframe & Hitems & Hitems1 & Hgrew & Hde1).
  cbn [mbind option_bind]. cbv beta iota.
  destruct (IH (tx + 1) loc1 rs1 Herr) as (loc' & rs' & -> & Hde' & Hlow & Hhigh).
  { intros k Hk. rewrite (Hframe k) by lia. apply Hwf. lia. }
  exists loc', rs'. split; [done|]. split; [congruence|]. split.
  { intros k Hk. rewrite Hlow by lia. apply Hframe. lia. }
  intros k Hk. destruct (decide (k = tx)) as [->|Hne].
  - exists items, items1. split; [done|]. rewrite Hlow by lia. done.
  - destruct (Hhigh k ltac:(lia)) as (it & it' & Hit & Hit' & Hg).
    rewrite (Hframe k Hne) in Hit. by exists it, it'.
Qed.

Lemma StoreState_total (flags alversion : Z) (s : Signature) (sm : list SigMatch)
    (iflags : Z) (rs : RunState) :
  wf_store (fdir_store (flow_dir (rs_flow rs) (dir_index flags))) →
  ds_cnt (fdir_store (flow_dir (rs_flow rs) (dir_index flags))) + 1 < 2 ^ SigIntId_bits →
  ∃ r rs',
    StoreState flags alversion s sm iflags rs = Some (r, rs')
    ∧ tx_de_state (rs_flow rs') = tx_de_state (rs_flow rs).
Proof.
  intros Hwf Hroom. unfold StoreState, DeStateFlowRuleAppend. unfold flow_dir in Hwf, Hroom.
  destruct (de_state (rs_flow rs)) as [st|].
  - destruct (StoreAppend_step DeStateStoreFlowRule_zero _
                (mkFlowRule sm iflags (num s)) (rs_oracle rs) Hwf Hroom)
      as (ds' & o' & -> & _).
    cbn [mbind option_bind]. by eexists _, _.
  - unfold DetectEngineStateFlowAlloc.
    destruct (SCMalloc_cases (rs_oracle rs)) as [[-> _]|[-> _]]; [|by eexists _, _].
    destruct (StoreAppend_step DeStateStoreFlowRule_zero
                (fdir_store (arr2_get (dir_index flags) DetectEngineStateFlow_zero))
                (mkFlowRule sm iflags (num s)) (tail (rs_oracle rs)))
      as (ds' & o' & -> & _).
    { destruct (dir_index flags) as [|[|?]]; apply wf_store_zero. }
    { by destruct (dir_index flags) as [|[|?]]. }
    cbn [mbind option_bind]. by eexists _, _.
Qed.

Lemma start_flow_part_total (s : Signature) (flags : Z) (alproto : AppProto)
    (alversion : Z) (loc : StartLocals) (rs : RunState) :
  wf_store (fdir_store (flow_dir (rs_flow rs) (dir_index flags))) →
  ds_cnt (fdir_store (flow_dir (rs_flow rs) (dir_index flags))) + 1 < 2 ^ SigIntId_bits →
  ∃ loc' rs',
    start_flow_part s flags alproto alversion loc rs = Some (loc', rs')
    ∧ tx_de_state (rs_flow rs') = tx_de_state (rs_flow rs).
Proof.
  intros Hwf Hroom. unfold start_flow_part.
  destruct (sm_lists s DETECT_SM_LIST_AMATCH) as [|m sm]; [by exists loc, rs|].
  destruct (FlowGetAppState _) as [st|]; [|by exists loc, rs].
  destruct (start_amatch_loop _ _ _ _ _ _ _) as [[sm' match_] iflags].
  set (rs1 := if _ && _ then alert_or_apply _ _ _ _ else rs).
  assert (rs_flow rs1 = rs_flow rs) as Hrs1.
  { unfold rs1. destruct (_ && _); [|done]. by rewrite (proj1 (rs_flow_alert _ _ _ _)). }
  destruct (StoreState_total flags alversion s sm'
              (if is_nil sm' || has iflags DE_STATE_FLAG_SIG_CANT_MATCH
               then Z.lor iflags DE_STATE_FLAG_FULL_INSPECT else iflags) rs1)
    as (r & rs2 & -> & Htx); rewrite ?Hrs1; try done.
  cbn [mbind option_bind]. eexists _, rs2. split; [done|]. by rewrite Htx, Hrs1.
Qed.

(** X11.  The start driver only appends.  On a flow whose stores are well
    formed and below the SigIntId range, and whose transactions accept
    a detect state, a call for [s] completes, and the records of every
    transaction in the packet's slot are afterwards what they were,
    in the same order and unchanged, followed by at most one new record,
    which is for [s] and has FULL_INSPECT; transactions below the
    inspect id are not touched. *)
Theorem start_driver_append_only (s : Signature) (flags : Z) (alproto : AppProto)
    (alversion : Z) (rs : RunState) :
  (∀ st k t, alstate (rs_flow rs) = Some st → al_txs st !! k = Some t →
             tx_set_state_err t = false) →
  (∀ tx, wf_store (tx_dir_store (rs_flow rs) tx (dir_index flags))
         ∧ ds_cnt (tx_dir_store (rs_flow rs) tx (dir_index flags)) + 1
           < 2 ^ SigIntId_bits) →
  wf_store (fdir_store (flow_dir (rs_flow rs) (dir_index flags))) →
  ds_cnt (fdir_store (flow_dir (rs_flow rs) (dir_index flags))) + 1 < 2 ^ SigIntId_bits →
  ∃ r rs',
    DeStateDetectStartDetection s flags alproto alversion rs = Some (r, rs')
    ∧ ∀ tx, ∃ items items',
        DirStoreItems (tx_dir_store (rs_flow rs) tx (dir_index flags)) = Some items
        ∧ DirStoreItems (tx_dir_store (rs_flow rs') tx (dir_index flags)) = Some items'
        ∧ grew_by s items items'
        ∧ (tx < alparser_inspect_id (rs_flow rs) flags → items' = items).
Proof.
  intros Herr Hwf Hwff Hroomf.
  assert (∀ tx, ∃ items, DirStoreItems (tx_dir_store (rs_flow rs) tx (dir_index flags))
                         = Some items) as Hitems.
  { intros tx. destruct (Hwf tx) as [Hwft _]. rewrite DirStoreItems_wf by done. eauto. }
  (* a run that leaves the transactions' stores alone *)
  assert (∀ (r : Z) (rs' : RunState),
            tx_de_state (rs_flow rs') = tx_de_state (rs_flow rs) →
            ∀ tx, ∃ items items',
              DirStoreItems (tx_dir_store (rs_flow rs) tx (dir_index flags)) = Some items
              ∧ DirStoreItems (tx_dir_store (rs_flow rs') tx (dir_index flags))
                = Some items'
              ∧ grew_by s items items'
              ∧ (tx < alparser_inspect_id (rs_flow rs) flags → items' = items)) as Hsame.
  { intros r rs' Htx tx. destruct (Hitems tx) as [items Hi]. exists items, items.
    split; [done|]. unfold tx_dir_store in *. rewrite Htx.
    split; [done|]. split; [by left|done]. }
  unfold DeStateDetectStartDetection.
  destruct (AppLayerParserProtocolSupportsTxs _ _).
  - destruct (negb (StateIsValid _ _)); [eexists _, _; split; [done|]; by apply (Hsame 0)|].
    unfold FlowGetAppState.
    destruct (alstate (rs_flow rs)) as [st|] eqn:Hst;
      [|eexists _, _; split; [done|]; by apply (Hsame 0)].
    destruct (start_tx_loop_append s flags alproto alversion st (AppLayerParserGetTxCnt st)
                (Z.to_nat (AppLayerParserGetTxCnt st - alparser_inspect_id (rs_flow rs) flags))
                (alparser_inspect_id (rs_flow rs) flags) (mkStartLocals 0 0 0) rs
                (λ k t, Herr st k t eq_refl))
      as (loc1 & rs1 & -> & Hde1 & Hlow & Hhigh); [intros k _; apply Hwf|].
    cbn [mbind option_bind]. cbv beta iota.
    destruct (start_flow_part_total s flags alproto alversion loc1 rs1)
      as (loc2 & rs2 & -> & Htx2).
    { unfold flow_dir in *. by rewrite Hde1. }
    { unfold flow_dir in *. by rewrite Hde1. }
    eexists _, _. split; [done|]. intros tx. cbn [fmap option_fmap option_map snd].
    assert (tx_dir_store (rs_flow (driver_end rs2)) tx (dir_index flags)
            = tx_dir_store (rs_flow rs1) tx (dir_index flags)) as ->.
    { unfold tx_dir_store. simpl. by rewrite Htx2. }
    destruct (decide (tx < alparser_inspect_id (rs_flow rs) flags)) as [Hlt|Hge].
    + destruct (Hitems tx) as [items Hi]. exists items, items.
      rewrite Hlow by done. split; [done|]. split; [done|]. split; [by left|done].
    + destruct (Hhigh tx ltac:(lia)) as (items & items' & Hi & Hi' & Hg).
      exists items, items'. split; [done|]. split; [done|]. split; [done|]. lia.
  - destruct (_ && _).
    + destruct (FlowGetAppState _) as [st|];
        [|eexists _, _; split; [done|]; by apply (Hsame 0)].
      destruct (start_dce_part _ _ _ _ _ _) as [loc1 rs1] eqn:Hd.
      assert (rs_flow rs1 = rs_flow rs) as Hf1.
      { unfold start_dce_part in Hd. destruct (if is_smb alproto then _ else _).
        - injection Hd as _ <-. by rewrite (proj1 (rs_flow_alert _ _ _ _)).
        - by injection Hd as _ <-. }
      destruct (start_flow_part_total s flags alproto alversion loc1 rs1)
        as (loc2 & rs2 & -> & Htx2); rewrite ?Hf1; try done.
      eexists _, _. split; [done|]. apply (Hsame 0). simpl. by rewrite Htx2, Hf1.
    + destruct (start_flow_part_total s flags alproto alversion (mkStartLocals 0 0 0) rs
                  Hwff Hroomf) as (loc2 & rs2 & -> & Htx2).
      eexists _, _. split; [done|]. apply (Hsame 0). simpl. by rewrite Htx2.
Qed.

End AppendOnlyProofs.

(** The method rule on a fresh HTTP flow whose request line is in. *)
Lemma start_driver_append_only_witness :
  ∃ r rs',
    DeStateDetectStartDetection sig_method 4 ALPROTO_HTTP 1
      (run0 (flow_http (st_one 1)) []) = Some (r, rs')
    ∧ ∀ tx, ∃ items items',
        DirStoreItems (tx_dir_store (rs_flow (run0 (flow_http (st_one 1)) [])) tx
                         (dir_index 4)) = Some items
        ∧ DirStoreItems (tx_dir_store (rs_flow rs') tx (dir_index 4)) = Some items'
        ∧ grew_by sig_method items items'
        ∧ (tx < alparser_inspect_id (rs_flow (run0 (flow_http (st_one 1)) [])) 4 →
           items' = items).
Proof.
  apply (start_driver_append_only sig_method 4 ALPROTO_HTTP 1
           (run0 (flow_http (st_one 1)) [])).
  - intros st k t [= <-]. simpl.
    destruct (decide (k = 0)) as [->|Hne].
    + rewrite lookup_insert_eq. by intros [= <-].
    + by rewrite lookup_insert_ne, lookup_empty.
  - intros tx. unfold tx_dir_store. simpl. rewrite lookup_empty.
    split; [apply wf_store_zero|vm_compute; reflexivity].
  - apply wf_store_zero.
  - vm_compute. reflexivity.
Defined.

(** That call leaves one record for sid 0 in transaction 0. *)
Example start_method_record :
  DirStoreItems (tx_dir_store (rs_flow after_start_method.2) 0 (dir_index 4))
  = Some [mkItem 0 (Z.lor (bit 9) DE_STATE_FLAG_FULL_INSPECT)].
Proof. vm_compute. done. Qed.

(** ** Resuming the engine walk *)

Section ResumeWalkProofs.
Context `{EngineHeader} `{External}.

(** X12.  The engine walk of [DoInspectItem] on a record with flags [fl] is
    the engine walk of the start driver over the engines whose inspect
    flag is not in [fl]: it stops at the same kind of place (list
    exhausted or not) with the same inspect flags, match count and
    [file_no_match].  Resuming a record is starting over on the engines
    that have not matched yet. *)
Theorem continue_walk_is_start_walk_on_rest
    (engines : list DetectEngineAppInspectionEngine) (fl : Z) (s : Signature)
    (st : AppState) (flags tx : Z) :
  ∀ iflags total fnm,
    let '(e1, i1, t1, f1) := continue_engine_loop engines fl s st flags tx iflags total fnm in
    let '(e2, i2, t2, f2) :=
      start_engine_loop (filter (λ e, has fl (inspect_flags e) = false) engines)
        s st flags tx iflags total fnm in
    is_nil e1 = is_nil e2 ∧ i1 = i2 ∧ t1 = t2 ∧ f1 = f2.
Proof.
  induction engines as [|e next IH]; intros iflags total fnm; [done|].
  cbn [continue_engine_loop]. rewrite filter_cons.
  destruct (has fl (inspect_flags e)) eqn:Hhas.
  - rewrite decide_False by done. cbn [negb andb]. apply IH.
  - rewrite decide_True by done. cbn [negb andb start_engine_loop].
    destruct (sm_lists s (sm_list e)) as [|m sm]; cbn [is_nil negb]; [apply IH|].
    destruct (Callback e s st flags tx); first [apply IH|done].
Qed.

End ResumeWalkProofs.

(** ** The order of the inspector calls *)

Section OrderProofs.
Context `{EngineHeader} `{External}.

Lemma item_call_txs_app (l1 l2 : list Event) :
  item_call_txs (l1 ++ l2) = item_call_txs l1 ++ item_call_txs l2.
Proof. apply omap_app. Qed.

Lemma flow_rule_calls_app (l1 l2 : list Event) :
  flow_rule_calls (l1 ++ l2) = flow_rule_calls l1 ++ flow_rule_calls l2.
Proof. apply omap_app. Qed.

Lemma no_inspector_calls (l : list Event) :
  inspector_calls l = [] → item_call_txs l = [] ∧ flow_rule_calls l = [].
Proof.
  induction l as [|e l IH]; [done|].
  destruct e; simpl; try done; intros Hl; by apply IH.
Qed.

Lemma ascending_snoc (l : list Z) (x : Z) :
  ascending l → Forall (λ y, y ≤ x) l → ascending (l ++ [x]).
Proof.
  induction l as [|y l IH]; simpl; [by repeat constructor|].
  intros [Hy Hl] Hall. apply Forall_cons in Hall as [Hyx Hall].
  split; [|by apply IH]. apply Forall_app. split; [done|]. by repeat constructor.
Qed.

Lemma calls_up_to_weaken (st : AppState) (lo hi hi' : Z) (trace0 trace : list Event) :
  hi ≤ hi' → calls_up_to st lo hi trace0 trace → calls_up_to st lo hi' trace0 trace.
Proof.
  intros Hle (new & Htr & Hfl & Hasc & Hall). exists new.
  split; [done|]. split; [done|]. split; [done|].
  eapply Forall_impl; [exact Hall|]. simpl. intros t (? & ? & ?). split; [lia|done].
Qed.

Lemma inspect_item_body_order (st0 : AppState) (lo : Z) (trace0 : list Event) (dsf : Z)
    (f : Flow) (alproto : AppProto) (flags tx total_txs : Z) (inprog nxt : bool)
    (x x' : DeStateStoreItem) (st st' : Z * DetectEngineThreadCtx * list Event) (r : Z) :
  lo ≤ tx → tx < al_tx_cnt st0 → is_Some (al_txs st0 !! tx) →
  calls_up_to st0 lo tx trace0 st.2 →
  inspect_item_body dsf f alproto flags tx total_txs inprog nxt x st = Some (r, x', st') →
  if r <? 0 then calls_up_to st0 lo tx trace0 st'.2 else calls_up_to st0 lo tx trace0 st'.2.
Proof.
  intros Hlo Hhi Hlive (new & Htr & Hfl & Hasc & Hall) Hrun.
  assert (calls_up_to st0 lo tx trace0 st'.2) as Hpost; [|by destruct (r <? 0)].
  revert Hrun.
  destruct st as [[fnm det] trace]. unfold inspect_item_body.
  destruct (DoInspectItem _ _ _ _ _ _ _ _ _ _ _) as [[[[[r1 x1] fnm1] det1] evs]|] eqn:Hi;
    [|done].
  simpl in *. intros [= _ _ <-]. simpl.
  destruct (DoInspectItem_events _ _ _ _ _ _ _ _ _ _ _ _ _ _ _ _ Hi) as (Hevs & _).
  apply no_inspector_calls in Hevs as [Hi1 Hf1].
  exists (new ++ evs ++ [CallDoInspectItem tx (item_sid x) r1]).
  rewrite Htr, <- app_assoc. split; [done|].
  rewrite !flow_rule_calls_app, !item_call_txs_app, Hfl, Hf1, Hi1. simpl.
  split; [done|]. split.
  - apply ascending_snoc; [done|].
    eapply Forall_impl; [exact Hall|]. simpl. lia.
  - apply Forall_app. split; [done|]. repeat constructor; first [lia|done].
Qed.

Lemma continue_tx_body_order (lo : Z) (trace0 : list Event) (flags : Z)
    (alproto : AppProto) (st : AppState) (total_txs tx : Z) (loc loc' : ContLocals)
    (rs rs' : RunState) (exit : LoopExit) :
  lo ≤ tx → tx < al_tx_cnt st →
  calls_up_to st lo (tx - 1) trace0 (rs_trace rs) →
  continue_tx_body flags alproto st total_txs tx loc rs = Some (exit, loc', rs') →
  calls_up_to st lo tx trace0 (rs_trace rs').
Proof.
  intros Hlo Hhi Hinv. apply (calls_up_to_weaken _ _ _ tx) in Hinv; [|lia].
  unfold continue_tx_body, AppLayerParserGetTx.
  destruct (al_txs st !! tx) as [t|] eqn:Ht; [|by intros [= _ _ <-]].
  destruct (AppLayerParserGetTxDetectState _ _) as [d|]; [|by intros [= _ _ <-]].
  destruct (store_loop _ _ _ _) as [[[[stop store'] sc'] [[fnm det] trace]]|] eqn:Hloop;
    [|done].
  assert (is_Some (al_txs st !! tx)) as Hlive by (by rewrite Ht).
  pose proof (store_loop_rule _
                (λ s : Z * DetectEngineThreadCtx * list Event,
                   calls_up_to st lo tx trace0 s.2)
                (λ s : Z * DetectEngineThreadCtx * list Event,
                   calls_up_to st lo tx trace0 s.2)
                (λ x s r x' s',
                   inspect_item_body_order st lo trace0 _ _ _ _ _ _ _ _ x x' s s' r
                     Hlo Hhi Hlive)
                _ _ _ _ (cl_file_no_match loc, rs_det rs, rs_trace rs) _ _ Hinv Hloop)
    as Hrule.
  assert (calls_up_to st lo tx trace0 trace) as Hpost by (by destruct stop).
  simpl. destruct stop; [by intros [= _ _ <-]|].
  destruct (_ <? _); by intros [= _ _ <-].
Qed.

Lemma continue_tx_loop_order (lo : Z) (trace0 : list Event) (flags : Z)
    (alproto : AppProto) (st : AppState) (total_txs : Z) (n : nat) :
  ∀ tx loc rs (goto_end : bool) loc' rs',
    lo ≤ tx → tx + Z.of_nat n ≤ al_tx_cnt st ∨ n = 0%nat →
    calls_up_to st lo (tx - 1) trace0 (rs_trace rs) →
    continue_tx_loop n flags alproto st total_txs tx loc rs = Some (goto_end, loc', rs') →
    ∃ hi, calls_up_to st lo hi trace0 (rs_trace rs').
Proof.
  induction n as [|n IH]; intros tx loc rs goto_end loc' rs' Hlo Hhi Hinv; simpl.
  { intros [= _ _ <-]. by eexists. }
  destruct Hhi as [Hhi|?]; [|done].
  destruct (continue_tx_body _ _ _ _ _ _ _) as [[[exit loc1] rs1]|] eqn:Hb; [|done].
  apply (continue_tx_body_order lo trace0) in Hb; [|lia|lia|done].
  simpl. destruct exit.
  - apply IH; [lia|left; lia|]. by replace (tx + 1 - 1) with tx by lia.
  - intros [= _ _ <-]. by eexists.
  - intros [= _ _ <-]. by eexists.
Qed.

Lemma inspect_flow_rule_body_order (trace0 : list Event)
    (dsf : Z) (f : Flow) (alproto : AppProto) (flags : Z)
    (x x' : DeStateStoreFlowRule) (st st' : DetectEngineThreadCtx * list Event) (r : Z) :
  (∃ new2, st.2 = trace0 ++ new2 ∧ item_call_txs new2 = []) →
  inspect_flow_rule_body dsf f alproto flags x st = Some (r, x', st') →
  if r <? 0 then ∃ new2, st'.2 = trace0 ++ new2 ∧ item_call_txs new2 = []
  else ∃ new2, st'.2 = trace0 ++ new2 ∧ item_call_txs new2 = [].
Proof.
  intros (new2 & Htr & Hno) Hrun.
  assert (∃ new2, st'.2 = trace0 ++ new2 ∧ item_call_txs new2 = []) as Hpost;
    [|by destruct (r <? 0)].
  revert Hrun. destruct st as [det trace]. unfold inspect_flow_rule_body.
  destruct (DoInspectFlowRule _ _ _ _ _ _) as [[[[r1 x1] det1] evs]|] eqn:Hi; [|done].
  simpl in *. intros [= _ _ <-]. simpl.
  destruct (DoInspectFlowRule_events _ _ _ _ _ _ _ _ _ _ Hi) as (Hevs & _).
  apply no_inspector_calls in Hevs as [Hi1 _].
  exists (new2 ++ evs ++ [CallDoInspectFlowRule (rule_sid x) r1]).
  rewrite Htr, <- app_assoc. split; [done|].
  by rewrite !item_call_txs_app, Hno, Hi1.
Qed.

Lemma continue_flow_part_order (flags : Z) (alproto : AppProto) (alversion : Z)
    (loc : ContLocals) (rs rs' : RunState) :
  continue_flow_part flags alproto alversion loc rs = Some rs' →
  ∃ new2, rs_trace rs' = rs_trace rs ++ new2 ∧ item_call_txs new2 = [].
Proof.
  unfold continue_flow_part.
  destruct (de_state (rs_flow rs)) as [d|].
  2:{ intros [= <-]. exists []. by rewrite app_nil_r. }
  destruct (store_loop _ _ _ _) as [[[[stop store'] sc'] [det trace]]|] eqn:Hloop; [|done].
  assert (∃ new2, rs_trace rs = rs_trace rs ++ new2 ∧ item_call_txs new2 = []) as Hinv
    by (exists []; by rewrite app_nil_r).
  pose proof (store_loop_rule _
                (λ s : DetectEngineThreadCtx * list Event,
                   ∃ new2, s.2 = rs_trace rs ++ new2 ∧ item_call_txs new2 = [])
                (λ s : DetectEngineThreadCtx * list Event,
                   ∃ new2, s.2 = rs_trace rs ++ new2 ∧ item_call_txs new2 = [])
                (λ x s r x' s',
                   inspect_flow_rule_body_order (rs_trace rs) _ _ _ _ x x' s s' r)
                _ _ _ _ (rs_det rs, rs_trace rs) _ _ Hinv Hloop)
    as Hrule.
  assert (∃ new2, trace = rs_trace rs ++ new2 ∧ item_call_txs new2 = []) as Hpost
    by (by destruct stop).
  simpl. destruct stop; by intros [= <-].
Qed.

(** X13.  The order of the inspector calls of one call of the continue driver:
    first the calls to [DoInspectItem], in ascending order of
    transaction, each for a live transaction from the inspect id of the
    direction on and below the transaction count; then the calls to
    [DoInspectFlowRule]; no transactional record is inspected after a
    flow-scoped one. *)
Theorem continue_calls_in_order (flags : Z) (alproto : AppProto) (alversion : Z)
    (rs rs' : RunState) :
  DeStateDetectContinueDetection flags alproto alversion rs = Some rs' →
  ∃ new1 new2,
    rs_trace rs' = rs_trace rs ++ new1 ++ new2
    ∧ flow_rule_calls new1 = []
    ∧ item_call_txs new2 = []
    ∧ ascending (item_call_txs new1)
    ∧ Forall (λ t, alparser_inspect_id (rs_flow rs) flags ≤ t
                   ∧ ∃ st, alstate (rs_flow rs) = Some st
                           ∧ t < al_tx_cnt st ∧ is_Some (al_txs st !! t))
        (item_call_txs new1).
Proof.
  assert (∃ new1 new2,
            rs_trace rs = rs_trace rs ++ new1 ++ new2
            ∧ flow_rule_calls new1 = []
            ∧ item_call_txs new2 = []
            ∧ ascending (item_call_txs new1)
            ∧ Forall (λ t, alparser_inspect_id (rs_flow rs) flags ≤ t
                           ∧ ∃ st, alstate (rs_flow rs) = Some st
                                   ∧ t < al_tx_cnt st ∧ is_Some (al_txs st !! t))
                (item_call_txs new1)) as Hnone.
  { exists [], []. rewrite !app_nil_r. repeat split; by try constructor. }
  unfold DeStateDetectContinueDetection, FlowGetAppState.
  destruct (AppLayerParserProtocolSupportsTxs _ _).
  - destruct (alstate (rs_flow rs)) as [st|] eqn:Hst; [|by intros [= <-]].
    destruct (negb _); [by intros [= <-]|].
    destruct (continue_tx_loop _ _ _ _ _ _ _ _) as [[[goto_end loc1] rs1]|] eqn:Hl;
      [|done].
    assert (∃ hi, calls_up_to st (alparser_inspect_id (rs_flow rs) flags) hi
                    (rs_trace rs) (rs_trace rs1))
      as (hi & new1 & Htr1 & Hfl1 & Hasc1 & Hall1).
    { eapply (continue_tx_loop_order (alparser_inspect_id (rs_flow rs) flags)
                (rs_trace rs)); [| | |exact Hl].
      - lia.
      - unfold AppLayerParserGetTxCnt. lia.
      - exists []. rewrite app_nil_r. repeat split; by try constructor. }
    assert (Forall (λ t, alparser_inspect_id (rs_flow rs) flags ≤ t
                         ∧ ∃ st0, Some st = Some st0
                                  ∧ t < al_tx_cnt st0 ∧ is_Some (al_txs st0 !! t))
              (item_call_txs new1)) as Hall1'.
    { eapply Forall_impl; [exact Hall1|]. simpl. intros t (? & ? & ?).
      split; [lia|]. by exists st. }
    simpl. destruct goto_end.
    + intros [= <-]. exists new1, []. simpl. by rewrite app_nil_r.
    + destruct (continue_flow_part _ _ _ _ _) as [rs2|] eqn:Hf; [|done].
      simpl. intros [= <-]. simpl.
      apply continue_flow_part_order in Hf as (new2 & Htr2 & Hno2).
      exists new1, new2. by rewrite Htr2, Htr1, <- app_assoc.
  - destruct (continue_flow_part _ _ _ _ _) as [rs2|] eqn:Hf; [|done].
    simpl. intros [= <-]. simpl.
    apply continue_flow_part_order in Hf as (new2 & Htr2 & Hno2).
    exists [], new2. simpl. repeat split; by try constructor.
Qed.

End OrderProofs.

(** The to-server continue call on [flow_half_matched]. *)
Lemma continue_calls_in_order_witness :
  ∃ new1 new2,
    rs_trace after_half_matched = rs_trace (run0 flow_half_matched []) ++ new1 ++ new2
    ∧ flow_rule_calls new1 = []
    ∧ item_call_txs new2 = []
    ∧ ascending (item_call_txs new1)
    ∧ Forall (λ t, alparser_inspect_id (rs_flow (run0 flow_half_matched [])) 4 ≤ t
                   ∧ ∃ st, alstate (rs_flow (run0 flow_half_matched [])) = Some st
                           ∧ t < al_tx_cnt st ∧ is_Some (al_txs st !! t))
        (item_call_txs new1).
Proof.
  apply (continue_calls_in_order 4 ALPROTO_HTTP 1 (run0 flow_half_matched [])
           after_half_matched).
  vm_compute. reflexivity.
Defined.

(** ** Marking records for the prefilter *)

Section MarkProofs.
Context `{EngineHeader} `{External}.

Lemma call_sids_app (l1 l2 : list Event) :
  call_sids (l1 ++ l2) = call_sids l1 ++ call_sids l2.
Proof. apply omap_app. Qed.

Lemma no_flow_rule_call (l : list Event) (sid r : Z) :
  inspector_calls l = [] → CallDoInspectFlowRule sid r ∉ l.
Proof.
  induction l as [|e l IH]; [intros _ Hin; by apply elem_of_nil in Hin|].
  intros Hl Hin. apply elem_of_cons in Hin as [<-|Hin]; [done|].
  destruct e; simpl in Hl; try done; by apply IH.
Qed.

(** One inspector call: [det'] has at most the entry of [sid] set to
    NO_NEW_STATE on top of [det]. *)
Lemma marks_step (det0 : DetectEngineThreadCtx) (trace0 : list Event)
    (det det' : DetectEngineThreadCtx) (trace evs : list Event) (e : Event) (sid : Z) :
  marks_inv det0 trace0 det trace →
  inspector_calls evs = [] →
  call_sids [e] = [sid] →
  sgh_filestore_cnt det' = sgh_filestore_cnt det →
  (de_state_sig_array det' = de_state_sig_array det
   ∨ de_state_sig_array det'
     = <[sid := DE_STATE_MATCH_NO_NEW_STATE]> (de_state_sig_array det)) →
  (∀ sid' r,
     e = CallDoInspectFlowRule sid' r → 0 ≤ r →
     (r = 0
      ∨ ∃ s, sig_array !! sid' = Some s ∧ sm_lists s DETECT_SM_LIST_AMATCH ≠ []) →
     de_state_sig_array det'
     = <[sid := DE_STATE_MATCH_NO_NEW_STATE]> (de_state_sig_array det)) →
  marks_inv det0 trace0 det' (trace ++ evs ++ [e]).
Proof.
  intros (new & Htr & Hsgh & Hany & Hflow) Hevs He Hsgh' Harr Hmark.
  assert (sid ∈ call_sids (new ++ evs ++ [e])) as Hsid.
  { rewrite !call_sids_app, He. apply elem_of_app. right. apply elem_of_app. right.
    by apply list_elem_of_singleton. }
  assert (∀ sid0, sid0 ∈ call_sids new → sid0 ∈ call_sids (new ++ evs ++ [e]))
    as Hmono.
  { intros sid0 Hin. rewrite call_sids_app. apply elem_of_app. by left. }
  assert (∀ sid0,
            de_state_sig_array det !! sid0 = Some DE_STATE_MATCH_NO_NEW_STATE →
            de_state_sig_array det' !! sid0 = Some DE_STATE_MATCH_NO_NEW_STATE) as Hkeep.
  { intros sid0 Hm. destruct Harr as [->| ->]; [done|].
    destruct (decide (sid = sid0)) as [->|Hne].
    - by rewrite lookup_insert_eq.
    - by rewrite lookup_insert_ne. }
  exists (new ++ evs ++ [e]). rewrite Htr, <- app_assoc.
  split; [done|]. split; [congruence|]. split.
  - intros sid0. destruct Harr as [->| ->].
    + destruct (Hany sid0) as [Hsame|[Hm Hin]]; [by left|right]. split; [done|by apply Hmono].
    + destruct (decide (sid = sid0)) as [->|Hne].
      * right. by rewrite lookup_insert_eq.
      * rewrite lookup_insert_ne by done.
        destruct (Hany sid0) as [Hsame|[Hm Hin]]; [by left|right].
        split; [done|by apply Hmono].
  - intros sid' r Hin Hr Hwhy.
    apply elem_of_app in Hin as [Hin|Hin]; [by apply Hkeep, (Hflow sid' r)|].
    apply elem_of_app in Hin as [Hin|Hin]; [by apply no_flow_rule_call in Hin|].
    apply list_elem_of_singleton in Hin. subst e.
    simpl in He. injection He as <-.
    rewrite (Hmark sid' r eq_refl Hr Hwhy). by rewrite lookup_insert_eq.
Qed.

Lemma DoInspectItem_engines_marks (s : Signature) (item : DeStateStoreItem) (fl : Z)
    (f : Flow) (alproto : AppProto) (flags tx total_txs fnm : Z)
    (det : DetectEngineThreadCtx) :
  let det' := (DoInspectItem_engines s item fl f alproto flags tx total_txs fnm det).1.2 in
  sgh_filestore_cnt det' = sgh_filestore_cnt det
  ∧ (de_state_sig_array det' = de_state_sig_array det
     ∨ de_state_sig_array det'
       = <[item_sid item := DE_STATE_MATCH_NO_NEW_STATE]> (de_state_sig_array det)).
Proof.
  unfold DoInspectItem_engines.
  destruct (FlowGetAppState f) as [st|]; [|by split; [|left]].
  destruct (negb _); [by split; [|left]|].
  destruct (AppLayerParserGetTx st tx); [|by split; [|left]].
  destruct (continue_engine_loop _ _ _ _ _ _ _ _ _) as [[[e i] tm] n].
  simpl. destruct (TxIsLast tx total_txs); simpl; split; auto.
Qed.

Lemma DoInspectItem_marks (item item' : DeStateStoreItem) (dsf : Z) (f : Flow)
    (alproto : AppProto) (flags tx total_txs fnm fnm' r : Z) (inprog nxt : bool)
    (det det' : DetectEngineThreadCtx) (evs : list Event) :
  DoInspectItem item dsf f alproto flags tx total_txs fnm inprog nxt det
  = Some (r, item', fnm', det', evs) →
  sgh_filestore_cnt det' = sgh_filestore_cnt det
  ∧ (de_state_sig_array det' = de_state_sig_array det
     ∨ de_state_sig_array det'
       = <[item_sid item := DE_STATE_MATCH_NO_NEW_STATE]> (de_state_sig_array det)).
Proof.
  unfold DoInspectItem.
  destruct (sig_array !! item_sid item) as [s|]; [|done]. cbn [mbind option_bind].
  assert (∀ fl, let res : ItemResult :=
                  (0, item_with_flags item fl, fnm,
                   (if TxIsLast tx total_txs || inprog || nxt
                    then mark_no_new_state (item_sid item) det else det), []) in
                sgh_filestore_cnt res.1.2 = sgh_filestore_cnt det
                ∧ (de_state_sig_array res.1.2 = de_state_sig_array det
                   ∨ de_state_sig_array res.1.2
                     = <[item_sid item := DE_STATE_MATCH_NO_NEW_STATE]>
                         (de_state_sig_array det))) as Hleave.
  { intros fl. simpl. destruct (_ || _); simpl; split; auto. }
  assert (∀ fl (res : ItemResult),
            res = (if has fl DE_STATE_FLAG_SIG_CANT_MATCH
                   then match reopen_cant_match fl dsf flags with
                        | Some fl' =>
                            DoInspectItem_engines s item fl' f alproto flags tx total_txs
                              fnm det
                        | None =>
                            (0, item_with_flags item fl, fnm,
                             (if TxIsLast tx total_txs || inprog || nxt
                              then mark_no_new_state (item_sid item) det else det), [])
                        end
                   else DoInspectItem_engines s item fl f alproto flags tx total_txs
                          fnm det) →
            sgh_filestore_cnt res.1.2 = sgh_filestore_cnt det
            ∧ (de_state_sig_array res.1.2 = de_state_sig_array det
               ∨ de_state_sig_array res.1.2
                 = <[item_sid item := DE_STATE_MATCH_NO_NEW_STATE]>
                     (de_state_sig_array det))) as Hafter.
  { intros fl res ->. destruct (has fl DE_STATE_FLAG_SIG_CANT_MATCH).
    - destruct (reopen_cant_match fl dsf flags) as [fl'|].
      + apply DoInspectItem_engines_marks.
      + apply Hleave.
    - apply DoInspectItem_engines_marks. }
  destruct (has (item_flags item) DE_STATE_FLAG_FULL_INSPECT).
  - destruct (has (reopen_full_inspect _ _ _) DE_STATE_FLAG_FULL_INSPECT).
    + intros [= _ _ _ <- _]. apply (Hleave (reopen_full_inspect (item_flags item) dsf flags)).
    + intros [= Hres].
      change det' with ((r, item', fnm', det', evs) : ItemResult).1.2.
      by apply (Hafter (reopen_full_inspect (item_flags item) dsf flags)).
  - intros [= Hres].
    change det' with ((r, item', fnm', det', evs) : ItemResult).1.2.
    by apply (Hafter (item_flags item)).
Qed.

Lemma DoInspectFlowRule_marks (item item' : DeStateStoreFlowRule) (dsf : Z) (f : Flow)
    (alproto : AppProto) (flags r : Z) (det det' : DetectEngineThreadCtx)
    (evs : list Event) :
  DoInspectFlowRule item dsf f alproto flags det = Some (r, item', det', evs) →
  sgh_filestore_cnt det' = sgh_filestore_cnt det
  ∧ (de_state_sig_array det' = de_state_sig_array det
     ∨ de_state_sig_array det'
       = <[rule_sid item := DE_STATE_MATCH_NO_NEW_STATE]> (de_state_sig_array det))
  ∧ (0 ≤ r →
     (r = 0 ∨ ∃ s, sig_array !! rule_sid item = Some s
                   ∧ sm_lists s DETECT_SM_LIST_AMATCH ≠ []) →
     de_state_sig_array det'
     = <[rule_sid item := DE_STATE_MATCH_NO_NEW_STATE]> (de_state_sig_array det)).
Proof.
  unfold DoInspectFlowRule.
  destruct (has (rule_flags item) _).
  { intros [= _ _ <- _]. simpl. split; [done|]. split; [by right|done]. }
  destruct (sig_array !! rule_sid item) as [s|] eqn:Hs; [|done]. cbn [mbind option_bind].
  assert (let amatch := negb (is_nil (sm_lists s DETECT_SM_LIST_AMATCH)) in
            let det1 := if amatch then mark_no_new_state (rule_sid item) det else det in
            sgh_filestore_cnt det1 = sgh_filestore_cnt det
            ∧ (de_state_sig_array det1 = de_state_sig_array det
               ∨ de_state_sig_array det1
                 = <[rule_sid item := DE_STATE_MATCH_NO_NEW_STATE]> (de_state_sig_array det))
            ∧ ((1 = 0 ∨ ∃ s0, Some s = Some s0
                              ∧ sm_lists s0 DETECT_SM_LIST_AMATCH ≠ []) →
               de_state_sig_array det1
               = <[rule_sid item := DE_STATE_MATCH_NO_NEW_STATE]>
                   (de_state_sig_array det))) as Hone.
  { simpl.
    destruct (sm_lists s DETECT_SM_LIST_AMATCH) as [|m l] eqn:Hl; simpl.
    - split; [done|]. split; [by left|].
      intros [?|(s0 & [= <-] & Hne)]; [done|]. by rewrite Hl in Hne.
    - split; [done|]. split; [by right|done]. }
  destruct (rule_nm item) as [|m nm].
  - intros [= <- _ <- _]. destruct Hone as (? & ? & ?). split; [done|].
    split; [done|]. auto.
  - destruct (FlowGetAppState f) as [st|].
    + destruct (continue_amatch_loop _ _ _ _ _ _ _) as [[sm iflags] total].
      intros [= <- _ <- _]. destruct Hone as (? & ? & ?).
      split; [done|]. split; [done|]. auto.
    + intros [= <- _ <- _]. split; [done|]. split; [by left|]. lia.
Qed.

Lemma inspect_item_body_marks (det0 : DetectEngineThreadCtx) (trace0 : list Event)
    (dsf : Z) (f : Flow) (alproto : AppProto) (flags tx total_txs : Z) (inprog nxt : bool)
    (x x' : DeStateStoreItem) (st st' : Z * DetectEngineThreadCtx * list Event) (r : Z) :
  marks_inv det0 trace0 st.1.2 st.2 →
  inspect_item_body dsf f alproto flags tx total_txs inprog nxt x st = Some (r, x', st') →
  if r <? 0 then marks_inv det0 trace0 st'.1.2 st'.2
  else marks_inv det0 trace0 st'.1.2 st'.2.
Proof.
  intros Hinv Hrun.
  assert (marks_inv det0 trace0 st'.1.2 st'.2) as Hpost; [|by destruct (r <? 0)].
  revert Hrun. destruct st as [[fnm det] trace]. unfold inspect_item_body.
  destruct (DoInspectItem _ _ _ _ _ _ _ _ _ _ _) as [[[[[r1 x1] fnm1] det1] evs]|] eqn:Hi;
    [|done].
  simpl in *. intros [= _ _ <-]. simpl.
  destruct (DoInspectItem_events _ _ _ _ _ _ _ _ _ _ _ _ _ _ _ _ Hi) as (Hevs & _).
  destruct (DoInspectItem_marks _ _ _ _ _ _ _ _ _ _ _ _ _ _ _ _ Hi) as (Hsgh & Harr).
  by eapply (marks_step det0 trace0 det det1 trace evs _ (item_sid x)).
Qed.

Lemma inspect_flow_rule_body_marks (det0 : DetectEngineThreadCtx) (trace0 : list Event)
    (dsf : Z) (f : Flow) (alproto : AppProto) (flags : Z)
    (x x' : DeStateStoreFlowRule) (st st' : DetectEngineThreadCtx * list Event) (r : Z) :
  marks_inv det0 trace0 st.1 st.2 →
  inspect_flow_rule_body dsf f alproto flags x st = Some (r, x', st') →
  if r <? 0 then marks_inv det0 trace0 st'.1 st'.2 else marks_inv det0 trace0 st'.1 st'.2.
Proof.
  intros Hinv Hrun.
  assert (marks_inv det0 trace0 st'.1 st'.2) as Hpost; [|by destruct (r <? 0)].
  revert Hrun. destruct st as [det trace]. unfold inspect_flow_rule_body.
  destruct (DoInspectFlowRule _ _ _ _ _ _) as [[[[r1 x1] det1] evs]|] eqn:Hi; [|done].
  simpl in *. intros [= _ _ <-]. simpl.
  destruct (DoInspectFlowRule_events _ _ _ _ _ _ _ _ _ _ Hi) as (Hevs & _).
  destruct (DoInspectFlowRule_marks _ _ _ _ _ _ _ _ _ _ Hi) as (Hsgh & Harr & Hmark).
  eapply (marks_step det0 trace0 det det1 trace evs _ (rule_sid x)); try done.
  intros sid' r' [= <- <-]. apply Hmark.
Qed.

Lemma continue_tx_body_marks (det0 : DetectEngineThreadCtx) (trace0 : list Event)
    (flags : Z) (alproto : AppProto) (st : AppState) (total_txs tx : Z)
    (loc loc' : ContLocals) (rs rs' : RunState) (exit : LoopExit) :
  marks_inv det0 trace0 (rs_det rs) (rs_trace rs) →
  continue_tx_body flags alproto st total_txs tx loc rs = Some (exit, loc', rs') →
  marks_inv det0 trace0 (rs_det rs') (rs_trace rs').
Proof.
  intros Hinv. unfold continue_tx_body.
  destruct (AppLayerParserGetTx st tx) as [t|]; [|by intros [= _ _ <-]].
  destruct (AppLayerParserGetTxDetectState _ _) as [d|]; [|by intros [= _ _ <-]].
  destruct (store_loop _ _ _ _) as [[[[stop store'] sc'] [[fnm det] trace]]|] eqn:Hloop;
    [|done].
  pose proof (store_loop_rule _
                (λ s : Z * DetectEngineThreadCtx * list Event,
                   marks_inv det0 trace0 s.1.2 s.2)
                (λ s : Z * DetectEngineThreadCtx * list Event,
                   marks_inv det0 trace0 s.1.2 s.2)
                (λ x s r x' s',
                   inspect_item_body_marks det0 trace0 _ _ _ _ _ _ _ _ x x' s s' r)
                _ _ _ _ (cl_file_no_match loc, rs_det rs, rs_trace rs) _ _ Hinv Hloop)
    as Hrule.
  assert (marks_inv det0 trace0 det trace) as Hpost by (by destruct stop).
  simpl. destruct stop; [by intros [= _ _ <-]|].
  destruct (_ <? _); by intros [= _ _ <-].
Qed.

Lemma continue_tx_loop_marks (det0 : DetectEngineThreadCtx) (trace0 : list Event)
    (flags : Z) (alproto : AppProto) (st : AppState) (total_txs : Z) (n : nat) :
  ∀ tx loc rs (goto_end : bool) loc' rs',
    marks_inv det0 trace0 (rs_det rs) (rs_trace rs) →
    continue_tx_loop n flags alproto st total_txs tx loc rs = Some (goto_end, loc', rs') →
    marks_inv det0 trace0 (rs_det rs') (rs_trace rs').
Proof.
  induction n as [|n IH]; intros tx loc rs goto_end loc' rs' Hinv; simpl.
  { by intros [= _ _ <-]. }
  destruct (continue_tx_body _ _ _ _ _ _ _) as [[[exit loc1] rs1]|] eqn:Hb; [|done].
  apply (continue_tx_body_marks det0 trace0) in Hb; [|done].
  simpl. destruct exit.
  - by apply IH.
  - by intros [= _ _ <-].
  - by intros [= _ _ <-].
Qed.

Lemma continue_flow_part_marks (det0 : DetectEngineThreadCtx) (trace0 : list Event)
    (flags : Z) (alproto : AppProto) (alversion : Z) (loc : ContLocals)
    (rs rs' : RunState) :
  marks_inv det0 trace0 (rs_det rs) (rs_trace rs) →
  continue_flow_part flags alproto alversion loc rs = Some rs' →
  marks_inv det0 trace0 (rs_det rs') (rs_trace rs').
Proof.
  intros Hinv. unfold continue_flow_part.
  destruct (de_state (rs_flow rs)) as [d|]; [|by intros [= <-]].
  destruct (store_loop _ _ _ _) as [[[[stop store'] sc'] [det trace]]|] eqn:Hloop; [|done].
  pose proof (store_loop_rule _
                (λ s : DetectEngineThreadCtx * list Event, marks_inv det0 trace0 s.1 s.2)
                (λ s : DetectEngineThreadCtx * list Event, marks_inv det0 trace0 s.1 s.2)
                (λ x s r x' s',
                   inspect_flow_rule_body_marks det0 trace0 _ _ _ _ x x' s s' r)
                _ _ _ _ (rs_det rs, rs_trace rs) _ _ Hinv Hloop)
    as Hrule.
  assert (marks_inv det0 trace0 det trace) as Hpost by (by destruct stop).
  simpl. destruct stop; by intros [= <-].
Qed.

(** X14.  What the continue driver does to [det_ctx->de_state_sig_array],
    the array the prefilter reads: across a call, an entry is as it was,
    or it is NO_NEW_STATE and is the entry of a record an inspector was
    called on in this call; and every flow-scoped record whose inspector
    did not fail, and returned 0 or belongs to a signature with
    app-layer keywords, has its entry at NO_NEW_STATE on return. *)
Theorem continue_marks_no_new_state (flags : Z) (alproto : AppProto) (alversion : Z)
    (rs rs' : RunState) :
  DeStateDetectContinueDetection flags alproto alversion rs = Some rs' →
  marks_inv (rs_det rs) (rs_trace rs) (rs_det rs') (rs_trace rs').
Proof.
  assert (marks_inv (rs_det rs) (rs_trace rs) (rs_det rs) (rs_trace rs)) as Hinv0.
  { exists []. rewrite app_nil_r. split; [done|]. split; [done|]. split; [by left|].
    intros sid r Hin. by apply elem_of_nil in Hin. }
  assert (∀ rs1 : RunState,
            marks_inv (rs_det rs) (rs_trace rs) (rs_det rs1) (rs_trace rs1) →
            marks_inv (rs_det rs) (rs_trace rs) (rs_det (driver_end rs1))
              (rs_trace (driver_end rs1))) as Hend.
  { intros rs1 Hinv. exact Hinv. }
  unfold DeStateDetectContinueDetection.
  destruct (AppLayerParserProtocolSupportsTxs _ _).
  - destruct (FlowGetAppState _) as [st|]; [|by intros [= <-]].
    destruct (negb _); [by intros [= <-]|].
    destruct (continue_tx_loop _ _ _ _ _ _ _ _) as [[[goto_end loc1] rs1]|] eqn:Hl;
      [|done].
    apply (continue_tx_loop_marks (rs_det rs) (rs_trace rs)) in Hl; [|done].
    simpl. destruct goto_end; [intros [= <-]; by apply Hend|].
    destruct (continue_flow_part _ _ _ _ _) as [rs2|] eqn:Hf; [|done].
    simpl. intros [= <-]. apply Hend.
    by eapply continue_flow_part_marks.
  - destruct (continue_flow_part _ _ _ _ _) as [rs2|] eqn:Hf; [|done].
    simpl. intros [= <-]. apply Hend.
    by eapply continue_flow_part_marks.
Qed.

End MarkProofs.

(** The to-server continue call on [flow_with_rules]. *)
Lemma continue_marks_no_new_state_witness :
  marks_inv (rs_det (run0 flow_with_rules [])) (rs_trace (run0 flow_with_rules []))
    (rs_det after_flow_rules) (rs_trace after_flow_rules).
Proof.
  apply (continue_marks_no_new_state 4 ALPROTO_HTTP 7 (run0 flow_with_rules [])
           after_flow_rules).
  vm_compute. reflexivity.
Defined.

(** In that call sid 2 is marked. *)
Example flow_rules_marked :
  de_state_sig_array (rs_det after_flow_rules) !! 2 = Some DE_STATE_MATCH_NO_NEW_STATE.
Proof. vm_compute. done. Qed.

(** ** Freeing a state *)

Section FreeProofs.
Context `{EngineHeader}.

Lemma free_stores_wf {A} (slot : nat) (ds : DirStore A) :
  wf_store ds →
  free_stores slot ds = Some (SCFree_store slot <$> seq 0 (length (ds_heap ds))).
Proof.
  intros [Hc Hh _ _ _ _]. unfold free_stores. rewrite Hh.
  destruct (decide (length (ds_heap ds) = 0%nat)) as [Hz|Hnz].
  - rewrite Hz. done.
  - rewrite (chain_canon _ _ 0 Hc) by lia. by rewrite Nat.sub_0_r.
Qed.

Lemma SCFree_store_inj (slot : nat) : Inj eq eq (SCFree_store slot).
Proof. by intros a b [= ->]. Qed.

Lemma free_list_spec (n0 n1 : nat) :
  let frees :=
    (SCFree_store 0 <$> seq 0 n0) ++ (SCFree_store 1 <$> seq 0 n1) ++ [SCFree_state] in
  NoDup frees
  ∧ length frees = (n0 + n1 + 1)%nat
  ∧ last frees = Some SCFree_state
  ∧ (∀ a, (a < n0)%nat → SCFree_store 0 a ∈ frees)
  ∧ (∀ a, (a < n1)%nat → SCFree_store 1 a ∈ frees).
Proof.
  simpl. split; [|split; [|split; [|split]]].
  - apply NoDup_app. split; [|split].
    + apply (NoDup_fmap_2 _ (Inj0 := SCFree_store_inj 0)), NoDup_seq.
    + intros x Hx Hin. apply list_elem_of_fmap in Hx as (a & -> & _).
      apply elem_of_app in Hin as [Hin|Hin].
      * by apply list_elem_of_fmap in Hin as (b & [=] & _).
      * by apply list_elem_of_singleton in Hin.
    + apply NoDup_app. split; [|split].
      * apply (NoDup_fmap_2 _ (Inj0 := SCFree_store_inj 1)), NoDup_seq.
      * intros x Hx Hin. apply list_elem_of_fmap in Hx as (a & -> & _).
        by apply list_elem_of_singleton in Hin.
      * apply NoDup_singleton.
  - rewrite !length_app, !length_fmap, !length_seq. simpl. lia.
  - by rewrite app_assoc, last_snoc.
  - intros a Ha. apply elem_of_app. left. apply list_elem_of_fmap. exists a.
    split; [done|]. apply elem_of_seq. lia.
  - intros a Ha. apply elem_of_app. right. apply elem_of_app. left.
    apply list_elem_of_fmap. exists a. split; [done|]. apply elem_of_seq. lia.
Qed.

(** X15.  On a state whose stores are well formed, [DetectEngineStateFree]
    and [DetectEngineStateFlowFree] return, and free every chunk of
    both directions exactly once and then the state itself: no chunk is
    left, none is freed twice, whatever the record counters are (the
    chunks a reset has emptied are freed as well). *)
Theorem free_releases_every_chunk :
  (∀ state : DetectEngineState,
     (∀ i, (i < 2)%nat → wf_store (dir_store (arr2_get i state))) →
     ∃ frees,
       DetectEngineStateFree state = Some frees
       ∧ NoDup frees
       ∧ length frees
         = (length (ds_heap (dir_store (arr2_get 0 state)))
            + length (ds_heap (dir_store (arr2_get 1 state))) + 1)%nat
       ∧ last frees = Some SCFree_state
       ∧ ∀ i a, (i < 2)%nat →
           (a < length (ds_heap (dir_store (arr2_get i state))))%nat →
           SCFree_store i a ∈ frees)
  ∧ (∀ state : DetectEngineStateFlow,
       (∀ i, (i < 2)%nat → wf_store (fdir_store (arr2_get i state))) →
       ∃ frees,
         DetectEngineStateFlowFree state = Some frees
         ∧ NoDup frees
         ∧ length frees
           = (length (ds_heap (fdir_store (arr2_get 0 state)))
              + length (ds_heap (fdir_store (arr2_get 1 state))) + 1)%nat
         ∧ last frees = Some SCFree_state
         ∧ ∀ i a, (i < 2)%nat →
             (a < length (ds_heap (fdir_store (arr2_get i state))))%nat →
             SCFree_store i a ∈ frees).
Proof.
  split.
  - intros state Hwf. unfold DetectEngineStateFree.
    rewrite !free_stores_wf by (apply Hwf; lia). cbn [mbind option_bind].
    eexists. split; [done|].
    destruct (free_list_spec (length (ds_heap (dir_store (arr2_get 0 state))))
                (length (ds_heap (dir_store (arr2_get 1 state)))))
      as (Hnd & Hlen & Hlast & H0 & H1).
    split; [done|]. split; [done|]. split; [done|].
    intros i a Hi Ha. destruct i as [|[|i]]; [by apply H0|by apply H1|lia].
  - intros state Hwf. unfold DetectEngineStateFlowFree.
    rewrite !free_stores_wf by (apply Hwf; lia). cbn [mbind option_bind].
    eexists. split; [done|].
    destruct (free_list_spec (length (ds_heap (fdir_store (arr2_get 0 state))))
                (length (ds_heap (fdir_store (arr2_get 1 state)))))
      as (Hnd & Hlen & Hlast & H0 & H1).
    split; [done|]. split; [done|]. split; [done|].
    intros i a Hi Ha. destruct i as [|[|i]]; [by apply H0|by apply H1|lia].
Qed.

End FreeProofs.

Lemma wf_state_half_matched (i : nat) :
  (i < 2)%nat → wf_store (dir_store (arr2_get i state_half_matched)).
Proof.
  intros Hi. destruct i as [|[|i]]; [|apply wf_store_zero|lia].
  exact (wf_flow_half_matched 0).
Qed.

(** The state of [flow_half_matched]: one chunk in the to-server slot. *)
Lemma free_releases_every_chunk_witness :
  ∃ frees,
    DetectEngineStateFree state_half_matched = Some frees
    ∧ NoDup frees
    ∧ length frees
      = (length (ds_heap (dir_store (arr2_get 0 state_half_matched)))
         + length (ds_heap (dir_store (arr2_get 1 state_half_matched))) + 1)%nat
    ∧ last frees = Some SCFree_state
    ∧ ∀ i a, (i < 2)%nat →
        (a < length (ds_heap (dir_store (arr2_get i state_half_matched))))%nat →
        SCFree_store i a ∈ frees.
Proof.
  apply (proj1 free_releases_every_chunk). exact wf_state_half_matched.
Defined.

Example free_half_matched :
  DetectEngineStateFree state_half_matched = Some [SCFree_store 0 0; SCFree_state].
Proof. vm_compute. done. Qed.

(** ** The file-store flag *)

Section FileFlagProofs.
Context `{EngineHeader} `{External}.

Lemma has_lor_self (x : Z) (k : nat) : has (Z.lor x (bit k)) (bit k) = true.
Proof. by rewrite has_lor, has_bit_bit, bool_decide_eq_true_2, orb_true_r. Qed.

Lemma lor_lor_same (x y : Z) : Z.lor (Z.lor x y) y = Z.lor x y.
Proof. by rewrite <- Z.lor_assoc, Z.lor_diag. Qed.

Lemma has_lor_keep (x y m : Z) : has x m = true → has (Z.lor x y) m = true.
Proof.
  unfold has. rewrite !negb_true_iff, !Z.eqb_neq. intros Hx Hz. apply Hx.
  apply Z.bits_inj'. intros n Hn. rewrite Z.bits_0.
  apply (f_equal (λ z, Z.testbit z n)) in Hz.
  rewrite Z.land_spec, Z.lor_spec, Z.bits_0 in Hz. rewrite Z.land_spec.
  destruct (Z.testbit x n), (Z.testbit m n); done.
Qed.

(** One write to the state of [tx]: the flags of the slot stay or gain
    the flag, with [evs] the call made. *)
Lemma files_step (flags : Z) (f0 : Flow) (trace0 : list Event) (f f' : Flow)
    (trace evs pre : list Event) (tx : Z) :
  files_inv flags f0 trace0 f trace →
  (∀ m k, FileDisableStoringForTransaction m k ∉ pre) →
  (∀ k, k ≠ tx →
        dir_flags (tx_dir f' k (dir_index flags))
        = dir_flags (tx_dir f k (dir_index flags))) →
  (dir_flags (tx_dir f' tx (dir_index flags)) = dir_flags (tx_dir f tx (dir_index flags))
   ∧ evs = []
   ∨ dir_flags (tx_dir f' tx (dir_index flags))
     = Z.lor (dir_flags (tx_dir f tx (dir_index flags)))
         DETECT_ENGINE_STATE_FLAG_FILE_STORE_DISABLED
     ∧ evs = [FileDisableStoringForTransaction
                (Z.land flags (Z.lor STREAM_TOCLIENT STREAM_TOSERVER)) tx]) →
  files_inv flags f0 trace0 f' (trace ++ pre ++ evs).
Proof.
  intros (new & Htr & Hfl & Hev) Hpre Hother Htx.
  exists (new ++ pre ++ evs). rewrite Htr, <- app_assoc. split; [done|]. split.
  - intros k. destruct (decide (k = tx)) as [->|Hne].
    + destruct Htx as [[-> ->]|[-> ->]].
      * destruct (Hfl tx) as [Hs|[Hs Hin]]; [by left|right].
        split; [done|]. apply elem_of_app. by left.
      * right. destruct (Hfl tx) as [->|[-> Hin]].
        -- split; [done|]. rewrite !elem_of_app. right. right.
           by apply list_elem_of_singleton.
        -- split; [apply lor_lor_same|]. apply elem_of_app. by left.
    + rewrite (Hother k Hne). destruct (Hfl k) as [Hs|[Hs Hin]]; [by left|right].
      split; [done|]. apply elem_of_app. by left.
  - intros m k Hin. apply elem_of_app in Hin as [Hin|Hin].
    + destruct (Hev m k Hin) as [-> Hhas]. split; [done|].
      destruct (decide (k = tx)) as [->|Hne]; [|by rewrite (Hother k Hne)].
      destruct Htx as [[-> _]|[-> _]]; [done|]. by apply has_lor_keep.
    + apply elem_of_app in Hin as [Hin|Hin]; [by apply Hpre in Hin|].
      destruct Htx as [[_ ->]|[Hnew ->]]; [by apply elem_of_nil in Hin|].
      apply list_elem_of_singleton in Hin. injection Hin as -> ->.
      split; [done|]. rewrite Hnew. apply has_lor_self.
Qed.

Lemma files_quiet (flags : Z) (f0 : Flow) (trace0 : list Event) (f f' : Flow)
    (trace pre : list Event) :
  files_inv flags f0 trace0 f trace →
  (∀ m k, FileDisableStoringForTransaction m k ∉ pre) →
  (∀ k, dir_flags (tx_dir f' k (dir_index flags))
        = dir_flags (tx_dir f k (dir_index flags))) →
  files_inv flags f0 trace0 f' (trace ++ pre).
Proof.
  intros Hinv Hpre Hother.
  pose proof (files_step flags f0 trace0 f f' trace [] pre 0 Hinv Hpre
                (λ k _, Hother k) (or_introl (conj (Hother 0) eq_refl))) as Hs.
  by rewrite app_nil_r in Hs.
Qed.

Lemma StoreStateTxHandleFiles_flags (det : DetectEngineThreadCtx)
    (d : DetectEngineState) (flags tx fnm : Z) :
  dir_flags (arr2_get (dir_index flags) (StoreStateTxHandleFiles det d flags tx fnm).1)
  = dir_flags (arr2_get (dir_index flags) d)
  ∧ (StoreStateTxHandleFiles det d flags tx fnm).2 = []
  ∨ dir_flags (arr2_get (dir_index flags) (StoreStateTxHandleFiles det d flags tx fnm).1)
    = Z.lor (dir_flags (arr2_get (dir_index flags) d))
        DETECT_ENGINE_STATE_FLAG_FILE_STORE_DISABLED
    ∧ (StoreStateTxHandleFiles det d flags tx fnm).2
      = [FileDisableStoringForTransaction
           (Z.land flags (Z.lor STREAM_TOCLIENT STREAM_TOSERVER)) tx].
Proof.
  unfold StoreStateTxHandleFiles, DeStateStoreFileNoMatchCnt.
  destruct (DeStateStoreFilestoreSigsCantMatch _ _ _ =? 1); cbn [fst snd].
  - right. by rewrite !arr2_get_set.
  - left. by rewrite arr2_get_set.
Qed.

Lemma DeStateSignatureAppend_flags (state state' : DetectEngineState) (s : Signature)
    (fl direction : Z) (oracle oracle' : list bool) :
  DeStateSignatureAppend state s fl direction oracle = Some (state', oracle') →
  dir_flags (arr2_get (dir_index direction) state')
  = dir_flags (arr2_get (dir_index direction) state).
Proof.
  unfold DeStateSignatureAppend.
  destruct (StoreAppend _ _ _ _) as [[st o1]|]; [|done]. simpl. intros [= <- _].
  by rewrite arr2_get_set.
Qed.

Lemma StoreStateTx_files (flags alversion tx : Z) (t : Tx) (s : Signature)
    (iflags fnm : Z) (f0 : Flow) (trace0 : list Event) (rs rs' : RunState) :
  files_inv flags f0 trace0 (rs_flow rs) (rs_trace rs) →
  StoreStateTx flags alversion tx t s iflags fnm rs = Some rs' →
  files_inv flags f0 trace0 (rs_flow rs') (rs_trace rs').
Proof.
  intros Hinv. unfold StoreStateTx.
  destruct (AppLayerParserSupportsTxDetectState _ _); [|by intros [= <-]].
  destruct (tx_destate_get_or_alloc _ _ _ _) as [[[d|] o1]|] eqn:Hd; simpl;
    [|by intros [= <-]|done].
  destruct (DeStateSignatureAppend _ _ _ _ _) as [[d1 o2]|] eqn:Ha; [|done]. simpl.
  pose proof (StoreStateTxHandleFiles_flags (rs_det rs) d1 flags tx fnm) as Hf.
  destruct (StoreStateTxHandleFiles _ _ _ _ _) as [d2 evs].
  intros [= <-]. simpl in *.
  rewrite (DeStateSignatureAppend_flags _ _ _ _ _ _ _ Ha) in Hf.
  rewrite (tx_destate_get_or_alloc_dir _ _ _ _ _ _ (dir_index flags) Hd) in Hf.
  pose proof (files_step flags f0 trace0 (rs_flow rs)
                (flow_set_tx_de_state (DeStateStoreStateVersion (rs_flow rs) alversion flags)
                   tx d2)
                (rs_trace rs) evs [] tx Hinv) as Hs.
  apply Hs.
  - intros m k Hin. by apply elem_of_nil in Hin.
  - intros k Hne. by rewrite tx_dir_set, decide_False.
  - by rewrite tx_dir_set, decide_True.
Qed.

Lemma StoreStateTxFileOnly_files (flags tx : Z) (t : Tx) (fnm : Z) (f0 : Flow)
    (trace0 : list Event) (rs rs' : RunState) :
  files_inv flags f0 trace0 (rs_flow rs) (rs_trace rs) →
  StoreStateTxFileOnly flags tx t fnm rs = Some rs' →
  files_inv flags f0 trace0 (rs_flow rs') (rs_trace rs').
Proof.
  intros Hinv. unfold StoreStateTxFileOnly.
  destruct (AppLayerParserSupportsTxDetectState _ _); [|by intros [= <-]].
  destruct (tx_destate_get_or_alloc _ _ _ _) as [[[d|] o1]|] eqn:Hd; simpl;
    [|by intros [= <-]|done].
  pose proof (StoreStateTxHandleFiles_flags (rs_det rs) d flags tx fnm) as Hf.
  destruct (StoreStateTxHandleFiles _ _ _ _ _) as [d2 evs].
  intros [= <-]. simpl in *.
  rewrite (tx_destate_get_or_alloc_dir _ _ _ _ _ _ (dir_index flags) Hd) in Hf.
  pose proof (files_step flags f0 trace0 (rs_flow rs)
                (flow_set_tx_de_state (rs_flow rs) tx d2)
                (rs_trace rs) evs [] tx Hinv) as Hs.
  apply Hs.
  - intros m k Hin. by apply elem_of_nil in Hin.
  - intros k Hne. by rewrite tx_dir_set, decide_False.
  - by rewrite tx_dir_set, decide_True.
Qed.

Lemma alert_or_apply_files (s : Signature) (tx fl flags : Z) (f0 : Flow)
    (trace0 : list Event) (rs : RunState) :
  files_inv flags f0 trace0 (rs_flow rs) (rs_trace rs) →
  files_inv flags f0 trace0 (rs_flow (alert_or_apply s tx fl rs))
    (rs_trace (alert_or_apply s tx fl rs)).
Proof.
  intros Hinv. unfold alert_or_apply, rs_emit.
  destruct (negb _); cbn [rs_flow rs_trace];
    (apply (files_quiet flags f0 trace0 (rs_flow rs)); [done| |done]);
    intros m k Hin; by apply list_elem_of_singleton in Hin.
Qed.

Lemma start_tx_body_files (s : Signature) (flags : Z) (alproto : AppProto)
    (alversion : Z) (st : AppState) (total_txs tx : Z) (loc loc' : StartLocals)
    (f0 : Flow) (trace0 : list Event) (rs rs' : RunState) :
  files_inv flags f0 trace0 (rs_flow rs) (rs_trace rs) →
  start_tx_body s flags alproto alversion st total_txs tx loc rs = Some (loc', rs') →
  files_inv flags f0 trace0 (rs_flow rs') (rs_trace rs').
Proof.
  intros Hinv. unfold start_tx_body.
  destruct (AppLayerParserGetTx st tx) as [t|]; [|by intros [= _ <-]].
  destruct (start_engine_loop _ _ _ _ _ _ _ _) as [[[engine iflags] tm] fnm].
  set (rs0 := rs_with_det _ rs).
  set (rs1 := if is_nil engine && (0 <? tm) then alert_or_apply _ _ _ _ else _).
  assert (files_inv flags f0 trace0 (rs_flow rs1) (rs_trace rs1)) as Hinv1.
  { unfold rs1. destruct (_ && _); [|done]. by apply alert_or_apply_files. }
  destruct (_ || _); [|by intros [= _ <-]].
  destruct (_ || _).
  - destruct (StoreStateTx _ _ _ _ _ _ _ _) as [rs2|] eqn:Hs; [|done].
    simpl. intros [= _ <-]. by eapply StoreStateTx_files.
  - destruct (StoreStateTxFileOnly _ _ _ _ _) as [rs2|] eqn:Hs; [|done].
    simpl. intros [= _ <-]. by eapply StoreStateTxFileOnly_files.
Qed.

Lemma start_tx_loop_files (s : Signature) (flags : Z) (alproto : AppProto)
    (alversion : Z) (st : AppState) (total_txs : Z) (f0 : Flow) (trace0 : list Event)
    (n : nat) :
  ∀ tx loc rs loc' rs',
    files_inv flags f0 trace0 (rs_flow rs) (rs_trace rs) →
    start_tx_loop n s flags alproto alversion st total_txs tx loc rs = Some (loc', rs') →
    files_inv flags f0 trace0 (rs_flow rs') (rs_trace rs').
Proof.
  induction n as [|n IH]; intros tx loc rs loc' rs' Hinv; simpl.
  { by intros [= _ <-]. }
  destruct (start_tx_body _ _ _ _ _ _ _ _ _) as [[loc1 rs1]|] eqn:Hb; [|done].
  simpl. apply IH. by eapply start_tx_body_files.
Qed.

Lemma start_flow_part_files (s : Signature) (flags : Z) (alproto : AppProto)
    (alversion : Z) (loc loc' : StartLocals) (f0 : Flow) (trace0 : list Event)
    (rs rs' : RunState) :
  files_inv flags f0 trace0 (rs_flow rs) (rs_trace rs) →
  start_flow_part s flags alproto alversion loc rs = Some (loc', rs') →
  files_inv flags f0 trace0 (rs_flow rs') (rs_trace rs').
Proof.
  intros Hinv. unfold start_flow_part.
  destruct (sm_lists s DETECT_SM_LIST_AMATCH) as [|m sm]; [by intros [= _ <-]|].
  destruct (FlowGetAppState _) as [st|]; [|by intros [= _ <-]].
  destruct (start_amatch_loop _ _ _ _ _ _ _) as [[sm' match_] iflags].
  set (rs1 := if _ && _ then alert_or_apply _ _ _ _ else rs).
  assert (files_inv flags f0 trace0 (rs_flow rs1) (rs_trace rs1)) as Hinv1.
  { unfold rs1. destruct (_ && _); [|done]. by apply alert_or_apply_files. }
  destruct (StoreState _ _ _ _ _ _) as [[r rs2]|] eqn:Hs; [|done].
  simpl. intros [= _ <-].
  pose proof (StoreState_trace _ _ _ _ _ _ _ _ Hs) as Htr.
  assert (tx_de_state (rs_flow rs2) = tx_de_state (rs_flow rs1)) as Htx.
  { revert Hs. unfold StoreState.
    destruct (match de_state (rs_flow rs1) with Some _ => _ | None => _ end) as [st0 o1].
    destruct st0 as [st0|]; [|by intros [= _ <-]].
    destruct (DeStateFlowRuleAppend _ _ _ _ _ _) as [[st' o2]|]; [|done].
    simpl. by intros [= _ <-]. }
  pose proof (files_quiet flags f0 trace0 (rs_flow rs1) (rs_flow rs2) (rs_trace rs1) []
                Hinv1) as Hq.
  rewrite app_nil_r, <- Htr in Hq. apply Hq.
  - intros m0 k Hin. by apply elem_of_nil in Hin.
  - intros k. unfold tx_dir. by rewrite Htx.
Qed.

(** X16.  The start driver and the file-store flag.  Across a call, in the
    packet's slot, the direction flags of a transaction are as they
    were, or they have gained FILE_STORE_DISABLED and the call told the
    file subsystem to stop storing for that transaction in the packet's
    direction; conversely every such call to the file subsystem is for a
    transaction that has the flag on return.  No other flag of a
    direction state is set or cleared; in particular FILE_TS_NEW and
    FILE_TC_NEW are left alone. *)
Theorem start_sets_file_store_disabled (s : Signature) (flags : Z) (alproto : AppProto)
    (alversion r : Z) (rs rs' : RunState) :
  DeStateDetectStartDetection s flags alproto alversion rs = Some (r, rs') →
  files_inv flags (rs_flow rs) (rs_trace rs) (rs_flow rs') (rs_trace rs').
Proof.
  assert (files_inv flags (rs_flow rs) (rs_trace rs) (rs_flow rs) (rs_trace rs)) as Hinv0.
  { exists []. rewrite app_nil_r. split; [done|]. split; [by left|].
    intros m k Hin. by apply elem_of_nil in Hin. }
  assert (∀ loc1 rs1,
            files_inv flags (rs_flow rs) (rs_trace rs) (rs_flow rs1) (rs_trace rs1) →
            (λ r0 : StartLocals * RunState,
               (if sl_alert_cnt r0.1 =? 0 then 0 else 1, driver_end r0.2))
              <$> start_flow_part s flags alproto alversion loc1 rs1 = Some (r, rs') →
            files_inv flags (rs_flow rs) (rs_trace rs) (rs_flow rs') (rs_trace rs'))
    as Hflow.
  { intros loc1 rs1 Hinv1.
    destruct (start_flow_part _ _ _ _ _ _) as [[loc2 rs2]|] eqn:Hf; [|done].
    simpl. intros [= _ <-]. simpl. by eapply start_flow_part_files. }
  unfold DeStateDetectStartDetection.
  destruct (AppLayerParserProtocolSupportsTxs _ _).
  - destruct (negb (StateIsValid _ _)); [by intros [= _ <-]|].
    destruct (FlowGetAppState _) as [st|]; [|by intros [= _ <-]].
    destruct (start_tx_loop _ _ _ _ _ _ _ _ _ _) as [[loc1 rs1]|] eqn:Hl; [|done].
    simpl. apply Hflow. by eapply start_tx_loop_files.
  - destruct (_ && _).
    + destruct (FlowGetAppState _) as [st|]; [|by intros [= _ <-]].
      destruct (start_dce_part _ _ _ _ _ _) as [loc1 rs1] eqn:Hd.
      apply Hflow. unfold start_dce_part in Hd.
      destruct (if is_smb alproto then _ else _).
      * injection Hd as _ <-. by apply alert_or_apply_files.
      * by injection Hd as _ <-.
    + by apply Hflow.
Qed.

End FileFlagProofs.

(** The method rule on a fresh HTTP flow whose request line is in. *)
Lemma start_sets_file_store_disabled_witness :
  files_inv 4 (rs_flow (run0 (flow_http (st_one 1)) []))
    (rs_trace (run0 (flow_http (st_one 1)) []))
    (rs_flow after_start_method.2) (rs_trace after_start_method.2).
Proof.
  apply (start_sets_file_store_disabled sig_method 4 ALPROTO_HTTP 1 after_start_method.1
           (run0 (flow_http (st_one 1)) []) after_start_method.2).
  vm_compute. reflexivity.
Defined.

(** In that call no rule group signature stores files, the counters
    agree at 0, and storing is disabled for transaction 0. *)
Example start_method_disables_storing :
  dir_flags (tx_dir (rs_flow after_start_method.2) 0 (dir_index 4))
  = DETECT_ENGINE_STATE_FLAG_FILE_STORE_DISABLED
  ∧ FileDisableStoringForTransaction 4 0 ∈ rs_trace after_start_method.2.
Proof.
  split; [vm_compute; done|]. vm_compute.
  apply elem_of_cons. right. apply elem_of_cons. by left.
Qed.

(** ** Flow-scoped records alert once *)

Section ClosureProofs.
Context `{EngineHeader} `{External}.
Hypothesis alert_flags_differ :
  Z.lor PACKET_ALERT_FLAG_STATE_MATCH PACKET_ALERT_FLAG_TX ≠ PACKET_ALERT_FLAG_STATE_MATCH.

Lemma flow_verdicts_app (l1 l2 : list Event) :
  flow_verdicts (l1 ++ l2) = flow_verdicts l1 ++ flow_verdicts l2.
Proof. apply omap_app. Qed.

Lemma open_rules_cons (x : DeStateStoreFlowRule) (xs : list DeStateStoreFlowRule) :
  open_rules (x :: xs) = ((if rule_open x then 1 else 0) + open_rules xs)%nat.
Proof.
  unfold open_rules. rewrite filter_cons.
  destruct (rule_open x); by case_decide.
Qed.

Lemma open_rules_app (l1 l2 : list DeStateStoreFlowRule) :
  open_rules (l1 ++ l2) = (open_rules l1 + open_rules l2)%nat.
Proof. unfold open_rules. by rewrite filter_app, length_app. Qed.

Lemma item_events_since_refl (trace0 : list Event) : item_events_since trace0 trace0.
Proof. exists []. by rewrite app_nil_r. Qed.

Lemma DoInspectItem_engines_no_flow_verdict (s : Signature) (item : DeStateStoreItem)
    (fl : Z) (f : Flow) (alproto : AppProto) (flags tx total_txs fnm : Z)
    (det : DetectEngineThreadCtx) :
  flow_verdicts (DoInspectItem_engines s item fl f alproto flags tx total_txs fnm det).2
  = [].
Proof.
  pose proof (proj2 (Z.eqb_neq _ _) alert_flags_differ) as Hne.
  unfold DoInspectItem_engines.
  destruct (FlowGetAppState f) as [st|]; [|done].
  destruct (negb _); [done|].
  destruct (AppLayerParserGetTx st tx); [|done].
  destruct (continue_engine_loop _ _ _ _ _ _ _ _ _) as [[[e i] tm] n]. cbn [fst snd].
  rewrite flow_verdicts_app.
  destruct (_ && is_nil e); [|done]. simpl.
  destruct (negb _); [|done]. simpl. by rewrite Hne.
Qed.

Lemma DoInspectItem_no_flow_verdict (item item' : DeStateStoreItem) (dsf : Z) (f : Flow)
    (alproto : AppProto) (flags tx total_txs fnm fnm' r : Z) (inprog nxt : bool)
    (det det' : DetectEngineThreadCtx) (evs : list Event) :
  DoInspectItem item dsf f alproto flags tx total_txs fnm inprog nxt det
  = Some (r, item', fnm', det', evs) →
  flow_verdicts evs = [].
Proof.
  unfold DoInspectItem. destruct (sig_array !! item_sid item) as [s|]; [|done]. simpl.
  intros Hres.
  assert (∃ res : ItemResult,
            res = (r, item', fnm', det', evs) ∧ flow_verdicts res.2 = [])
    as (res & -> & Hgoal); [|done].
  destruct (has (item_flags item) DE_STATE_FLAG_FULL_INSPECT).
  - destruct (has (reopen_full_inspect _ _ _) DE_STATE_FLAG_FULL_INSPECT).
    + apply (inj Some) in Hres. eexists. split; [exact Hres|]. done.
    + apply (inj Some) in Hres. eexists. split; [exact Hres|].
      destruct (has (reopen_full_inspect _ _ _) DE_STATE_FLAG_SIG_CANT_MATCH).
      * destruct (reopen_cant_match _ _ _);
          [apply DoInspectItem_engines_no_flow_verdict|done].
      * apply DoInspectItem_engines_no_flow_verdict.
  - apply (inj Some) in Hres. eexists. split; [exact Hres|].
    destruct (has (item_flags item) DE_STATE_FLAG_SIG_CANT_MATCH).
    + destruct (reopen_cant_match _ _ _);
        [apply DoInspectItem_engines_no_flow_verdict|done].
    + apply DoInspectItem_engines_no_flow_verdict.
Qed.

Lemma inspect_item_body_no_flow_verdict (trace0 : list Event) (dsf : Z) (f : Flow)
    (alproto : AppProto) (flags tx total_txs : Z) (inprog nxt : bool)
    (x x' : DeStateStoreItem) (st st' : Z * DetectEngineThreadCtx * list Event) (r : Z) :
  item_events_since trace0 st.2 →
  inspect_item_body dsf f alproto flags tx total_txs inprog nxt x st = Some (r, x', st') →
  if r <? 0 then item_events_since trace0 st'.2 else item_events_since trace0 st'.2.
Proof.
  intros (new & Htr & Hnew) Hrun.
  assert (item_events_since trace0 st'.2) as Hpost; [|by destruct (r <? 0)].
  revert Hrun. destruct st as [[fnm det] trace]. unfold inspect_item_body.
  destruct (DoInspectItem _ _ _ _ _ _ _ _ _ _ _) as [[[[[r1 x1] fnm1] det1] evs]|] eqn:Hi;
    [|done].
  simpl in *. intros [= _ _ <-]. simpl.
  apply DoInspectItem_no_flow_verdict in Hi.
  exists (new ++ evs ++ [CallDoInspectItem tx (item_sid x) r1]).
  split; [by rewrite Htr, <- app_assoc|].
  by rewrite !flow_verdicts_app, Hnew, Hi.
Qed.

Lemma continue_tx_body_no_flow_verdict (trace0 : list Event) (flags : Z)
    (alproto : AppProto) (st : AppState) (total_txs tx : Z) (loc loc' : ContLocals)
    (rs rs' : RunState) (exit : LoopExit) :
  item_events_since trace0 (rs_trace rs) →
  continue_tx_body flags alproto st total_txs tx loc rs = Some (exit, loc', rs') →
  item_events_since trace0 (rs_trace rs').
Proof.
  intros Hinv. unfold continue_tx_body.
  destruct (AppLayerParserGetTx st tx) as [t|]; [|by intros [= _ _ <-]].
  destruct (AppLayerParserGetTxDetectState _ _) as [d|]; [|by intros [= _ _ <-]].
  destruct (store_loop _ _ _ _) as [[[[stop store'] sc'] [[fnm det] trace]]|] eqn:Hloop;
    [|done].
  pose proof (store_loop_rule _
                (λ s : Z * DetectEngineThreadCtx * list Event,
                   item_events_since trace0 s.2)
                (λ s : Z * DetectEngineThreadCtx * list Event,
                   item_events_since trace0 s.2)
                (λ x s r x' s',
                   inspect_item_body_no_flow_verdict trace0 _ _ _ _ _ _ _ _ x x' s s' r)
                _ _ _ _ (cl_file_no_match loc, rs_det rs, rs_trace rs) _ _ Hinv Hloop)
    as Hrule.
  assert (item_events_since trace0 trace) as Hpost by (by destruct stop).
  simpl. destruct stop; [by intros [= _ _ <-]|].
  destruct (_ <? _); by intros [= _ _ <-].
Qed.

Lemma continue_tx_loop_no_flow_verdict (trace0 : list Event) (flags : Z)
    (alproto : AppProto) (st : AppState) (total_txs : Z) (n : nat) :
  ∀ tx loc rs (goto_end : bool) loc' rs',
    item_events_since trace0 (rs_trace rs) →
    continue_tx_loop n flags alproto st total_txs tx loc rs = Some (goto_end, loc', rs') →
    item_events_since trace0 (rs_trace rs').
Proof.
  induction n as [|n IH]; intros tx loc rs goto_end loc' rs' Hinv; simpl.
  { by intros [= _ _ <-]. }
  destruct (continue_tx_body _ _ _ _ _ _ _) as [[[exit loc1] rs1]|] eqn:Hb; [|done].
  apply (continue_tx_body_no_flow_verdict trace0) in Hb; [|done].
  simpl. destruct exit.
  - by apply IH.
  - by intros [= _ _ <-].
  - by intros [= _ _ <-].
Qed.

(** One call of [DoInspectFlowRule]: a verdict closes the record. *)
Lemma DoInspectFlowRule_closes (item item' : DeStateStoreFlowRule) (dsf : Z) (f : Flow)
    (alproto : AppProto) (flags r : Z) (det det' : DetectEngineThreadCtx)
    (evs : list Event) :
  DoInspectFlowRule item dsf f alproto flags det = Some (r, item', det', evs) →
  (length (flow_verdicts evs) + (if rule_open item' then 1 else 0)
   ≤ if rule_open item then 1 else 0)%nat.
Proof.
  unfold DoInspectFlowRule.
  destruct (has (rule_flags item) _) eqn:Hterm.
  { intros [= _ <- _ <-]. simpl. lia. }
  assert (rule_open item = true) as -> by (unfold rule_open; by rewrite Hterm).
  destruct (sig_array !! rule_sid item) as [s|]; [|done]. cbn [mbind option_bind].
  assert (∀ (sm : list SigMatch) (iflags : Z) (b : bool) (e : Event),
            flow_verdicts [e] ≠ [] →
            (length (flow_verdicts
                       ((if b && is_nil sm
                         then [SigMatchSignaturesRunPostMatch (num s); e]
                         else []) ++ [DetectFlowvarProcessList]))
             + (if rule_open
                     (mkFlowRule sm
                        (Z.lor (rule_flags item)
                           (if b then Z.lor iflags DE_STATE_FLAG_FULL_INSPECT else iflags))
                        (rule_sid item))
                then 1 else 0) ≤ 1)%nat) as Hone.
  { intros sm iflags b e He. rewrite flow_verdicts_app.
    destruct b; cbn [andb].
    - assert (rule_open
                (mkFlowRule sm
                   (Z.lor (rule_flags item) (Z.lor iflags DE_STATE_FLAG_FULL_INSPECT))
                   (rule_sid item)) = false) as ->.
      { unfold rule_open. cbn [rule_flags]. rewrite has_mask2, Z.lor_assoc.
        unfold DE_STATE_FLAG_FULL_INSPECT. by rewrite has_lor_self. }
      destruct (is_nil sm); simpl; [|lia].
      destruct e; simpl in *; try done; repeat case_match; simpl; lia.
    - simpl. destruct (rule_open _); lia. }
  assert (∀ e : Event,
            e = (if negb (has (sig_flags s) SIG_FLAG_NOALERT)
                 then PacketAlertAppend (num s) 0 PACKET_ALERT_FLAG_STATE_MATCH
                 else DetectSignatureApplyActions (num s)) →
            flow_verdicts [e] ≠ []) as Hev.
  { intros e ->. destruct (negb _); simpl; [|done]. by rewrite Z.eqb_refl. }
  destruct (rule_nm item) as [|m nm].
  - intros [= _ <- _ <-].
    exact (Hone [] 0
             (negb (is_nil (sm_lists s DETECT_SM_LIST_AMATCH)) && (0 <? 0)
              && (is_nil (@nil SigMatch) || has 0 DE_STATE_FLAG_SIG_CANT_MATCH))
             _ (Hev _ eq_refl)).
  - destruct (FlowGetAppState f) as [st|].
    + destruct (continue_amatch_loop _ _ _ _ _ _ _) as [[sm iflags] total].
      intros [= _ <- _ <-].
      exact (Hone sm iflags
               (negb (is_nil (sm_lists s DETECT_SM_LIST_AMATCH)) && (0 <? total)
                && (is_nil sm || has iflags DE_STATE_FLAG_SIG_CANT_MATCH))
               _ (Hev _ eq_refl)).
    + intros [= _ <- _ <-]. unfold rule_open. rewrite Hterm. simpl. lia.
Qed.

Lemma flow_rule_loop_closes (dsf : Z) (f : Flow) (alproto : AppProto) (flags : Z) :
  ∀ xs det trace stop xs' det' trace',
    items_loop (inspect_flow_rule_body dsf f alproto flags) xs (det, trace)
    = Some (stop, xs', (det', trace')) →
    ∃ new,
      trace' = trace ++ new
      ∧ (length (flow_verdicts new) + open_rules xs' ≤ open_rules xs)%nat.
Proof.
  induction xs as [|x xs IH]; intros det trace stop xs' det' trace'; simpl.
  { intros [= _ <- _ <-]. exists []. by rewrite app_nil_r. }
  destruct (DoInspectFlowRule _ _ _ _ _ _) as [[[[r x1] det1] evs]|] eqn:Hi; [|done].
  apply DoInspectFlowRule_closes in Hi. simpl.
  destruct (r <? 0).
  - intros [= _ <- _ <-]. exists (evs ++ [CallDoInspectFlowRule (rule_sid x) r]).
    split; [done|]. rewrite flow_verdicts_app, !open_rules_cons. simpl.
    rewrite app_nil_r. lia.
  - destruct (items_loop _ xs _) as [[[stop1 xs1] [det2 trace2]]|] eqn:Hrest; [|done].
    simpl. intros [= _ <- _ <-]. apply IH in Hrest as (new & -> & Hle).
    exists ((evs ++ [CallDoInspectFlowRule (rule_sid x) r]) ++ new).
    split; [by rewrite <- !app_assoc|].
    rewrite !flow_verdicts_app, !length_app, !open_rules_cons. simpl. lia.
Qed.

Lemma continue_flow_part_closes (flags : Z) (alproto : AppProto) (alversion : Z)
    (loc : ContLocals) (rs rs' : RunState) :
  wf_store (fdir_store (flow_dir (rs_flow rs) (dir_index flags))) →
  0 ≤ cl_state_cnt loc →
  continue_flow_part flags alproto alversion loc rs = Some rs' →
  ∃ new,
    rs_trace rs' = rs_trace rs ++ new
    ∧ (length (flow_verdicts new)
       + open_rules (flow_items (flow_dir (rs_flow rs') (dir_index flags)))
       ≤ open_rules (flow_items (flow_dir (rs_flow rs) (dir_index flags))))%nat.
Proof.
  intros Hwf Hsc. unfold continue_flow_part.
  unfold flow_dir in Hwf |- *.
  destruct (de_state (rs_flow rs)) as [d|] eqn:Hd.
  2:{ intros [= <-]. rewrite Hd. exists []. rewrite app_nil_r. split; [done|]. simpl. lia. }
  set (body := inspect_flow_rule_body _ _ _ _).
  pose proof (store_loop_items body (fdir_store (arr2_get (dir_index flags) d))
                (cl_state_cnt loc) (rs_det rs, rs_trace rs) Hwf Hsc) as Hloop.
  destruct (items_loop body _ _) as [[[stop xs] st']|] eqn:Hitems;
    [|by rewrite Hloop].
  destruct Hloop as (ds' & sc' & -> & Hwf' & Hcnt' & Hflat & _).
  pose proof (items_loop_length body _ _ _ _ _ Hitems) as Hlen.
  destruct st' as [det trace].
  apply flow_rule_loop_closes in Hitems as (new & -> & Hle).
  cbn [mbind option_bind]. cbv beta iota.
  assert (∀ rs1 : RunState,
            de_state (rs_flow rs1)
            = Some (arr2_set (dir_index flags)
                      (mkDirFlow ds' (fdir_flags (arr2_get (dir_index flags) d))) d) →
            rs_trace rs1 = rs_trace rs ++ new →
            ∃ new0,
              rs_trace rs1 = rs_trace rs ++ new0
              ∧ (length (flow_verdicts new0)
                 + open_rules (flow_items match de_state (rs_flow rs1) with
                                          | Some d => arr2_get (dir_index flags) d
                                          | None => DetectEngineStateDirectionFlow_zero
                                          end)
                 ≤ open_rules (flow_items (arr2_get (dir_index flags) d)))%nat) as Hfin.
  { intros rs1 -> Htr. exists new. split; [done|].
    rewrite arr2_get_set. unfold flow_items. simpl. rewrite Hcnt', Hflat.
    set (cnt := ds_cnt (fdir_store (arr2_get (dir_index flags) d))) in *.
    set (fl := flat (ds_heap (fdir_store (arr2_get (dir_index flags) d)))) in *.
    set (k := Z.to_nat (cnt - cl_state_cnt loc)) in *.
    assert (k ≤ Z.to_nat cnt)%nat as Hk by lia.
    assert (length xs = length (take k fl)) as Hxs by done.
    assert (length (take k fl) ≤ Z.to_nat cnt)%nat as Hlt by (rewrite length_take; lia).
    rewrite <- (take_drop k fl) at 2.
    rewrite !take_app, Hxs, !open_rules_app.
    rewrite (take_ge (take k fl)), (take_ge xs) by lia. lia. }
  destruct stop; intros [= <-]; by apply Hfin.
Qed.

(** X17.  A verdict on a flow-scoped record closes it.  Where the alert
    flags of the two inspectors differ, a call of the continue driver on
    a well-formed flow-level store appends to the trace, and the number
    of verdicts it gives for flow-scoped records (an alert with
    PACKET_ALERT_FLAG_STATE_MATCH alone, or the actions of a no-alert
    signature) is at most the number of records of the direction that
    were open (neither FULL_INSPECT nor SIG_CANT_MATCH) before the call
    and are no longer open after it.  So over any run of calls a
    flow-scoped record gives at most one verdict. *)
Theorem flow_rule_verdict_closes (flags : Z) (alproto : AppProto) (alversion : Z)
    (rs rs' : RunState) :
  wf_store (fdir_store (flow_dir (rs_flow rs) (dir_index flags))) →
  DeStateDetectContinueDetection flags alproto alversion rs = Some rs' →
  ∃ new,
    rs_trace rs' = rs_trace rs ++ new
    ∧ (length (flow_verdicts new)
       + open_rules (flow_items (flow_dir (rs_flow rs') (dir_index flags)))
       ≤ open_rules (flow_items (flow_dir (rs_flow rs) (dir_index flags))))%nat.
Proof.
  intros Hwf.
  assert (∃ new,
            rs_trace rs = rs_trace rs ++ new
            ∧ (length (flow_verdicts new)
               + open_rules (flow_items (flow_dir (rs_flow rs) (dir_index flags)))
               ≤ open_rules (flow_items (flow_dir (rs_flow rs) (dir_index flags))))%nat)
    as Hidle.
  { exists []. rewrite app_nil_r. split; [done|]. simpl. lia. }
  unfold DeStateDetectContinueDetection.
  destruct (AppLayerParserProtocolSupportsTxs _ _).
  - destruct (FlowGetAppState _) as [st|]; [|by intros [= <-]].
    destruct (negb _); [by intros [= <-]|].
    destruct (continue_tx_loop _ _ _ _ _ _ _ _) as [[[goto_end loc1] rs1]|] eqn:Hloop;
      [|done].
    assert (0 ≤ cl_state_cnt loc1) as Hsc
      by (eapply continue_tx_loop_sc; [|exact Hloop]; done).
    pose proof (continue_tx_loop_no_flow_verdict (rs_trace rs) _ _ _ _ _ _ _ _ _ _ _
                  (item_events_since_refl _) Hloop) as (new1 & Htr1 & Hnew1).
    apply continue_tx_loop_fields in Hloop as (Ha & _ & _).
    assert (flow_dir (rs_flow rs1) (dir_index flags)
            = flow_dir (rs_flow rs) (dir_index flags)) as Hfd.
    { unfold flow_dir. injection Ha as _ _ _ _ _ Hde.
      destruct (de_state (rs_flow rs1)), (de_state (rs_flow rs)); congruence. }
    simpl. destruct goto_end.
    + intros [= <-]. simpl. exists new1. split; [done|]. rewrite Hfd, Hnew1. simpl. lia.
    + destruct (continue_flow_part _ _ _ _ _) as [rs2|] eqn:Hflow; [|done].
      simpl. intros [= <-]. simpl. rewrite <- Hfd in Hwf |- *.
      apply continue_flow_part_closes in Hflow as (new2 & Htr2 & Hle); [|done..].
      exists (new1 ++ new2). split; [by rewrite Htr2, Htr1, <- app_assoc|].
      by rewrite flow_verdicts_app, Hnew1.
  - destruct (continue_flow_part _ _ _ _ _) as [rs2|] eqn:Hflow; [|done].
    simpl. intros [= <-]. simpl.
    by apply continue_flow_part_closes in Hflow.
Qed.

End ClosureProofs.

(** The two flow-scoped records of [flow_with_rules], inspected once. *)
Lemma flow_rule_verdict_closes_witness :
  ∃ new,
    rs_trace after_flow_rules = rs_trace (run0 flow_with_rules []) ++ new
    ∧ (length (flow_verdicts new)
       + open_rules (flow_items (flow_dir (rs_flow after_flow_rules) (dir_index 4)))
       ≤ open_rules
           (flow_items (flow_dir (rs_flow (run0 flow_with_rules [])) (dir_index 4))))%nat.
Proof.
  assert (Z.lor PACKET_ALERT_FLAG_STATE_MATCH PACKET_ALERT_FLAG_TX
          ≠ PACKET_ALERT_FLAG_STATE_MATCH) as Hdiffer by (vm_compute; discriminate).
  apply (flow_rule_verdict_closes Hdiffer 4 ALPROTO_HTTP 7
           (run0 flow_with_rules []) after_flow_rules).
  - exact wf_flow_with_rules.
  - vm_compute. reflexivity.
Defined.

(** In that call both records alert and both are closed: two verdicts,
    two open records before and none after. *)
Example flow_rules_two_verdicts :
  flow_verdicts (rs_trace after_flow_rules) = [2; 2]
  ∧ open_rules (flow_items (flow_dir flow_with_rules (dir_index 4))) = 2%nat
  ∧ open_rules (flow_items (flow_dir (rs_flow after_flow_rules) (dir_index 4))) = 0%nat.
Proof. vm_compute. done. Qed.

(** * Re-opening, slots and resumption

    ** What a continue call does to FULL_INSPECT and CANT_MATCH *)

Section ReopenProofs.
Context `{EngineHeader} `{External}.











End ReopenProofs.


(** A record with FULL_INSPECT, CANT_MATCH and FILE_TS_INSPECT, a
    to-server packet and FILE_TS_NEW on the direction state: the first
    block clears FILE_TS_INSPECT and FULL_INSPECT, the second block then
    finds no file bit, and the function returns 0 with CANT_MATCH still
    set.  The same record without FULL_INSPECT loses CANT_MATCH and goes on
    to the engines. *)
Example cant_match_stays_after_full :
  let fl := Z.lor (Z.lor DE_STATE_FLAG_FULL_INSPECT DE_STATE_FLAG_SIG_CANT_MATCH)
              DE_STATE_FLAG_FILE_TS_INSPECT in
  let fl' := Z.lor DE_STATE_FLAG_SIG_CANT_MATCH DE_STATE_FLAG_FILE_TS_INSPECT in
  ((λ res : ItemResult, (res.1.1.1.1, item_flags res.1.1.1.2))
   <$> DoInspectItem (mkItem 1 fl) DETECT_ENGINE_STATE_FLAG_FILE_TS_NEW
         (flow_http (st_one 1)) ALPROTO_HTTP 4 0 1 0 true false (mkDetCtx 0 0 ∅ 0))
  = Some (0, DE_STATE_FLAG_SIG_CANT_MATCH)
  ∧ reopened fl DETECT_ENGINE_STATE_FLAG_FILE_TS_NEW 4 = DE_STATE_FLAG_SIG_CANT_MATCH
  ∧ reopened fl' DETECT_ENGINE_STATE_FLAG_FILE_TS_NEW 4 = 0
  ∧ ((λ res : ItemResult, res.1.1.1.1)
     <$> DoInspectItem (mkItem 1 fl') DETECT_ENGINE_STATE_FLAG_FILE_TS_NEW
           (flow_http (st_one 1)) ALPROTO_HTTP 4 0 1 0 true false (mkDetCtx 0 0 ∅ 0))
    = Some 1.
Proof. vm_compute. done. Qed.

(** ** The slot a call works on *)

Section SlotUseProofs.
Context `{EngineHeader} `{External}.

Lemma store_inner_loop_ext {A T} (b1 b2 : A → T → option (Z * A * T)) :
  (∀ x st, b1 x st = b2 x st) →
  ∀ n heap a store_cnt state_cnt cnt st,
    store_inner_loop b1 n heap a store_cnt state_cnt cnt st
    = store_inner_loop b2 n heap a store_cnt state_cnt cnt st.
Proof.
  intros Hb. induction n as [|n IH]; intros heap a store_cnt state_cnt cnt st; simpl;
    [done|].
  destruct (_ && _); [|done].
  destruct (heap !! a) as [c|]; simpl; [|done].
  destruct (c_store c !! _) as [item|]; simpl; [|done].
  rewrite Hb. destruct (b2 item st) as [[[r item'] st']|]; simpl; [|done].
  destruct (chunk_write _ _ _ _) as [heap'|]; simpl; [|done].
  destruct (r <? 0); [done|]. apply IH.
Qed.

Lemma store_outer_loop_ext {A T} (b1 b2 : A → T → option (Z * A * T)) :
  (∀ x st, b1 x st = b2 x st) →
  ∀ fuel heap store state_cnt cnt st,
    store_outer_loop b1 fuel heap store state_cnt cnt st
    = store_outer_loop b2 fuel heap store state_cnt cnt st.
Proof.
  intros Hb. induction fuel as [|fuel IH]; intros heap store state_cnt cnt st; simpl;
    [done|].
  destruct store as [a|]; [|done].
  rewrite (store_inner_loop_ext b1 b2 Hb).
  destruct (store_inner_loop b2 _ _ _ _ _ _ _) as [[[[stop heap'] sc'] st']|]; simpl;
    [|done].
  destruct stop; [done|]. destruct (heap' !! a) as [c|]; simpl; [|done]. apply IH.
Qed.

Lemma store_loop_ext {A T} (b1 b2 : A → T → option (Z * A * T)) (ds : DirStore A)
    (state_cnt : Z) (st : T) :
  (∀ x st, b1 x st = b2 x st) →
  store_loop b1 ds state_cnt st = store_loop b2 ds state_cnt st.
Proof. intros Hb. unfold store_loop. by rewrite (store_outer_loop_ext b1 b2 Hb). Qed.

(** The per-record inspectors read the flow for its app-layer state and
    its protocol map only. *)
Lemma DoInspectItem_flow (item : DeStateStoreItem) (dsf : Z) (f f' : Flow)
    (alproto : AppProto) (flags tx total_txs fnm : Z) (inprog nxt : bool)
    (det : DetectEngineThreadCtx) :
  alstate f' = alstate f → protomap f' = protomap f →
  DoInspectItem item dsf f' alproto flags tx total_txs fnm inprog nxt det
  = DoInspectItem item dsf f alproto flags tx total_txs fnm inprog nxt det.
Proof.
  intros Ha Hp. unfold DoInspectItem, DoInspectItem_engines, FlowGetAppState.
  by rewrite Ha, Hp.
Qed.

Lemma DoInspectFlowRule_flow (item : DeStateStoreFlowRule) (dsf : Z) (f f' : Flow)
    (alproto : AppProto) (flags : Z) (det : DetectEngineThreadCtx) :
  alstate f' = alstate f →
  DoInspectFlowRule item dsf f' alproto flags det
  = DoInspectFlowRule item dsf f alproto flags det.
Proof. intros Ha. unfold DoInspectFlowRule, FlowGetAppState. by rewrite Ha. Qed.

Lemma same_slot_refl (i : nat) (f : Flow) : same_slot i f f.
Proof. by repeat split. Qed.

Lemma same_slot_run_refl (i : nat) (rs : RunState) : same_slot_run i rs rs.
Proof. split; [apply same_slot_refl|done]. Qed.

Lemma same_slot_insert (i : nat) (m m' : gmap Z DetectEngineState) (tx : Z)
    (d d' : DetectEngineState) :
  (∀ k, arr2_get i <$> m' !! k = arr2_get i <$> m !! k) →
  arr2_get i d' = arr2_get i d →
  ∀ k, arr2_get i <$> (<[tx := d']> m') !! k = arr2_get i <$> (<[tx := d]> m) !! k.
Proof.
  intros Hm Hd k. destruct (decide (tx = k)) as [->|Hne].
  - rewrite !lookup_insert_eq. simpl. by rewrite Hd.
  - rewrite !lookup_insert_ne by done. apply Hm.
Qed.

Lemma same_slot_set_tx (i : nat) (f f' : Flow) (tx : Z) (d d' : DetectEngineState) :
  same_slot i f f' → arr2_get i d' = arr2_get i d →
  same_slot i (flow_set_tx_de_state f tx d) (flow_set_tx_de_state f' tx d').
Proof.
  intros (? & ? & ? & ? & ? & Htx & ? & ?) Hd.
  unfold flow_set_tx_de_state. repeat split; simpl; try done.
  by apply same_slot_insert.
Qed.

Lemma same_slot_set_de (i : nat) (f f' : Flow) (d d' : option DetectEngineStateFlow) :
  same_slot i f f' → arr2_get i <$> d' = arr2_get i <$> d →
  same_slot i (flow_set_de_state f d) (flow_set_de_state f' d').
Proof. intros (? & ? & ? & ? & ? & ? & ? & ?) Hd. by repeat split. Qed.

Lemma same_slot_version (f f' : Flow) (alversion flags : Z) :
  same_slot (dir_index flags) f f' →
  same_slot (dir_index flags) (DeStateStoreStateVersion f alversion flags)
    (DeStateStoreStateVersion f' alversion flags).
Proof.
  intros (? & ? & ? & ? & ? & ? & ? & ?). repeat split; simpl; try done.
  by rewrite !arr2_get_set.
Qed.

Lemma continue_tx_body_slot (flags : Z) (alproto : AppProto) (st : AppState)
    (total_txs tx : Z) (loc : ContLocals) (rs rs' : RunState) :
  same_slot_run (dir_index flags) rs rs' →
  same_outcome (λ a b, a.1 = b.1 ∧ same_slot_run (dir_index flags) a.2 b.2)
    (continue_tx_body flags alproto st total_txs tx loc rs)
    (continue_tx_body flags alproto st total_txs tx loc rs').
Proof.
  intros (Hf & Hdet & Htr & Ho).
  pose proof Hf as (Hp & Hpm & Hap & Hal & Hid & Htx & Hde & Hver).
  unfold continue_tx_body, AppLayerParserGetTxDetectState.
  destruct (AppLayerParserGetTx st tx) as [t|]; [|by simpl].
  pose proof (Htx tx) as Hd.
  destruct (tx_de_state (rs_flow rs) !! tx) as [d|],
    (tx_de_state (rs_flow rs') !! tx) as [d'|]; try done.
  injection Hd as Hd. rewrite Hd, Hdet, Htr, Hp, Ho.
  set (inprog := tx_progress t flags <? _).
  set (nxt := if negb (TxIsLast tx total_txs) then _ else _).
  rewrite (store_loop_ext
             (inspect_item_body (dir_flags (arr2_get (dir_index flags) d)) (rs_flow rs')
                alproto flags tx total_txs inprog nxt)
             (inspect_item_body (dir_flags (arr2_get (dir_index flags) d)) (rs_flow rs)
                alproto flags tx total_txs inprog nxt)).
  2: { intros x [[fnm det] trace]. unfold inspect_item_body.
       by rewrite (DoInspectItem_flow _ _ (rs_flow rs) (rs_flow rs')). }
  destruct (store_loop _ _ _ _) as [[[[stop store'] sc'] [[fnm det] trace]]|]; [|done].
  cbn [mbind option_bind]. cbv beta iota.
  assert (same_slot_run (dir_index flags)
            (mkRun (flow_set_tx_de_state (rs_flow rs) tx
                      (arr2_set (dir_index flags)
                         (mkDir store' (filestore_cnt (arr2_get (dir_index flags) d))
                            (dir_flags (arr2_get (dir_index flags) d))) d))
               det trace (rs_oracle rs))
            (mkRun (flow_set_tx_de_state (rs_flow rs') tx
                      (arr2_set (dir_index flags)
                         (mkDir store' (filestore_cnt (arr2_get (dir_index flags) d))
                            (dir_flags (arr2_get (dir_index flags) d))) d'))
               det trace (rs_oracle rs))) as Hrun.
  { split; [|done]. apply same_slot_set_tx; [done|]. by rewrite !arr2_get_set. }
  destruct stop; [done|]. by destruct (_ <? _).
Qed.

Lemma continue_tx_loop_slot (flags : Z) (alproto : AppProto) (st : AppState)
    (total_txs : Z) (n : nat) :
  ∀ tx loc rs rs',
    same_slot_run (dir_index flags) rs rs' →
    same_outcome (λ a b, a.1 = b.1 ∧ same_slot_run (dir_index flags) a.2 b.2)
      (continue_tx_loop n flags alproto st total_txs tx loc rs)
      (continue_tx_loop n flags alproto st total_txs tx loc rs').
Proof.
  induction n as [|n IH]; intros tx loc rs rs' Hrun; simpl; [done|].
  pose proof (continue_tx_body_slot flags alproto st total_txs tx loc rs rs' Hrun) as Hb.
  destruct (continue_tx_body _ _ _ _ _ _ rs) as [[[exit loc1] rs1]|],
    (continue_tx_body _ _ _ _ _ _ rs') as [[[exit' loc1'] rs1']|]; try done.
  destruct Hb as [[= <- <-] Hrun1]. simpl.
  destruct exit; [by apply IH|done|done].
Qed.

Lemma continue_flow_part_slot (flags : Z) (alproto : AppProto) (alversion : Z)
    (loc : ContLocals) (rs rs' : RunState) :
  same_slot_run (dir_index flags) rs rs' →
  same_outcome (same_slot_run (dir_index flags))
    (continue_flow_part flags alproto alversion loc rs)
    (continue_flow_part flags alproto alversion loc rs').
Proof.
  intros (Hf & Hdet & Htr & Ho).
  pose proof Hf as (Hp & Hpm & Hap & Hal & Hid & Htx & Hde & Hver).
  unfold continue_flow_part.
  destruct (de_state (rs_flow rs)) as [d|], (de_state (rs_flow rs')) as [d'|]; try done.
  injection Hde as Hd. rewrite Hd, Hdet, Htr, Ho.
  rewrite (store_loop_ext
             (inspect_flow_rule_body (fdir_flags (arr2_get (dir_index flags) d))
                (rs_flow rs') alproto flags)
             (inspect_flow_rule_body (fdir_flags (arr2_get (dir_index flags) d))
                (rs_flow rs) alproto flags)).
  2: { intros x [det trace]. unfold inspect_flow_rule_body.
       by rewrite (DoInspectFlowRule_flow _ _ (rs_flow rs) (rs_flow rs')). }
  destruct (store_loop _ _ _ _) as [[[[stop store'] sc'] [det trace]]|]; [|done].
  cbn [mbind option_bind]. cbv beta iota.
  assert (same_slot (dir_index flags)
            (flow_set_de_state (rs_flow rs)
               (Some (arr2_set (dir_index flags)
                        (mkDirFlow store' (fdir_flags (arr2_get (dir_index flags) d))) d)))
            (flow_set_de_state (rs_flow rs')
               (Some (arr2_set (dir_index flags)
                        (mkDirFlow store' (fdir_flags (arr2_get (dir_index flags) d)))
                        d')))) as Hset.
  { apply same_slot_set_de; [done|]. simpl. by rewrite !arr2_get_set. }
  destruct stop; (split; [|done]); [done|]. by apply same_slot_version.
Qed.

Lemma driver_end_slot (i : nat) (rs rs' : RunState) :
  same_slot_run i rs rs' → same_slot_run i (driver_end rs) (driver_end rs').
Proof. intros (? & Hdet & ? & ?). split; [done|]. simpl. by rewrite Hdet. Qed.

Lemma continue_driver_slot (flags : Z) (alproto : AppProto) (alversion : Z)
    (rs rs' : RunState) :
  same_slot_run (dir_index flags) rs rs' →
  same_outcome (same_slot_run (dir_index flags))
    (DeStateDetectContinueDetection flags alproto alversion rs)
    (DeStateDetectContinueDetection flags alproto alversion rs').
Proof.
  intros Hrun. pose proof Hrun as ((Hp & Hpm & Hap & Hal & Hid & _) & _).
  assert (∀ loc (rs1 rs1' : RunState),
            same_slot_run (dir_index flags) rs1 rs1' →
            same_outcome (same_slot_run (dir_index flags))
              (driver_end <$> continue_flow_part flags alproto alversion loc rs1)
              (driver_end <$> continue_flow_part flags alproto alversion loc rs1'))
    as Hflow.
  { intros loc rs1 rs1' H1.
    pose proof (continue_flow_part_slot flags alproto alversion loc rs1 rs1' H1) as Hfp.
    destruct (continue_flow_part _ _ _ _ rs1) as [rs2|],
      (continue_flow_part _ _ _ _ rs1') as [rs2'|]; try done.
    simpl. by apply driver_end_slot. }
  unfold DeStateDetectContinueDetection, FlowGetAppState. rewrite Hp, Hal, Hid.
  destruct (AppLayerParserProtocolSupportsTxs _ _); [|by apply Hflow].
  destruct (alstate (rs_flow rs)) as [st|]; [|done].
  destruct (negb _); [done|].
  pose proof (continue_tx_loop_slot flags alproto st (AppLayerParserGetTxCnt st)
                (Z.to_nat (AppLayerParserGetTxCnt st
                           - alparser_inspect_id (rs_flow rs) flags))
                (alparser_inspect_id (rs_flow rs) flags) (mkContLocals 0 0) rs rs' Hrun)
    as Hl.
  destruct (continue_tx_loop _ _ _ _ _ _ _ rs) as [[[goto_end loc1] rs1]|],
    (continue_tx_loop _ _ _ _ _ _ _ rs') as [[[goto_end' loc1'] rs1']|]; try done.
  destruct Hl as [[= <- <-] H1]. simpl.
  destruct goto_end; [by apply driver_end_slot|by apply Hflow].
Qed.

Lemma StoreStateTxHandleFiles_slot (det : DetectEngineThreadCtx)
    (d d' : DetectEngineState) (flags tx fnm : Z) :
  arr2_get (dir_index flags) d' = arr2_get (dir_index flags) d →
  (StoreStateTxHandleFiles det d' flags tx fnm).2
  = (StoreStateTxHandleFiles det d flags tx fnm).2
  ∧ arr2_get (dir_index flags) (StoreStateTxHandleFiles det d' flags tx fnm).1
    = arr2_get (dir_index flags) (StoreStateTxHandleFiles det d flags tx fnm).1.
Proof.
  intros Hd.
  unfold StoreStateTxHandleFiles, DeStateStoreFilestoreSigsCantMatch,
    DeStateStoreFileNoMatchCnt.
  rewrite !arr2_get_set, Hd. cbn [filestore_cnt].
  destruct (_ =? 1); cbn [fst snd]; by rewrite !arr2_get_set.
Qed.

Lemma tx_destate_get_or_alloc_slot (i : nat) (f f' : Flow) (tx : Z) (t : Tx)
    (oracle : list bool) :
  same_slot i f f' →
  same_outcome
    (λ a b, a.2 = b.2 ∧ arr2_get i <$> b.1 = arr2_get i <$> a.1)
    (tx_destate_get_or_alloc f tx t oracle) (tx_destate_get_or_alloc f' tx t oracle).
Proof.
  intros (_ & _ & _ & _ & _ & Htx & _). pose proof (Htx tx) as Hd.
  unfold tx_destate_get_or_alloc, AppLayerParserGetTxDetectState.
  destruct (tx_de_state f !! tx) as [d|], (tx_de_state f' !! tx) as [d'|]; try done.
  unfold DetectEngineStateAlloc. destruct (SCMalloc oracle) as [[] o1]; [|done].
  by destruct (tx_set_state_err t).
Qed.

Lemma DeStateSignatureAppend_slot (state state' : DetectEngineState) (s : Signature)
    (fl direction : Z) (oracle : list bool) :
  arr2_get (dir_index direction) state' = arr2_get (dir_index direction) state →
  same_outcome
    (λ a b, a.2 = b.2 ∧ arr2_get (dir_index direction) b.1 = arr2_get (dir_index direction) a.1)
    (DeStateSignatureAppend state s fl direction oracle)
    (DeStateSignatureAppend state' s fl direction oracle).
Proof.
  intros Hd. unfold DeStateSignatureAppend. rewrite Hd.
  destruct (StoreAppend _ _ _ _) as [[st o1]|]; [|done]. simpl.
  by rewrite !arr2_get_set.
Qed.

Lemma DeStateFlowRuleAppend_slot (state state' : DetectEngineStateFlow) (s : Signature)
    (sm : list SigMatch) (fl direction : Z) (oracle : list bool) :
  arr2_get (dir_index direction) state' = arr2_get (dir_index direction) state →
  same_outcome
    (λ a b, a.2 = b.2 ∧ arr2_get (dir_index direction) b.1 = arr2_get (dir_index direction) a.1)
    (DeStateFlowRuleAppend state s sm fl direction oracle)
    (DeStateFlowRuleAppend state' s sm fl direction oracle).
Proof.
  intros Hd. unfold DeStateFlowRuleAppend. rewrite Hd.
  destruct (StoreAppend _ _ _ _) as [[st o1]|]; [|done]. simpl.
  by rewrite !arr2_get_set.
Qed.

Lemma StoreStateTxFileOnly_slot (flags tx : Z) (t : Tx) (fnm : Z) (rs rs' : RunState) :
  same_slot_run (dir_index flags) rs rs' →
  same_outcome (same_slot_run (dir_index flags))
    (StoreStateTxFileOnly flags tx t fnm rs) (StoreStateTxFileOnly flags tx t fnm rs').
Proof.
  intros (Hf & Hdet & Htr & Ho).
  pose proof Hf as (Hp & Hpm & Hap & Hal & Hid & Htx & Hde & Hver).
  unfold StoreStateTxFileOnly. rewrite Hp, Hap, Ho, Hdet, Htr.
  destruct (AppLayerParserSupportsTxDetectState _ _); [|done].
  pose proof (tx_destate_get_or_alloc_slot (dir_index flags) (rs_flow rs) (rs_flow rs')
                tx t (rs_oracle rs) Hf) as Hg.
  destruct (tx_destate_get_or_alloc (rs_flow rs) _ _ _) as [[d o1]|],
    (tx_destate_get_or_alloc (rs_flow rs') _ _ _) as [[d' o1']|]; try done.
  destruct Hg as [Ho1 Hd]. simpl in Ho1, Hd. subst o1'. simpl.
  destruct d as [d|], d' as [d'|]; try done.
  injection Hd as Hd.
  destruct (StoreStateTxHandleFiles_slot (rs_det rs) d d' flags tx fnm Hd) as [Hev Hsl].
  destruct (StoreStateTxHandleFiles _ d _ _ _) as [d1 evs],
    (StoreStateTxHandleFiles _ d' _ _ _) as [d1' evs'].
  simpl in Hev, Hsl. subst evs'. split; [|done]. by apply same_slot_set_tx.
Qed.

Lemma StoreStateTx_slot (flags alversion tx : Z) (t : Tx) (s : Signature)
    (iflags fnm : Z) (rs rs' : RunState) :
  same_slot_run (dir_index flags) rs rs' →
  same_outcome (same_slot_run (dir_index flags))
    (StoreStateTx flags alversion tx t s iflags fnm rs)
    (StoreStateTx flags alversion tx t s iflags fnm rs').
Proof.
  intros (Hf & Hdet & Htr & Ho).
  pose proof Hf as (Hp & Hpm & Hap & Hal & Hid & Htx & Hde & Hver).
  unfold StoreStateTx. rewrite Hp, Hap, Ho, Hdet, Htr.
  destruct (AppLayerParserSupportsTxDetectState _ _); [|done].
  pose proof (tx_destate_get_or_alloc_slot (dir_index flags) (rs_flow rs) (rs_flow rs')
                tx t (rs_oracle rs) Hf) as Hg.
  destruct (tx_destate_get_or_alloc (rs_flow rs) _ _ _) as [[d o1]|],
    (tx_destate_get_or_alloc (rs_flow rs') _ _ _) as [[d' o1']|]; try done.
  destruct Hg as [Ho1 Hd]. simpl in Ho1, Hd. subst o1'. simpl.
  destruct d as [d|], d' as [d'|]; try done.
  injection Hd as Hd.
  pose proof (DeStateSignatureAppend_slot d d' s iflags flags o1 Hd) as Ha.
  destruct (DeStateSignatureAppend d _ _ _ _) as [[d1 o2]|],
    (DeStateSignatureAppend d' _ _ _ _) as [[d1' o2']|]; try done.
  destruct Ha as [Ho2 Hd1]. simpl in Ho2, Hd1. subst o2'. simpl.
  destruct (StoreStateTxHandleFiles_slot (rs_det rs) d1 d1' flags tx fnm Hd1) as [Hev Hsl].
  destruct (StoreStateTxHandleFiles _ d1 _ _ _) as [d2 evs],
    (StoreStateTxHandleFiles _ d1' _ _ _) as [d2' evs'].
  simpl in Hev, Hsl. subst evs'. split; [|done].
  apply same_slot_set_tx; [|done]. by apply same_slot_version.
Qed.

Lemma StoreState_slot (flags alversion : Z) (s : Signature) (sm : list SigMatch)
    (iflags : Z) (rs rs' : RunState) :
  same_slot_run (dir_index flags) rs rs' →
  same_outcome (λ a b, a.1 = b.1 ∧ same_slot_run (dir_index flags) a.2 b.2)
    (StoreState flags alversion s sm iflags rs)
    (StoreState flags alversion s sm iflags rs').
Proof.
  intros (Hf & Hdet & Htr & Ho).
  pose proof Hf as (Hp & Hpm & Hap & Hal & Hid & Htx & Hde & Hver).
  unfold StoreState. rewrite Ho, Hdet, Htr.
  assert (∀ (st st' : DetectEngineStateFlow) o1,
            arr2_get (dir_index flags) st' = arr2_get (dir_index flags) st →
            same_outcome (λ a b, a.1 = b.1 ∧ same_slot_run (dir_index flags) a.2 b.2)
              ('(st1, oracle2) ← DeStateFlowRuleAppend st s sm iflags flags o1;
               Some (1, mkRun (DeStateStoreStateVersion
                                 (flow_set_de_state (rs_flow rs) (Some st1))
                                 alversion flags)
                          (rs_det rs) (rs_trace rs) oracle2))
              ('(st1, oracle2) ← DeStateFlowRuleAppend st' s sm iflags flags o1;
               Some (1, mkRun (DeStateStoreStateVersion
                                 (flow_set_de_state (rs_flow rs') (Some st1))
                                 alversion flags)
                          (rs_det rs) (rs_trace rs) oracle2))) as Hgen.
  { intros st st' o1 Hst.
    pose proof (DeStateFlowRuleAppend_slot st st' s sm iflags flags o1 Hst) as Ha.
    destruct (DeStateFlowRuleAppend st _ _ _ _ _) as [[st1 o2]|],
      (DeStateFlowRuleAppend st' _ _ _ _ _) as [[st1' o2']|]; try done.
    destruct Ha as [Ho2 Hst1]. simpl in Ho2, Hst1. subst o2'. simpl.
    split; [done|]. split; [|done].
    apply same_slot_version, same_slot_set_de; [done|]. simpl. by rewrite Hst1. }
  destruct (de_state (rs_flow rs)) as [st|], (de_state (rs_flow rs')) as [st'|]; try done.
  - injection Hde as Hst. by apply Hgen.
  - unfold DetectEngineStateFlowAlloc. destruct (SCMalloc _) as [[] o1].
    + by apply Hgen.
    + simpl. done.
Qed.

Lemma alert_or_apply_slot (i : nat) (s : Signature) (tx fl : Z) (rs rs' : RunState) :
  same_slot_run i rs rs' →
  same_slot_run i (alert_or_apply s tx fl rs) (alert_or_apply s tx fl rs').
Proof.
  intros (? & ? & Htr & ?). unfold alert_or_apply, rs_emit.
  destruct (negb _); (split; [done|]); simpl; by rewrite Htr.
Qed.

Lemma start_tx_body_slot (s : Signature) (flags : Z) (alproto : AppProto)
    (alversion : Z) (st : AppState) (total_txs tx : Z) (loc : StartLocals)
    (rs rs' : RunState) :
  same_slot_run (dir_index flags) rs rs' →
  same_outcome (λ a b, a.1 = b.1 ∧ same_slot_run (dir_index flags) a.2 b.2)
    (start_tx_body s flags alproto alversion st total_txs tx loc rs)
    (start_tx_body s flags alproto alversion st total_txs tx loc rs').
Proof.
  intros Hrun. pose proof Hrun as ((Hp & Hpm & Hap & Hal & Hid & _) & Hdet & _).
  unfold start_tx_body.
  destruct (AppLayerParserGetTx st tx) as [t|]; [|by simpl].
  cbn [rs_flow rs_with_det]. rewrite Hp, Hpm, Hdet.
  destruct (start_engine_loop _ _ _ _ _ _ _ _) as [[[engine iflags] tm] fnm].
  set (rs0 := rs_with_det (det_set_tx tx 1 (rs_det rs)) rs).
  set (rs0' := rs_with_det (det_set_tx tx 1 (rs_det rs)) rs').
  assert (same_slot_run (dir_index flags) rs0 rs0') as H0'.
  { destruct Hrun as (? & ? & ? & ?). split; [done|]. done. }
  set (rs1 := if is_nil engine && (0 <? tm) then alert_or_apply _ _ _ rs0 else rs0).
  set (rs1' := if is_nil engine && (0 <? tm) then alert_or_apply _ _ _ rs0' else rs0').
  assert (same_slot_run (dir_index flags) rs1 rs1') as H1.
  { unfold rs1, rs1'. destruct (_ && _); [by apply alert_or_apply_slot|done]. }
  destruct (_ || _); [|done].
  destruct (_ || _).
  - pose proof (StoreStateTx_slot flags alversion tx t s
                  (if is_nil engine || has iflags DE_STATE_FLAG_SIG_CANT_MATCH
                   then Z.lor iflags DE_STATE_FLAG_FULL_INSPECT else iflags)
                  fnm rs1 rs1' H1) as Hs.
    destruct (StoreStateTx _ _ _ _ _ _ _ rs1) as [rs2|],
      (StoreStateTx _ _ _ _ _ _ _ rs1') as [rs2'|]; done.
  - pose proof (StoreStateTxFileOnly_slot flags tx t fnm rs1 rs1' H1) as Hs.
    destruct (StoreStateTxFileOnly _ _ _ _ rs1) as [rs2|],
      (StoreStateTxFileOnly _ _ _ _ rs1') as [rs2'|]; done.
Qed.

Lemma start_tx_loop_slot (s : Signature) (flags : Z) (alproto : AppProto)
    (alversion : Z) (st : AppState) (total_txs : Z) (n : nat) :
  ∀ tx loc rs rs',
    same_slot_run (dir_index flags) rs rs' →
    same_outcome (λ a b, a.1 = b.1 ∧ same_slot_run (dir_index flags) a.2 b.2)
      (start_tx_loop n s flags alproto alversion st total_txs tx loc rs)
      (start_tx_loop n s flags alproto alversion st total_txs tx loc rs').
Proof.
  induction n as [|n IH]; intros tx loc rs rs' Hrun; simpl; [done|].
  pose proof (start_tx_body_slot s flags alproto alversion st total_txs tx loc rs rs' Hrun)
    as Hb.
  destruct (start_tx_body _ _ _ _ _ _ _ _ rs) as [[loc1 rs1]|],
    (start_tx_body _ _ _ _ _ _ _ _ rs') as [[loc1' rs1']|]; try done.
  destruct Hb as [Hl Hrun1]. simpl in Hl, Hrun1. subst loc1'. simpl. by apply IH.
Qed.

Lemma start_flow_part_slot (s : Signature) (flags : Z) (alproto : AppProto)
    (alversion : Z) (loc : StartLocals) (rs rs' : RunState) :
  same_slot_run (dir_index flags) rs rs' →
  same_outcome (λ a b, a.1 = b.1 ∧ same_slot_run (dir_index flags) a.2 b.2)
    (start_flow_part s flags alproto alversion loc rs)
    (start_flow_part s flags alproto alversion loc rs').
Proof.
  intros Hrun. pose proof Hrun as ((Hp & Hpm & Hap & Hal & Hid & _) & Hdet & _).
  unfold start_flow_part, FlowGetAppState. rewrite Hal.
  destruct (sm_lists s DETECT_SM_LIST_AMATCH) as [|m sm]; [done|].
  destruct (alstate (rs_flow rs)) as [st|]; [|done].
  destruct (start_amatch_loop _ _ _ _ _ _ _) as [[sm' match_] iflags].
  set (rs1 := if _ && _ then alert_or_apply _ _ _ rs else rs).
  set (rs1' := if _ && _ then alert_or_apply _ _ _ rs' else rs').
  assert (same_slot_run (dir_index flags) rs1 rs1') as H1.
  { unfold rs1, rs1'. destruct (_ && _); [by apply alert_or_apply_slot|done]. }
  pose proof (StoreState_slot flags alversion s sm'
                (if is_nil sm' || has iflags DE_STATE_FLAG_SIG_CANT_MATCH
                 then Z.lor iflags DE_STATE_FLAG_FULL_INSPECT else iflags)
                rs1 rs1' H1) as Hs.
  destruct (StoreState _ _ _ _ _ rs1) as [[r rs2]|],
    (StoreState _ _ _ _ _ rs1') as [[r' rs2']|]; try done.
  destruct Hs as [_ Hs]. done.
Qed.

Lemma start_driver_slot (s : Signature) (flags : Z) (alproto : AppProto)
    (alversion : Z) (rs rs' : RunState) :
  same_slot_run (dir_index flags) rs rs' →
  same_outcome (λ a b, a.1 = b.1 ∧ same_slot_run (dir_index flags) a.2 b.2)
    (DeStateDetectStartDetection s flags alproto alversion rs)
    (DeStateDetectStartDetection s flags alproto alversion rs').
Proof.
  intros Hrun. pose proof Hrun as ((Hp & Hpm & Hap & Hal & Hid & _) & _).
  assert (∀ loc (rs1 rs1' : RunState),
            same_slot_run (dir_index flags) rs1 rs1' →
            same_outcome (λ a b, a.1 = b.1 ∧ same_slot_run (dir_index flags) a.2 b.2)
              ((λ r0 : StartLocals * RunState,
                  (if sl_alert_cnt r0.1 =? 0 then 0 else 1, driver_end r0.2))
                 <$> start_flow_part s flags alproto alversion loc rs1)
              ((λ r0 : StartLocals * RunState,
                  (if sl_alert_cnt r0.1 =? 0 then 0 else 1, driver_end r0.2))
                 <$> start_flow_part s flags alproto alversion loc rs1')) as Hflow.
  { intros loc rs1 rs1' H1.
    pose proof (start_flow_part_slot s flags alproto alversion loc rs1 rs1' H1) as Hfp.
    destruct (start_flow_part _ _ _ _ _ rs1) as [[loc2 rs2]|],
      (start_flow_part _ _ _ _ _ rs1') as [[loc2' rs2']|]; try done.
    destruct Hfp as [Hl H2]. simpl in Hl, H2. subst loc2'. simpl.
    split; [done|]. by apply driver_end_slot. }
  unfold DeStateDetectStartDetection, FlowGetAppState. rewrite Hp, Hal, Hid.
  destruct (AppLayerParserProtocolSupportsTxs _ _).
  - destruct (negb _); [simpl; split; [done|by apply driver_end_slot]|].
    destruct (alstate (rs_flow rs)) as [st|];
      [|simpl; split; [done|by apply driver_end_slot]].
    pose proof (start_tx_loop_slot s flags alproto alversion st (AppLayerParserGetTxCnt st)
                  (Z.to_nat (AppLayerParserGetTxCnt st
                             - alparser_inspect_id (rs_flow rs) flags))
                  (alparser_inspect_id (rs_flow rs) flags) (mkStartLocals 0 0 0)
                  rs rs' Hrun) as Hl.
    destruct (start_tx_loop _ _ _ _ _ _ _ _ _ rs) as [[loc1 rs1]|],
      (start_tx_loop _ _ _ _ _ _ _ _ _ rs') as [[loc1' rs1']|]; try done.
    destruct Hl as [Hl H1]. simpl in Hl, H1. subst loc1'. simpl. by apply Hflow.
  - destruct (_ && _); [|by apply Hflow].
    destruct (alstate (rs_flow rs)) as [st|];
      [|simpl; split; [done|by apply driver_end_slot]].
    unfold start_dce_part.
    destruct (if is_smb alproto then _ else _); [|by apply Hflow].
    apply Hflow. by apply alert_or_apply_slot.
Qed.

Lemma HasStoredSigs_tx_loop_slot (f f' : Flow) (st : AppState) (flags : Z) (n : nat) :
  same_slot (dir_index flags) f f' →
  ∀ tx, HasStoredSigs_tx_loop n f' st flags tx = HasStoredSigs_tx_loop n f st flags tx.
Proof.
  intros (_ & _ & _ & _ & _ & Htx & _).
  induction n as [|n IH]; intros tx; simpl; [done|].
  unfold AppLayerParserGetTxDetectState. pose proof (Htx tx) as Hd.
  destruct (AppLayerParserGetTx st tx); [|apply IH].
  destruct (tx_de_state f !! tx) as [d|], (tx_de_state f' !! tx) as [d'|]; try done.
  injection Hd as ->. by rewrite IH.
Qed.

Lemma HasStoredSigs_slot (f f' : Flow) (flags : Z) :
  same_slot (dir_index flags) f f' → HasStoredSigs f' flags = HasStoredSigs f flags.
Proof.
  intros Hf. pose proof Hf as (Hp & Hpm & Hap & Hal & Hid & Htx & Hde & Hver).
  unfold HasStoredSigs, FlowGetAppState. rewrite Hp, Hap, Hal, Hid.
  assert (match de_state f' with
          | Some d => dir_cnt_nonzero (fdir_store (arr2_get (dir_index flags) d))
          | None => false
          end
          = match de_state f with
            | Some d => dir_cnt_nonzero (fdir_store (arr2_get (dir_index flags) d))
            | None => false
            end) as ->.
  { destruct (de_state f) as [d|], (de_state f') as [d'|]; try done.
    injection Hde as ->. done. }
  destruct (match de_state f with Some _ => _ | None => _ end); [done|].
  destruct (AppLayerParserProtocolSupportsTxs _ _); [|done].
  destruct (alstate f) as [st|]; [|done].
  destruct (negb _); [done|]. by apply HasStoredSigs_tx_loop_slot.
Qed.

Lemma DeStateFlowHasInspectableState_slot (f f' : Flow) (alproto : AppProto)
    (alversion flags : Z) :
  same_slot (dir_index flags) f f' →
  DeStateFlowHasInspectableState f' alproto alversion flags
  = DeStateFlowHasInspectableState f alproto alversion flags.
Proof.
  intros Hf. pose proof Hf as (Hp & Hpm & Hap & Hal & Hid & Htx & Hde & Hver).
  unfold DeStateFlowHasInspectableState.
  rewrite (HasStoredSigs_slot f f' flags Hf), Hver.
  assert (bool_decide (is_Some (de_state f')) = bool_decide (is_Some (de_state f))) as ->;
    [|done].
  destruct (de_state f) as [d|], (de_state f') as [d'|]; try done.
Qed.

End SlotUseProofs.

(** ** The slot of each operation *)

Section SlotOfOperation.
Context `{EngineHeader} `{External}.

(** C10, as the code has it.  The append functions, the version store,
    the filestore counting, the pre-check and the two drivers work on the
    slot [dir_index flags], which is 0 when STREAM_TOSERVER is set and 1
    otherwise, so a flags value with neither direction bit goes to slot 1.
    The appends write the store of that slot from the store of that slot,
    the version store and the counting write that slot, and none of them,
    nor a driver call, changes anything in the other slot.  Nothing they
    do depends on the other slot either: the filestore comparison, the
    pre-check and the two drivers, run on two states that agree on the
    slot [dir_index flags] and on everything outside the two slots, give
    the same answer, the same alerts and the same remaining allocator
    answers, and leave two states that agree in the same way; the
    pre-check also gives the same answer for two flags values with the
    same STREAM_TOSERVER bit (the STREAM_EOF bit and the inspect id being
    the same).  The two resets are different: [DetectEngineStateReset]
    resets slot 0 exactly when STREAM_TOSERVER is set and slot 1 exactly
    when STREAM_TOCLIENT is set, each bit on its own, and
    [DetectEngineStateResetTxs] takes no direction and empties both slots
    of every transaction it visits, leaving the others as they are. *)
Theorem C10_slot_of_each_operation :
  (∀ flags, (dir_index flags = 0%nat ↔ has flags STREAM_TOSERVER = true)
            ∧ (dir_index flags = 1%nat ↔ has flags STREAM_TOSERVER = false))
  ∧ (∀ flags, has flags STREAM_TOSERVER = false → has flags STREAM_TOCLIENT = false →
       dir_index flags = 1%nat)
  ∧ (∀ (state state' : DetectEngineState) s fl direction oracle oracle',
       DeStateSignatureAppend state s fl direction oracle = Some (state', oracle') →
       arr2_get (1 - dir_index direction) state' = arr2_get (1 - dir_index direction) state
       ∧ StoreAppend DeStateStoreItem_zero
           (dir_store (arr2_get (dir_index direction) state)) (mkItem (num s) fl) oracle
         = Some (dir_store (arr2_get (dir_index direction) state'), oracle'))
  ∧ (∀ (state state' : DetectEngineStateFlow) s sm fl direction oracle oracle',
       DeStateFlowRuleAppend state s sm fl direction oracle = Some (state', oracle') →
       arr2_get (1 - dir_index direction) state' = arr2_get (1 - dir_index direction) state
       ∧ StoreAppend DeStateStoreFlowRule_zero
           (fdir_store (arr2_get (dir_index direction) state)) (mkFlowRule sm fl (num s))
           oracle
         = Some (fdir_store (arr2_get (dir_index direction) state'), oracle'))
  ∧ (∀ f alversion direction,
       let f' := DeStateStoreStateVersion f alversion direction in
       arr2_get (dir_index direction) (detect_alversion f') = alversion
       ∧ slot_frame (dir_index direction) f f')
  ∧ (∀ (st : DetectEngineState) file_no_match direction,
       let st' := DeStateStoreFileNoMatchCnt st file_no_match direction in
       filestore_cnt (arr2_get (dir_index direction) st')
       = u16 (filestore_cnt (arr2_get (dir_index direction) st) + file_no_match)
       ∧ arr2_get (1 - dir_index direction) st' = arr2_get (1 - dir_index direction) st)
  ∧ (∀ det (st st' : DetectEngineState) direction,
       arr2_get (dir_index direction) st' = arr2_get (dir_index direction) st →
       DeStateStoreFilestoreSigsCantMatch det st' direction
       = DeStateStoreFilestoreSigsCantMatch det st direction)
  ∧ (∀ f alproto alversion flags flags',
       has flags STREAM_TOSERVER = has flags' STREAM_TOSERVER →
       has flags STREAM_EOF = has flags' STREAM_EOF →
       alparser_inspect_id f flags = alparser_inspect_id f flags' →
       DeStateFlowHasInspectableState f alproto alversion flags
       = DeStateFlowHasInspectableState f alproto alversion flags')
  ∧ (∀ f f' alproto alversion flags,
       same_slot (dir_index flags) f f' →
       DeStateFlowHasInspectableState f' alproto alversion flags
       = DeStateFlowHasInspectableState f alproto alversion flags)
  ∧ (∀ s flags alproto alversion rs r rs',
       DeStateDetectStartDetection s flags alproto alversion rs = Some (r, rs') →
       slot_frame (dir_index flags) (rs_flow rs) (rs_flow rs'))
  ∧ (∀ s flags alproto alversion rs rs',
       same_slot_run (dir_index flags) rs rs' →
       same_outcome (λ a b, a.1 = b.1 ∧ same_slot_run (dir_index flags) a.2 b.2)
         (DeStateDetectStartDetection s flags alproto alversion rs)
         (DeStateDetectStartDetection s flags alproto alversion rs'))
  ∧ (∀ flags alproto alversion rs rs',
       DeStateDetectContinueDetection flags alproto alversion rs = Some rs' →
       slot_frame (dir_index flags) (rs_flow rs) (rs_flow rs'))
  ∧ (∀ flags alproto alversion rs rs',
       same_slot_run (dir_index flags) rs rs' →
       same_outcome (same_slot_run (dir_index flags))
         (DeStateDetectContinueDetection flags alproto alversion rs)
         (DeStateDetectContinueDetection flags alproto alversion rs'))
  ∧ (∀ (st : DetectEngineStateFlow) direction,
       ∃ st', DetectEngineStateReset (Some st) direction = Some st'
         ∧ arr2_get 0 st'
           = (if has direction STREAM_TOSERVER
              then mkDirFlow (DirStore_reset (fdir_store (arr2_get 0 st))) 0
              else arr2_get 0 st)
         ∧ arr2_get 1 st'
           = (if has direction STREAM_TOCLIENT
              then mkDirFlow (DirStore_reset (fdir_store (arr2_get 1 st))) 0
              else arr2_get 1 st))
  ∧ (∀ f k,
       match tx_de_state f !! k, tx_de_state (DetectEngineStateResetTxs f) !! k with
       | Some d, Some d' => if reset_applies f k then emptied d d' else d' = d
       | None, None => True
       | _, _ => False
       end).
Proof.
  split.
  { intros flags. unfold dir_index. by destruct (has flags STREAM_TOSERVER). }
  split; [by intros flags Hs _; unfold dir_index; rewrite Hs|].
  split; [intros; by eapply DeStateSignatureAppend_frame|].
  split; [intros; by eapply DeStateFlowRuleAppend_frame|].
  split.
  { intros f alversion direction. simpl. split; [apply arr2_get_set|].
    apply slot_frame_version. }
  split.
  { intros st n direction. simpl. unfold DeStateStoreFileNoMatchCnt.
    split; [by rewrite arr2_get_set|]. apply arr2_get_set_flip, dir_index_lt. }
  split.
  { intros det st st' direction Hst. unfold DeStateStoreFilestoreSigsCantMatch.
    by rewrite Hst. }
  split.
  { intros f alproto alversion flags flags' Hs He Hid.
    pose proof (dir_index_bit _ _ Hs) as Hd.
    unfold DeStateFlowHasInspectableState, HasStoredSigs. rewrite He, Hd, Hid.
    destruct (FlowGetAppState f) as [st|]; [|done].
    by rewrite (HasStoredSigs_tx_loop_flags _ _ _ _ _ Hd). }
  split; [intros; by apply DeStateFlowHasInspectableState_slot|].
  split; [intros; by eapply start_driver_frame|].
  split; [intros; by apply start_driver_slot|].
  split; [intros; by eapply continue_driver_frame|].
  split; [intros; by apply continue_driver_slot|].
  split.
  { intros [d0 d1] direction. eexists. split; [done|].
    by destruct (has direction STREAM_TOSERVER), (has direction STREAM_TOCLIENT). }
  intros f k. rewrite ResetTxs_lookup.
  destruct (tx_de_state f !! k) as [d|].
  - destruct (reset_applies f k); simpl; [apply DetectEngineState_reset_emptied|done].
  - by destruct (reset_applies f k).
Qed.

End SlotOfOperation.

(** The theorem on the flow with a new file: a continue call for slot 1
    does the same on the flow and on the flow with another version stored
    in slot 0. *)
Lemma C10_slot_of_each_operation_witness :
  same_slot_run (dir_index 8) (run0 flow_new_file [])
    (run0 (DeStateStoreStateVersion flow_new_file 9 4) [])
  ∧ same_outcome (same_slot_run (dir_index 8))
      (DeStateDetectContinueDetection 8 ALPROTO_HTTP 1 (run0 flow_new_file []))
      (DeStateDetectContinueDetection 8 ALPROTO_HTTP 1
         (run0 (DeStateStoreStateVersion flow_new_file 9 4) [])).
Proof.
  assert (same_slot_run (dir_index 8) (run0 flow_new_file [])
            (run0 (DeStateStoreStateVersion flow_new_file 9 4) [])) as Hsame.
  { repeat split; reflexivity. }
  split; [exact Hsame|].
  apply (proj1 (proj2 (proj2 (proj2 (proj2 (proj2 (proj2 (proj2 (proj2 (proj2 (proj2
           (proj2 (proj2 C10_slot_of_each_operation))))))))))))
           8 ALPROTO_HTTP 1 (run0 flow_new_file [])
           (run0 (DeStateStoreStateVersion flow_new_file 9 4) []) Hsame).
Defined.

(** The two flows of the last lemma differ in slot 0 of the stored
    versions, before the call and after it. *)
Example other_slot_differs :
  arr2_get 0 (detect_alversion flow_new_file)
  ≠ arr2_get 0 (detect_alversion (DeStateStoreStateVersion flow_new_file 9 4))
  ∧ (arr2_get 0 ∘ detect_alversion ∘ rs_flow
       <$> DeStateDetectContinueDetection 8 ALPROTO_HTTP 1 (run0 flow_new_file []))
    ≠ (arr2_get 0 ∘ detect_alversion ∘ rs_flow
         <$> DeStateDetectContinueDetection 8 ALPROTO_HTTP 1
               (run0 (DeStateStoreStateVersion flow_new_file 9 4) [])).
Proof. split; vm_compute; congruence. Qed.

(** ** Resuming flow-scoped signatures *)

Section ResumeFlowProofs.
Context `{EngineHeader} `{External}.

Lemma start_amatch_loop_cons (alproto : AppProto) (st : AppState) (flags : Z)
    (s : Signature) (m : SigMatch) (next : list SigMatch) (mt ifl : Z) :
  start_amatch_loop (m :: next) s st flags alproto mt ifl
  = match keyword_answer alproto st flags s m with
    | None => start_amatch_loop next s st flags alproto mt ifl
    | Some r =>
        if r =? 0 then (m :: next, r, ifl)
        else if r =? 2 then (m :: next, r, Z.lor ifl DE_STATE_FLAG_SIG_CANT_MATCH)
        else start_amatch_loop next s st flags alproto r ifl
    end.
Proof.
  unfold keyword_answer. cbn [start_amatch_loop].
  by destruct (sigmatch_table_AppLayerMatch (sm_type m)).
Qed.

Lemma continue_amatch_loop_cons (alproto : AppProto) (st : AppState) (flags : Z)
    (s : Signature) (m : SigMatch) (next : list SigMatch) (ifl tm : Z) :
  continue_amatch_loop (m :: next) s st flags alproto ifl tm
  = match keyword_answer alproto st flags s m with
    | None => continue_amatch_loop next s st flags alproto ifl tm
    | Some r =>
        if r =? 0 then (m :: next, ifl, tm)
        else if r =? 2 then
          continue_amatch_loop next s st flags alproto
            (Z.lor ifl DE_STATE_FLAG_SIG_CANT_MATCH) tm
        else if r =? 1 then continue_amatch_loop next s st flags alproto ifl (tm + 1)
        else continue_amatch_loop next s st flags alproto ifl tm
    end.
Proof.
  unfold keyword_answer. cbn [continue_amatch_loop].
  by destruct (sigmatch_table_AppLayerMatch (sm_type m)).
Qed.

Lemma keyword_answer_none (alproto : AppProto) (st st' : AppState) (flags : Z)
    (s : Signature) (m : SigMatch) :
  keyword_answer alproto st flags s m = None →
  keyword_answer alproto st' flags s m = None.
Proof. unfold keyword_answer. by destruct (sigmatch_table_AppLayerMatch _). Qed.

Lemma keyword_answer_callback (alproto : AppProto) (st st' : AppState) (flags : Z)
    (s : Signature) (m : SigMatch) :
  is_Some (keyword_answer alproto st flags s m) →
  is_Some (keyword_answer alproto st' flags s m).
Proof.
  unfold keyword_answer. destruct (sigmatch_table_AppLayerMatch _); [by eexists|done].
Qed.

Lemma all_match_app (alproto : AppProto) (st : AppState) (flags : Z) (s : Signature)
    (l1 l2 : list SigMatch) :
  all_match alproto st flags s (l1 ++ l2)
  = all_match alproto st flags s l1 && all_match alproto st flags s l2.
Proof.
  induction l1 as [|m l1 IH]; [done|]. simpl.
  destruct (keyword_answer alproto st flags s m); [|done].
  by rewrite IH, andb_assoc.
Qed.

Lemma all_match_persist (alproto : AppProto) (st st2 : AppState) (flags : Z)
    (s : Signature) (sm : list SigMatch) :
  (∀ m, m ∈ sm → keyword_answer alproto st flags s m = Some 1 →
        keyword_answer alproto st2 flags s m = Some 1) →
  all_match alproto st flags s sm = true →
  all_match alproto st2 flags s sm = true.
Proof.
  induction sm as [|m sm IH]; intros Hper; [done|]. simpl.
  destruct (keyword_answer alproto st flags s m) as [r|] eqn:Hr.
  - intros [Hr1%Z.eqb_eq Hrest]%andb_true_iff. subst r.
    rewrite (Hper m ltac:(by left) Hr). simpl.
    apply IH; [|done]. intros m' Hm'. apply Hper. by right.
  - rewrite (keyword_answer_none _ _ st2 _ _ _ Hr).
    apply IH. intros m' Hm'. apply Hper. by right.
Qed.

(** The walk of the start driver over keywords that all match. *)
Lemma start_walk_all_match (alproto : AppProto) (st st' : AppState) (flags : Z)
    (s : Signature) (sm : list SigMatch) :
  all_match alproto st flags s sm = true →
  all_match alproto st' flags s sm = true →
  ∀ mt ifl,
    start_amatch_loop sm s st flags alproto mt ifl
    = start_amatch_loop sm s st' flags alproto mt ifl
    ∧ (start_amatch_loop sm s st flags alproto mt ifl).1.1 = []
    ∧ (start_amatch_loop sm s st flags alproto mt ifl).2 = ifl.
Proof.
  induction sm as [|m sm IH]; intros Ha Hb mt ifl; [done|].
  rewrite !start_amatch_loop_cons. simpl in Ha, Hb.
  destruct (keyword_answer alproto st flags s m) as [r|] eqn:Hr.
  - apply andb_true_iff in Ha as [Hr1%Z.eqb_eq Ha]. subst r.
    destruct (keyword_answer alproto st' flags s m) as [r'|] eqn:Hr';
      [|by rewrite (keyword_answer_none _ _ st _ _ _ Hr') in Hr].
    apply andb_true_iff in Hb as [Hr1%Z.eqb_eq Hb]. subst r'.
    simpl. by apply IH.
  - rewrite (keyword_answer_none _ _ st' _ _ _ Hr) in Hb |- *. by apply IH.
Qed.

(** The walk of the start driver where every answer is 0 or 1: it
    passes keywords that match and stops at the first that answers 0. *)
Lemma start_walk_01 (alproto : AppProto) (st : AppState) (flags : Z)
    (s : Signature) (sm : list SigMatch) :
  (∀ m r, m ∈ sm → keyword_answer alproto st flags s m = Some r → r = 0 ∨ r = 1) →
  ∀ mt,
    (start_amatch_loop sm s st flags alproto mt 0).2 = 0
    ∧ ∃ pre,
        sm = pre ++ (start_amatch_loop sm s st flags alproto mt 0).1.1
        ∧ all_match alproto st flags s pre = true
        ∧ match (start_amatch_loop sm s st flags alproto mt 0).1.1 with
          | [] => True
          | m :: _ => keyword_answer alproto st flags s m = Some 0
          end.
Proof.
  induction sm as [|m sm IH]; intros Hok mt.
  { split; [done|]. by exists []. }
  assert (∀ m' r, m' ∈ sm → keyword_answer alproto st flags s m' = Some r → r = 0 ∨ r = 1)
    as Hok' by (intros m' r Hm'; apply Hok; by right).
  rewrite start_amatch_loop_cons.
  destruct (keyword_answer alproto st flags s m) as [r|] eqn:Hr.
  - destruct (Hok m r ltac:(by left) Hr) as [-> | ->]; simpl.
    + split; [done|]. by exists [].
    + destruct (IH Hok' 1) as (Hifl & pre & Hsm & Hpre & Hhd).
      split; [done|]. exists (m :: pre). split; [by rewrite Hsm at 1|].
      split; [|done]. simpl. by rewrite Hr.
  - destruct (IH Hok' mt) as (Hifl & pre & Hsm & Hpre & Hhd).
    split; [done|]. exists (m :: pre). split; [by rewrite Hsm at 1|].
    split; [|done]. simpl. by rewrite Hr.
Qed.

(** After a keyword that matched, the walk of the start driver ends in
    an alert exactly when every keyword left matches. *)
Lemma start_walk_tail (alproto : AppProto) (st : AppState) (flags : Z)
    (s : Signature) (sm : list SigMatch) :
  (∀ m r, m ∈ sm → keyword_answer alproto st flags s m = Some r → r = 0 ∨ r = 1) →
  is_nil (start_amatch_loop sm s st flags alproto 1 0).1.1
  && ((start_amatch_loop sm s st flags alproto 1 0).1.2 =? 1)
  = all_match alproto st flags s sm.
Proof.
  induction sm as [|m sm IH]; intros Hok; [done|].
  assert (∀ m' r, m' ∈ sm → keyword_answer alproto st flags s m' = Some r → r = 0 ∨ r = 1)
    as Hok' by (intros m' r Hm'; apply Hok; by right).
  rewrite start_amatch_loop_cons. simpl.
  destruct (keyword_answer alproto st flags s m) as [r|] eqn:Hr; [|by apply IH].
  destruct (Hok m r ltac:(by left) Hr) as [-> | ->]; simpl; [done|by apply IH].
Qed.

Lemma start_walk_from (alproto : AppProto) (st : AppState) (flags : Z)
    (s : Signature) (m : SigMatch) (rest : list SigMatch) (pre : list SigMatch) :
  (∀ m' r, m' ∈ pre ++ m :: rest →
           keyword_answer alproto st flags s m' = Some r → r = 0 ∨ r = 1) →
  all_match alproto st flags s pre = true →
  is_Some (keyword_answer alproto st flags s m) →
  ∀ mt,
    is_nil (start_amatch_loop (pre ++ m :: rest) s st flags alproto mt 0).1.1
    && ((start_amatch_loop (pre ++ m :: rest) s st flags alproto mt 0).1.2 =? 1)
    = all_match alproto st flags s (m :: rest).
Proof.
  induction pre as [|p pre IH]; intros Hok Hpre [r Hr] mt.
  - rewrite app_nil_l, start_amatch_loop_cons. cbn [all_match]. rewrite Hr.
    destruct (Hok m r ltac:(by left) Hr) as [-> | ->]; simpl; [done|].
    apply start_walk_tail. intros m' r' Hm'. apply Hok. by right.
  - assert (∀ m' r, m' ∈ pre ++ m :: rest →
                    keyword_answer alproto st flags s m' = Some r → r = 0 ∨ r = 1)
      as Hok' by (intros m' r' Hm'; apply Hok; by right).
    rewrite <- app_comm_cons, start_amatch_loop_cons. simpl in Hpre.
    destruct (keyword_answer alproto st flags s p) as [rp|] eqn:Hrp.
    + apply andb_true_iff in Hpre as [Hr1%Z.eqb_eq Hpre]. subst rp. simpl.
      by apply IH; [| |eexists].
    + by apply IH; [| |eexists].
Qed.

(** A walk of the start driver that is decided takes the same course on
    a state where the answers other than 0 are the same. *)
Lemma start_walk_decided (alproto : AppProto) (st1 st2 : AppState) (flags : Z)
    (s : Signature) (sm : list SigMatch) :
  (∀ m, m ∈ sm → keyword_answer alproto st1 flags s m ≠ Some 0 →
        keyword_answer alproto st2 flags s m = keyword_answer alproto st1 flags s m) →
  ∀ mt,
    is_nil (start_amatch_loop sm s st1 flags alproto mt 0).1.1
    || has (start_amatch_loop sm s st1 flags alproto mt 0).2 DE_STATE_FLAG_SIG_CANT_MATCH
    = true →
    start_amatch_loop sm s st2 flags alproto mt 0
    = start_amatch_loop sm s st1 flags alproto mt 0.
Proof.
  induction sm as [|m sm IH]; intros Hsame mt; [done|].
  assert (∀ m', m' ∈ sm → keyword_answer alproto st1 flags s m' ≠ Some 0 →
                keyword_answer alproto st2 flags s m' = keyword_answer alproto st1 flags s m')
    as Hsame' by (intros m' Hm'; apply Hsame; by right).
  rewrite !start_amatch_loop_cons.
  destruct (keyword_answer alproto st1 flags s m) as [r|] eqn:Hr.
  - destruct (r =? 0) eqn:Hr0.
    + simpl. by rewrite has_zero.
    + intros Hdec. rewrite (Hsame m ltac:(by left)), Hr, Hr0; [|rewrite Hr; intros [= ->]; done].
      destruct (r =? 2); [done|]. by apply IH.
  - intros Hdec. rewrite (keyword_answer_none _ _ st2 _ _ _ Hr). by apply IH.
Qed.

(** The walk of [DoInspectFlowRule] where every answer is 0 or 1. *)
Lemma continue_walk_01 (alproto : AppProto) (st : AppState) (flags : Z)
    (s : Signature) (sm : list SigMatch) :
  (∀ m r, m ∈ sm → keyword_answer alproto st flags s m = Some r → r = 0 ∨ r = 1) →
  ∀ tm,
    ∃ pre sm' tm',
      continue_amatch_loop sm s st flags alproto 0 tm = (sm', 0, tm')
      ∧ sm = pre ++ sm'
      ∧ all_match alproto st flags s pre = true
      ∧ tm ≤ tm'
      ∧ (∀ m, m ∈ pre → is_Some (keyword_answer alproto st flags s m) → tm < tm')
      ∧ match sm' with
        | [] => True
        | m :: _ => keyword_answer alproto st flags s m = Some 0
        end.
Proof.
  induction sm as [|m sm IH]; intros Hok tm.
  { exists [], [], tm. repeat split; try done. intros m Hm. by apply elem_of_nil in Hm. }
  assert (∀ m' r, m' ∈ sm → keyword_answer alproto st flags s m' = Some r → r = 0 ∨ r = 1)
    as Hok' by (intros m' r Hm'; apply Hok; by right).
  rewrite continue_amatch_loop_cons.
  destruct (keyword_answer alproto st flags s m) as [r|] eqn:Hr.
  - destruct (Hok m r ltac:(by left) Hr) as [-> | ->]; simpl.
    + exists [], (m :: sm), tm. repeat split; try done.
      intros m' Hm'. by apply elem_of_nil in Hm'.
    + destruct (IH Hok' (tm + 1)) as (pre & sm' & tm' & Hrun & Hsm & Hpre & Hle & Hlt & Hhd).
      exists (m :: pre), sm', tm'. split; [done|]. split; [by rewrite Hsm|].
      split; [simpl; by rewrite Hr|]. split; [lia|]. split; [|done].
      intros m' _ _. lia.
  - destruct (IH Hok' tm) as (pre & sm' & tm' & Hrun & Hsm & Hpre & Hle & Hlt & Hhd).
    exists (m :: pre), sm', tm'. split; [done|]. split; [by rewrite Hsm|].
    split; [simpl; by rewrite Hr|]. split; [done|]. split; [|done].
    intros m' [->|Hm']%elem_of_cons Hcb; [|by apply (Hlt m')].
    rewrite Hr in Hcb. by destruct Hcb.
Qed.

Lemma owed_alert_closed (alproto : AppProto) (st : AppState) (flags : Z)
    (r : DeStateStoreFlowRule) :
  rule_open r = false → owed_alert alproto st flags r = [].
Proof. unfold owed_alert. intros ->. by destruct (sig_array !! rule_sid r). Qed.

Lemma rule_open_full (sm : list SigMatch) (fl ifl sid : Z) :
  rule_open (mkFlowRule sm (Z.lor fl (Z.lor ifl DE_STATE_FLAG_FULL_INSPECT)) sid) = false.
Proof.
  unfold rule_open. cbn [rule_flags]. rewrite has_mask2, Z.lor_assoc.
  unfold DE_STATE_FLAG_FULL_INSPECT. by rewrite has_lor_self.
Qed.

(** One call of [DoInspectFlowRule] on a record that can be resumed. *)
Lemma DoInspectFlowRule_resume (alproto : AppProto) (flags : Z) (sts : list AppState)
    (st2 st : AppState) (r : DeStateStoreFlowRule) (dsf : Z) (f : Flow)
    (det : DetectEngineThreadCtx) :
  alstate f = Some st → st ∈ sts →
  rule_resumable alproto flags sts st2 r →
  ∃ ret r' det' evs,
    DoInspectFlowRule r dsf f alproto flags det = Some (ret, r', det', evs)
    ∧ 0 ≤ ret
    ∧ rule_resumable alproto flags sts st2 r'
    ∧ alerts evs ++ owed_alert alproto st2 flags r' = owed_alert alproto st2 flags r
    ∧ (st = st2 → owed_alert alproto st2 flags r' = []).
Proof.
  intros Hal Hst Hres.
  destruct (has (rule_flags r)
              (Z.lor DE_STATE_FLAG_FULL_INSPECT DE_STATE_FLAG_SIG_CANT_MATCH)) eqn:Hterm.
  { exists 0, r, (mark_no_new_state (rule_sid r) det), [].
    unfold DoInspectFlowRule. rewrite Hterm. split; [done|]. split; [done|].
    split; [done|]. split; [done|]. intros _. apply owed_alert_closed.
    unfold rule_open. by rewrite Hterm. }
  assert (rule_open r = true) as Hopen by (unfold rule_open; by rewrite Hterm).
  destruct (Hres Hopen) as (s & pre & m & rest & Hsig & Ham & Hnm & Hcb & Hpre & Hok).
  assert (∀ m' r', m' ∈ m :: rest →
                   keyword_answer alproto st flags s m' = Some r' → r' = 0 ∨ r' = 1) as Hok01.
  { intros m' r' Hm' Hr'. apply (Hok m' st r'); [|done|done].
    rewrite Ham. apply elem_of_app. by right. }
  assert (∀ l, (∀ m', m' ∈ l → m' ∈ m :: rest) →
               all_match alproto st flags s l = true →
               all_match alproto st2 flags s l = true) as Hper.
  { intros l Hl. apply all_match_persist. intros m' Hm' Hr'.
    apply (Hok m' st 1); [|done|done|done].
    rewrite Ham. apply elem_of_app. right. by apply Hl. }
  destruct (continue_walk_01 alproto st flags s (m :: rest) Hok01 0)
    as (pre' & sm' & tm' & Hrun & Hsm & Hpre' & Hle & Hlt & Hhd).
  assert (negb (is_nil (sm_lists s DETECT_SM_LIST_AMATCH)) = true) as Hamatch.
  { rewrite Ham. by destruct pre. }
  assert (DoInspectFlowRule r dsf f alproto flags det
          = Some (1,
                  mkFlowRule sm'
                    (Z.lor (rule_flags r)
                       (if (0 <? tm') && is_nil sm'
                        then Z.lor 0 DE_STATE_FLAG_FULL_INSPECT else 0))
                    (rule_sid r),
                  mark_no_new_state (rule_sid r) det,
                  (if (0 <? tm') && is_nil sm' && is_nil sm'
                   then [SigMatchSignaturesRunPostMatch (num s);
                         if negb (has (sig_flags s) SIG_FLAG_NOALERT)
                         then PacketAlertAppend (num s) 0 PACKET_ALERT_FLAG_STATE_MATCH
                         else DetectSignatureApplyActions (num s)]
                   else []) ++ [DetectFlowvarProcessList])) as Hcall.
  { unfold DoInspectFlowRule. rewrite Hterm, Hsig. cbn [mbind option_bind].
    rewrite Hnm. unfold FlowGetAppState. rewrite Hal, Hrun. cbv zeta.
    rewrite Hamatch, has_zero, orb_false_r. done. }
  rewrite Hcall. clear Hcall.
  destruct sm' as [|m' rest'].
  - rewrite app_nil_r in Hsm. subst pre'.
    assert (0 < tm') as Hpos.
    { apply (Hlt m); [by left|]. by apply (keyword_answer_callback _ st2). }
    apply Z.ltb_lt in Hpos. rewrite Hpos. cbn [is_nil andb].
    eexists _, _, _, _. split; [done|]. split; [done|].
    split; [intros Ho; by rewrite rule_open_full in Ho|].
    rewrite (owed_alert_closed _ _ _ _ (rule_open_full _ _ _ _)).
    split; [|done]. rewrite app_nil_r.
    unfold owed_alert. rewrite Hsig, Hopen, Hnm.
    rewrite (Hper (m :: rest)) by done. cbn [andb].
    destruct (has (sig_flags s) SIG_FLAG_NOALERT); reflexivity.
  - cbn [is_nil]. rewrite !andb_false_r, Z.lor_0_r.
    assert (rule_open (mkFlowRule (m' :: rest') (rule_flags r) (rule_sid r)) = true)
      as Hopen' by done.
    assert (all_match alproto st2 flags s pre' = true) as Hpre2.
    { apply Hper; [|done]. intros x Hx. rewrite Hsm. apply elem_of_app. by left. }
    eexists _, _, _, _. split; [done|]. split; [done|].
    split.
    { intros _. exists s, (pre ++ pre'), m', rest'. cbn [rule_sid rule_nm].
      split; [done|]. split; [by rewrite Ham, Hsm, app_assoc|]. split; [done|].
      split; [apply (keyword_answer_callback _ st); by rewrite Hhd|].
      split; [|done]. by rewrite all_match_app, Hpre, Hpre2. }
    assert (owed_alert alproto st2 flags (mkFlowRule (m' :: rest') (rule_flags r) (rule_sid r))
            = owed_alert alproto st2 flags r) as Howed.
    { unfold owed_alert. cbn [rule_sid rule_nm]. rewrite Hsig, Hopen, Hopen', Hnm, Hsm.
      by rewrite all_match_app, Hpre2. }
    split; [done|]. intros ->.
    unfold owed_alert. cbn [rule_sid rule_nm]. rewrite Hsig. cbn [all_match].
    rewrite Hhd. cbn. by rewrite andb_false_r.
Qed.

Lemma flow_rule_loop_resume (alproto : AppProto) (flags : Z) (sts : list AppState)
    (st2 st : AppState) (dsf : Z) (f : Flow) :
  alstate f = Some st → st ∈ sts →
  ∀ xs det trace,
    Forall (rule_resumable alproto flags sts st2) xs →
    ∃ xs' det' new,
      items_loop (inspect_flow_rule_body dsf f alproto flags) xs (det, trace)
      = Some (false, xs', (det', trace ++ new))
      ∧ Forall (rule_resumable alproto flags sts st2) xs'
      ∧ alerts new ++ concat (owed_alert alproto st2 flags <$> xs')
        ≡ₚ concat (owed_alert alproto st2 flags <$> xs)
      ∧ (st = st2 → Forall (λ r, owed_alert alproto st2 flags r = []) xs').
Proof.
  intros Hal Hst. induction xs as [|x xs IH]; intros det trace Hall.
  { exists [], det, []. rewrite app_nil_r. by repeat split. }
  apply Forall_cons in Hall as [Hx Hxs].
  destruct (DoInspectFlowRule_resume alproto flags sts st2 st x dsf f det Hal Hst Hx)
    as (ret & x' & det1 & evs & Hcall & Hret & Hx' & Hacc & Hfin).
  destruct (IH det1 (trace ++ evs ++ [CallDoInspectFlowRule (rule_sid x) ret]) Hxs)
    as (xs' & det' & new & Hloop & Hxs' & Haccs & Hfins).
  exists (x' :: xs'), det', ((evs ++ [CallDoInspectFlowRule (rule_sid x) ret]) ++ new).
  split.
  { assert (inspect_flow_rule_body dsf f alproto flags x (det, trace)
            = Some (ret, x',
                    (det1, trace ++ evs ++ [CallDoInspectFlowRule (rule_sid x) ret])))
      as Hbody by (unfold inspect_flow_rule_body; by rewrite Hcall).
    cbn [items_loop]. rewrite Hbody. cbn [mbind option_bind]. cbv beta iota.
    assert ((ret <? 0) = false) as -> by lia.
    rewrite Hloop. cbn [mbind option_bind]. by rewrite <- !app_assoc. }
  split; [by apply Forall_cons|]. split.
  - rewrite !alerts_app. cbn [fmap list_fmap concat]. simpl (alerts [_]).
    rewrite app_nil_r, <- Hacc, <- Haccs.
    rewrite <- !app_assoc. f_equiv. rewrite !app_assoc. f_equiv.
    apply Permutation_app_comm.
  - intros Heq. apply Forall_cons. split; [by apply Hfin|by apply Hfins].
Qed.

Lemma take_loop_result {A} (xs fl : list A) (k : nat) :
  length xs = length (take k fl) → take k (xs ++ drop k fl) = xs.
Proof.
  intros Hlen. rewrite length_take in Hlen.
  destruct (decide (k ≤ length fl)%nat).
  - rewrite take_app_length'; [done|lia].
  - rewrite drop_ge, app_nil_r by lia. apply take_ge. lia.
Qed.

Lemma continue_tx_loop_no_state (flags : Z) (alproto : AppProto) (st : AppState)
    (total_txs : Z) (rs : RunState) (n : nat) :
  tx_de_state (rs_flow rs) = ∅ →
  ∀ tx loc, continue_tx_loop n flags alproto st total_txs tx loc rs = Some (false, loc, rs).
Proof.
  intros Htx. induction n as [|n IH]; intros tx loc; [done|].
  cbn [continue_tx_loop]. unfold continue_tx_body at 1.
  unfold AppLayerParserGetTxDetectState. rewrite Htx, lookup_empty.
  destruct (AppLayerParserGetTx st tx); cbn [mbind option_bind]; apply IH.
Qed.

Lemma flow_only_det (f0 : Flow) (st : AppState) (i : nat) (k : Z) (rs : RunState)
    (d : DetectEngineThreadCtx) :
  flow_only f0 st i k rs → flow_only f0 st i k (rs_with_det d rs).
Proof. done. Qed.

Lemma continue_flow_part_resume (alproto : AppProto) (flags alversion : Z)
    (sts : list AppState) (st2 st : AppState) (f0 : Flow) (k fnm : Z) (rs : RunState) :
  flow_only f0 st (dir_index flags) k rs → st ∈ sts →
  Forall (rule_resumable alproto flags sts st2)
    (flow_items (flow_dir (rs_flow rs) (dir_index flags))) →
  ∃ rs' new,
    continue_flow_part flags alproto alversion (mkContLocals fnm 0) rs = Some rs'
    ∧ flow_only f0 st (dir_index flags) k rs'
    ∧ rs_trace rs' = rs_trace rs ++ new
    ∧ Forall (rule_resumable alproto flags sts st2)
        (flow_items (flow_dir (rs_flow rs') (dir_index flags)))
    ∧ alerts new
      ++ concat (owed_alert alproto st2 flags
                 <$> flow_items (flow_dir (rs_flow rs') (dir_index flags)))
      ≡ₚ concat (owed_alert alproto st2 flags
                 <$> flow_items (flow_dir (rs_flow rs) (dir_index flags)))
    ∧ (st = st2 →
       Forall (λ r, owed_alert alproto st2 flags r = [])
         (flow_items (flow_dir (rs_flow rs') (dir_index flags)))).
Proof.
  intros Hfo Hst Hall. pose proof Hfo as (Hp & Hpm & Hal & Htx & Hwf & Hcnt & Ho).
  unfold continue_flow_part. cbn [cl_state_cnt]. unfold flow_dir in Hwf, Hcnt, Hall |- *.
  destruct (de_state (rs_flow rs)) as [d|] eqn:Hd.
  2:{ exists rs, []. rewrite app_nil_r, Hd. split; [done|]. split; [done|].
      split; [done|]. split; [done|]. split; [done|]. intros _. apply Forall_nil_2. }
  set (body := inspect_flow_rule_body _ _ _ _).
  pose proof (store_loop_items body (fdir_store (arr2_get (dir_index flags) d))
                0 (rs_det rs, rs_trace rs) Hwf ltac:(done)) as Hloop.
  rewrite Z.sub_0_r in Hloop.
  destruct (flow_rule_loop_resume alproto flags sts st2 st
              (fdir_flags (arr2_get (dir_index flags) d)) (rs_flow rs) Hal Hst
              _ (rs_det rs) (rs_trace rs) Hall)
    as (xs' & det' & new & Hitems & Hxs' & Hacc & Hfin).
  unfold flow_items in Hitems. fold body in Hitems.
  pose proof (items_loop_length body _ _ _ _ _ Hitems) as Hlen.
  rewrite Hitems in Hloop.
  destruct Hloop as (ds' & sc' & -> & Hwf' & Hcnt' & Hflat & _).
  cbn [mbind option_bind]. cbv beta iota.
  eexists _, new. split; [done|].
  assert (flow_items (mkDirFlow ds' (fdir_flags (arr2_get (dir_index flags) d))) = xs')
    as Hitems'.
  { unfold flow_items. cbn [fdir_store]. rewrite Hcnt', Hflat.
    by apply take_loop_result. }
  cbn [rs_flow rs_trace rs_oracle DeStateStoreStateVersion flow_set_de_state de_state].
  assert (arr2_get (dir_index flags)
            (arr2_set (dir_index flags)
               (mkDirFlow ds' (fdir_flags (arr2_get (dir_index flags) d))) d)
          = mkDirFlow ds' (fdir_flags (arr2_get (dir_index flags) d))) as Hget
    by apply arr2_get_set.
  rewrite Hget, Hitems'.
  split; [|by repeat split].
  unfold flow_only, flow_dir.
  cbn [rs_flow rs_oracle proto protomap alstate tx_de_state de_state
       DeStateStoreStateVersion flow_set_de_state].
  rewrite Hget. cbn [fdir_store]. rewrite Hcnt'. by split_and!.
Qed.

Lemma continue_driver_resume (alproto : AppProto) (flags alversion : Z)
    (sts : list AppState) (st2 st : AppState) (f0 : Flow) (k : Z) (rs : RunState) :
  flow_only f0 st (dir_index flags) k rs → st ∈ sts →
  Forall (rule_resumable alproto flags sts st2)
    (flow_items (flow_dir (rs_flow rs) (dir_index flags))) →
  ∃ rs' new,
    DeStateDetectContinueDetection flags alproto alversion rs = Some rs'
    ∧ flow_only f0 st (dir_index flags) k rs'
    ∧ rs_trace rs' = rs_trace rs ++ new
    ∧ Forall (rule_resumable alproto flags sts st2)
        (flow_items (flow_dir (rs_flow rs') (dir_index flags)))
    ∧ alerts new
      ++ concat (owed_alert alproto st2 flags
                 <$> flow_items (flow_dir (rs_flow rs') (dir_index flags)))
      ≡ₚ concat (owed_alert alproto st2 flags
                 <$> flow_items (flow_dir (rs_flow rs) (dir_index flags)))
    ∧ ((AppLayerParserProtocolSupportsTxs (proto f0) alproto = true →
        StateIsValid alproto (Some st) = true) →
       st = st2 →
       Forall (λ r, owed_alert alproto st2 flags r = [])
         (flow_items (flow_dir (rs_flow rs') (dir_index flags)))).
Proof.
  intros Hfo Hst Hall. pose proof Hfo as (Hp & Hpm & Hal & Htx & Hwf & Hcnt & Ho).
  destruct (continue_flow_part_resume alproto flags alversion sts st2 st f0 k 0 rs
              Hfo Hst Hall) as (rs1 & new & Hflow & Hfo1 & Htr1 & Hall1 & Hacc1 & Hfin1).
  unfold DeStateDetectContinueDetection, FlowGetAppState. rewrite Hp, Hal.
  destruct (AppLayerParserProtocolSupportsTxs (proto f0) alproto) eqn:Hsup.
  - destruct (StateIsValid alproto (Some st)) eqn:Hvalid; cbn [negb].
    + rewrite continue_tx_loop_no_state by done. cbn [mbind option_bind]. cbv beta iota.
      rewrite Hflow. exists (driver_end rs1), new. split; [done|].
      split; [done|]. split; [done|]. split; [done|]. split; [done|].
      intros _. exact Hfin1.
    + exists rs, []. rewrite app_nil_r. split; [done|]. split; [done|].
      split; [done|]. split; [done|]. split; [done|].
      intros Hv. by specialize (Hv eq_refl).
  - rewrite Hflow. exists (driver_end rs1), new. split; [done|].
    split; [done|]. split; [done|]. split; [done|]. split; [done|].
    intros _. exact Hfin1.
Qed.

Lemma continue_all_app (flags : Z) (alproto : AppProto) (l1 l2 : list (AppState * Z)) :
  ∀ rs, continue_all (l1 ++ l2) flags alproto rs
        = continue_all l1 flags alproto rs ≫= continue_all l2 flags alproto.
Proof.
  induction l1 as [|[st v] l1 IH]; intros rs; [done|]. simpl.
  destruct (DeStateDetectContinueDetection _ _ _ _) as [rs1|]; [|done]. simpl. apply IH.
Qed.

Lemma flow_only_deliver (f0 : Flow) (st st' : AppState) (i : nat) (k : Z)
    (rs : RunState) :
  flow_only f0 st i k rs → flow_only f0 st' i k (deliver st' rs).
Proof. intros (Hp & Hpm & Hal & Htx & Hwf & Hcnt & Ho). by split_and!. Qed.

Lemma continue_all_resume (alproto : AppProto) (flags : Z) (sts : list AppState)
    (st2 : AppState) (f0 : Flow) (k : Z) (packets : list (AppState * Z)) :
  (∀ p, p ∈ packets → p.1 ∈ sts) →
  ∀ st rs,
    flow_only f0 st (dir_index flags) k rs →
    Forall (rule_resumable alproto flags sts st2)
      (flow_items (flow_dir (rs_flow rs) (dir_index flags))) →
    ∃ st' rs' new,
      continue_all packets flags alproto rs = Some rs'
      ∧ flow_only f0 st' (dir_index flags) k rs'
      ∧ rs_trace rs' = rs_trace rs ++ new
      ∧ Forall (rule_resumable alproto flags sts st2)
          (flow_items (flow_dir (rs_flow rs') (dir_index flags)))
      ∧ alerts new
        ++ concat (owed_alert alproto st2 flags
                   <$> flow_items (flow_dir (rs_flow rs') (dir_index flags)))
        ≡ₚ concat (owed_alert alproto st2 flags
                   <$> flow_items (flow_dir (rs_flow rs) (dir_index flags))).
Proof.
  induction packets as [|[st1 v] packets IH]; intros Hin st rs Hfo Hall.
  { exists st, rs, []. rewrite app_nil_r. by split_and!. }
  destruct (continue_driver_resume alproto flags v sts st2 st1 f0 k (deliver st1 rs))
    as (rs1 & new1 & Hrun & Hfo1 & Htr1 & Hall1 & Hacc1 & _).
  { by apply (flow_only_deliver f0 st). }
  { apply (Hin (st1, v)). by left. }
  { done. }
  destruct (IH ltac:(intros p Hp; apply Hin; by right) st1 rs1 Hfo1 Hall1)
    as (st' & rs' & new & Hrest & Hfo' & Htr' & Hall' & Hacc').
  exists st', rs', (new1 ++ new). cbn [continue_all]. rewrite Hrun.
  cbn [mbind option_bind]. split; [done|]. split; [done|].
  split; [by rewrite Htr', Htr1, <- app_assoc|]. split; [done|].
  rewrite alerts_app, <- app_assoc, Hacc'. exact Hacc1.
Qed.

Lemma start_engine_loop_skip (engines : list DetectEngineAppInspectionEngine)
    (s : Signature) (st : AppState) (flags tx a b c : Z) :
  (∀ e, e ∈ engines → sm_lists s (sm_list e) = []) →
  start_engine_loop engines s st flags tx a b c = ([], a, b, c).
Proof.
  induction engines as [|e next IH]; intros Hskip; [done|].
  cbn [start_engine_loop]. rewrite (Hskip e) by (by left).
  apply IH. intros e' He'. apply Hskip. by right.
Qed.

Lemma start_tx_loop_flow_scoped (s : Signature) (flags : Z) (alproto : AppProto)
    (alversion : Z) (st : AppState) (total_txs : Z) (n : nat) :
  ∀ tx loc rs,
    flow_scoped (rs_flow rs) alproto flags s →
    sl_inspect_flags loc = 0 →
    ∃ loc' rs',
      start_tx_loop n s flags alproto alversion st total_txs tx loc rs = Some (loc', rs')
      ∧ sl_inspect_flags loc' = 0
      ∧ rs_flow rs' = rs_flow rs
      ∧ rs_trace rs' = rs_trace rs
      ∧ rs_oracle rs' = rs_oracle rs.
Proof.
  induction n as [|n IH]; intros tx loc rs Hfs Hloc; [by exists loc, rs|].
  cbn [start_tx_loop]. unfold start_tx_body at 1.
  destruct (AppLayerParserGetTx st tx) as [t|].
  - cbn [rs_flow rs_with_det]. rewrite (start_engine_loop_skip _ _ _ _ _ _ _ _ Hfs).
    cbv beta iota. cbn [is_nil andb]. rewrite has_zero.
    assert ((0 <? 0) = false) as -> by done. cbn [orb mbind option_bind].
    cbv beta iota.
    destruct (IH (tx + 1)
                (mkStartLocals 0 (sl_file_no_match loc) (sl_alert_cnt loc))
                (rs_with_det (det_set_tx tx 1 (rs_det rs)) rs) Hfs eq_refl)
      as (loc' & rs' & Hrun & Hl & Hf & Ht & Ho).
    by exists loc', rs'.
  - cbn [mbind option_bind]. cbv beta iota. by apply IH.
Qed.

Lemma StoreState_run (flags alversion : Z) (s : Signature) (sm : list SigMatch)
    (iflags : Z) (f0 : Flow) (st : AppState) (k : Z) (rs : RunState) :
  flow_only f0 st (dir_index flags) k rs →
  k + 1 < 2 ^ SigIntId_bits →
  ∃ rs',
    StoreState flags alversion s sm iflags rs = Some (1, rs')
    ∧ flow_only f0 st (dir_index flags) (k + 1) rs'
    ∧ flow_items (flow_dir (rs_flow rs') (dir_index flags))
      = flow_items (flow_dir (rs_flow rs) (dir_index flags))
        ++ [mkFlowRule sm iflags (num s)]
    ∧ rs_trace rs' = rs_trace rs.
Proof.
  intros (Hp & Hpm & Hal & Htx & Hwf & Hcnt & Ho) Hroom.
  assert (∀ (d : DetectEngineStateFlow) (o : list bool),
            wf_store (fdir_store (arr2_get (dir_index flags) d)) →
            ds_cnt (fdir_store (arr2_get (dir_index flags) d)) = k →
            false ∉ o →
            ∃ d' o',
              DeStateFlowRuleAppend d s sm iflags flags o = Some (d', o')
              ∧ wf_store (fdir_store (arr2_get (dir_index flags) d'))
              ∧ ds_cnt (fdir_store (arr2_get (dir_index flags) d')) = k + 1
              ∧ flow_items (arr2_get (dir_index flags) d')
                = flow_items (arr2_get (dir_index flags) d)
                  ++ [mkFlowRule sm iflags (num s)]
              ∧ false ∉ o') as Happend.
  { intros d o Hwfd Hcntd Hod.
    destruct (StoreAppend_items DeStateStoreFlowRule_zero
                (fdir_store (arr2_get (dir_index flags) d))
                (mkFlowRule sm iflags (num s)) o Hwfd ltac:(lia))
      as (ds' & o' & items & Hrun & Hwf' & Hitems & Hcase & Hno).
    destruct Hcase as [[Hbad _]|[Hitems' Hcnt']]; [done|].
    unfold DeStateFlowRuleAppend. rewrite Hrun. cbn [mbind option_bind].
    eexists _, o'. split; [done|].
    assert (arr2_get (dir_index flags)
              (arr2_set (dir_index flags)
                 (mkDirFlow ds' (fdir_flags (arr2_get (dir_index flags) d))) d)
            = mkDirFlow ds' (fdir_flags (arr2_get (dir_index flags) d))) as ->
      by apply arr2_get_set.
    cbn [fdir_store]. split; [done|]. split; [lia|]. split; [|by apply Hno].
    rewrite DirStoreItems_wf in Hitems, Hitems' by done.
    unfold flow_items. cbn [fdir_store]. congruence. }
  unfold StoreState. unfold flow_dir in Hwf, Hcnt |- *.
  destruct (de_state (rs_flow rs)) as [d|] eqn:Hd.
  - destruct (Happend d (rs_oracle rs) Hwf Hcnt Ho) as (d' & o' & -> & Hwf' & Hcnt' & Hit & Ho').
    cbn [mbind option_bind]. eexists. split; [done|].
    cbn [rs_flow rs_trace DeStateStoreStateVersion flow_set_de_state de_state].
    split; [|done]. unfold flow_only, flow_dir.
    cbn [rs_flow rs_oracle proto protomap alstate tx_de_state de_state].
    by split_and!.
  - unfold DetectEngineStateFlowAlloc.
    destruct (SCMalloc_cases (rs_oracle rs)) as [[-> _]|[_ Hbad]].
    2:{ exfalso. apply Ho. rewrite Hbad. by left. }
    assert (false ∉ tail (rs_oracle rs)) as Hot.
    { intros Hin. apply Ho. by apply elem_of_tail. }
    assert (arr2_get (dir_index flags) DetectEngineStateFlow_zero
            = DetectEngineStateDirectionFlow_zero) as Hz
      by (by destruct (dir_index flags) as [|[|?]]).
    destruct (Happend DetectEngineStateFlow_zero (tail (rs_oracle rs)))
      as (d' & o' & -> & Hwf' & Hcnt' & Hit & Ho'); rewrite ?Hz; try done.
    cbn [mbind option_bind]. eexists. split; [done|].
    cbn [rs_flow rs_trace DeStateStoreStateVersion flow_set_de_state de_state].
    rewrite Hz in Hit. split; [|done]. unfold flow_only, flow_dir.
    cbn [rs_flow rs_oracle proto protomap alstate tx_de_state de_state].
    by split_and!.
Qed.

Lemma flow_only_alert (f0 : Flow) (st : AppState) (i : nat) (k : Z) (rs : RunState)
    (s : Signature) (tx fl : Z) :
  flow_only f0 st i k rs → flow_only f0 st i k (alert_or_apply s tx fl rs).
Proof.
  unfold flow_only. destruct (rs_flow_alert s tx fl rs) as (-> & -> & _). done.
Qed.

Lemma start_flow_part_run (s : Signature) (flags : Z) (alproto : AppProto)
    (alversion : Z) (f0 : Flow) (st : AppState) (k : Z) (loc : StartLocals)
    (rs : RunState) :
  flow_only f0 st (dir_index flags) k rs →
  k + 1 < 2 ^ SigIntId_bits →
  sl_inspect_flags loc = 0 →
  ∃ loc' rs',
    start_flow_part s flags alproto alversion loc rs = Some (loc', rs')
    ∧ let w := start_amatch_loop (sm_lists s DETECT_SM_LIST_AMATCH) s st flags alproto 0 0 in
      let decided := is_nil w.1.1 || has w.2 DE_STATE_FLAG_SIG_CANT_MATCH in
      let recs :=
        if is_nil (sm_lists s DETECT_SM_LIST_AMATCH) then []
        else [mkFlowRule w.1.1
                (if decided then Z.lor w.2 DE_STATE_FLAG_FULL_INSPECT else w.2) (num s)] in
      flow_only f0 st (dir_index flags) (k + Z.of_nat (length recs)) rs'
      ∧ flow_items (flow_dir (rs_flow rs') (dir_index flags))
        = flow_items (flow_dir (rs_flow rs) (dir_index flags)) ++ recs
      ∧ alerts (rs_trace rs')
        = alerts (rs_trace rs)
          ++ (if negb (is_nil (sm_lists s DETECT_SM_LIST_AMATCH)) && decided
                 && (w.1.2 =? 1) && negb (has (sig_flags s) SIG_FLAG_NOALERT)
              then [(num s, 0)] else []).
Proof.
  intros Hfo Hroom Hloc. pose proof Hfo as (Hp & Hpm & Hal & Htx & Hwf & Hcnt & Ho).
  unfold start_flow_part, FlowGetAppState. rewrite Hal, Hloc.
  destruct (sm_lists s DETECT_SM_LIST_AMATCH) as [|m sm] eqn:Ham.
  { exists loc, rs. split; [done|]. cbv zeta. cbn [is_nil negb andb length].
    rewrite Z.add_0_r, !app_nil_r. done. }
  cbv zeta. cbn [is_nil negb andb].
  destruct (start_amatch_loop (m :: sm) s st flags alproto 0 0) as [[sm' mt] ifl].
  cbn [fst snd length].
  set (decided := is_nil sm' || has ifl DE_STATE_FLAG_SIG_CANT_MATCH).
  set (rs1 := if decided && (mt =? 1)
              then alert_or_apply s 0 PACKET_ALERT_FLAG_STATE_MATCH rs else rs).
  assert (flow_only f0 st (dir_index flags) k rs1) as Hfo1
    by (unfold rs1; destruct (_ && _); [by apply flow_only_alert|done]).
  assert (rs_flow rs1 = rs_flow rs) as Hf1.
  { unfold rs1. destruct (_ && _); [|done]. apply rs_flow_alert. }
  destruct (StoreState_run flags alversion s sm'
              (if decided then Z.lor ifl DE_STATE_FLAG_FULL_INSPECT else ifl)
              f0 st k rs1 Hfo1 Hroom) as (rs2 & -> & Hfo2 & Hit & Htr).
  cbn [mbind option_bind]. eexists _, rs2. split; [done|].
  split; [done|]. split; [by rewrite Hit, Hf1|].
  rewrite Htr. unfold rs1. destruct (decided && (mt =? 1)).
  - by rewrite alert_or_apply_alerts.
  - by rewrite app_nil_r.
Qed.

Lemma start_driver_flow_run (s : Signature) (flags : Z) (alproto : AppProto)
    (alversion : Z) (f0 : Flow) (st : AppState) (k : Z) (rs : RunState) :
  flow_only f0 st (dir_index flags) k rs →
  k + 1 < 2 ^ SigIntId_bits →
  (AppLayerParserProtocolSupportsTxs (proto f0) alproto = true →
   StateIsValid alproto (Some st) = true ∧ flow_scoped f0 alproto flags s) →
  ∃ r rs',
    DeStateDetectStartDetection s flags alproto alversion rs = Some (r, rs')
    ∧ let w := start_amatch_loop (sm_lists s DETECT_SM_LIST_AMATCH) s st flags alproto 0 0 in
      let decided := is_nil w.1.1 || has w.2 DE_STATE_FLAG_SIG_CANT_MATCH in
      let recs :=
        if is_nil (sm_lists s DETECT_SM_LIST_AMATCH) then []
        else [mkFlowRule w.1.1
                (if decided then Z.lor w.2 DE_STATE_FLAG_FULL_INSPECT else w.2) (num s)] in
      let dce :=
        negb (AppLayerParserProtocolSupportsTxs (proto f0) alproto)
        && negb (is_nil (sm_lists s DETECT_SM_LIST_DMATCH)) && is_dce alproto
        && dce_verdict alproto s st flags in
      flow_only f0 st (dir_index flags) (k + Z.of_nat (length recs)) rs'
      ∧ flow_items (flow_dir (rs_flow rs') (dir_index flags))
        = flow_items (flow_dir (rs_flow rs) (dir_index flags)) ++ recs
      ∧ alerts (rs_trace rs')
        = alerts (rs_trace rs)
          ++ (if dce && negb (has (sig_flags s) SIG_FLAG_NOALERT)
              then [(num s, 0)] else [])
          ++ (if negb (is_nil (sm_lists s DETECT_SM_LIST_AMATCH)) && decided
                 && (w.1.2 =? 1) && negb (has (sig_flags s) SIG_FLAG_NOALERT)
              then [(num s, 0)] else []).
Proof.
  intros Hfo Hroom Hsup. pose proof Hfo as (Hp & Hpm & Hal & Htx & Hwf & Hcnt & Ho).
  assert (∀ loc rs1,
            sl_inspect_flags loc = 0 →
            flow_only f0 st (dir_index flags) k rs1 →
            ∃ r rs',
              ((λ r0 : StartLocals * RunState,
                  (if sl_alert_cnt r0.1 =? 0 then 0 else 1, driver_end r0.2))
                 <$> start_flow_part s flags alproto alversion loc rs1) = Some (r, rs')
              ∧ let w := start_amatch_loop (sm_lists s DETECT_SM_LIST_AMATCH) s st flags
                           alproto 0 0 in
                let decided := is_nil w.1.1 || has w.2 DE_STATE_FLAG_SIG_CANT_MATCH in
                let recs :=
                  if is_nil (sm_lists s DETECT_SM_LIST_AMATCH) then []
                  else [mkFlowRule w.1.1
                          (if decided then Z.lor w.2 DE_STATE_FLAG_FULL_INSPECT else w.2)
                          (num s)] in
                flow_only f0 st (dir_index flags) (k + Z.of_nat (length recs)) rs'
                ∧ flow_items (flow_dir (rs_flow rs') (dir_index flags))
                  = flow_items (flow_dir (rs_flow rs1) (dir_index flags)) ++ recs
                ∧ alerts (rs_trace rs')
                  = alerts (rs_trace rs1)
                    ++ (if negb (is_nil (sm_lists s DETECT_SM_LIST_AMATCH)) && decided
                           && (w.1.2 =? 1) && negb (has (sig_flags s) SIG_FLAG_NOALERT)
                        then [(num s, 0)] else [])) as Hflow.
  { intros loc rs1 Hloc Hfo1.
    destruct (start_flow_part_run s flags alproto alversion f0 st k loc rs1 Hfo1 Hroom Hloc)
      as (loc' & rs2 & -> & Hres).
    cbn [fmap option_fmap option_map fst snd]. eexists _, _. split; [done|].
    exact Hres. }
  unfold DeStateDetectStartDetection, FlowGetAppState. rewrite Hp, Hal.
  destruct (AppLayerParserProtocolSupportsTxs (proto f0) alproto) eqn:Hs.
  - destruct (Hsup eq_refl) as [-> Hfs]. cbn [negb andb app].
    destruct (start_tx_loop_flow_scoped s flags alproto alversion st
                (AppLayerParserGetTxCnt st)
                (Z.to_nat (AppLayerParserGetTxCnt st - alparser_inspect_id (rs_flow rs) flags))
                (alparser_inspect_id (rs_flow rs) flags) (mkStartLocals 0 0 0) rs)
      as (loc1 & rs1 & -> & Hl1 & Hf1 & Ht1 & Ho1); [|done|].
    { unfold flow_scoped. by rewrite Hpm. }
    cbn [mbind option_bind]. cbv beta iota.
    destruct (Hflow loc1 rs1 Hl1) as (r & rs' & Hrun & Hres).
    { unfold flow_only. by rewrite Hf1, Ho1. }
    exists r, rs'. split; [done|]. by rewrite Hf1, Ht1 in Hres.
  - cbn [negb andb].
    destruct (negb (is_nil (sm_lists s DETECT_SM_LIST_DMATCH)) && is_dce alproto) eqn:Hd.
    + unfold start_dce_part. fold (dce_verdict alproto s st flags).
      destruct (dce_verdict alproto s st flags).
      * destruct (Hflow (mkStartLocals 0 0 1)
                    (alert_or_apply s 0 PACKET_ALERT_FLAG_STATE_MATCH rs) eq_refl)
          as (r & rs' & Hrun & Hres); [by apply flow_only_alert|].
        exists r, rs'. split; [done|]. cbv zeta in Hres |- *.
        destruct Hres as (Hfo' & Hit & Halerts). split; [done|].
        rewrite (proj1 (rs_flow_alert _ _ _ _)) in Hit. split; [done|].
        rewrite Halerts, alert_or_apply_alerts, <- app_assoc. done.
      * destruct (Hflow (mkStartLocals 0 0 0) rs eq_refl Hfo) as (r & rs' & Hrun & Hres).
        exists r, rs'. split; [done|]. rewrite andb_false_r. exact Hres.
    + destruct (Hflow (mkStartLocals 0 0 0) rs eq_refl Hfo) as (r & rs' & Hrun & Hres).
      exists r, rs'. split; [done|]. exact Hres.
Qed.

Lemma rule_open_full_inspect (sm : list SigMatch) (ifl sid : Z) :
  rule_open (mkFlowRule sm (Z.lor ifl DE_STATE_FLAG_FULL_INSPECT) sid) = false.
Proof.
  unfold rule_open. cbn [rule_flags]. rewrite has_mask2.
  unfold DE_STATE_FLAG_FULL_INSPECT. by rewrite has_lor_self.
Qed.

(** The start driver on the prefix and on the whole input, for one
    flow-scoped signature: the alert on the prefix and the alert the
    stored record still has to give make up the alert on the whole. *)
Lemma start_pair_owed (alproto : AppProto) (flags : Z) (s : Signature)
    (st1 st2 : AppState) (sts : list AppState) :
  st1 ∈ sts → st2 ∈ sts →
  amatch_decided alproto flags s st1 st2
  ∨ (sig_array !! num s = Some s ∧ amatch_resumable alproto flags s sts st2) →
  let w1 := start_amatch_loop (sm_lists s DETECT_SM_LIST_AMATCH) s st1 flags alproto 0 0 in
  let w2 := start_amatch_loop (sm_lists s DETECT_SM_LIST_AMATCH) s st2 flags alproto 0 0 in
  let decided1 := is_nil w1.1.1 || has w1.2 DE_STATE_FLAG_SIG_CANT_MATCH in
  let decided2 := is_nil w2.1.1 || has w2.2 DE_STATE_FLAG_SIG_CANT_MATCH in
  let recs :=
    if is_nil (sm_lists s DETECT_SM_LIST_AMATCH) then []
    else [mkFlowRule w1.1.1
            (if decided1 then Z.lor w1.2 DE_STATE_FLAG_FULL_INSPECT else w1.2) (num s)] in
  Forall (rule_resumable alproto flags sts st2) recs
  ∧ (if negb (is_nil (sm_lists s DETECT_SM_LIST_AMATCH)) && decided1
        && (w1.1.2 =? 1) && negb (has (sig_flags s) SIG_FLAG_NOALERT)
     then [(num s, 0)] else [])
    ++ concat (owed_alert alproto st2 flags <$> recs)
    = (if negb (is_nil (sm_lists s DETECT_SM_LIST_AMATCH)) && decided2
          && (w2.1.2 =? 1) && negb (has (sig_flags s) SIG_FLAG_NOALERT)
       then [(num s, 0)] else []).
Proof.
  intros Hst1 Hst2 Hcase. cbv zeta.
  destruct (sm_lists s DETECT_SM_LIST_AMATCH) as [|m0 sm0] eqn:Ham; [done|].
  cbn [is_nil negb andb].
  assert (∀ sm' mt ifl,
            Forall (rule_resumable alproto flags sts st2)
              [mkFlowRule sm' (Z.lor ifl DE_STATE_FLAG_FULL_INSPECT) (num s)]
            ∧ (if true && (mt =? 1) && negb (has (sig_flags s) SIG_FLAG_NOALERT)
               then [(num s, 0)] else [])
              ++ concat (owed_alert alproto st2 flags
                         <$> [mkFlowRule sm' (Z.lor ifl DE_STATE_FLAG_FULL_INSPECT) (num s)])
              = (if true && (mt =? 1) && negb (has (sig_flags s) SIG_FLAG_NOALERT)
                 then [(num s, 0)] else [])) as Hclosed.
  { intros sm' mt ifl. split.
    - apply Forall_singleton. intros Ho. by rewrite rule_open_full_inspect in Ho.
    - cbn [fmap list_fmap concat].
      rewrite (owed_alert_closed _ _ _ _ (rule_open_full_inspect _ _ _)).
      by rewrite !app_nil_r. }
  destruct Hcase as [[Hdec Hsame]|[Hsig Hres]].
  - rewrite Ham in Hdec, Hsame. cbv zeta in Hdec.
    pose proof (start_walk_decided alproto st1 st2 flags s (m0 :: sm0) Hsame 0 Hdec) as Hw.
    rewrite Hw. destruct (start_amatch_loop (m0 :: sm0) s st1 flags alproto 0 0)
      as [[sm' mt] ifl] eqn:Hw1.
    cbn [fst snd] in Hdec |- *. rewrite Hdec. by apply Hclosed.
  - assert (∀ st, st ∈ sts → ∀ m r, m ∈ m0 :: sm0 →
              keyword_answer alproto st flags s m = Some r → r = 0 ∨ r = 1) as Hok.
    { intros st Hst m r Hm Hr. apply (Hres m st r); [by rewrite Ham|done|done]. }
    assert (∀ st l, st ∈ sts → (∀ m, m ∈ l → m ∈ m0 :: sm0) →
              all_match alproto st flags s l = true →
              all_match alproto st2 flags s l = true) as Hper.
    { intros st l Hst Hl. apply all_match_persist. intros m Hm Hr.
      apply (Hres m st 1); [|done|done|done]. rewrite Ham. by apply Hl. }
    destruct (start_walk_01 alproto st1 flags s (m0 :: sm0) (Hok st1 Hst1) 0)
      as (Hifl1 & pre & Hsplit & Hpre & Hhd).
    destruct (start_walk_01 alproto st2 flags s (m0 :: sm0) (Hok st2 Hst2) 0)
      as (Hifl2 & _).
    destruct (start_amatch_loop (m0 :: sm0) s st1 flags alproto 0 0)
      as [[sm' mt] ifl] eqn:Hw1.
    cbn [fst snd] in Hifl1, Hsplit, Hhd |- *. subst ifl.
    destruct sm' as [|m rest].
    + rewrite app_nil_r in Hsplit. subst pre.
      pose proof (Hper st1 (m0 :: sm0) Hst1 (λ m Hm, Hm) Hpre) as Hpre2.
      destruct (start_walk_all_match alproto st1 st2 flags s (m0 :: sm0) Hpre Hpre2 0 0)
        as (Hsame & _ & _).
      rewrite <- Hsame, Hw1. cbn [fst snd is_nil orb]. by apply (Hclosed [] mt 0).
    + cbn [is_nil orb andb]. rewrite has_zero. cbn [andb app].
      assert (∀ x, x ∈ pre → x ∈ m0 :: sm0) as Hin.
      { intros x Hx. rewrite Hsplit. apply elem_of_app. by left. }
      pose proof (Hper st1 pre Hst1 Hin Hpre) as Hpre2.
      assert (is_Some (keyword_answer alproto st2 flags s m)) as Hcb.
      { apply (keyword_answer_callback _ st1). by rewrite Hhd. }
      split.
      { apply Forall_singleton. intros _. exists s, pre, m, rest.
        cbn [rule_sid rule_nm]. by rewrite Ham. }
      pose proof (start_walk_from alproto st2 flags s m rest pre) as Hfrom.
      rewrite <- Hsplit in Hfrom. specialize (Hfrom (Hok st2 Hst2) Hpre2 Hcb 0).
      destruct (start_amatch_loop (m0 :: sm0) s st2 flags alproto 0 0)
        as [[sm2 mt2] ifl2] eqn:Hw2.
      cbn [fst snd] in Hifl2, Hfrom |- *. subst ifl2.
      rewrite has_zero, orb_false_r, Hfrom.
      cbn [fmap list_fmap concat]. rewrite app_nil_r.
      unfold owed_alert. cbn [rule_sid rule_nm]. rewrite Hsig.
      assert (rule_open (mkFlowRule (m :: rest) 0 (num s)) = true) as ->.
      { unfold rule_open. cbn [rule_flags]. by rewrite has_zero. }
      done.
Qed.

Lemma concat_owed_nil (alproto : AppProto) (st2 : AppState) (flags : Z)
    (xs : list DeStateStoreFlowRule) :
  Forall (λ r, owed_alert alproto st2 flags r = []) xs →
  concat (owed_alert alproto st2 flags <$> xs) = [].
Proof.
  induction 1 as [|x xs Hx _ IH]; [done|].
  cbn [fmap list_fmap concat]. fold (fmap (M:=list) (owed_alert alproto st2 flags) xs).
  by rewrite Hx, IH.
Qed.

Lemma start_all_flow_pair (alproto : AppProto) (flags v1 v2 : Z) (st1 st2 : AppState)
    (sts : list AppState) (f0 : Flow) :
  st1 ∈ sts → st2 ∈ sts →
  (AppLayerParserProtocolSupportsTxs (proto f0) alproto = true →
   StateIsValid alproto (Some st1) = true ∧ StateIsValid alproto (Some st2) = true) →
  ∀ (l : list Signature) (rsa rsb : RunState) (ka kb : Z),
    (∀ s, s ∈ l →
       (AppLayerParserProtocolSupportsTxs (proto f0) alproto = true →
        flow_scoped f0 alproto flags s)
       ∧ (AppLayerParserProtocolSupportsTxs (proto f0) alproto = false →
          sm_lists s DETECT_SM_LIST_DMATCH ≠ [] → is_dce alproto = true →
          dce_verdict alproto s st1 flags = dce_verdict alproto s st2 flags)
       ∧ (amatch_decided alproto flags s st1 st2
          ∨ (sig_array !! num s = Some s ∧ amatch_resumable alproto flags s sts st2))) →
    flow_only f0 st1 (dir_index flags) ka rsa →
    flow_only f0 st2 (dir_index flags) kb rsb →
    ka + Z.of_nat (length l) < 2 ^ SigIntId_bits →
    kb + Z.of_nat (length l) < 2 ^ SigIntId_bits →
    ∃ rsa' rsb' ka' recs newA newB,
      start_all l flags alproto v1 rsa = Some rsa'
      ∧ start_all l flags alproto v2 rsb = Some rsb'
      ∧ flow_only f0 st1 (dir_index flags) ka' rsa'
      ∧ flow_items (flow_dir (rs_flow rsa') (dir_index flags))
        = flow_items (flow_dir (rs_flow rsa) (dir_index flags)) ++ recs
      ∧ Forall (rule_resumable alproto flags sts st2) recs
      ∧ alerts (rs_trace rsa') = alerts (rs_trace rsa) ++ newA
      ∧ alerts (rs_trace rsb') = alerts (rs_trace rsb) ++ newB
      ∧ newA ++ concat (owed_alert alproto st2 flags <$> recs) ≡ₚ newB.
Proof.
  intros Hst1 Hst2 Hvalid.
  induction l as [|s l IH]; intros rsa rsb ka kb Hsigs Hfa Hfb Hka Hkb.
  { exists rsa, rsb, ka, [], [], []. rewrite !app_nil_r. by split_and!. }
  destruct (Hsigs s ltac:(by left)) as (Hfs & Hdce & Hcase).
  cbn [length] in Hka, Hkb.
  destruct (start_driver_flow_run s flags alproto v1 f0 st1 ka rsa Hfa ltac:(lia))
    as (ra & rsa1 & Hruna & Hresa).
  { intros Hs. split; [apply (Hvalid Hs)|by apply Hfs]. }
  destruct (start_driver_flow_run s flags alproto v2 f0 st2 kb rsb Hfb ltac:(lia))
    as (rb & rsb1 & Hrunb & Hresb).
  { intros Hs. split; [apply (Hvalid Hs)|by apply Hfs]. }
  pose proof (start_pair_owed alproto flags s st1 st2 sts Hst1 Hst2 Hcase) as Hpair.
  cbv zeta in Hresa, Hresb, Hpair.
  set (w1 := start_amatch_loop (sm_lists s DETECT_SM_LIST_AMATCH) s st1 flags alproto 0 0)
    in *.
  set (w2 := start_amatch_loop (sm_lists s DETECT_SM_LIST_AMATCH) s st2 flags alproto 0 0)
    in *.
  set (recs1 := if is_nil (sm_lists s DETECT_SM_LIST_AMATCH) then []
                else [mkFlowRule w1.1.1
                        (if is_nil w1.1.1 || has w1.2 DE_STATE_FLAG_SIG_CANT_MATCH
                         then Z.lor w1.2 DE_STATE_FLAG_FULL_INSPECT else w1.2) (num s)])
    in *.
  set (recs2 := if is_nil (sm_lists s DETECT_SM_LIST_AMATCH) then []
                else [mkFlowRule w2.1.1
                        (if is_nil w2.1.1 || has w2.2 DE_STATE_FLAG_SIG_CANT_MATCH
                         then Z.lor w2.2 DE_STATE_FLAG_FULL_INSPECT else w2.2) (num s)])
    in *.
  set (a1 := if negb (is_nil (sm_lists s DETECT_SM_LIST_AMATCH))
                && (is_nil w1.1.1 || has w1.2 DE_STATE_FLAG_SIG_CANT_MATCH)
                && (w1.1.2 =? 1) && negb (has (sig_flags s) SIG_FLAG_NOALERT)
             then [(num s, 0)] else []) in *.
  set (a2 := if negb (is_nil (sm_lists s DETECT_SM_LIST_AMATCH))
                && (is_nil w2.1.1 || has w2.2 DE_STATE_FLAG_SIG_CANT_MATCH)
                && (w2.1.2 =? 1) && negb (has (sig_flags s) SIG_FLAG_NOALERT)
             then [(num s, 0)] else []) in *.
  destruct Hresa as (Hfa1 & Hita & Hala). destruct Hresb as (Hfb1 & Hitb & Halb).
  destruct Hpair as (Hrecs1 & Hacc1).
  assert (length recs1 ≤ 1)%nat as Hl1 by (unfold recs1; destruct (is_nil _); simpl; lia).
  assert (length recs2 ≤ 1)%nat as Hl2 by (unfold recs2; destruct (is_nil _); simpl; lia).
  assert (negb (AppLayerParserProtocolSupportsTxs (proto f0) alproto)
          && negb (is_nil (sm_lists s DETECT_SM_LIST_DMATCH)) && is_dce alproto
          && dce_verdict alproto s st1 flags
          = negb (AppLayerParserProtocolSupportsTxs (proto f0) alproto)
            && negb (is_nil (sm_lists s DETECT_SM_LIST_DMATCH)) && is_dce alproto
            && dce_verdict alproto s st2 flags) as Hd.
  { destruct (AppLayerParserProtocolSupportsTxs (proto f0) alproto); [done|].
    destruct (sm_lists s DETECT_SM_LIST_DMATCH) as [|d ds] eqn:Hdm; [done|].
    destruct (is_dce alproto); [|done]. cbn [negb is_nil andb].
    by apply Hdce. }
  rewrite Hd in Hala.
  set (dA := if _ && negb (has (sig_flags s) SIG_FLAG_NOALERT) then [(num s, 0)] else [])
    in Hala, Halb.
  destruct (IH rsa1 rsb1 (ka + Z.of_nat (length recs1)) (kb + Z.of_nat (length recs2)))
    as (rsa' & rsb' & ka' & recs & newA & newB & Hra & Hrb & Hfa' & Hit' & Hrecs & HalA
        & HalB & Hacc); [|done|done|lia|lia|].
  { intros s' Hs'. apply Hsigs. by right. }
  exists rsa', rsb', ka', (recs1 ++ recs), ((dA ++ a1) ++ newA), ((dA ++ a2) ++ newB).
  cbn [start_all]. rewrite Hruna, Hrunb. cbn [mbind option_bind].
  split; [done|]. split; [done|]. split; [done|].
  split; [by rewrite Hit', Hita, <- app_assoc|].
  split; [by apply Forall_app|].
  split; [by rewrite HalA, Hala, <- !app_assoc|].
  split; [by rewrite HalB, Halb, <- !app_assoc|].
  rewrite fmap_app, concat_app, <- Hacc1, <- Hacc.
  rewrite <- !app_assoc. do 2 f_equiv. rewrite !app_assoc. f_equiv.
  apply Permutation_app_comm.
Qed.

(** Flow-scoped signatures on a flow with no detect state: the start
    driver on the prefix followed by the continue driver on the packets
    that deliver the rest raises the alerts of the start driver on the
    whole input. *)
Lemma resume_flow_scoped (sigs : list Signature) (flags : Z) (alproto : AppProto)
    (v1 v2 : Z) (st1 st2 : AppState) (more : list (AppState * Z)) (rs0 : RunState) :
  let f0 := rs_flow rs0 in
  let supports := AppLayerParserProtocolSupportsTxs (proto f0) alproto in
  let sts := st1 :: more.*1 ++ [st2] in
  tx_de_state f0 = ∅ →
  de_state f0 = None →
  false ∉ rs_oracle rs0 →
  Z.of_nat (length sigs) < 2 ^ SigIntId_bits →
  (supports = true →
   StateIsValid alproto (Some st1) = true ∧ StateIsValid alproto (Some st2) = true) →
  (∀ s, s ∈ sigs →
     (supports = true → flow_scoped f0 alproto flags s)
     ∧ (supports = false → sm_lists s DETECT_SM_LIST_DMATCH ≠ [] → is_dce alproto = true →
        dce_verdict alproto s st1 flags = dce_verdict alproto s st2 flags)
     ∧ (amatch_decided alproto flags s st1 st2
        ∨ (sig_array !! num s = Some s ∧ amatch_resumable alproto flags s sts st2))) →
  ∃ rs1 rsA rsB,
    start_all sigs flags alproto v1 (deliver st1 rs0) = Some rs1
    ∧ continue_all (more ++ [(st2, v2)]) flags alproto rs1 = Some rsA
    ∧ start_all sigs flags alproto v2 (deliver st2 rs0) = Some rsB
    ∧ alerts (rs_trace rsA) ≡ₚ alerts (rs_trace rsB).
Proof.
  intros f0 supports sts Htx0 Hde0 Ho0 Hlen Hvalid Hsigs.
  assert (st1 ∈ sts) as Hst1 by (by left).
  assert (st2 ∈ sts) as Hst2.
  { right. apply elem_of_app. right. by left. }
  assert (∀ st, flow_only f0 st (dir_index flags) 0 (deliver st rs0)) as Hfo0.
  { intros st. unfold flow_only, flow_dir, deliver. cbn [rs_flow rs_oracle de_state
      proto protomap alstate tx_de_state]. fold f0. rewrite Hde0.
    split_and!; try done. apply wf_store_zero. }
  assert (flow_items (flow_dir (rs_flow (deliver st1 rs0)) (dir_index flags)) = []) as Hit0.
  { unfold flow_dir, deliver. cbn [rs_flow de_state]. fold f0. by rewrite Hde0. }
  destruct (start_all_flow_pair alproto flags v1 v2 st1 st2 sts f0 Hst1 Hst2 Hvalid
              sigs (deliver st1 rs0) (deliver st2 rs0) 0 0 Hsigs (Hfo0 st1) (Hfo0 st2)
              ltac:(lia) ltac:(lia))
    as (rs1 & rsB & k1 & recs & newA & newB & Hrun1 & HrunB & Hfo1 & Hit1 & Hrecs & HalA
        & HalB & Hacc).
  rewrite Hit0, app_nil_l in Hit1.
  destruct (continue_all_resume alproto flags sts st2 f0 k1 more) with (st := st1) (rs := rs1)
    as (stm & rsm & newm & Hrunm & Hfom & Htrm & Hrecsm & Haccm); [|done|by rewrite Hit1|].
  { intros p Hp. right. apply elem_of_app. left. by apply list_elem_of_fmap_2. }
  destruct (continue_driver_resume alproto flags v2 sts st2 st2 f0 k1 (deliver st2 rsm))
    as (rsA & newf & Hrunf & Hfof & Htrf & Hrecsf & Haccf & Hfin);
    [by apply (flow_only_deliver f0 stm)|done|done|].
  specialize (Hfin ltac:(intros Hs; apply (Hvalid Hs)) eq_refl).
  rewrite (concat_owed_nil _ _ _ _ Hfin), app_nil_r in Haccf.
  exists rs1, rsA, rsB. split; [done|].
  split.
  { rewrite continue_all_app, Hrunm. cbn [mbind option_bind continue_all].
    rewrite Hrunf. done. }
  split; [done|].
  rewrite Htrf. cbn [deliver rs_trace]. rewrite Htrm, !alerts_app, HalA, HalB.
  cbn [deliver rs_trace]. rewrite <- !app_assoc. f_equiv.
  rewrite <- Hacc. f_equiv. rewrite Hit1 in Haccm. rewrite <- Haccm. f_equiv.
  exact Haccf.
Qed.

End ResumeFlowProofs.

(** ** Start on a prefix, continue on the rest: both kinds of signatures *)

Section ResumeBoth.
Context `{EngineHeader} `{External}.

(** C2, as far as it holds.  A flow with no detect state yet, and a
    split of the input into a prefix with app-layer state [st1] and the
    whole with app-layer state [st2]; the rest comes in the packets
    [more] and a last one that brings the state to [st2].  In two cases
    the start driver on the prefix followed by the continue driver on
    those packets, and the start driver on the whole input alone, both
    complete and raise the same alerts (same sid, same transaction id).

    Transactional signatures (no AMATCH list) on a protocol with
    transactions, [st1] and [st2] valid with the same live transactions:
    if on the prefix the engines have decided every signature on every
    live transaction from the inspect id on, and their answers other than
    NO_MATCH are final (the same on [st2]), the alerts are the same, in
    the same order.

    Flow-scoped signatures (on a protocol with transactions: signatures
    with no list for an inspection engine of the direction, and [st1] and
    [st2] valid), with an allocator that does not refuse and the same
    verdict of the DCE/RPC payload check on [st1] and [st2] where that
    check is made: if for every signature either the walk over the AMATCH
    list is decided on the prefix and the answers other than 0 are final,
    or the signature is in [sig_array] and on every state of the run each
    keyword answers 0 or 1, an answer 1 being final, then the alerts are
    the same up to their order.  In the second alternative the start
    driver stores the keyword the walk stopped at and the continue driver
    resumes the walk there, packet after packet. *)
Theorem C2_resume_split_input :
  (∀ (sigs : list Signature) (flags : Z) (alproto : AppProto) (v1 v2 : Z)
     (st1 st2 : AppState) (more : list (AppState * Z)) (rs0 : RunState),
     let f0 := rs_flow rs0 in
     let engines := app_inspection_engine (protomap f0) alproto (dir_index flags) in
     let live tx := alparser_inspect_id f0 flags ≤ tx < al_tx_cnt st1 in
     AppLayerParserProtocolSupportsTxs (proto f0) alproto = true →
     tx_de_state f0 = ∅ →
     de_state f0 = None →
     StateIsValid alproto (Some st1) = true →
     StateIsValid alproto (Some st2) = true →
     al_tx_cnt st1 = al_tx_cnt st2 →
     (∀ tx, live tx → is_Some (al_txs st1 !! tx) ↔ is_Some (al_txs st2 !! tx)) →
     (∀ tx t, live tx → al_txs st1 !! tx = Some t ∨ al_txs st2 !! tx = Some t →
        tx_set_state_err t = false) →
     Z.of_nat (length sigs) < 2 ^ SigIntId_bits →
     (∀ s, s ∈ sigs →
        sm_lists s DETECT_SM_LIST_AMATCH = [] ∧ is_Some (sig_array !! num s)) →
     (∀ s e tx, s ∈ sigs → e ∈ engines → live tx →
        Callback e s st1 flags tx ≠ DETECT_ENGINE_INSPECT_SIG_NO_MATCH →
        Callback e s st2 flags tx = Callback e s st1 flags tx) →
     (∀ s tx, s ∈ sigs → live tx → is_Some (al_txs st1 !! tx) →
        decided_on engines s st1 flags tx) →
     ∃ rs1 rsA rsB,
       start_all sigs flags alproto v1 (deliver st1 rs0) = Some rs1
       ∧ continue_all (more ++ [(st2, v2)]) flags alproto rs1 = Some rsA
       ∧ start_all sigs flags alproto v2 (deliver st2 rs0) = Some rsB
       ∧ alerts (rs_trace rsA) = alerts (rs_trace rsB))
  ∧ (∀ (sigs : list Signature) (flags : Z) (alproto : AppProto) (v1 v2 : Z)
       (st1 st2 : AppState) (more : list (AppState * Z)) (rs0 : RunState),
       let f0 := rs_flow rs0 in
       let supports := AppLayerParserProtocolSupportsTxs (proto f0) alproto in
       let sts := st1 :: more.*1 ++ [st2] in
       tx_de_state f0 = ∅ →
       de_state f0 = None →
       false ∉ rs_oracle rs0 →
       Z.of_nat (length sigs) < 2 ^ SigIntId_bits →
       (supports = true →
        StateIsValid alproto (Some st1) = true ∧ StateIsValid alproto (Some st2) = true) →
       (∀ s, s ∈ sigs →
          (supports = true → flow_scoped f0 alproto flags s)
          ∧ (supports = false → sm_lists s DETECT_SM_LIST_DMATCH ≠ [] →
             is_dce alproto = true →
             dce_verdict alproto s st1 flags = dce_verdict alproto s st2 flags)
          ∧ (amatch_decided alproto flags s st1 st2
             ∨ (sig_array !! num s = Some s
                ∧ amatch_resumable alproto flags s sts st2))) →
       ∃ rs1 rsA rsB,
         start_all sigs flags alproto v1 (deliver st1 rs0) = Some rs1
         ∧ continue_all (more ++ [(st2, v2)]) flags alproto rs1 = Some rsA
         ∧ start_all sigs flags alproto v2 (deliver st2 rs0) = Some rsB
         ∧ alerts (rs_trace rsA) ≡ₚ alerts (rs_trace rsB)).
Proof.
  split.
  - exact resume_decided.
  - exact resume_flow_scoped.
Qed.

End ResumeBoth.

(** The theorem on two splits of an HTTP flow.  The request is split
    after its headers and the rest comes in two packets: the method rule
    and the method-and-cookie rule are decided on the prefix.  And the
    flow holds one transaction on the prefix and a second one at the end:
    the flow-scoped rule does not match on the prefix, its record is
    stored with the keyword left to match, and the continue driver
    resumes it on each later packet and alerts on the last. *)
Lemma C2_resume_split_input_witness :
  (∃ rs1 rsA rsB,
     start_all [sig_method; sig_method_cookie] 4 ALPROTO_HTTP 1
       (deliver (st_one 2) (run0 (flow_http (st_one 2)) [])) = Some rs1
     ∧ continue_all ([(st_one 2, 2)] ++ [(st_one 3, 3)]) 4 ALPROTO_HTTP rs1 = Some rsA
     ∧ start_all [sig_method; sig_method_cookie] 4 ALPROTO_HTTP 3
         (deliver (st_one 3) (run0 (flow_http (st_one 2)) [])) = Some rsB
     ∧ alerts (rs_trace rsA) = alerts (rs_trace rsB))
  ∧ (∃ rs1 rsA rsB,
       start_all [sig_flow] 4 ALPROTO_HTTP 1
         (deliver (st_one 1) (run0 (flow_http (st_one 1)) [])) = Some rs1
       ∧ continue_all ([(st_one 2, 2)] ++ [(st_two 3 0, 3)]) 4 ALPROTO_HTTP rs1 = Some rsA
       ∧ start_all [sig_flow] 4 ALPROTO_HTTP 3
           (deliver (st_two 3 0) (run0 (flow_http (st_one 1)) [])) = Some rsB
       ∧ alerts (rs_trace rsA) ≡ₚ alerts (rs_trace rsB)).
Proof.
  split.
  - assert (∀ tx, 0 ≤ tx < 1 → tx = 0) as Hzero by (intros; lia).
    apply (proj1 C2_resume_split_input [sig_method; sig_method_cookie] 4 ALPROTO_HTTP 1 3
             (st_one 2) (st_one 3) [(st_one 2, 2)] (run0 (flow_http (st_one 2)) []));
      try reflexivity.
    + intros tx ->%Hzero. vm_compute. split; intros _; by eexists.
    + intros tx t ->%Hzero [Ht|Ht]; vm_compute in Ht; by injection Ht as <-.
    + intros s Hs. apply elem_of_cons in Hs as [->|Hs];
        [|apply list_elem_of_singleton in Hs as ->];
        (split; [reflexivity|by eexists]).
    + intros s e tx Hs He ->%Hzero _.
      apply elem_of_cons in Hs as [->|Hs];
        [|apply list_elem_of_singleton in Hs as ->];
        (apply elem_of_cons in He as [->|He];
         [|apply list_elem_of_singleton in He as ->]); reflexivity.
    + intros s tx Hs ->%Hzero _.
      apply elem_of_cons in Hs as [->|Hs];
        [|apply list_elem_of_singleton in Hs as ->]; vm_compute; done.
  - apply (proj2 C2_resume_split_input [sig_flow] 4 ALPROTO_HTTP 1 3
             (st_one 1) (st_two 3 0) [(st_one 2, 2)] (run0 (flow_http (st_one 1)) []));
      try reflexivity.
    + apply not_elem_of_nil.
    + intros _. split; reflexivity.
    + intros s ->%list_elem_of_singleton. split.
      { intros _ e He. apply elem_of_cons in He as [->|He];
          [|apply list_elem_of_singleton in He as ->]; reflexivity. }
      split; [intros Hs; vm_compute in Hs; discriminate|].
      right. split; [reflexivity|].
      intros m st r ->%list_elem_of_singleton Hst Hr.
      apply elem_of_cons in Hst as [->|Hst];
        [|apply elem_of_cons in Hst as [->|Hst];
          [|apply list_elem_of_singleton in Hst as ->]];
        vm_compute in Hr; injection Hr as <-;
        (split; [first [by left|by right]|intros; reflexivity]).
Defined.

(** In the second split the start driver raises no alert on the prefix
    and stores the record with its keyword left; the continue driver
    finds nothing on the second packet and raises the alert on the
    last. *)
Example resume_flow_rule_steps :
  (rs1 ← start_all [sig_flow] 4 ALPROTO_HTTP 1 (run0 (flow_http (st_one 1)) []);
   rs2 ← continue_all [(st_one 2, 2)] 4 ALPROTO_HTTP rs1;
   rs3 ← continue_all [(st_two 3 0, 3)] 4 ALPROTO_HTTP rs2;
   Some (alerts (rs_trace rs1),
         rule_nm <$> flow_items (flow_dir (rs_flow rs1) (dir_index 4)),
         alerts (rs_trace rs2), alerts (rs_trace rs3),
         rule_open <$> flow_items (flow_dir (rs_flow rs3) (dir_index 4))))
  = Some ([], [[mkSigMatch 1]], [], [(2, 0)], [false]).
Proof. vm_compute. reflexivity. Qed.

(** A transactional and a flow-scoped signature together.  The record of
    the method rule in transaction 0 makes the continue driver enter the
    loop over the flow-scoped records with [state_cnt] at 1: the record of
    the flow-scoped rule is not inspected, and the alert that the start
    driver raises for it on the whole input is lost. *)
Example resume_mixed_signatures :
  (rs1 ← start_all [sig_method; sig_flow] 4 ALPROTO_HTTP 1 (run0 (flow_http (st_one 1)) []);
   rsA ← continue_all [(st_two 3 0, 2)] 4 ALPROTO_HTTP rs1;
   rsB ← start_all [sig_method; sig_flow] 4 ALPROTO_HTTP 2
           (run0 (flow_http (st_two 3 0)) []);
   Some (alerts (rs_trace rsA), alerts (rs_trace rsB)))
  = Some ([(0, 0)], [(0, 0); (2, 0)]).
Proof. vm_compute. reflexivity. Qed.

(** A keyword that comes to answer 2.  On the prefix the first keyword of
    sid 3 answers 0 and the record is stored with both keywords left.  On
    the whole input it answers 2: the walk of the start driver stops
    there and raises no alert, the walk of [DoInspectFlowRule] sets
    CANT_MATCH, goes on to the second keyword, which matches, and
    alerts. *)
Example resume_cant_match_keyword :
  (rs1 ← @start_all suricata_header cant_env [sig_two_keywords] 4 ALPROTO_HTTP 1
           (run0 (flow_http (st_one 1)) []);
   rsA ← @continue_all suricata_header cant_env [(st_two 3 0, 2)] 4 ALPROTO_HTTP rs1;
   rsB ← @start_all suricata_header cant_env [sig_two_keywords] 4 ALPROTO_HTTP 2
           (run0 (flow_http (st_two 3 0)) []);
   Some (alerts (rs_trace rsA), alerts (rs_trace rsB)))
  = Some ([(3, 0)], []).
Proof. vm_compute. reflexivity. Qed.
